(* ===== verification/_CoqProject ===== *)
-Q . S2P
Prelude.v
GoStrings.v
GoIO.v
FSM.v
Config.v
Ports.v
Security.v
Smtp.v
Concrete.v
Server.v
ServerProps.v
SmtpProps.v
SmtpTheorems.v
SmtpServer.v
Mysql.v
MysqlProps.v
MysqlTheorems.v
UidAllocation.v
Redis.v
MessageStore.v
StorageProps.v
StorageTheorems.v
Imap.v
ImapProps.v
ImapTheorems.v
ImapServer.v
EndToEnd.v
Json.v
JsonProps.v
Jmap.v
HttpServer.v
JmapTheorems.v
JmapServer.v
Commands.v
CommandsTheorems.v
System.v
