(* ===== verification/Prelude.v ===== *)
(** * gomail-core: a verification development

    gomail-core is a mail server in Go: an SMTP server that receives mail, an IMAP server
    and a JMAP (HTTP) server that let users read it, and a storage layer on MySQL (domains,
    users, mailboxes, message metadata) and Redis (message bodies, rate limits). The
    servers know storage only through the interfaces of internal/ports. This library models
    those parts as Rocq functions translated from the Go sources, and proves what makes
    them correct.

    ** How the code is modelled

    - Go strings and byte slices are lists of bytes ([gostring]). The functions of the
      packages strings, strconv, fmt and unicode/utf8 that the sources use are defined in
      [GoStrings.v] (with UTF-8; the Unicode case tables are the class [UnicodeData]) and
      [Config.v] (Atoi, ParseBool).
    - Code with state is in the monad [M S A] of this file: explicit state passing over a
      record [S], where an index out of range is [Panic] and a loop that uses up its fuel is
      [NoFuel]. [wp] is total correctness. A result [(T, error)] is a [result T].
    - A connection is the list of segments and read errors that it will deliver
      ([GoIO.v]), so theorems over connections cover every input, every way TCP splits it
      and every read error or timeout. [ReadString] models bufio.Reader with its 4096-byte
      buffer.
    - What is not in the repository is a type class with its documented laws, and an
      instance that satisfies them: looplab/fsm ([FSM.v]), crypto/tls and bcrypt
      ([Security.v]), Redis and its client ([Redis.v]), golang-jwt and the chi router
      ([Jmap.v]), the MySQL collation ([Mysql.v]), the clock. The SQL statements are functions on the tables of
      migrations/001_init.sql, whose columns refuse a message row that does not fit them; every
      call to MySQL and Redis can fail, also after the server has applied it; and Redis can
      evict any key at any time, as docker-compose.yml configures it.
    - Concurrency is a machine per process: its state is the state of its goroutines, and its
      events are what the network, the scheduler and the operator decide. The store is shared:
      a step takes it as the other processes left it. A step is an iteration of a session or
      a request's handler; deliveries are also followed statement by statement.
    - Integers keep their Go or SQL range where it matters: 32-bit UIDs (the column
      uid_next refuses to overflow), 64-bit Atoi and INCR.

    ** Files

    - [Prelude.v]: byte strings, the monad and its rules, tactics, decimals.
    - [GoStrings.v], [GoIO.v], [FSM.v]: the Go library as far as the sources use it.
    - [Config.v]: config/config.go ([Load], [getEnv], ...).
    - [Ports.v]: internal/ports; one class per interface, with what a server may assume of
      an implementation ([DeliveryReturns], [ReadersReturn]).
    - [Security.v]: internal/security/tls.go.
    - [Smtp.v]: internal/smtp (envelope.go, session.go, handler.go): record [Session], one
      definition per handler, [iteration] and [Handle] for the read loop. [SmtpProps.v]: the
      session invariant and its preservation by every handler; [SmtpTheorems.v]: the
      theorems.
    - [Mysql.v], [MysqlProps.v], [MysqlTheorems.v]: internal/storage/mysql; the record [DB]
      is the tables. [UidAllocation.v]: the same statements interleaved by concurrent
      deliveries, as a step relation with the row locks of SELECT ... FOR UPDATE.
    - [Redis.v]: internal/storage/redis/store.go.
    - [MessageStore.v], [StorageProps.v], [StorageTheorems.v]:
      internal/storage/message_store.go, over a [World] of the two databases, and its
      instances of the classes of [Ports.v].
    - [Imap.v], [ImapProps.v], [ImapTheorems.v]: internal/imap, in the same way as SMTP.
    - [Server.v], [ServerProps.v]: internal/smtp/server.go and internal/imap/server.go, which
      are one program with different sessions: [Start_listen], [Start_listenTLS], [watch],
      [acceptLoop], [session_step], composed by [server_step]; the invariant, and progress
      under fair scheduling. [SmtpServer.v] and [ImapServer.v] instantiate them.
    - [EndToEnd.v]: the SMTP and IMAP sessions on the message store.
    - [Json.v], [JsonProps.v]: encoding/json as far as it is used: the scanner and the
      encoder on text, and their round trip.
    - [Jmap.v], [JmapTheorems.v]: internal/jmap, from the bytes of a request's body to those
      of the response, with contexts, middleware and routes. [HttpServer.v]: its [Start], the
      connections and the shutdown. [JmapServer.v]: every request is answered, and what holds
      of the server's life.
    - [Commands.v], [CommandsTheorems.v]: cmd/*/main.go, internal/telemetry, and New and Close
      of the two stores, as programs over their effects with deferred calls.
    - [System.v]: the three servers on one store.
    - [Concrete.v]: instances of all the classes, small enough to run, on which the
      witnesses evaluate.

    ** What is proved

    - The system: three servers with any number of clients, scheduled in any way, on one store
      that can fail: no session crashes its process, no HTTP handler panics, the store keeps
      its invariant, every logged-in session belongs to the account that its client named in a
      LOGIN command with a password which the account's hash accepts, and that gets the mail
      for that address ([system_safe]).
    - The servers: an SMTP server hands only valid messages to delivery and writes one line per
      reply ([smtp_server_safe]); the server stops after the signal whatever its sessions do,
      if only its own goroutines are scheduled ([smtp_server_live], [imap_server_live]); no HTTP request makes a handler panic and
      each is answered with a status of its route ([jmap_serves_every_request],
      [jmap_server_safe]); how each command ends and what it has released by then
      ([commands_outcome], [smtp_process_end]), and that the passwords do not reach its log
      except as maskDSN shows them ([commands_log_hides_secrets]).
    - Every SMTP and IMAP session ends without a panic on every finite input
      ([smtp_session_ends], [imap_session_ends]). The fuel of a loop is not a bound chosen
      for it: the theorems give, for each input, a fuel that is enough; it exists because
      each iteration takes input off the connection or upgrades it to TLS, which happens
      once ([upgrade_wf]). [handleDATA] computes its own fuel, one more than the size of the
      input left.
    - SMTP: message data survives dot-stuffing ([smtp_data_roundtrip]), oversize data is refused, no input
      can forge a second reply line, the machine implements its transition table, and
      STARTTLS, possible exactly when it should be, forgets all that was sent in clear
      ([smtp_starttls_upgrade]).
    - Storage: UIDs of a mailbox are unique and increasing in every interleaving of
      deliveries with any failures ([concurrent_uids_unique], [mysql_AllocateUID_paths]);
      delivery changes the tables exactly as its contract says, rows that the columns refuse
      included ([store_deliver_refines]), gives each recipient at most one row and keeps the
      tables consistent whatever fails ([store_deliver_safe]); the answer for a message's body
      is never another body, and it is this body for 24 hours unless Redis has evicted it
      ([store_body_roundtrip]).
    - IMAP: a session is authenticated only by a password that its client gave to LOGIN and
      that the hash accepts, it never changes the tables, and FETCH and SEARCH answer from the
      selected mailbox of its user ([imap_reachable_invariant], [imap_session_isolation]); FETCH literals decode to the stored bodies
      ([imap_fetch_bodies], [imap_replies_framed]).
    - JMAP: the API is closed without a signed, unexpired token ([jmap_requires_token]), a
      token from /auth opens it for its user for 24 hours ([jmap_auth_then_api]), every call
      is answered in order, and the answers are the user's ([jmap_api_isolation]); the text of
      a request decodes to the request it was written from ([jmap_request_roundtrip]).
    - Some theorems state behaviour that the code's comments or the protocols do not
      intend: recipients that carry over to the next message, RSET refused after the
      greeting, data read by a second buffered reader, a masked DSN that shows part of the
      password, a failed SELECT that keeps the old mailbox, a TLS port that cannot be opened
      and leaves the plain one open unserved, and an HTTP server that exits with requests in
      flight.

    ** What is not modelled

    The text that the libraries of encoding/json, jwt and the drivers put into their errors is
    a parameter or left out; log entries of the sessions and of the configuration; Ping of the MySQL store, which
    nothing calls. Errors of writes to a connection are ignored by the code and have no state
    here. A step of a server is not cut at the calls of the store, except for deliveries
    ([UidAllocation.v]): two IMAP commands, or a command and a delivery, do not interleave
    their statements. A process that exits cuts its sessions off; what a cut session had
    sent to the store is not followed. *)

From stdpp Require Export base list strings pretty gmap sorting.
From Stdlib Require Export Ascii.
From Stdlib Require Export ZArith Lia.
From Stdlib Require Import Relation_Operators Lexicographic_Product.

(** ** Byte strings

    A Go [string] or [[]byte] is a sequence of bytes; [ascii] is the 8-bit byte of the
    Standard Library, so both are lists of it. [str] writes a literal. *)

Abbreviation gostring := (list ascii).

Definition str (s : string) : gostring := String.list_ascii_of_string s.
Arguments str _%_string : simpl never.

#[global] Instance str_inj : Inj (=) (=) str.
Proof.
  intros s t H. unfold str in H.
  rewrite <- (String.string_of_list_ascii_of_string s), H.
  apply String.string_of_list_ascii_of_string.
Qed.

Definition byteN (c : ascii) : N := N_of_ascii c.

Lemma byteN_lt c : (byteN c < 256)%N.
Proof. apply N_ascii_bounded. Qed.

Lemma byteN_inj c d : byteN c = byteN d → c = d.
Proof.
  intros H. rewrite <- (ascii_N_embedding c), <- (ascii_N_embedding d).
  unfold byteN in H. by rewrite H.
Qed.

Definition CR : ascii := "013"%char.
Definition LF : ascii := "010"%char.
Definition SP : ascii := " "%char.
Definition DQ : ascii := "034"%char.
Definition CRLF : gostring := [CR; LF].

(** The [%d] verb of package fmt. *)
Definition fmt_d {A} `{Pretty A} (x : A) : gostring := str (pretty x).

Lemma fmt_d_inj {A} `{Pretty A} `{!Inj (=) (=) (pretty : A → string)} (x y : A) :
  fmt_d x = fmt_d y → x = y.
Proof. intros E. by apply (inj pretty), (inj str). Qed.

(** ** Go errors

    A Go function with results [(T, error)] returns a [result T]; the error keeps the text
    its [Error()] method gives. *)

Inductive result (A : Type) : Type :=
| Good (a : A)
| Err (msg : gostring).
Arguments Good {A} _.
Arguments Err {A} _.

(** The prefix a [fmt.Errorf("...: %w", err)] puts before the wrapped error's text. *)
Definition wrap (prefix msg : gostring) : gostring := prefix ++ str ": " ++ msg.

Definition rmap {A B} (f : A → B) (r : result A) : result B :=
  match r with Good a => Good (f a) | Err e => Err e end.

(** ** Stateful code that can panic

    [M S A] is code over a state [S]: it returns a value and the new state, panics (an
    index out of range stops the goroutine), or has used up the fuel its loop was given. *)

Inductive outcome (A : Type) : Type :=
| Ok (a : A)
| Panic
| NoFuel.
Arguments Ok {A} _.
Arguments Panic {A}.
Arguments NoFuel {A}.

Definition M (S A : Type) : Type := S → outcome (A * S).

#[global] Instance M_ret S : MRet (M S) := λ A a s, Ok (a, s).
#[global] Instance M_bind S : MBind (M S) := λ A B k m s,
  match m s with
  | Ok (a, s') => k a s'
  | Panic => Panic
  | NoFuel => NoFuel
  end.

Definition get {S} : M S S := λ s, Ok (s, s).
Definition gets {S A} (f : S → A) : M S A := λ s, Ok (f s, s).
Definition modify {S} (f : S → S) : M S unit := λ s, Ok (tt, f s).
Definition panics {S A} : M S A := λ _, Panic.

(** A pure computation that panics when it is [None]. *)
Definition or_panic {S A} (o : option A) : M S A :=
  match o with Some a => mret a | None => panics end.

(** Run code over a part of the state. *)
Definition zoom {S T A} (view : S → T) (set : T → S → S) (m : M T A) : M S A := λ s,
  match m (view s) with
  | Ok (a, t) => Ok (a, set t s)
  | Panic => Panic
  | NoFuel => NoFuel
  end.

(** Total correctness of [m] from [s]: it neither panics nor runs out of fuel, and its
    result and final state satisfy [Q]. *)
Definition wp {S A} (m : M S A) (s : S) (Q : A → S → Prop) : Prop :=
  match m s with Ok (a, s') => Q a s' | _ => False end.

Section wp.
Context {S : Type}.

Lemma wp_ret {A} (a : A) (s : S) (Q : A → S → Prop) : Q a s → wp (mret a) s Q.
Proof. done. Qed.

Lemma wp_bind {A B} (m : M S A) (k : A → M S B) s (Q : B → S → Prop) :
  wp m s (λ a s', wp (k a) s' Q) → wp (m ≫= k) s Q.
Proof. unfold wp, mbind, M_bind. destruct (m s) as [[a s']| |]; done. Qed.

Lemma wp_gets {A} (f : S → A) s (Q : A → S → Prop) : Q (f s) s → wp (gets f) s Q.
Proof. done. Qed.

Lemma wp_get s (Q : S → S → Prop) : Q s s → wp get s Q.
Proof. done. Qed.

Lemma wp_modify (f : S → S) s (Q : unit → S → Prop) : Q tt (f s) → wp (modify f) s Q.
Proof. done. Qed.

Lemma wp_mono {A} (m : M S A) s (Q R : A → S → Prop) :
  wp m s Q → (∀ a s', Q a s' → R a s') → wp m s R.
Proof. unfold wp. destruct (m s) as [[a s']| |]; auto. Qed.

Lemma wp_conj {A} (m : M S A) s (Q R : A → S → Prop) :
  wp m s Q → wp m s R → wp m s (λ a s', Q a s' ∧ R a s').
Proof. unfold wp. destruct (m s) as [[a s']| |]; auto. Qed.

Lemma run_wp {A} (m : M S A) s (Q : A → S → Prop) a s' : wp m s Q → m s = Ok (a, s') → Q a s'.
Proof. unfold wp. intros H E. by rewrite E in H. Qed.

Lemma wp_run {A} (m : M S A) s (Q : A → S → Prop) :
  wp m s Q ↔ ∃ a s', m s = Ok (a, s') ∧ Q a s'.
Proof. unfold wp. destruct (m s) as [[a s']| |]; naive_solver. Qed.
End wp.

(** ** Hint databases and tactics *)

Create HintDb gomail discriminated.

(** Case analysis on the innermost scrutinee of a [match] in the goal. *)
Ltac split_match :=
  match goal with
  | |- context [match ?x with _ => _ end] =>
      lazymatch x with
      | context [match _ with _ => _ end] => fail
      | _ => destruct x eqn:?
      end
  end.

(** Open the boolean tests of the code as the propositions they decide. *)
Ltac reflect_bools :=
  repeat match goal with
  | H : bool_decide _ = true |- _ => apply bool_decide_eq_true_1 in H
  | H : bool_decide _ = false |- _ => apply bool_decide_eq_false_1 in H
  | H : (_ && _)%bool = true |- _ => apply andb_true_iff in H as [? ?]
  | H : (_ || _)%bool = false |- _ => apply orb_false_iff in H as [? ?]
  | H : negb _ = true |- _ => apply negb_true_iff in H
  | H : negb _ = false |- _ => apply negb_false_iff in H
  | H : (_ <=? _) = true |- _ => apply Nat.leb_le in H
  | H : (_ <=? _) = false |- _ => apply Nat.leb_gt in H
  | H : (_ <? _) = true |- _ => apply Nat.ltb_lt in H
  | H : (_ <? _) = false |- _ => apply Nat.ltb_ge in H
  | H : (_ <? _)%Z = true |- _ => apply Z.ltb_lt in H
  | H : (_ <? _)%Z = false |- _ => apply Z.ltb_ge in H
  end.

(** ** Lists *)

(** Decompose a list at the first element that satisfies [p]. *)
Fixpoint span_until {A} (p : A → bool) (l : list A) : list A * list A :=
  match l with
  | [] => ([], [])
  | x :: l' => if p x then ([], l) else let '(a, b) := span_until p l' in (x :: a, b)
  end.

Lemma Forall_last {A} (P : A → Prop) l x : Forall P (l ++ [x]) → Forall P l ∧ P x.
Proof. rewrite Forall_app, Forall_singleton. done. Qed.

Lemma app_first_eq {A} (c : A) x1 y1 x2 y2 :
  c ∉ x1 → c ∉ x2 → x1 ++ c :: y1 = x2 ++ c :: y2 → x1 = x2 ∧ y1 = y2.
Proof.
  revert x2. induction x1 as [|a x1 IH]; intros [|b x2] H1 H2 E; simplify_eq/=.
  - done.
  - set_solver.
  - set_solver.
  - destruct (IH x2) as [-> ->]; set_solver.
Qed.

Lemma filter_In_elem {A} (p : A → bool) (l : list A) a :
  a ∈ List.filter p l ↔ a ∈ l ∧ p a = true.
Proof. by rewrite !list_elem_of_In, filter_In. Qed.

Lemma filter_head_elem {A} (p : A → bool) (l : list A) a :
  head (List.filter p l) = Some a → a ∈ l ∧ p a = true.
Proof.
  intros H. apply filter_In_elem. destruct (List.filter p l) as [|b k]; simplify_eq/=. left.
Qed.

Lemma head_fmap_Some {A B} (f : A → B) (l : list A) b :
  head (f <$> l) = Some b ↔ ∃ a, head l = Some a ∧ b = f a.
Proof. destruct l; naive_solver. Qed.

(** ** Decimal numbers *)

Definition is_digit (c : ascii) : Prop := (48 ≤ byteN c ≤ 57)%N.

Lemma pretty_N_char_digit x : is_digit (pretty_N_char x).
Proof.
  unfold is_digit, pretty_N_char. repeat case_match; vm_compute; split; discriminate.
Qed.

(** A property of strings that prefixing a digit keeps holds of a number's decimals. *)
Lemma pretty_N_go_ind (P : string → Prop) :
  (∀ x s, P s → P (String (pretty_N_char (x `mod` 10)) s)) →
  ∀ x s, P s → P (pretty_N_go x s).
Proof.
  intros HP x. induction (N.lt_wf_0 x) as [x _ IH]; intros s Hs.
  destruct (decide (0 < x)%N) as [Hx|Hx].
  - rewrite pretty_N_go_step by done. apply IH; [by apply N.div_lt|auto].
  - replace x with 0%N by lia. done.
Qed.

Lemma fmt_d_N_digits (n : N) : Forall is_digit (fmt_d n) ∧ fmt_d n ≠ [].
Proof.
  unfold fmt_d, pretty, pretty_N. destruct (decide (n = 0)%N) as [->|Hn].
  - split; [|done]. repeat constructor; vm_compute; discriminate.
  - rewrite pretty_N_go_step by lia.
    apply (pretty_N_go_ind (λ s, Forall is_digit (str s) ∧ str s ≠ [])).
    + intros x s [H _]. split; [|done]. constructor; [apply pretty_N_char_digit|done].
    + split; [|done]. constructor; [apply pretty_N_char_digit|done].
Qed.

Lemma fmt_d_nat (n : nat) : fmt_d n = fmt_d (N.of_nat n).
Proof. done. Qed.

(** A decimal is printable ASCII. *)
Lemma fmt_d_Z_graphic (z : Z) : Forall (λ c, 45 ≤ byteN c ≤ 57)%N (fmt_d z).
Proof.
  assert (∀ n : N, Forall (λ c, 45 ≤ byteN c ≤ 57)%N (fmt_d n)) as HN.
  { intros n. eapply Forall_impl; [apply fmt_d_N_digits|]. unfold is_digit. simpl. lia. }
  destruct z as [|p|p].
  - apply (HN 0%N).
  - apply (HN (Npos p)).
  - constructor; [vm_compute; split; discriminate|apply (HN (Npos p))].
Qed.

Lemma fmt_d_no_LF (z : Z) : LF ∉ fmt_d z.
Proof.
  intros H. pose proof (fmt_d_Z_graphic z) as HF. rewrite Forall_forall in HF.
  specialize (HF _ H). vm_compute in HF. by destruct HF.
Qed.

Lemma fmt_d_N_no_LF (n : N) : LF ∉ fmt_d n.
Proof.
  intros H. destruct (fmt_d_N_digits n) as [HF _]. rewrite Forall_forall in HF.
  specialize (HF _ H). vm_compute in HF. by destruct HF.
Qed.

Lemma fmt_d_nat_no_LF (n : nat) : LF ∉ fmt_d n.
Proof. apply (fmt_d_N_no_LF (N.of_nat n)). Qed.

#[export] Hint Resolve fmt_d_no_LF fmt_d_N_no_LF fmt_d_nat_no_LF : gomail.

(** Membership in a literal is decided by computation. *)
Ltac by_computation := refine (bool_decide_unpack _ _); vm_compute; exact I.

(** A computation that is known to succeed, without its value. *)
Lemma default_Some {A} (d : A) (o : option A) :
  match o with Some _ => true | None => false end = true → o = Some (default d o).
Proof. by destruct o. Qed.

(** Close [LF ∉ ...] for concatenations of literals, decimals and hypotheses. *)
Ltac no_LF :=
  lazymatch goal with
  | |- _ ∉ _ ++ _ => apply not_elem_of_app; split; no_LF
  | |- _ ∉ str _ => by_computation
  | |- _ ∉ fmt_d _ => auto with gomail
  | |- _ => first [done | solve [auto with gomail] | by_computation]
  end.

(** ** Termination of the sessions' loops

    Each step lowers the size of the input, or sets a flag that is never cleared. *)
Lemma upgrade_wf {A} (flag : A → bool) (size : A → nat) :
  well_founded (λ y x, (flag y = flag x ∧ size y < size x) ∨ (flag x = false ∧ flag y = true)).
Proof.
  apply (wf_projected (slexprod _ _ lt lt) (λ x, (if flag x then 0 else 1, size x))).
  - intros y x [[Hf Hs]|[Hx Hy]].
    + rewrite Hf. by apply right_slex.
    + rewrite Hx, Hy. apply left_slex. lia.
  - apply wf_slexprod; apply lt_wf.
Qed.
