(* ===== verification/GoStrings.v ===== *)
(** * The parts of Go's strings, unicode/utf8 and strconv packages the server uses

    Strings are bytes; runes are decoded from them as UTF-8, an invalid byte giving
    U+FFFD of width one. The Unicode case tables are data of the Go release the server is
    built with: they are the class [UnicodeData], and every theorem holds for any tables. *)

From S2P Require Import Prelude.

(** ** Unicode tables *)

(** [upper_rune], [fold_rune] and [print_rune] are [unicode.ToUpper], the relation "same
    orbit of [unicode.SimpleFold]" and [unicode.IsPrint] on runes above U+007F. *)
Class UnicodeData := {
  upper_rune : N → N;
  fold_rune : N → N → bool;
  print_rune : N → bool;
}.

(** ** UTF-8 *)

Definition RuneSelf : N := 128.
Definition RuneError : N := 65533.
Definition MaxRune : N := 1114111.

Definition is_cont (c : ascii) : bool := (128 <=? byteN c)%N && (byteN c <=? 191)%N.
Definition in_range (lo hi : N) (c : ascii) : bool := (lo <=? byteN c)%N && (byteN c <=? hi)%N.
Definition low6 (c : ascii) : N := N.land (byteN c) 63.

(** [utf8.DecodeRuneInString]: the first rune and its width in bytes. *)
Definition decode_rune (s : gostring) : N * nat :=
  match s with
  | [] => (RuneError, 0)
  | b0 :: t =>
      let n0 := byteN b0 in
      if (n0 <? 128)%N then (n0, 1)
      else if in_range 194 223 b0 then
        match t with
        | b1 :: _ =>
            if is_cont b1 then (N.lor (N.shiftl (N.land n0 31) 6) (low6 b1), 2)
            else (RuneError, 1)
        | _ => (RuneError, 1)
        end
      else if in_range 224 239 b0 then
        match t with
        | b1 :: b2 :: _ =>
            let lo := if (n0 =? 224)%N then 160%N else 128%N in
            let hi := if (n0 =? 237)%N then 159%N else 191%N in
            if in_range lo hi b1 && is_cont b2 then
              (N.lor (N.shiftl (N.land n0 15) 12) (N.lor (N.shiftl (low6 b1) 6) (low6 b2)), 3)
            else (RuneError, 1)
        | _ => (RuneError, 1)
        end
      else if in_range 240 244 b0 then
        match t with
        | b1 :: b2 :: b3 :: _ =>
            let lo := if (n0 =? 240)%N then 144%N else 128%N in
            let hi := if (n0 =? 244)%N then 143%N else 191%N in
            if in_range lo hi b1 && is_cont b2 && is_cont b3 then
              (N.lor (N.shiftl (N.land n0 7) 18)
                 (N.lor (N.shiftl (low6 b1) 12) (N.lor (N.shiftl (low6 b2) 6) (low6 b3))), 4)
            else (RuneError, 1)
        | _ => (RuneError, 1)
        end
      else (RuneError, 1)
  end.

(** [range] over a string: its runes with their widths. Each rune takes at least a byte, so
    the length of the string is enough fuel. *)
Fixpoint runes_go (fuel : nat) (s : gostring) : list (N * nat) :=
  match fuel, s with
  | S fuel', _ :: _ => let '(r, w) := decode_rune s in (r, w) :: runes_go fuel' (drop w s)
  | _, _ => []
  end.
Definition runes (s : gostring) : list (N * nat) := runes_go (length s) s.

(** [utf8.AppendRune]: surrogates and values above [MaxRune] are written as U+FFFD. *)
Definition encode_rune (r : N) : gostring :=
  let cont x := ascii_of_N (128 + N.land x 63) in
  let three r := [ascii_of_N (224 + N.shiftr r 12); cont (N.shiftr r 6); cont r] in
  if (r <? 128)%N then [ascii_of_N r]
  else if (r <? 2048)%N then [ascii_of_N (192 + N.shiftr r 6); cont r]
  else if ((55296 <=? r)%N && (r <=? 57343)%N) || (MaxRune <? r)%N then three RuneError
  else if (r <? 65536)%N then three r
  else [ascii_of_N (240 + N.shiftr r 18); cont (N.shiftr r 12); cont (N.shiftr r 6); cont r].

Definition is_ascii (s : gostring) : bool := forallb (λ c, (byteN c <? 128)%N) s.

(** ** Searching and cutting *)

Definition HasPrefix (s prefix : gostring) : bool :=
  (length prefix <=? length s) && bool_decide (take (length prefix) s = prefix).

Definition HasSuffix (s suffix : gostring) : bool :=
  (length suffix <=? length s) && bool_decide (drop (length s - length suffix) s = suffix).

Fixpoint Contains (s sub : gostring) : bool :=
  HasPrefix s sub || match s with [] => false | _ :: s' => Contains s' sub end.

(** The parts of [s] before and after the first byte [c]. *)
Fixpoint cut_at (c : ascii) (s : gostring) : option (gostring * gostring) :=
  match s with
  | [] => None
  | b :: s' =>
      if bool_decide (b = c) then Some ([], s')
      else match cut_at c s' with Some (x, y) => Some (b :: x, y) | None => None end
  end.

(** [strings.Cut] with a separator of one byte. *)
Definition Cut (s : gostring) (c : ascii) : gostring * gostring * bool :=
  match cut_at c s with Some (x, y) => (x, y, true) | None => (s, [], false) end.

(** [strings.SplitN(s, sep, 2)] and [strings.Split(s, sep)] with a separator of one byte. *)
Definition SplitN2 (s : gostring) (c : ascii) : list gostring :=
  match cut_at c s with Some (x, y) => [x; y] | None => [s] end.

Fixpoint Split (s : gostring) (c : ascii) : list gostring :=
  match s with
  | [] => [[]]
  | b :: s' =>
      if bool_decide (b = c) then [] :: Split s' c
      else match Split s' c with [] => [[b]] | w :: ws => (b :: w) :: ws end
  end.

Fixpoint Join (l : list gostring) (sep : gostring) : gostring :=
  match l with
  | [] => []
  | [x] => x
  | x :: l' => x ++ sep ++ Join l' sep
  end.

(** Slicing panics when a bound is out of range. *)
Definition slice_from (s : gostring) (i : nat) : option gostring :=
  if i <=? length s then Some (drop i s) else None.

Definition slice (s : gostring) (i j : nat) : option gostring :=
  if (i <=? j) && (j <=? length s) then Some (take (j - i) (drop i s)) else None.

(** ** Trimming *)

Fixpoint trim_left (p : ascii → bool) (s : gostring) : gostring :=
  match s with
  | [] => []
  | b :: s' => if p b then trim_left p s' else s
  end.
Definition trim_right (p : ascii → bool) (s : gostring) : gostring :=
  reverse (trim_left p (reverse s)).

Definition in_cutset (cutset : gostring) (b : ascii) : bool := bool_decide (b ∈ cutset).

(** [strings.TrimRight] and [strings.Trim] with an ASCII cutset. *)
Definition TrimRight (s cutset : gostring) : gostring := trim_right (in_cutset cutset) s.
Definition Trim (s cutset : gostring) : gostring :=
  trim_right (in_cutset cutset) (trim_left (in_cutset cutset) s).

(** The UTF-8 encodings of the runes [unicode.IsSpace] accepts. No encoding is a proper
    prefix or suffix of another, so trimming runes is trimming these strings. *)
Definition space_runes : list N :=
  [9; 10; 11; 12; 13; 32; 133; 160; 5760; 8192; 8193; 8194; 8195; 8196; 8197; 8198; 8199;
   8200; 8201; 8202; 8232; 8233; 8239; 8287; 12288]%N.
Definition space_encodings : list gostring := map encode_rune space_runes.

Definition strip_one (pats : list gostring) (s : gostring) : option gostring :=
  match list_find (λ p, HasPrefix s p = true) pats with
  | Some (_, p) => Some (drop (length p) s)
  | None => None
  end.

Fixpoint strip_all (fuel : nat) (pats : list gostring) (s : gostring) : gostring :=
  match fuel with
  | O => s
  | S fuel' => match strip_one pats s with Some s' => strip_all fuel' pats s' | None => s end
  end.

Definition trim_space_left (s : gostring) : gostring := strip_all (length s) space_encodings s.
Definition trim_space_right (s : gostring) : gostring :=
  reverse (strip_all (length s) (reverse <$> space_encodings) (reverse s)).
Definition TrimSpace (s : gostring) : gostring := trim_space_right (trim_space_left s).

(** ** Case *)

Definition upper_byte (c : ascii) : ascii :=
  if in_range 97 122 c then ascii_of_N (byteN c - 32) else c.

Section case.
Context `{U : UnicodeData}.

(** [unicode.ToUpper]. *)
Definition ToUpper_rune (r : N) : N :=
  if (r <? 128)%N then byteN (upper_byte (ascii_of_N r)) else upper_rune r.

(** [strings.ToUpper]: bytes when the string is ASCII, runes otherwise. *)
Definition ToUpper (s : gostring) : gostring :=
  if is_ascii s then map upper_byte s
  else concat (map (λ rw, encode_rune (ToUpper_rune (fst rw))) (runes s)).

(** [strings.EqualFold]: the runes agree up to simple case folding. *)
Definition fold_eq (r q : N) : bool :=
  if (r =? q)%N then true
  else
    let lo := N.min r q in
    let hi := N.max r q in
    if (hi <? 128)%N then (65 <=? lo)%N && (lo <=? 90)%N && (hi =? lo + 32)%N
    else fold_rune lo hi.

Fixpoint all_fold_eq (l k : list N) : bool :=
  match l, k with
  | [], [] => true
  | r :: l', q :: k' => fold_eq r q && all_fold_eq l' k'
  | _, _ => false
  end.
Definition EqualFold (s t : gostring) : bool :=
  all_fold_eq (fst <$> runes s) (fst <$> runes t).

(** *** The %q verb: [strconv.Quote] *)

Definition hex_digit (n : N) : ascii :=
  if (n <? 10)%N then ascii_of_N (48 + n) else ascii_of_N (87 + n).
Fixpoint hex (digits : nat) (n : N) : gostring :=
  match digits with
  | O => []
  | S d => hex d (N.shiftr n 4) ++ [hex_digit (N.land n 15)]
  end.

Definition is_print (r : N) : bool :=
  if (r <? 128)%N then (32 <=? r)%N && (r <=? 126)%N else print_rune r.

(** One rune of a quoted string; [w] is the width it was decoded with, [b] the byte. *)
Definition quote_rune (r : N) (w : nat) (b : ascii) : gostring :=
  if (w =? 1) && (r =? RuneError)%N then str "\x" ++ hex 2 (byteN b)
  else if (r =? 34)%N || (r =? 92)%N then [ascii_of_N 92; ascii_of_N r]
  else if is_print r then encode_rune r
  else if (r =? 7)%N then str "\a" else if (r =? 8)%N then str "\b"
  else if (r =? 12)%N then str "\f" else if (r =? 10)%N then str "\n"
  else if (r =? 13)%N then str "\r" else if (r =? 9)%N then str "\t"
  else if (r =? 11)%N then str "\v"
  else if (r <? 32)%N || (r =? 127)%N then str "\x" ++ hex 2 r
  else if (r <? 65536)%N then str "\u" ++ hex 4 r
  else str "\U" ++ hex 8 r.

Fixpoint quote_go (fuel : nat) (s : gostring) : gostring :=
  match fuel, s with
  | S fuel', b :: _ =>
      let '(r, w) := decode_rune s in quote_rune r w b ++ quote_go fuel' (drop w s)
  | _, _ => []
  end.
Definition Quote (s : gostring) : gostring := [DQ] ++ quote_go (length s) s ++ [DQ].
End case.

(** ** Lemmas *)

Lemma HasPrefix_true s p : HasPrefix s p = true ↔ ∃ k, s = p ++ k.
Proof.
  unfold HasPrefix. split.
  - intros H. reflect_bools. exists (drop (length p) s).
    rewrite <- (take_drop (length p) s) at 1. by f_equal.
  - intros [k ->]. rewrite take_app_length, length_app.
    rewrite bool_decide_true by done.
    rewrite andb_true_r. apply Nat.leb_le. lia.
Qed.

Lemma HasPrefix_app p k : HasPrefix (p ++ k) p = true.
Proof. apply HasPrefix_true. eauto. Qed.

Lemma HasSuffix_true s p : HasSuffix s p = true ↔ ∃ k, s = k ++ p.
Proof.
  unfold HasSuffix. split.
  - intros H. reflect_bools. exists (take (length s - length p) s).
    rewrite <- (take_drop (length s - length p) s) at 1. by f_equal.
  - intros [k ->]. rewrite length_app.
    replace (length k + length p - length p) with (length k) by lia.
    rewrite drop_app_length. rewrite bool_decide_true by done.
    rewrite andb_true_r. apply Nat.leb_le. lia.
Qed.

Lemma Contains_true s sub : Contains s sub = true ↔ ∃ a b, s = a ++ sub ++ b.
Proof.
  induction s as [|c s IH]; simpl; rewrite orb_true_iff, HasPrefix_true.
  - split; [intros [[k E]|]; [exists [], k|]; done|].
    intros (a & b & E). destruct a; [|done]. left. by exists b.
  - rewrite IH. split.
    + intros [[k E]|(a & b & ->)]; [by exists [], k|by exists (c :: a), b].
    + intros ([|x a] & b & E); simplify_eq/=; [left; eauto|right; eauto].
Qed.

Lemma cut_at_Some c s x y : cut_at c s = Some (x, y) ↔ s = x ++ c :: y ∧ c ∉ x.
Proof.
  revert x y. induction s as [|b s IH]; intros x y; simpl.
  - split; [done|]. intros [E _]. by destruct x.
  - case_bool_decide as Hb; subst.
    + split; [intros; simplify_eq; set_solver|]. intros [E Hx].
      destruct x; simplify_eq/=; set_solver.
    + destruct (cut_at c s) as [[x' y']|] eqn:E.
      * destruct (proj1 (IH x' y') eq_refl) as [-> Hx']. split.
        -- intros; simplify_eq. set_solver.
        -- intros [E' Hx]. destruct x as [|b' x]; simplify_eq/=.
           destruct (app_first_eq c x' y' x y) as [-> ->]; set_solver.
      * split; [done|]. intros [E' Hx]. destruct x as [|b' x]; simplify_eq/=.
        enough (None = Some (x, y)) by done. apply IH. set_solver.
Qed.

Lemma cut_at_None c s : cut_at c s = None ↔ c ∉ s.
Proof.
  induction s as [|b s IH]; simpl; [set_solver|].
  case_bool_decide; subst; [set_solver|].
  destruct (cut_at c s) as [[]|]; [|set_solver].
  split; [done|]. intros Hn. assert (c ∉ s) as Hs by set_solver.
  by apply IH in Hs.
Qed.

Lemma cut_at_app c x y : c ∉ x → cut_at c (x ++ c :: y) = Some (x, y).
Proof. intros. by apply cut_at_Some. Qed.

(** Splitting an address at its separator, as the packages do it. *)
Lemma SplitN2_parts c addr u d :
  match SplitN2 addr c with
  | [u; d] => if bool_decide (u = []) || bool_decide (d = []) then ([], [], false) else (u, d, true)
  | _ => ([], [], false)
  end = (u, d, true) ↔ addr = u ++ c :: d ∧ c ∉ u ∧ u ≠ [] ∧ d ≠ [].
Proof.
  unfold SplitN2. split.
  - destruct (cut_at _ _) as [[x y]|] eqn:E; [|done]. apply cut_at_Some in E as [-> Hx].
    repeat case_bool_decide; simpl; intros; by simplify_eq.
  - intros (-> & Hu & Hu' & Hd). rewrite cut_at_app by done.
    by rewrite !bool_decide_false by done.
Qed.

Lemma Split_Join s c : Join (Split s c) [c] = s.
Proof.
  induction s as [|b s IH]; simpl; [done|].
  assert (Split s c ≠ []) by (destruct s; simpl; repeat case_match; done).
  case_bool_decide; subst.
  - simpl. rewrite IH. by destruct (Split s c).
  - destruct (Split s c) as [|w [|w' ws]]; simpl in *; congruence.
Qed.

Lemma Split_app c x y : c ∉ x → Split (x ++ c :: y) c = x :: Split y c.
Proof.
  induction x as [|b x IH]; intros Hx; cbn [Split app].
  - by rewrite bool_decide_true.
  - rewrite bool_decide_false by set_solver. by rewrite IH by set_solver.
Qed.

Lemma Split_no_sep s c : Forall (λ w, c ∉ w) (Split s c).
Proof.
  induction s as [|b s IH]; simpl; [repeat constructor; set_solver|].
  case_bool_decide; [constructor; set_solver|].
  destruct (Split s c); [repeat constructor; set_solver|].
  inv IH. constructor; set_solver.
Qed.

Lemma trim_left_spec p s :
  ∃ pre, s = pre ++ trim_left p s ∧ Forall (λ b, p b = true) pre
       ∧ match trim_left p s with [] => True | b :: _ => p b = false end.
Proof.
  induction s as [|b s (pre & E & Hp & Hh)]; simpl; [by exists []|].
  destruct (p b) eqn:Hb.
  - exists (b :: pre). simpl. rewrite <- E. auto.
  - exists []. simpl. auto.
Qed.

Lemma trim_right_spec p s :
  ∃ post, s = trim_right p s ++ post ∧ Forall (λ b, p b = true) post
       ∧ (trim_right p s = [] ∨ ∃ l b, trim_right p s = l ++ [b] ∧ p b = false).
Proof.
  unfold trim_right. destruct (trim_left_spec p (reverse s)) as (pre & E & Hp & Hh).
  exists (reverse pre). split_and!.
  - rewrite <- reverse_app, <- E. by rewrite reverse_involutive.
  - by apply Forall_reverse.
  - destruct (trim_left p (reverse s)) as [|b l]; [by left|].
    right. exists (reverse l), b. by rewrite reverse_cons.
Qed.

Lemma trim_right_id p l b : p b = false → trim_right p (l ++ [b]) = l ++ [b].
Proof.
  intros H. unfold trim_right. rewrite reverse_app. simpl. rewrite H.
  by rewrite reverse_cons, reverse_involutive.
Qed.

Lemma strip_one_length pats s s' : strip_one pats s = Some s' → ∃ p, p ∈ pats ∧ s = p ++ s'.
Proof.
  unfold strip_one. destruct (list_find _ pats) as [[i p]|] eqn:E; [|done].
  intros; simplify_eq. apply list_find_Some in E as (Hl & Hp & _).
  exists p. split; [by eapply list_elem_of_lookup_2|].
  apply HasPrefix_true in Hp as [k ->]. by rewrite drop_app_length.
Qed.

Lemma strip_all_suffix fuel pats s : ∃ pre, s = pre ++ strip_all fuel pats s.
Proof.
  revert s. induction fuel as [|fuel IH]; intros s; simpl; [by exists []|].
  destruct (strip_one pats s) as [s'|] eqn:E; [|by exists []].
  apply strip_one_length in E as (p & _ & ->).
  destruct (IH s') as [pre E']. exists (p ++ pre). rewrite <- app_assoc. by rewrite <- E'.
Qed.

(** Trimming white space removes a prefix and a suffix. *)
Lemma TrimSpace_infix s : ∃ pre post, s = pre ++ TrimSpace s ++ post.
Proof.
  unfold TrimSpace, trim_space_right, trim_space_left.
  destruct (strip_all_suffix (length s) space_encodings s) as [pre E].
  set (t := strip_all (length s) space_encodings s) in *.
  destruct (strip_all_suffix (length t) (reverse <$> space_encodings) (reverse t)) as [p E'].
  exists pre, (reverse p). rewrite E at 1. f_equal.
  rewrite <- reverse_app, <- E'. by rewrite reverse_involutive.
Qed.

Lemma TrimSpace_elem b s : b ∈ TrimSpace s → b ∈ s.
Proof.
  intros H. destruct (TrimSpace_infix s) as (pre & post & E). rewrite E.
  rewrite !elem_of_app. auto.
Qed.

Lemma trim_left_elem p b s : b ∈ trim_left p s → b ∈ s.
Proof.
  intros H. destruct (trim_left_spec p s) as (pre & E & _). rewrite E, elem_of_app. auto.
Qed.

Lemma trim_right_elem p b s : b ∈ trim_right p s → b ∈ s.
Proof.
  intros H. destruct (trim_right_spec p s) as (post & E & _). rewrite E, elem_of_app. auto.
Qed.

(** *** Runes and case *)

Lemma byteN_ascii n : (n < 256)%N → byteN (ascii_of_N n) = n.
Proof. apply N_ascii_embedding. Qed.

Lemma decode_rune_width b s : 1 ≤ snd (decode_rune (b :: s)).
Proof. simpl. repeat case_match; simpl; lia. Qed.

Lemma runes_go_length fuel s : length (runes_go fuel s) ≤ length s.
Proof.
  revert s. induction fuel as [|fuel IH]; intros [|b s]; cbn [runes_go length]; try lia.
  destruct (decode_rune (b :: s)) as [r w] eqn:E.
  pose proof (decode_rune_width b s) as Hw. rewrite E in Hw. simpl in Hw.
  pose proof (IH (drop w (b :: s))) as H. rewrite length_drop in H.
  cbn [length] in *. lia.
Qed.

Lemma land_63 x : (N.land x 63 < 64)%N.
Proof. change 63%N with (N.ones 6). rewrite N.land_ones. by apply N.mod_lt. Qed.

Lemma cont_ge x : (128 ≤ byteN (ascii_of_N (128 + N.land x 63)))%N.
Proof. pose proof (land_63 x). rewrite byteN_ascii; lia. Qed.

Lemma shiftr_lt x k n : (x < 2 ^ (k + n))%N → (N.shiftr x k < 2 ^ n)%N.
Proof.
  intros H. rewrite N.shiftr_div_pow2. apply N.Div0.div_lt_upper_bound.
  by rewrite <- N.pow_add_r.
Qed.

(** A rune above U+007F is written with bytes above 127 only. *)
Lemma encode_rune_high r : (128 ≤ r)%N → Forall (λ b, (128 ≤ byteN b)%N) (encode_rune r).
Proof.
  intros Hr. unfold encode_rune.
  destruct (r <? 128)%N eqn:E1; [apply N.ltb_lt in E1; lia|].
  destruct (r <? 2048)%N eqn:E2.
  { apply N.ltb_lt in E2. pose proof (shiftr_lt r 6 5 E2) as H. change (2 ^ 5)%N with 32%N in H.
    repeat constructor; [rewrite byteN_ascii; lia|apply cont_ge]. }
  destruct (_ || _) eqn:E3.
  { repeat constructor; vm_compute; done. }
  apply orb_false_iff in E3 as [_ E3]. apply N.ltb_ge in E3.
  destruct (r <? 65536)%N eqn:E4.
  { apply N.ltb_lt in E4. pose proof (shiftr_lt r 12 4 E4) as H. change (2 ^ 4)%N with 16%N in H.
    repeat constructor; [rewrite byteN_ascii; lia|apply cont_ge|apply cont_ge]. }
  assert (r < 2 ^ (18 + 3))%N as E5 by (unfold MaxRune in E3; simpl; lia).
  pose proof (shiftr_lt r 18 3 E5) as H. change (2 ^ 3)%N with 8%N in H.
  repeat constructor; [rewrite byteN_ascii; lia|apply cont_ge..].
Qed.

Lemma encode_rune_nonempty r : encode_rune r ≠ [].
Proof. unfold encode_rune. repeat case_match; done. Qed.

Lemma is_ascii_Forall s : is_ascii s = true ↔ Forall (λ b, (byteN b < 128)%N) s.
Proof.
  unfold is_ascii. rewrite forallb_forall, Forall_forall.
  setoid_rewrite N.ltb_lt. by setoid_rewrite list_elem_of_In.
Qed.

Section case_lemmas.
Context `{U : UnicodeData}.

Lemma ToUpper_ascii s : is_ascii s = true → ToUpper s = map upper_byte s.
Proof. unfold ToUpper. by intros ->. Qed.

(** An ASCII prefix of a sequence of encoded runes has at most one byte per rune. *)
Lemma encoded_prefix_length (l : list N) p k :
  Forall (λ b, (byteN b < 128)%N) p → concat (map encode_rune l) = p ++ k → length p ≤ length l.
Proof.
  revert p k. induction l as [|r l IH]; intros [|b p] k Hp E; simpl in *; try lia; [done|].
  apply Forall_cons in Hp as [Hb Hp].
  destruct (decide (r < 128)%N) as [Hr|Hr].
  - apply N.ltb_lt in Hr. unfold encode_rune in E. rewrite Hr in E. simpl in E.
    simplify_eq. apply IH in H0; [lia|done].
  - pose proof (encode_rune_high r ltac:(lia)) as Hh.
    pose proof (encode_rune_nonempty r).
    destruct (encode_rune r) as [|c e]; [done|]. simplify_eq/=.
    apply Forall_cons in Hh as [? _]. lia.
Qed.

(** If the upper-cased string starts with an ASCII prefix, the string has at least as many
    bytes as the prefix: slicing the prefix off the original cannot go out of range. *)
Lemma ToUpper_prefix_length s p :
  is_ascii p = true → HasPrefix (ToUpper s) p = true → length p ≤ length s.
Proof.
  intros Hp [k E]%HasPrefix_true. unfold ToUpper in E. destruct (is_ascii s) eqn:Hs.
  - apply (f_equal length) in E. rewrite length_map, length_app in E. lia.
  - replace (map _ (runes s))
      with (map encode_rune (map (λ rw, ToUpper_rune (fst rw)) (runes s))) in E
      by apply map_map.
    apply encoded_prefix_length in E.
    + rewrite length_map in E. pose proof (runes_go_length (length s) s).
      unfold runes in E. lia.
    + by apply is_ascii_Forall.
Qed.

(** *** Quoting: no control byte survives *)

Lemma hex_digit_graphic n : (n < 16)%N → (48 ≤ byteN (hex_digit n))%N.
Proof.
  intros. unfold hex_digit.
  destruct (n <? 10)%N eqn:E; [apply N.ltb_lt in E|apply N.ltb_ge in E];
    rewrite byteN_ascii; lia.
Qed.

Lemma hex_graphic d n : Forall (λ b, (32 ≤ byteN b)%N) (hex d n).
Proof.
  revert n. induction d as [|d IH]; intros n; simpl; [done|].
  apply Forall_app; split; [done|]. apply Forall_singleton.
  assert (N.land n 15 < 16)%N.
  { change 15%N with (N.ones 4). rewrite N.land_ones. by apply N.mod_lt. }
  pose proof (hex_digit_graphic (N.land n 15)). lia.
Qed.

Lemma quote_rune_graphic r w b : Forall (λ c, (32 ≤ byteN c)%N) (quote_rune r w b).
Proof.
  unfold quote_rune.
  repeat match goal with
  | |- context [if ?c then _ else _] => destruct c eqn:?
  end;
  try (apply Forall_app; split; [|apply hex_graphic]);
  try (repeat constructor; vm_compute; discriminate).
  - repeat constructor; [vm_compute; discriminate|].
    apply orb_true_iff in Heqb1 as [->%N.eqb_eq| ->%N.eqb_eq]; vm_compute; discriminate.
  - unfold is_print in Heqb2. destruct (r <? 128)%N eqn:E.
    + unfold encode_rune. rewrite E. apply andb_true_iff in Heqb2 as [H _].
      apply N.leb_le in H. apply N.ltb_lt in E. constructor; [|done].
      rewrite byteN_ascii; lia.
    + apply N.ltb_ge in E. eapply Forall_impl; [by apply encode_rune_high|]. simpl. lia.
Qed.

Lemma Quote_graphic s : Forall (λ c, (32 ≤ byteN c)%N) (Quote s).
Proof.
  assert (Forall (λ c, (32 ≤ byteN c)%N) [DQ]) as HDQ by (repeat constructor; vm_compute; discriminate).
  unfold Quote. apply Forall_app; split; [done|]. apply Forall_app; split; [|done].
  generalize (length s). intros n. revert s. induction n as [|n IH]; intros [|b s]; cbn [quote_go]; try done.
  destruct (decode_rune (b :: s)) as [r w]. apply Forall_app. split; [apply quote_rune_graphic|apply IH].
Qed.

Lemma Quote_no_LF s : LF ∉ Quote s.
Proof.
  intros H. pose proof (Quote_graphic s) as HF. rewrite Forall_forall in HF.
  specialize (HF _ H). by vm_compute in HF.
Qed.

Lemma upper_byte_ascii b : (byteN b < 128)%N → (byteN (upper_byte b) < 128)%N.
Proof.
  intros H. unfold upper_byte. destruct (in_range 97 122 b); [|done].
  rewrite byteN_ascii; lia.
Qed.

Lemma ToUpper_rune_ascii b :
  (byteN b < 128)%N → encode_rune (ToUpper_rune (byteN b)) = [upper_byte b].
Proof.
  intros H. unfold ToUpper_rune. pose proof (upper_byte_ascii b H) as H'.
  replace (byteN b <? 128)%N with true by (symmetry; by apply N.ltb_lt).
  unfold byteN at 2. rewrite ascii_N_embedding.
  unfold encode_rune. replace (byteN (upper_byte b) <? 128)%N with true by (symmetry; by apply N.ltb_lt).
  unfold byteN. by rewrite ascii_N_embedding.
Qed.

Lemma runes_go_ascii b fuel s :
  (byteN b < 128)%N → runes_go (S fuel) (b :: s) = (byteN b, 1) :: runes_go fuel s.
Proof.
  intros H%N.ltb_lt. cbn [runes_go]. unfold decode_rune. by rewrite H.
Qed.

(** Upper-casing does not look past an ASCII prefix. *)
Lemma ToUpper_ascii_prefix p s :
  is_ascii p = true → ∃ k, ToUpper (p ++ s) = map upper_byte p ++ k.
Proof.
  intros Hp. unfold ToUpper. destruct (is_ascii (p ++ s)); [rewrite map_app; eauto|].
  apply is_ascii_Forall in Hp. unfold runes. rewrite length_app.
  induction p as [|b p IH]; [by eexists|].
  apply Forall_cons in Hp as [Hb Hp]. destruct (IH Hp) as [k Hk].
  cbn [length app]. rewrite Nat.add_succ_l, runes_go_ascii by done.
  cbn [map concat fst]. rewrite ToUpper_rune_ascii by done. rewrite Hk. by exists k.
Qed.
End case_lemmas.

#[export] Hint Resolve Quote_no_LF : gomail.

(** *** Trimming text that does not start or end with white space *)

Lemma strip_one_None pats c s :
  Forall (λ p, match p with [] => False | b :: _ => b ≠ c end) pats → strip_one pats (c :: s) = None.
Proof.
  intros H. unfold strip_one. rewrite (proj2 (list_find_None _ _)); [done|].
  eapply Forall_impl; [exact H|]. intros [|b p]; [done|].
  intros Hb [k E]%HasPrefix_true. by injection E.
Qed.

Lemma strip_all_id fuel pats s : strip_one pats s = None → strip_all fuel pats s = s.
Proof. intros H. destruct fuel; simpl; [done|]. by rewrite H. Qed.

(** A byte that neither starts nor ends the encoding of a white-space rune. *)
Definition edge_ok (c : ascii) : bool :=
  forallb (λ p, match p with [] => false | b :: _ => bool_decide (b ≠ c) end) space_encodings
  && forallb (λ p, match p with [] => false | b :: _ => bool_decide (b ≠ c) end) (reverse <$> space_encodings).

Lemma forallb_heads (pats : list gostring) c :
  forallb (λ p, match p with [] => false | b :: _ => bool_decide (b ≠ c) end) pats = true →
  Forall (λ p, match p with [] => False | b :: _ => b ≠ c end) pats.
Proof.
  intros H. rewrite forallb_forall in H. apply Forall_forall. intros [|b p] Hp%list_elem_of_In.
  - by apply H in Hp.
  - apply H in Hp. by apply bool_decide_eq_true_1 in Hp.
Qed.

Lemma TrimSpace_id c x d :
  edge_ok c = true → edge_ok d = true → TrimSpace (c :: x ++ [d]) = c :: x ++ [d].
Proof.
  intros [Hc _]%andb_true_iff [_ Hd]%andb_true_iff. unfold TrimSpace, trim_space_left.
  rewrite strip_all_id by by apply strip_one_None, forallb_heads.
  unfold trim_space_right.
  assert (reverse (c :: x ++ [d]) = d :: reverse (c :: x)) as E
    by (change (c :: x ++ [d]) with ((c :: x) ++ [d]); rewrite reverse_app; done).
  rewrite E, strip_all_id by by apply strip_one_None, forallb_heads.
  rewrite <- E. apply reverse_involutive.
Qed.

(** *** The lines of the protocols *)

Lemma TrimRight_no_LF x : LF ∉ x → LF ∉ TrimRight (x ++ [LF]) CRLF.
Proof.
  intros Hx. unfold TrimRight.
  destruct (trim_right_spec (in_cutset CRLF) (x ++ [LF])) as (post & E & _ & Hlast).
  set (t := trim_right _ _) in *.
  destruct Hlast as [-> | (l & b & Et & Hb)]; [set_solver|]. rewrite Et in E |- *.
  destruct post as [|p post _] using rev_ind.
  - rewrite app_nil_r in E. apply app_inj_tail in E as [_ <-]. by vm_compute in Hb.
  - rewrite app_assoc in E. apply app_inj_tail in E as [-> _]. set_solver.
Qed.

Lemma Cut_no_LF (line : gostring) c x y f : LF ∉ line → Cut line c = (x, y, f) → LF ∉ x ∧ LF ∉ y.
Proof.
  unfold Cut. destruct (cut_at c line) as [[a b]|] eqn:E; intros; simplify_eq; [|set_solver].
  apply cut_at_Some in E as [-> _]. set_solver.
Qed.
