(* ===== verification/GoIO.v ===== *)
(** * Connections and buffered reads (net.Conn, bufio.Reader)

    A connection delivers its bytes in segments, as the network does, with read errors
    (deadlines) in between; [bufio.Reader] fills a buffer of 4096 bytes from it. The code
    creates several readers on one connection, so what a reader has buffered matters: the
    reader's buffer and the connection are separate here, and [ReadString_spec] states
    what a line read does to both together. *)

From S2P Require Import Prelude GoStrings.

Inductive read_event : Type :=
| Seg (data : gostring)      (** bytes one [Read] can return *)
| ReadErr (msg : gostring).  (** a [Read] that fails, such as a deadline *)

(** The input side of a connection; past the end every read is [io.EOF]. *)
Abbreviation conn_input := (list read_event).

(** [Conn.Read(p)] with [len(p) = n]: data or an error, and the input left. *)
Definition conn_Read (n : nat) (c : conn_input) : result gostring * conn_input :=
  match c with
  | [] => (Err (str "EOF"), [])
  | ReadErr e :: c' => (Err e, c')
  | Seg d :: c' =>
      if length d <=? n then (Good d, c') else (Good (take n d), Seg (drop n d) :: c')
  end.

Definition event_size (e : read_event) : nat :=
  match e with Seg d => S (length d) | ReadErr _ => 1 end.
Definition conn_size (c : conn_input) : nat := sum_list_with event_size c.

Definition bufio_size : nat := 4096.

(** [bufio.Reader.ReadString('\n')]. [buf] is what the reader has buffered, [acc] the full
    buffers collected so far. On an error the partial line is consumed with the error. *)
Fixpoint read_string (fuel : nat) (acc buf : gostring) (c : conn_input)
    : result gostring * gostring * conn_input :=
  match cut_at LF buf with
  | Some (x, y) => (Good (acc ++ x ++ [LF]), y, c)
  | None =>
      match fuel with
      | O => (Err (str "out of fuel"), buf, c)
      | S fuel' =>
          if bufio_size <=? length buf then read_string fuel' (acc ++ buf) [] c
          else match conn_Read (bufio_size - length buf) c with
               | (Good d, c') => read_string fuel' acc (buf ++ d) c'
               | (Err e, c') => (Err e, [], c')
               end
      end
  end.

(** Each read consumes part of the input, and a full buffer is emptied before the next
    read, so twice the input's size is enough fuel. *)
Definition ReadString (buf : gostring) (c : conn_input) : result gostring * gostring * conn_input :=
  read_string (2 * conn_size c + 2) [] buf c.

(** ** The stream a reader stands for *)

(** The bytes that arrive before the next read error or the end of the input, and the
    input after it. *)
Fixpoint upcoming (c : conn_input) : gostring :=
  match c with
  | Seg d :: c' => d ++ upcoming c'
  | _ => []
  end.

Fixpoint after_error (c : conn_input) : conn_input :=
  match c with
  | [] => []
  | ReadErr _ :: c' => c'
  | Seg _ :: c' => after_error c'
  end.

Definition stream (buf : gostring) (c : conn_input) : gostring := buf ++ upcoming c.

Lemma conn_Read_Good n c d c' :
  conn_Read n c = (Good d, c') →
  upcoming c = d ++ upcoming c' ∧ after_error c' = after_error c
  ∧ (0 < n → conn_size c' < conn_size c) ∧ length d + conn_size c' ≤ conn_size c.
Proof.
  unfold conn_size. destruct c as [|[e|e] c]; simpl; [done| |done].
  destruct (length e <=? n) eqn:E; intros; simplify_eq; reflect_bools.
  - split_and!; try done; lia.
  - simpl. rewrite app_assoc, take_drop. split_and!; try done.
    + rewrite length_drop. lia.
    + rewrite length_take, length_drop. lia.
Qed.

Lemma conn_Read_Err n c e c' :
  conn_Read n c = (Err e, c') →
  upcoming c = [] ∧ after_error c = c' ∧ conn_size c' ≤ conn_size c ∧ (c ≠ [] → conn_size c' < conn_size c).
Proof.
  unfold conn_size. destruct c as [|[d|m] c]; simpl.
  - intros; simplify_eq. done.
  - destruct (length d <=? n); done.
  - intros; simplify_eq. split_and!; [done..|lia|lia].
Qed.

Definition read_post (acc buf : gostring) (c : conn_input)
    (r : result gostring * gostring * conn_input) : Prop :=
  match r with
  | (Good line, buf', c') =>
      ∃ x, line = acc ++ x ++ [LF] ∧ LF ∉ x ∧ stream buf c = x ++ LF :: stream buf' c'
         ∧ after_error c' = after_error c ∧ conn_size c' ≤ conn_size c
         ∧ length buf' + conn_size c' < length buf + conn_size c
  | (Err _, buf', c') =>
      LF ∉ stream buf c ∧ buf' = [] ∧ c' = after_error c ∧ conn_size c' ≤ conn_size c
  end.

Lemma read_string_post fuel acc buf c :
  2 * conn_size c + (if bufio_size <=? length buf then 1 else 0) < fuel →
  read_post acc buf c (read_string fuel acc buf c).
Proof.
  revert acc buf c. induction fuel as [|fuel IH]; intros acc buf c Hf; [lia|].
  cbn [read_string]. destruct (cut_at LF buf) as [[x y]|] eqn:Hcut.
  { apply cut_at_Some in Hcut as [-> Hx]. exists x. unfold stream.
    rewrite <- app_assoc, length_app. simpl. split_and!; [done..|lia|lia]. }
  apply cut_at_None in Hcut.
  destruct (bufio_size <=? length buf) eqn:Hfull.
  { specialize (IH (acc ++ buf) [] c ltac:(simpl; lia)).
    destruct (read_string fuel (acc ++ buf) [] c) as [[[line|e] buf'] c']; simpl in *.
    - destruct IH as (x & -> & Hx & Hs & He & Hc & Hl). exists (buf ++ x).
      unfold stream in *. simpl in Hs, Hl. rewrite <- !app_assoc, Hs.
      split_and!; [done|set_solver|done|done|done|lia].
    - destruct IH as (Hs & -> & -> & Hc). unfold stream in *. split_and!; try done. set_solver. }
  destruct (conn_Read _ c) as [[d|e] c'] eqn:Hr.
  - reflect_bools. apply conn_Read_Good in Hr as (Hu & Ha & Hc & Hd).
    specialize (Hc ltac:(lia)).
    specialize (IH acc (buf ++ d) c'). rewrite length_app in IH.
    specialize (IH ltac:(destruct (bufio_size <=? _); lia)).
    destruct (read_string fuel acc (buf ++ d) c') as [[[line|e'] buf'] c'']; simpl in *.
    + destruct IH as (x & -> & Hx & Hs & He & Hc' & Hl). exists x.
      unfold stream in *. rewrite Hu, <- Hs, <- app_assoc.
      rewrite length_app in Hl. split_and!; try done; [congruence|lia|lia].
    + destruct IH as (Hs & -> & -> & Hc'). unfold stream in *. rewrite Hu.
      rewrite <- app_assoc in Hs. split_and!; [done..|congruence|lia].
  - apply conn_Read_Err in Hr as (Hu & Ha & Hc & _). unfold read_post, stream. rewrite Hu, app_nil_r.
    split_and!; done.
Qed.

(** A line read depends on the stream, not on how it was segmented: it returns the bytes up
    to and including the first newline and leaves the rest of the stream, part of it in the
    buffer; it fails exactly when no newline arrives before the next error, and then drops
    the partial line. *)
Lemma ReadString_spec buf c : read_post [] buf c (ReadString buf c).
Proof. apply read_string_post. destruct (bufio_size <=? length buf); lia. Qed.

Lemma ReadString_line buf c x y :
  stream buf c = x ++ LF :: y → LF ∉ x →
  ∃ buf' c', ReadString buf c = (Good (x ++ [LF]), buf', c') ∧ stream buf' c' = y
    ∧ after_error c' = after_error c.
Proof.
  intros Hs Hx. pose proof (ReadString_spec buf c) as H.
  destruct (ReadString buf c) as [[[line|e] buf'] c']; simpl in H.
  - destruct H as (x' & -> & Hx' & Hs' & He & _). rewrite Hs in Hs'.
    apply app_first_eq in Hs' as [-> ->]; [|done..]. eauto.
  - destruct H as [H _]. rewrite Hs in H. set_solver.
Qed.

(** When a line arrives in one segment with the bytes that follow it, the reader takes those
    into its buffer: they are no longer in the connection. *)
Lemma ReadString_buffers x y c :
  LF ∉ x → length (x ++ LF :: y) ≤ bufio_size →
  ReadString [] (Seg (x ++ LF :: y) :: c) = (Good (x ++ [LF]), y, c).
Proof.
  intros Hx Hl. unfold ReadString.
  replace (2 * conn_size (Seg (x ++ LF :: y) :: c) + 2)
    with (S (S (2 * conn_size (Seg (x ++ LF :: y) :: c)))) by lia.
  cbn [read_string cut_at].
  change (bufio_size <=? length []) with false. cbv iota.
  cbn [conn_Read]. change (bufio_size - length []) with bufio_size.
  apply Nat.leb_le in Hl. rewrite Hl. cbn [app].
  rewrite cut_at_app by done. done.
Qed.

(** A line that is in the buffer is read without touching the connection. *)
Lemma ReadString_buffered x y c : LF ∉ x → ReadString (x ++ LF :: y) c = (Good (x ++ [LF]), y, c).
Proof.
  intros Hx. unfold ReadString. rewrite Nat.add_comm. cbn [Nat.add read_string]. by rewrite cut_at_app by done.
Qed.
