(* ===== verification/FSM.v ===== *)
(** * The finite-state machines of github.com/looplab/fsm

    The sessions keep their protocol state in a machine of this library, which is not part
    of the repository: [FSMLib] is its interface, [FSMLaws] the documented behaviour the
    sessions rely on, and [looplab] an implementation that satisfies the laws, so that the
    sessions can be run. An event whose destination is the current state reports a
    [NoTransitionError] ("no transition") and leaves the state as it is. *)

From S2P Require Import Prelude.

(** [fsm.EventDesc]: the event moves every state of [ev_Src] to [ev_Dst]. *)
Record EventDesc := mkEvent { ev_Name : gostring; ev_Src : list gostring; ev_Dst : gostring }.

Inductive fsm_error := InvalidEventError | UnknownEventError | NoTransitionError.

(** The transition function an event list describes; a later entry replaces an earlier one. *)
Definition event_table (es : list EventDesc) (event src : gostring) : option gostring :=
  foldl (λ acc d, if bool_decide (ev_Name d = event) && bool_decide (src ∈ ev_Src d)
                  then Some (ev_Dst d) else acc) None es.

Class FSMLib := {
  FSM : Type;
  NewFSM : gostring → list EventDesc → FSM;
  Current : FSM → gostring;
  Event : FSM → gostring → FSM * option fsm_error;
}.

Class FSMLaws (L : FSMLib) := {
  (** the transitions a machine was built with *)
  transitions : FSM → gostring → gostring → option gostring;
  Current_NewFSM i es : Current (NewFSM i es) = i;
  transitions_NewFSM i es e s : transitions (NewFSM i es) e s = event_table es e s;
  transitions_Event f ev e s : transitions (fst (Event f ev)) e s = transitions f e s;
  Event_moves f ev d :
    transitions f ev (Current f) = Some d → d ≠ Current f →
    snd (Event f ev) = None ∧ Current (fst (Event f ev)) = d;
  Event_self f ev :
    transitions f ev (Current f) = Some (Current f) →
    snd (Event f ev) = Some NoTransitionError ∧ Current (fst (Event f ev)) = Current f;
  Event_refused f ev :
    transitions f ev (Current f) = None →
    is_Some (snd (Event f ev)) ∧ Current (fst (Event f ev)) = Current f;
}.

(** ** A machine that satisfies the laws *)

Module looplab.
Record machine := mkMachine { cur : gostring; events : list EventDesc }.

Definition fire (f : machine) (ev : gostring) : machine * option fsm_error :=
  match event_table (events f) ev (cur f) with
  | Some d =>
      if bool_decide (d = cur f) then (f, Some NoTransitionError)
      else (mkMachine d (events f), None)
  | None =>
      (f, Some (if existsb (λ d, bool_decide (ev_Name d = ev)) (events f)
                then InvalidEventError else UnknownEventError))
  end.
End looplab.

#[export] Instance looplab_lib : FSMLib := {
  FSM := looplab.machine;
  NewFSM := looplab.mkMachine;
  Current := looplab.cur;
  Event := looplab.fire;
}.

#[export] Instance looplab_laws : FSMLaws looplab_lib.
Proof.
  refine (@Build_FSMLaws looplab_lib (λ f, event_table (looplab.events f)) _ _ _ _ _ _);
    simpl; try done; unfold looplab.fire.
  - intros f ev e s. repeat case_match; done.
  - intros f ev d -> Hd. by rewrite bool_decide_false.
  - intros f ev ->. by rewrite bool_decide_true.
  - intros f ev ->. eauto.
Defined.

(** ** A machine whose states are those of an enumeration

    A session's machine has finitely many named states and events: [name] and [ename] give
    their strings, [next] the transition function the event list should describe. *)

Section typed.
Context `{L : FSMLib} `{!FSMLaws L}.
Context {St Ev : Type} `{!EqDecision St}.
Context (name : St → gostring) `{!Inj (=) (=) name} (ename : Ev → gostring).
Context (es : list EventDesc) (next : Ev → St → option St).
Context (table_next : ∀ e s, event_table es (ename e) (name s) = name <$> next e s).

(** The machine [f] is in state [st] of this event list. *)
Definition in_state (f : FSM) (st : St) : Prop :=
  Current f = name st ∧ ∀ e s, transitions f e s = event_table es e s.

(** Firing event [e] in state [st] is accepted and moves to the given state, or is
    refused and moves nowhere. *)
Definition accepts (st : St) (e : Ev) : option St :=
  match next e st with
  | Some d => if decide (d = st) then None else Some d
  | None => None
  end.

Lemma in_state_NewFSM st : in_state (NewFSM (name st) es) st.
Proof. split; [apply Current_NewFSM|apply transitions_NewFSM]. Qed.

Lemma in_state_inj f s t : in_state f s → in_state f t → s = t.
Proof. intros [H _] [H' _]. apply (inj name). congruence. Qed.

Lemma Event_in_state f st e :
  in_state f st →
  match accepts st e with
  | Some d => snd (Event f (ename e)) = None ∧ in_state (fst (Event f (ename e))) d
  | None => is_Some (snd (Event f (ename e))) ∧ in_state (fst (Event f (ename e))) st
  end.
Proof.
  intros [Hc Ht].
  assert (∀ a b, transitions (fst (Event f (ename e))) a b = event_table es a b) as Ht'
    by (intros; rewrite transitions_Event; apply Ht).
  unfold accepts, in_state.
  pose proof (Ht (ename e) (name st)) as Htr. rewrite table_next in Htr.
  rewrite <- Hc in Htr. destruct (next e st) as [d|]; simpl in Htr.
  - destruct (decide (d = st)) as [->|Hne].
    + rewrite <- Hc in Htr. apply Event_self in Htr as [-> ->]. eauto.
    + apply Event_moves in Htr as [-> ->]; [done|].
      rewrite Hc. intros ?%(inj name). done.
  - apply Event_refused in Htr as [? ->]. eauto.
Qed.
End typed.
