(* ===== verification/Config.v ===== *)
(** * Configuration (config/config.go)

    [Load] reads every setting from the environment, falling back to a default when the
    variable is unset, empty or malformed. The environment is the function [os.Getenv]. *)

From S2P Require Import Prelude GoStrings.

(** ** strconv *)

Definition digit_val (c : ascii) : option N :=
  if in_range 48 57 c then Some (byteN c - 48)%N else None.

Fixpoint parse_digits (acc : N) (s : gostring) : option N :=
  match s with
  | [] => Some acc
  | c :: s' => match digit_val c with Some d => parse_digits (10 * acc + d)%N s' | None => None end
  end.

(** [strconv.Atoi]: an optional sign and decimal digits, within the range of a 64-bit int. *)
Definition Atoi (s : gostring) : option Z :=
  let '(neg, digits) :=
    match s with
    | c :: s' => if bool_decide (c = "-"%char) then (true, s')
                 else if bool_decide (c = "+"%char) then (false, s') else (false, s)
    | [] => (false, s)
    end in
  match digits with
  | [] => None
  | _ =>
      match parse_digits 0 digits with
      | Some n =>
          let z := if neg then (- Z.of_N n)%Z else Z.of_N n in
          if ((- 2 ^ 63 <=? z) && (z <? 2 ^ 63))%Z then Some z else None
      | None => None
      end
  end.

Definition ParseBool (s : gostring) : option bool :=
  if bool_decide (s ∈ str <$> ["1"; "t"; "T"; "true"; "TRUE"; "True"]) then Some true
  else if bool_decide (s ∈ str <$> ["0"; "f"; "F"; "false"; "FALSE"; "False"]) then Some false
  else None.

(** ** The configuration record *)

Record MySQLConfig := mkMySQLConfig { DSN : gostring }.
Record RedisConfig := mkRedisConfig { Redis_Addr : gostring; Redis_Password : gostring; Redis_DB : Z }.
Record SMTPConfig := mkSMTPConfig {
  SMTP_Addr : gostring; SMTP_AddrTLS : gostring; Domain_name : gostring; MaxSize : Z }.
Record IMAPConfig := mkIMAPConfig { IMAP_Addr : gostring; IMAP_AddrTLS : gostring }.
Record JMAPConfig := mkJMAPConfig { JMAP_Addr : gostring }.
Record TLSConfig := mkTLSConfig { CertFile : gostring; KeyFile : gostring; Enabled : bool }.
Record TelemetryConfig := mkTelemetryConfig { PPROFAddr : gostring }.

Record Config := mkConfig {
  Env : gostring;
  MySQL : MySQLConfig;
  Redis : RedisConfig;
  SMTP : SMTPConfig;
  IMAP : IMAPConfig;
  JMAP : JMAPConfig;
  TLS : TLSConfig;
  Telemetry : TelemetryConfig;
}.

Section env.
(** [os.Getenv]: the empty string when the variable is not set. *)
Context (Getenv : gostring → gostring).

Definition getEnv (key fallback : gostring) : gostring :=
  if bool_decide (Getenv key ≠ []) then Getenv key else fallback.

(** A malformed value is also reported with log.Printf, which has no effect on the result. *)
Definition getEnvInt (key : gostring) (fallback : Z) : Z :=
  if bool_decide (Getenv key = []) then fallback
  else match Atoi (Getenv key) with Some n => n | None => fallback end.

Definition getEnvBool (key : gostring) (fallback : bool) : bool :=
  if bool_decide (Getenv key = []) then fallback
  else match ParseBool (Getenv key) with Some b => b | None => fallback end.

Definition Load : Config := {|
  Env := getEnv (str "GOMAIL_ENV") (str "development");
  MySQL := {|
    DSN := getEnv (str "GOMAIL_MYSQL_DSN")
             (str "gomail:gomailpassword@tcp(localhost:3306)/gomail?parseTime=true") |};
  Redis := {|
    Redis_Addr := getEnv (str "GOMAIL_REDIS_ADDR") (str "localhost:6379");
    Redis_Password := getEnv (str "GOMAIL_REDIS_PASSWORD") [];
    Redis_DB := getEnvInt (str "GOMAIL_REDIS_DB") 0 |};
  SMTP := {|
    SMTP_Addr := getEnv (str "GOMAIL_SMTP_ADDR") (str ":2525");
    SMTP_AddrTLS := getEnv (str "GOMAIL_SMTP_ADDR_TLS") (str ":4650");
    Domain_name := getEnv (str "GOMAIL_SMTP_DOMAIN") (str "gomail.local");
    MaxSize := getEnvInt (str "GOMAIL_SMTP_MAX_SIZE") 26214400 |};
  IMAP := {|
    IMAP_Addr := getEnv (str "GOMAIL_IMAP_ADDR") (str ":1430");
    IMAP_AddrTLS := getEnv (str "GOMAIL_IMAP_ADDR_TLS") (str ":9930") |};
  JMAP := {| JMAP_Addr := getEnv (str "GOMAIL_JMAP_ADDR") (str ":8080") |};
  TLS := {|
    CertFile := getEnv (str "GOMAIL_TLS_CERT") (str "certs/server.crt");
    KeyFile := getEnv (str "GOMAIL_TLS_KEY") (str "certs/server.key");
    Enabled := getEnvBool (str "GOMAIL_TLS_ENABLED") true |};
  Telemetry := {| PPROFAddr := getEnv (str "GOMAIL_PPROF_ADDR") (str "localhost:6061") |};
|}.
End env.

(** ** Decimal round trip *)

Lemma digit_val_char x : (x < 10)%N → digit_val (pretty_N_char x) = Some x.
Proof.
  intros H. apply (proj1 (Forall_forall (λ x, digit_val (pretty_N_char x) = Some x)
    [0; 1; 2; 3; 4; 5; 6; 7; 8; 9]%N)); [by_computation|].
  assert (x = 0 ∨ x = 1 ∨ x = 2 ∨ x = 3 ∨ x = 4 ∨ x = 5 ∨ x = 6 ∨ x = 7 ∨ x = 8 ∨ x = 9)%N as Hx by lia.
  set_solver.
Qed.

Lemma parse_digits_go x s : parse_digits 0 (str (pretty_N_go x s)) = parse_digits x (str s).
Proof.
  revert s. induction (N.lt_wf_0 x) as [x _ IH]; intros s.
  destruct (decide (0 < x)%N) as [Hx|Hx]; [|by replace x with 0%N by lia].
  rewrite pretty_N_go_step by done. rewrite IH by by apply N.div_lt.
  unfold str at 1. cbn [String.list_ascii_of_string parse_digits].
  rewrite digit_val_char by (apply N.mod_lt; lia). fold (str s). by rewrite <- N.div_mod by lia.
Qed.

Lemma parse_digits_fmt n : parse_digits 0 (fmt_d n) = Some n.
Proof.
  unfold fmt_d, pretty, pretty_N. case_decide as H; [by subst|]. by rewrite parse_digits_go.
Qed.

Lemma Atoi_digits (s : gostring) n :
  Forall is_digit s → s ≠ [] → parse_digits 0 s = Some n → (Z.of_N n < 2 ^ 63)%Z → Atoi s = Some (Z.of_N n).
Proof.
  intros Hd Hne Hp Hn. destruct s as [|c s]; [done|]. pose proof Hd as [Hc _]%Forall_cons.
  unfold Atoi. rewrite !bool_decide_false by (intros ->; vm_compute in Hc; by destruct Hc).
  rewrite Hp. assert ((- 2 ^ 63 <=? Z.of_N n)%Z = true) as -> by (apply Z.leb_le; lia).
  by rewrite (proj2 (Z.ltb_lt _ _) Hn).
Qed.

(** Parsing the decimal form of a 64-bit integer gives it back. *)
Lemma Atoi_fmt z : (- 2 ^ 63 ≤ z < 2 ^ 63)%Z → Atoi (fmt_d z) = Some z.
Proof.
  intros [Hl Hh]. destruct z as [|p|p].
  - done.
  - apply (Atoi_digits (fmt_d (Npos p)) (Npos p)); [apply fmt_d_N_digits..|apply parse_digits_fmt|done].
  - change (fmt_d (Zneg p)) with ("-"%char :: fmt_d (Npos p)). unfold Atoi.
    rewrite bool_decide_true by done. rewrite parse_digits_fmt.
    destruct (fmt_d (N.pos p)) eqn:E; [by apply fmt_d_N_digits in E|].
    change (- Z.of_N (N.pos p))%Z with (Zneg p).
    rewrite (proj2 (Z.leb_le _ _) Hl), (proj2 (Z.ltb_lt _ _)) by lia. done.
Qed.

(** ** What the settings are *)

(** C39: an integer setting is the value of its variable whenever the variable holds the
    decimal form of a 64-bit integer, and its default when the variable is unset or is not
    an integer; a boolean setting is its default unless the variable is one of the words
    that strconv.ParseBool knows. *)
Theorem config_env_values (Getenv : gostring → gostring) key (z fallback : Z) (bf : bool) :
  (Getenv key = fmt_d z → (- 2 ^ 63 ≤ z < 2 ^ 63)%Z → getEnvInt Getenv key fallback = z)
  ∧ (Getenv key = [] ∨ Atoi (Getenv key) = None → getEnvInt Getenv key fallback = fallback)
  ∧ (Getenv key ∈ str <$> ["1"; "t"; "T"; "true"; "TRUE"; "True"]%string → getEnvBool Getenv key bf = true)
  ∧ (Getenv key ∈ str <$> ["0"; "f"; "F"; "false"; "FALSE"; "False"]%string → getEnvBool Getenv key bf = false)
  ∧ (ParseBool (Getenv key) = None → getEnvBool Getenv key bf = bf).
Proof.
  unfold getEnvInt, getEnvBool. split_and!.
  - intros -> Hz. rewrite bool_decide_false.
    + by rewrite Atoi_fmt.
    + intros E. apply (f_equal Atoi) in E. by rewrite Atoi_fmt in E.
  - intros [->| ->]; [by rewrite bool_decide_true|]. by case_bool_decide.
  - intros H. rewrite bool_decide_false; [|intros E; rewrite E in H; revert H; by_computation].
    unfold ParseBool. by rewrite bool_decide_true.
  - intros H. rewrite bool_decide_false; [|intros E; rewrite E in H; revert H; by_computation].
    unfold ParseBool. rewrite bool_decide_false, bool_decide_true; [done..|].
    revert H. generalize (Getenv key). apply Forall_forall. by_computation.
  - intros ->. by case_bool_decide.
Qed.

Lemma config_env_values_witness :
  getEnvInt (λ _, str "2525") (str "GOMAIL_REDIS_DB") 0 = 2525%Z
  ∧ getEnvInt (λ _, str "none") (str "GOMAIL_REDIS_DB") 0 = 0%Z
  ∧ getEnvBool (λ _, str "False") (str "GOMAIL_TLS_ENABLED") true = false.
Proof.
  destruct (config_env_values (λ _, str "2525") (str "GOMAIL_REDIS_DB") 2525 0 true) as (H1 & _).
  destruct (config_env_values (λ _, str "none") (str "GOMAIL_REDIS_DB") 0 0 true) as (_ & H2 & _).
  destruct (config_env_values (λ _, str "False") (str "GOMAIL_TLS_ENABLED") 0 0 true) as (_ & _ & _ & H3 & _).
  split_and!; [apply H1; [reflexivity|lia]|apply H2; right; reflexivity|apply H3; by_computation].
Defined.
