(* ===== verification/Ports.v ===== *)
(** * Ports: the interfaces between the protocol servers and storage (internal/ports)

    The domain records and events, and one class per Go interface. An implementation works
    on a world [W] (the databases); a method is code over [W] that returns a result or an
    error. The servers' theorems are proved against these classes. *)

From S2P Require Import Prelude.

(** ** Domain records (internal/ports/storage.go) *)

Record Domain := mkDomain { Domain_ID : N; Domain_Name : gostring }.

Record User := mkUser {
  User_ID : N; User_DomainID : N; User_Username : gostring;
  User_PasswordHash : gostring; User_QuotaBytes : Z;
}.

Record Mailbox := mkMailbox {
  Mailbox_ID : N; Mailbox_UserID : N; Mailbox_Name : gostring;
  Mailbox_UIDValidity : N; Mailbox_UIDNext : N;
}.

Record Message := mkMessage {
  Message_ID : N; Message_MailboxID : N; Message_UID : N; Message_Flags : gostring;
  Message_SizeBytes : Z; Message_RawKey : gostring; Message_EnvelopeFrom : gostring;
  Message_EnvelopeTo : gostring; Message_Subject : gostring;
}.

(** ** Events (internal/ports/events.go)

    A [time.Time] is its number of nanoseconds since the Unix epoch. *)

Record MessageReceived := mkReceived {
  Received_From : gostring; Received_To : list gostring; Received_Body : gostring;
  Received_Size : Z; Received_Timestamp : Z;
}.

Record MessageDelivered := mkDelivered {
  Delivered_MessageID : N; Delivered_MailboxID : N; Delivered_UID : N;
  Delivered_To : gostring; Delivered_Timestamp : Z;
}.

Class DomainEvent (E : Type) := { EventName : E → gostring; OccurredAt : E → Z }.

#[export] Instance MessageReceived_Event : DomainEvent MessageReceived := {
  EventName _ := str "message.received"; OccurredAt := Received_Timestamp }.
#[export] Instance MessageDelivered_Event : DomainEvent MessageDelivered := {
  EventName _ := str "message.delivered"; OccurredAt := Delivered_Timestamp }.

(** ** Interfaces *)

(** [error] results: [None] is nil. *)
Class DeliveryPipeline (W : Type) := {
  Deliver : MessageReceived → M W (option gostring) }.

Class MailboxReader (W : Type) := {
  FindMailbox : N → gostring → M W (result Mailbox);
  ListMailboxes : N → M W (result (list Mailbox));
  GetMailboxByID : N → M W (result Mailbox) }.

(** A body is [None] for Go's nil slice: no error, but nothing stored. *)
Class MessageReader (W : Type) := {
  GetMessageBody : N → M W (result (option gostring));
  ListMessages : N → M W (result (list Message));
  GetMessageByUID : N → N → M W (result Message) }.

Class DomainResolver (W : Type) := { FindDomain : gostring → M W (result Domain) }.

Class UserAuthenticator (W : Type) := { FindUser : gostring → N → M W (result User) }.

(** What a server may assume of an implementation: its methods return (they neither panic
    nor diverge). *)
Definition returns {W A} (m : M W A) : Prop := ∀ w, ∃ a w', m w = Ok (a, w').

Lemma returns_wp {W A} (m : M W A) : (∀ w, wp m w (λ _ _, True)) → returns m.
Proof. intros H w. specialize (H w). apply wp_run in H as (a & w' & E & _). eauto. Qed.

Lemma wp_returns {W A} (m : M W A) w : returns m → wp m w (λ a w', m w = Ok (a, w')).
Proof. intros H. destruct (H w) as (a & w' & E). unfold wp. by rewrite E. Qed.

Lemma returns_ret {W A} (a : A) : returns (mret a : M W A).
Proof. intros w. by exists a, w. Qed.

Lemma returns_bind {W A B} (m : M W A) (k : A → M W B) :
  returns m → (∀ a, returns (k a)) → returns (m ≫= k).
Proof.
  intros Hm Hk w. destruct (Hm w) as (a & w' & E). unfold mbind, M_bind. rewrite E. apply Hk.
Qed.

Lemma returns_zoom {S T A} (view : S → T) set (m : M T A) : returns m → returns (zoom view set m).
Proof. intros Hm s. destruct (Hm (view s)) as (a & t & E). unfold zoom. rewrite E. eauto. Qed.

#[export] Hint Resolve returns_ret returns_bind returns_zoom : gomail.

Class DeliveryReturns (W : Type) `{DeliveryPipeline W} :=
  deliver_returns : ∀ e, returns (Deliver (W := W) e).

Class ReadersReturn (W : Type) `{MailboxReader W} `{MessageReader W} `{DomainResolver W}
    `{UserAuthenticator W} := {
  find_mailbox_returns u n : returns (FindMailbox (W := W) u n);
  list_mailboxes_returns u : returns (ListMailboxes (W := W) u);
  get_mailbox_returns i : returns (GetMailboxByID (W := W) i);
  get_body_returns i : returns (GetMessageBody (W := W) i);
  list_messages_returns i : returns (ListMessages (W := W) i);
  get_message_returns i u : returns (GetMessageByUID (W := W) i u);
  find_domain_returns n : returns (FindDomain (W := W) n);
  find_user_returns n d : returns (FindUser (W := W) n d);
}.

(** ** A pipeline that records what it is handed

    Wrapping any pipeline, it keeps the events in order: theorems about what the SMTP
    server delivers are stated on its log. *)

Record recording (W : Type) := mkRecording { log_of : list MessageReceived; inner : W }.
Arguments mkRecording {W} _ _.
Arguments log_of {W} _.
Arguments inner {W} _.

#[export] Instance recording_pipeline W `{DeliveryPipeline W} : DeliveryPipeline (recording W) := {
  Deliver e r :=
    match Deliver e (inner r) with
    | Ok (err, w) => Ok (err, mkRecording (log_of r ++ [e]) w)
    | Panic => Panic
    | NoFuel => NoFuel
    end }.

#[export] Instance recording_returns W `{DeliveryReturns W} : DeliveryReturns (recording W).
Proof.
  intros e [log w]. destruct (deliver_returns e w) as (a & w' & E).
  simpl. rewrite E. eauto.
Qed.
