(* ===== verification/Security.v ===== *)
(** * TLS (internal/security/tls.go, crypto/tls)

    Certificates and the TLS handshake are cryptography: the class [TLSLib] gives the
    functions of crypto/tls that the code calls. A handshake consumes raw input of the
    connection and either yields the plaintext that will arrive over TLS, or fails. *)

From S2P Require Import Prelude GoStrings GoIO.

Definition VersionTLS12 : N := 771.

Definition TLS_ECDHE_RSA_WITH_AES_128_GCM_SHA256 : N := 49199.
Definition TLS_ECDHE_ECDSA_WITH_AES_128_GCM_SHA256 : N := 49195.
Definition TLS_ECDHE_RSA_WITH_AES_256_GCM_SHA384 : N := 49200.
Definition TLS_ECDHE_ECDSA_WITH_AES_256_GCM_SHA384 : N := 49196.
Definition TLS_ECDHE_RSA_WITH_CHACHA20_POLY1305_SHA256 : N := 52392.
Definition TLS_ECDHE_ECDSA_WITH_CHACHA20_POLY1305_SHA256 : N := 52393.

Record tls_Config (Certificate : Type) := mkTLS {
  Certificates : list Certificate;
  MinVersion : N;
  CipherSuites : list N;
}.
Arguments mkTLS {Certificate} _ _ _.
Arguments Certificates {Certificate} _.
Arguments MinVersion {Certificate} _.
Arguments CipherSuites {Certificate} _.

Inductive handshake : Type :=
| HsDone (plaintext : conn_input)
| HsFailed (msg : gostring) (rest : conn_input).

Class TLSLib := {
  Certificate : Type;
  LoadX509KeyPair : gostring → gostring → result Certificate;
  Handshake : tls_Config Certificate → conn_input → handshake;
}.

(** A failed handshake has only consumed input of the connection. *)
Class TLSLaws (T : TLSLib) :=
  handshake_consumes cfg c msg rest :
    Handshake cfg c = HsFailed msg rest → conn_size rest ≤ conn_size c.

Section security.
Context `{T : TLSLib}.

Definition LoadTLSConfig (certFile keyFile : gostring) : result (tls_Config Certificate) :=
  match LoadX509KeyPair certFile keyFile with
  | Err e => Err (wrap (str "load tls key pair") e)
  | Good cert => Good {|
      Certificates := [cert];
      MinVersion := VersionTLS12;
      CipherSuites := [
        TLS_ECDHE_ECDSA_WITH_AES_256_GCM_SHA384;
        TLS_ECDHE_RSA_WITH_AES_256_GCM_SHA384;
        TLS_ECDHE_ECDSA_WITH_CHACHA20_POLY1305_SHA256;
        TLS_ECDHE_RSA_WITH_CHACHA20_POLY1305_SHA256;
        TLS_ECDHE_ECDSA_WITH_AES_128_GCM_SHA256;
        TLS_ECDHE_RSA_WITH_AES_128_GCM_SHA256 ] |}
  end.
End security.

(** ** Connections as the sessions hold them *)

(** [c_tls]: whether the connection is a [*tls.Conn]. *)
Record Conn := mkConn { c_tls : bool; c_in : conn_input }.

(** The wall clock: the reading of the [n]-th call of [time.Now]. *)
Class Clock := time_Now : nat → Z.

(** [bcrypt.CompareHashAndPassword]: nil when the password matches the hash. *)
Class Bcrypt := CompareHashAndPassword : gostring → gostring → option gostring.
