(* ===== verification/Smtp.v ===== *)
(** * The SMTP session (internal/smtp: envelope.go, session.go, handler.go)

    A session is the connection, its buffered reader, the protocol machine, the envelope of
    the current transaction and the delivery pipeline; [out] is what was written to the
    connection, each line with whether it went over TLS. The handlers are code over that
    state, and [Handle] is the read loop. *)

From S2P Require Import Prelude GoStrings GoIO FSM Config Ports Security.

(** ** Envelope (envelope.go) *)

Record Envelope := mkEnvelope {
  From : gostring;
  To : list gostring;
  Data : gostring;
  Size : Z;
  ReceivedAt : Z;
}.

(** [time.Time{}]: 1 January of year 1. *)
Definition zero_time : Z := -62135596800000000000.

Definition AddRecipient (addr : gostring) (e : Envelope) : Envelope :=
  {| From := From e; To := To e ++ [addr]; Data := Data e; Size := Size e; ReceivedAt := ReceivedAt e |}.

Definition HasRecipients (e : Envelope) : bool := 0 <? length (To e).

Definition Envelope_Reset (e : Envelope) : Envelope :=
  {| From := []; To := []; Data := []; Size := 0; ReceivedAt := zero_time |}.

(** [&Envelope{}]. *)
Definition empty_envelope : Envelope :=
  {| From := []; To := []; Data := []; Size := 0; ReceivedAt := zero_time |}.

(** ** The protocol machine (session.go) *)

Inductive State := StateInit | StateGreeted | StateMailFrom | StateRcptTo | StateData | StateQuit.
#[export] Instance State_eq_dec : EqDecision State.
Proof. solve_decision. Defined.

Definition State_str (st : State) : gostring :=
  match st with
  | StateInit => str "init"
  | StateGreeted => str "greeted"
  | StateMailFrom => str "mail_from"
  | StateRcptTo => str "rcpt_to"
  | StateData => str "data"
  | StateQuit => str "quit"
  end.

Inductive SMTPEvent :=
  EventEHLO | EventMailFrom | EventRcptTo | EventData | EventDone | EventRset | EventQuit.

Definition SMTPEvent_str (ev : SMTPEvent) : gostring :=
  match ev with
  | EventEHLO => str "ehlo"
  | EventMailFrom => str "mail_from"
  | EventRcptTo => str "rcpt_to"
  | EventData => str "data"
  | EventDone => str "done"
  | EventRset => str "rset"
  | EventQuit => str "quit"
  end.

Definition smtp_events : list EventDesc := [
  mkEvent (SMTPEvent_str EventEHLO) [State_str StateInit; State_str StateGreeted] (State_str StateGreeted);
  mkEvent (SMTPEvent_str EventMailFrom) [State_str StateGreeted] (State_str StateMailFrom);
  mkEvent (SMTPEvent_str EventRcptTo) [State_str StateMailFrom] (State_str StateRcptTo);
  mkEvent (SMTPEvent_str EventData) [State_str StateRcptTo] (State_str StateData);
  mkEvent (SMTPEvent_str EventDone) [State_str StateData] (State_str StateGreeted);
  mkEvent (SMTPEvent_str EventRset)
    [State_str StateGreeted; State_str StateMailFrom; State_str StateRcptTo; State_str StateData]
    (State_str StateGreeted);
  mkEvent (SMTPEvent_str EventQuit)
    [State_str StateInit; State_str StateGreeted; State_str StateMailFrom; State_str StateRcptTo;
     State_str StateData] (State_str StateQuit) ].

Definition newSMTPFSM `{L : FSMLib} : FSM := NewFSM (State_str StateInit) smtp_events.

(** ** The session *)

Record Session `{L : FSMLib} `{T : TLSLib} {D : Type} := mkSession {
  conn : Conn;
  reader : gostring;           (** what [s.reader] has buffered *)
  fsm : FSM;
  envelope : Envelope;
  cfg : Config;
  id : gostring;
  delivery : D;
  tlsCfg : option (tls_Config Certificate);
  isTLS : bool;
  out : list (bool * gostring);
  ticks : nat;                 (** how often [time.Now] was read *)
}.
Arguments Session {L T} D.

Section session.
Context `{L : FSMLib} `{T : TLSLib} `{U : UnicodeData} `{C : Clock} {D : Type} `{P : DeliveryPipeline D}.
Implicit Types s : Session D.

Definition set_conn (c : Conn) (s : Session D) : Session D :=
  mkSession _ _ _ c (reader s) (fsm s) (envelope s) (cfg s) (id s) (delivery s) (tlsCfg s)
    (isTLS s) (out s) (ticks s).
Definition set_reader (b : gostring) (s : Session D) : Session D :=
  mkSession _ _ _ (conn s) b (fsm s) (envelope s) (cfg s) (id s) (delivery s) (tlsCfg s)
    (isTLS s) (out s) (ticks s).
Definition set_fsm (f : FSM) (s : Session D) : Session D :=
  mkSession _ _ _ (conn s) (reader s) f (envelope s) (cfg s) (id s) (delivery s) (tlsCfg s)
    (isTLS s) (out s) (ticks s).
Definition set_envelope (e : Envelope) (s : Session D) : Session D :=
  mkSession _ _ _ (conn s) (reader s) (fsm s) e (cfg s) (id s) (delivery s) (tlsCfg s)
    (isTLS s) (out s) (ticks s).
Definition set_delivery (d : D) (s : Session D) : Session D :=
  mkSession _ _ _ (conn s) (reader s) (fsm s) (envelope s) (cfg s) (id s) d (tlsCfg s)
    (isTLS s) (out s) (ticks s).
Definition set_isTLS (b : bool) (s : Session D) : Session D :=
  mkSession _ _ _ (conn s) (reader s) (fsm s) (envelope s) (cfg s) (id s) (delivery s) (tlsCfg s)
    b (out s) (ticks s).
Definition add_out (line : gostring) (s : Session D) : Session D :=
  mkSession _ _ _ (conn s) (reader s) (fsm s) (envelope s) (cfg s) (id s) (delivery s) (tlsCfg s)
    (isTLS s) (out s ++ [(c_tls (conn s), line ++ CRLF)]) (ticks s).
Definition tick (s : Session D) : Session D :=
  mkSession _ _ _ (conn s) (reader s) (fsm s) (envelope s) (cfg s) (id s) (delivery s) (tlsCfg s)
    (isTLS s) (out s) (S (ticks s)).

(** [s.conn.Read] consumed part of the input. *)
Definition set_input (c : conn_input) (s : Session D) : Session D :=
  set_conn (mkConn (c_tls (conn s)) c) s.

Definition NewSession (c : Conn) (cf : Config) (d : D) (t : option (tls_Config Certificate)) : Session D :=
  mkSession _ _ _ c [] newSMTPFSM empty_envelope cf (fmt_d (time_Now 0)) d t (c_tls c) [] 1.

Definition currentState (s : Session D) : gostring := Current (fsm s).

Definition write (line : gostring) : M (Session D) unit := modify (add_out line).

Definition transition (event : SMTPEvent) : M (Session D) bool :=
  f ← gets fsm;
  let '(f', err) := Event f (SMTPEvent_str event) in
  modify (set_fsm f');;
  match err with
  | Some _ => write (str "503 Bad sequence of commands");; mret false
  | None => mret true
  end.

Definition transitionRcptTo : M (Session D) bool :=
  cur ← gets currentState;
  if bool_decide (cur = State_str StateRcptTo) then mret true
  else transition EventRcptTo.

(** [now := time.Now()]. *)
Definition read_clock : M (Session D) Z :=
  n ← gets ticks; modify tick;; mret (time_Now n).

Definition reset_envelope : M (Session D) unit :=
  modify (λ s, set_envelope (Envelope_Reset (envelope s)) s).

(** *** Handlers (handler.go) *)

(** A slice bound out of range panics: [None]. *)
Definition extractAddress (args prefix : gostring) : option (gostring * bool) :=
  let upper := ToUpper args in
  if negb (HasPrefix upper prefix) then Some ([], false)
  else
    rest ← slice_from args (length prefix);
    let rest := TrimSpace rest in
    if HasPrefix rest (str "<") && HasSuffix rest (str ">") then
      inner ← slice rest 1 (length rest - 1);
      if bool_decide (inner = []) then Some ([], false) else Some (inner, true)
    else if bool_decide (rest ≠ []) then Some (rest, true)
    else Some ([], false).

Definition handleEHLO (args : gostring) : M (Session D) unit :=
  if bool_decide (args = []) then write (str "501 Syntax: EHLO hostname")
  else
    ok ← transition EventEHLO;
    if negb ok then mret tt
    else
      reset_envelope;;
      s ← get;
      write (str "250-" ++ Domain_name (SMTP (cfg s)) ++ str " greets " ++ args);;
      write (str "250-SIZE " ++ fmt_d (MaxSize (SMTP (cfg s))));;
      write (str "250-8BITMIME");;
      (if bool_decide (tlsCfg s ≠ None) && negb (isTLS s) then write (str "250-STARTTLS") else mret tt);;
      write (str "250 ENHANCEDSTATUSCODES").

Definition handleMAIL (args : gostring) : M (Session D) unit :=
  r ← or_panic (extractAddress args (str "FROM:"));
  let '(addr, ok) := r in
  if negb ok then write (str "501 Syntax: MAIL FROM:<address>")
  else
    t ← transition EventMailFrom;
    if negb t then mret tt
    else
      modify (λ s, set_envelope
        {| From := addr; To := To (envelope s); Data := Data (envelope s);
           Size := Size (envelope s); ReceivedAt := ReceivedAt (envelope s) |} s);;
      write (str "250 OK").

Definition handleRCPT (args : gostring) : M (Session D) unit :=
  r ← or_panic (extractAddress args (str "TO:"));
  let '(addr, ok) := r in
  if negb ok then write (str "501 Syntax: RCPT TO:<address>")
  else
    n ← gets (λ s, length (To (envelope s)));
    if 100 <=? n then write (str "452 Too many recipients")
    else
      t ← transitionRcptTo;
      if negb t then mret tt
      else
        modify (λ s, set_envelope (AddRecipient addr (envelope s)) s);;
        write (str "250 OK").

(** The read loop of handleDATA: [rb] is what its own [bufio.Reader] has buffered, [body]
    the message so far. [None]: the handler has returned from inside the loop. *)
Fixpoint data_loop (fuel : nat) (rb body : gostring) : M (Session D) (option gostring) :=
  match fuel with
  | O => λ _, NoFuel
  | S fuel' =>
      c ← gets conn;
      let '(r, rb', c') := ReadString rb (c_in c) in
      modify (set_input c');;
      match r with
      | Err _ => mret None
      | Good line =>
          if bool_decide (line = str "." ++ CRLF) || bool_decide (line = str "." ++ [LF])
          then mret (Some body)
          else
            line ← (if HasPrefix line (str "..") then or_panic (slice_from line 1) else mret line);
            let body := body ++ line in
            max ← gets (λ s, MaxSize (SMTP (cfg s)));
            if (max <? Z.of_nat (length body))%Z then
              write (str "552 Message size exceeds maximum permitted");;
              reset_envelope;;
              transition EventRset;;
              mret None
            else data_loop fuel' rb' body
      end
  end.

(** Every line read takes input off the connection or off the reader's buffer, which
    starts empty. *)
Definition data_fuel (s : Session D) : nat := S (conn_size (c_in (conn s))).

Definition handleDATA : M (Session D) unit :=
  ok ← transition EventData;
  if negb ok then mret tt
  else
    write (str "354 Start mail input; end with <CRLF>.<CRLF>");;
    fuel ← gets data_fuel;
    b ← data_loop fuel [] [];
    match b with
    | None => mret tt
    | Some body =>
        now ← read_clock;
        modify (λ s, set_envelope
          {| From := From (envelope s); To := To (envelope s); Data := body;
             Size := Z.of_nat (length body); ReceivedAt := now |} s);;
        e ← gets envelope;
        let event := {| Received_From := From e; Received_To := To e; Received_Body := Data e;
                        Received_Size := Size e; Received_Timestamp := ReceivedAt e |} in
        err ← zoom delivery set_delivery (Deliver event);
        match err with
        | Some _ => write (str "451 Requested action aborted: error in processing")
        | None =>
            transition EventDone;;
            write (str "250 OK: message accepted for delivery")
        end
    end.

Definition handleRSET : M (Session D) unit :=
  ok ← transition EventRset;
  if negb ok then mret tt
  else reset_envelope;; write (str "250 OK").

Definition handleQUIT : M (Session D) unit :=
  transition EventQuit;;
  s ← get;
  write (str "221 " ++ Domain_name (SMTP (cfg s)) ++ str " Service closing transmission channel").

Definition handleSTARTTLS : M (Session D) unit :=
  s ← get;
  if isTLS s then write (str "503 Already using TLS")
  else
    match tlsCfg s with
    | None => write (str "454 TLS not available")
    | Some t =>
        if bool_decide (currentState s = State_str StateMailFrom)
           || bool_decide (currentState s = State_str StateRcptTo)
        then write (str "503 Bad sequence of commands")
        else
          write (str "220 Ready to start TLS");;
          match Handshake t (c_in (conn s)) with
          | HsFailed _ rest => modify (set_input rest)
          | HsDone plaintext =>
              modify (set_conn (mkConn true plaintext));;
              modify (set_reader []);;
              modify (set_isTLS true);;
              modify (set_fsm newSMTPFSM);;
              reset_envelope
          end
    end.

(** *** The read loop (session.go) *)

(** What the loop does with a line; [false]: the session ends. *)
Definition handle_line (line : gostring) : M (Session D) bool :=
  let line := TrimRight line CRLF in
  if bool_decide (line = []) then mret true
  else
    let '(cmd, args, _) := Cut line SP in
    let cmd := ToUpper (TrimSpace cmd) in
    if bool_decide (cmd = str "EHLO") || bool_decide (cmd = str "HELO") then
      handleEHLO args;; mret true
    else if bool_decide (cmd = str "STARTTLS") then handleSTARTTLS;; mret true
    else if bool_decide (cmd = str "MAIL") then handleMAIL args;; mret true
    else if bool_decide (cmd = str "RCPT") then handleRCPT args;; mret true
    else if bool_decide (cmd = str "DATA") then handleDATA;; mret true
    else if bool_decide (cmd = str "RSET") then handleRSET;; mret true
    else if bool_decide (cmd = str "QUIT") then handleQUIT;; mret false
    else if bool_decide (cmd = str "NOOP") then write (str "250 OK");; mret true
    else write (str "500 Command not recognized");; mret true.

(** One iteration: read a line and handle it; [false]: the loop returns. *)
Definition iteration : M (Session D) bool :=
  s ← get;
  let '(r, b, c) := ReadString (reader s) (c_in (conn s)) in
  modify (set_input c);;
  modify (set_reader b);;
  match r with
  | Err _ => mret false
  | Good line => handle_line line
  end.

Fixpoint read_loop (fuel : nat) : M (Session D) unit :=
  match fuel with
  | O => λ _, NoFuel
  | S fuel' => continue ← iteration; if (continue : bool) then read_loop fuel' else mret tt
  end.

Definition Handle (fuel : nat) : M (Session D) unit :=
  s ← get;
  write (str "220 " ++ Domain_name (SMTP (cfg s)) ++ str " ESMTP gomail-core ready");;
  read_loop fuel.
End session.
