(* ===== verification/Concrete.v ===== *)
(** * Concrete instances of the external libraries

    Small implementations of the interfaces the development is parameterised by. They
    satisfy the laws the theorems assume, and make every definition executable: the
    examples and witnesses run on them. *)

From S2P Require Import Prelude GoStrings GoIO FSM Config Ports Security Smtp.

(** Case tables of the Latin-1 block, with U+0131 and U+017F, whose upper cases are the
    ASCII letters I and S. *)
Definition latin1_upper (r : N) : N :=
  if ((224 <=? r) && (r <=? 254) && negb (r =? 247))%N then (r - 32)%N
  else if (r =? 255)%N then 376%N else if (r =? 181)%N then 924%N
  else if (r =? 305)%N then 73%N else if (r =? 383)%N then 83%N else r.

#[export] Instance latin1 : UnicodeData := {
  upper_rune := latin1_upper;
  fold_rune r q := (latin1_upper r =? latin1_upper q)%N;
  print_rune r := ((161 <=? r) && negb (r =? 173))%N;
}.

(** One second passes between two readings of the clock, from some day in 2023. *)
#[export] Instance seconds : Clock := λ n, ((1700000000 + Z.of_nat n) * 1000000000)%Z.

(** A TLS library whose handshake succeeds on one particular first segment. *)
#[export] Instance toy_tls : TLSLib := {
  Certificate := unit;
  LoadX509KeyPair cert key :=
    if bool_decide (cert = []) || bool_decide (key = []) then Err (str "no such file") else Good tt;
  Handshake _ c :=
    match c with
    | Seg d :: c' => if bool_decide (d = str "HELLO") then HsDone c' else HsFailed (str "bad hello") c'
    | ReadErr e :: c' => HsFailed e c'
    | [] => HsFailed (str "EOF") []
    end;
}.

#[export] Instance toy_tls_laws : TLSLaws toy_tls.
Proof.
  intros cf c msg rest. simpl. unfold conn_size. destruct c as [|[d|e] c]; simpl.
  - intros; simplify_eq. done.
  - case_bool_decide; intros; simplify_eq. lia.
  - intros; simplify_eq. lia.
Qed.

(** Pipelines that accept and that refuse every message. *)
Inductive accepting := Accepting.
#[export] Instance accepting_pipeline : DeliveryPipeline accepting := { Deliver _ w := Ok (None, w) }.
#[export] Instance accepting_returns : DeliveryReturns accepting.
Proof. intros e w. simpl. eauto. Qed.

Inductive refusing := Refusing.
#[export] Instance refusing_pipeline : DeliveryPipeline refusing := {
  Deliver _ w := Ok (Some (str "storage down"), w) }.
#[export] Instance refusing_returns : DeliveryReturns refusing.
Proof. intros e w. simpl. eauto. Qed.

(** The password of the account that the migrations create. *)
Definition dev_hash : gostring := str "$2a$10$92IXUNpkjO0rOQ5byMi.Ye4oKoEa3Ro9llC/.og/at2.uheWG/igi".
#[export] Instance toy_bcrypt : Bcrypt := λ hash password,
  if bool_decide (hash = dev_hash) && bool_decide (password = str "password") then None
  else Some (str "crypto/bcrypt: hashedPassword is not the hash of the given password").

(** A store with one account, whose INBOX has two messages. *)
Inductive demo := Demo.
Definition demo_messages : list Message :=
  [mkMessage 1 10 1 (str "\Seen") 7 [] (str "a@x.org") (str "u@x.org") (str "one") ;
   mkMessage 2 10 2 [] 4 [] (str "b@x.org") (str "u@x.org") (str "two")].
Definition demo_body (id : N) : gostring :=
  if (id =? 1)%N then str "first" ++ CRLF else str "{3}" ++ [LF].
#[export] Instance demo_domains : DomainResolver demo := {
  FindDomain name w := Ok (if bool_decide (name = str "x.org") then Good (mkDomain 3 name)
                           else Err (str "not found"), w) }.
#[export] Instance demo_users : UserAuthenticator demo := {
  FindUser name d w := Ok (if bool_decide (name = str "u") && (d =? 3)%N
                           then Good (mkUser 7 3 name dev_hash 0) else Err (str "not found"), w) }.
#[export] Instance demo_mailboxes : MailboxReader demo := {
  FindMailbox uid name w := Ok (if (uid =? 7)%N && bool_decide (name = str "INBOX")
                                then Good (mkMailbox 10 7 name 1 3) else Err (str "not found"), w);
  ListMailboxes uid w := Ok (Good (if (uid =? 7)%N then [mkMailbox 10 7 (str "INBOX") 1 3] else []), w);
  GetMailboxByID i w := Ok (if (i =? 10)%N then Good (mkMailbox 10 7 (str "INBOX") 1 3)
                            else Err (str "not found"), w) }.
#[export] Instance demo_reader : MessageReader demo := {
  GetMessageBody i w := Ok (Good (if (i <=? 2)%N then Some (demo_body i) else None), w);
  ListMessages i w := Ok (Good (if (i =? 10)%N then demo_messages else []), w);
  GetMessageByUID i u w := Ok (match List.filter (λ m, Message_UID m =? u)%N demo_messages with
                               | m :: _ => Good m | [] => Err (str "not found") end, w) }.
#[export] Instance demo_returns : ReadersReturn demo.
Proof. split; intros; intros w; simpl; eauto. Qed.

(** The default configuration. *)
Definition default_config : Config := Load (λ _, []).

(** A message written with the commands of a client, one segment per element. *)
Definition cmd (s : string) : read_event := Seg (str s ++ CRLF).

(** The value and the final state of a run, for examples that evaluate one of them. *)
Definition result_of {S A} (o : outcome (A * S)) : option A :=
  match o with Ok (a, _) => Some a | _ => None end.
Definition state_of {S A} (s0 : S) (o : outcome (A * S)) : S :=
  match o with Ok (_, s) => s | _ => s0 end.

Lemma outcome_eq {S A} (s0 : S) (o : outcome (A * S)) a : result_of o = Some a → o = Ok (a, state_of s0 o).
Proof. destruct o as [[]| |]; naive_solver. Qed.
