(* ===== verification/Server.v ===== *)
(** * The SMTP and IMAP servers (internal/smtp/server.go, internal/imap/server.go)

    The two files are the same program but for the session they start: [Start] opens the
    listeners, leaves a goroutine that waits for the context and closes them, and runs an
    accept loop per listener; every connection gets a goroutine that runs its session. A
    server is the state of those goroutines. What the network, the scheduler and the
    operator decide (the answers of Listen and Accept, who runs next, the signal) are
    events, and [server_step] is the program's reaction to one. The store is shared by all
    sessions, so it is not part of the server: a step takes the store as it is now and
    returns it. [code] is what differs between the two servers. *)

From S2P Require Import Prelude GoStrings GoIO FSM Config Ports Security.

(** A [net.Listener] that was opened. *)
Inductive lstate := Listening | Closed.

(** What [ln.Accept()] returns; [input] is what the connection will deliver. *)
Inductive accept_result :=
| Accepted (input : conn_input)
| AcceptErr (msg : gostring).

(** The goroutine of one connection: before the greeting, in its read loop, or returned. *)
Inductive goroutine (S : Type) := Starting (s : S) | Looping (s : S) | Ended (s : S).
Arguments Starting {S} _.
Arguments Looping {S} _.
Arguments Ended {S} _.

Definition session_of {S} (g : goroutine S) : S :=
  match g with Starting s | Looping s | Ended s => s end.

(** The goroutine of [Start]: before net.Listen, before tls.Listen, in the plain accept loop,
    or returned with an error or nil. *)
Inductive start_pc := SListen | SListenTLS | SAccept | SReturned (err : option gostring).
(** The goroutine of the accept loop of the TLS listener. *)
Inductive loop_pc := LoopNone | LoopAccept | LoopReturned.
(** The goroutine that waits for the context. *)
Inductive watch_pc := WatchNone | WatchWait | WatchCloseTLS | WatchDone.
(** The process: a panic in any goroutine ends it, and so does the return of main. *)
Inductive process := Running | Exited | Crashed.
#[export] Instance process_eq_dec : EqDecision process.
Proof. solve_decision. Defined.

Record server {Sess : Type} := mkServer {
  listener : option lstate;
  listenerTLS : option lstate;
  start : start_pc;
  tls_loop : loop_pc;
  watcher : watch_pc;
  cancelled : bool;                  (** [ctx.Done()] is closed *)
  sessions : list (goroutine Sess);
  proc : process;
  logged : list gostring;
}.
Arguments server : clear implicits.
Arguments mkServer {Sess} _ _ _ _ _ _ _ _ _.

(** What is particular to a server: its name in the log, whether it has a TLS
    configuration, the session of a connection, the two parts of its [Handle], and the
    store as the session holds it. *)
Record code {Sess W : Type} := mkCode {
  name : gostring;
  has_tls : bool;
  spawn : Conn → bool → W → Sess;
  greet : M Sess unit;
  iterate : M Sess bool;
  set_world : W → Sess → Sess;
  world_of : Sess → W;
}.
Arguments code : clear implicits.

Inductive event :=
| EListen (err : option gostring)              (** net.Listen returns *)
| EListenTLS (err : option gostring)           (** tls.Listen returns *)
| EAccept (isTLS : bool) (r : accept_result)   (** Accept of one of the loops returns *)
| EWatch                                       (** the next statement of the waiting goroutine *)
| ESession (i : nat)                           (** the next iteration of a session *)
| ECancel                                      (** the signal arrives *)
| EExit.                                       (** main returns after Start *)

Section server.
Context {Sess W : Type} (c : code Sess W).
Implicit Types s : server Sess.

Definition set_start (p : start_pc) s : server Sess :=
  mkServer (listener s) (listenerTLS s) p (tls_loop s) (watcher s) (cancelled s) (sessions s) (proc s) (logged s).
Definition set_listener (l : option lstate) s : server Sess :=
  mkServer l (listenerTLS s) (start s) (tls_loop s) (watcher s) (cancelled s) (sessions s) (proc s) (logged s).
Definition set_listenerTLS (l : option lstate) s : server Sess :=
  mkServer (listener s) l (start s) (tls_loop s) (watcher s) (cancelled s) (sessions s) (proc s) (logged s).
Definition set_tls_loop (p : loop_pc) s : server Sess :=
  mkServer (listener s) (listenerTLS s) (start s) p (watcher s) (cancelled s) (sessions s) (proc s) (logged s).
Definition set_watcher (p : watch_pc) s : server Sess :=
  mkServer (listener s) (listenerTLS s) (start s) (tls_loop s) p (cancelled s) (sessions s) (proc s) (logged s).
Definition set_cancelled s : server Sess :=
  mkServer (listener s) (listenerTLS s) (start s) (tls_loop s) (watcher s) true (sessions s) (proc s) (logged s).
Definition set_sessions (l : list (goroutine Sess)) s : server Sess :=
  mkServer (listener s) (listenerTLS s) (start s) (tls_loop s) (watcher s) (cancelled s) l (proc s) (logged s).
Definition set_proc (p : process) s : server Sess :=
  mkServer (listener s) (listenerTLS s) (start s) (tls_loop s) (watcher s) (cancelled s) (sessions s) p (logged s).
Definition add_log (m : gostring) s : server Sess :=
  mkServer (listener s) (listenerTLS s) (start s) (tls_loop s) (watcher s) (cancelled s) (sessions s) (proc s)
    (logged s ++ [m]).

(** A new server: both listeners are nil. *)
Definition new_server : server Sess :=
  mkServer None None SListen LoopNone WatchNone false [] Running [].

(** The end of [Start]: the waiting goroutine is started, then the plain loop runs. *)
Definition launch s : server Sess := set_start SAccept (set_watcher WatchWait s).

(** [Start] up to tls.Listen. *)
Definition Start_listen (err : option gostring) s : server Sess :=
  match err with
  | Some e => set_start (SReturned (Some e)) s
  | None =>
      let s := add_log (name c ++ str " server listening") (set_listener (Some Listening) s) in
      if has_tls c then set_start SListenTLS s else launch s
  end.

(** [Start] from the answer of tls.Listen. *)
Definition Start_listenTLS (err : option gostring) s : server Sess :=
  match err with
  | Some e => set_start (SReturned (Some e)) s
  | None =>
      launch (set_tls_loop LoopAccept
        (add_log (name c ++ str " tls server listening") (set_listenerTLS (Some Listening) s)))
  end.

Definition close (l : option lstate) : option lstate :=
  match l with Some _ => Some Closed | None => None end.

(** The goroutine that [Start] leaves: blocked until the context is done, it closes one
    listener after the other. *)
Definition watch s : option (server Sess) :=
  match watcher s with
  | WatchWait =>
      if cancelled s then
        let s := add_log (name c ++ str " server shutting down") s in
        let s := set_listener (close (listener s)) s in
        Some (set_watcher (match listenerTLS s with Some _ => WatchCloseTLS | None => WatchDone end) s)
      else None
  | WatchCloseTLS => Some (set_watcher WatchDone (set_listenerTLS (close (listenerTLS s)) s))
  | _ => None
  end.

(** The body of [acceptLoop] after Accept has returned; [false]: the loop returns. *)
Definition acceptLoop (isTLS : bool) (r : accept_result) (w : W) s : bool * server Sess :=
  match r with
  | AcceptErr _ =>
      if cancelled s then (false, s) else (true, add_log (name c ++ str " accept error") s)
  | Accepted input =>
      (true, set_sessions (sessions s ++ [Starting (spawn c (mkConn isTLS input) isTLS w)])
               (add_log (name c ++ str " connection accepted") s))
  end.

(** What Accept can return: a closed listener gives no connection. *)
Definition may_return (l : option lstate) (r : accept_result) : bool :=
  match l, r with
  | Some Listening, _ => true
  | Some Closed, AcceptErr _ => true
  | _, _ => false
  end.

Definition accept (isTLS : bool) (r : accept_result) (w : W) s : option (server Sess) :=
  if isTLS then
    match tls_loop s with
    | LoopAccept =>
        if may_return (listenerTLS s) r then
          let '(continue, s') := acceptLoop true r w s in
          Some (if continue then s' else set_tls_loop LoopReturned s')
        else None
    | _ => None
    end
  else
    match start s with
    | SAccept =>
        if may_return (listener s) r then
          let '(continue, s') := acceptLoop false r w s in
          Some (if continue then s' else set_start (SReturned None) s')
        else None
    | _ => None
    end.

(** A session's goroutine runs up to its next read, on the store as it is now. *)
Definition session_step (i : nat) (w : W) s : option (server Sess * W) :=
  match sessions s !! i with
  | Some (Starting x) =>
      Some (match greet c (set_world c w x) with
            | Ok (_, x') => (set_sessions (<[i := Looping x']> (sessions s)) s, world_of c x')
            | _ => (set_proc Crashed s, w)
            end)
  | Some (Looping x) =>
      Some (match iterate c (set_world c w x) with
            | Ok (continue, x') =>
                (set_sessions (<[i := (if (continue : bool) then Looping x' else Ended x')]> (sessions s)) s,
                 world_of c x')
            | _ => (set_proc Crashed s, w)
            end)
  | _ => None
  end.

Definition server_step (e : event) (sw : server Sess * W) : option (server Sess * W) :=
  let '(s, w) := sw in
  match proc s with
  | Running =>
      match e with
      | EListen err => match start s with SListen => Some (Start_listen err s, w) | _ => None end
      | EListenTLS err => match start s with SListenTLS => Some (Start_listenTLS err s, w) | _ => None end
      | EAccept isTLS r => (λ s', (s', w)) <$> accept isTLS r w s
      | EWatch => (λ s', (s', w)) <$> watch s
      | ESession i => session_step i w s
      | ECancel => Some (set_cancelled s, w)
      | EExit => match start s with SReturned _ => Some (set_proc Exited s, w) | _ => None end
      end
  | _ => None
  end.

(** A sequence of events. *)
Fixpoint run (es : list event) (sw : server Sess * W) : option (server Sess * W) :=
  match es with
  | [] => Some sw
  | e :: es' => sw' ← server_step e sw; run es' sw'
  end.
End server.
