(* ===== verification/ServerProps.v ===== *)
(** * Properties of the servers

    For any session code that keeps its invariant: the invariant of the server, which every
    event and every change of the store by others preserves, and what fair scheduling of the
    server's own goroutines gives, whatever its sessions do: it stops after the signal. *)

From S2P Require Import Prelude GoStrings GoIO FSM Config Ports Security Server.

(** Forward reasoning with the implications of the invariant whose premise is known. *)
Ltac forward :=
  repeat match goal with
  | H : ?P → _, H' : ?P |- _ => lazymatch type of P with Prop => specialize (H H') end
  | H : ?P ∨ _ → _, H' : ?P |- _ => specialize (H (or_introl H'))
  | H : _ ∨ ?P → _, H' : ?P |- _ => specialize (H (or_intror H'))
  | H : ∀ e, start ?s = SReturned (Some e) → _, H' : start ?s = SReturned (Some _) |- _ => specialize (H _ H')
  | H : _ ∧ _ |- _ => destruct H
  | H : _ ∨ _ |- _ => destruct H
  | H : ∃ _, _ |- _ => destruct H
  end.
Ltac control_cases :=
  split; simpl; intros; forward; split_and?; try done; try congruence; eauto.

(** What a server needs of its sessions: [Inv] is the session's invariant, [J] that of the
    store. The store is part of the session's
    state, and can be replaced by any other that satisfies [J]. *)
Record code_laws {Sess W : Type} (c : code Sess W) (Inv : Sess → Prop) (J : W → Prop) : Prop := {
  law_spawn input b w : J w → Inv (spawn c (mkConn b input) b w);
  law_greet x : Inv x → wp (greet c) x (λ _ x', Inv x');
  law_iterate x : Inv x → wp (iterate c) x (λ _ x', Inv x');
  law_world x : Inv x → J (world_of c x);
  law_set x w : Inv x → J w → Inv (set_world c w x);
}.

Section props.
Context {Sess W : Type} (c : code Sess W) (Inv : Sess → Prop) (J : W → Prop).
Context (Hc : code_laws c Inv J).
Implicit Types (s : server Sess) (sw : server Sess * W).

(** ** The invariant *)

(** The state of the goroutines: a listener is closed only after the signal, a loop runs on
    a listener that is open or was closed, [Start] returns nil only after the signal, and
    the process goes on until [Start] has returned. *)
Record control s : Prop := {
  ct_closed : listener s = Some Closed ∨ listenerTLS s = Some Closed → cancelled s = true;
  ct_accept : start s = SAccept → listener s ≠ None ∧ watcher s ≠ WatchNone;
  ct_tls : tls_loop s = LoopAccept → listenerTLS s ≠ None ∧ watcher s ≠ WatchNone;
  ct_waiting : watcher s = WatchWait → listener s = Some Listening;
  ct_closeTLS : watcher s = WatchCloseTLS → listener s = Some Closed;
  ct_watched : watcher s = WatchDone → listener s = Some Closed ∧ listenerTLS s ≠ Some Listening;
  ct_nil : start s = SReturned None → cancelled s = true ∧ watcher s ≠ WatchNone;
  ct_early : start s = SListen ∨ start s = SListenTLS → watcher s = WatchNone ∧ tls_loop s = LoopNone;
  ct_exited : proc s = Exited → ∃ r, start s = SReturned r;
  ct_listening : start s = SListenTLS → listener s = Some Listening;
  ct_err e : start s = SReturned (Some e) → watcher s = WatchNone ∧ tls_loop s = LoopNone;
}.

Record server_inv sw : Prop := {
  si_alive : proc sw.1 ≠ Crashed;
  si_store : J sw.2;
  si_sessions : Forall (λ g, Inv (session_of g)) (sessions sw.1);
  si_control : control sw.1;
}.

Lemma new_server_inv w : J w → server_inv (new_server, w).
Proof. intros Hw. split; [done|done|constructor|]. split; simpl; naive_solver. Qed.

Lemma control_acceptLoop isTLS r w s :
  control s → control (acceptLoop c isTLS r w s).2.
Proof.
  intros H. unfold acceptLoop. destruct r as [input|e]; [by destruct H; split|].
  destruct (cancelled s); [done|]. by destruct H; split.
Qed.

Lemma sessions_acceptLoop isTLS r w s :
  J w → Forall (λ g, Inv (session_of g)) (sessions s) →
  Forall (λ g, Inv (session_of g)) (sessions (acceptLoop c isTLS r w s).2).
Proof.
  intros Hw Hs. unfold acceptLoop. destruct r as [input|e]; simpl; [|by destruct (cancelled s)].
  apply Forall_app. split; [done|]. apply Forall_singleton. by apply Hc.
Qed.

Lemma acceptLoop_returns isTLS r w s s1 :
  acceptLoop c isTLS r w s = (false, s1) → s1 = s ∧ cancelled s = true.
Proof. unfold acceptLoop. destruct r; [done|]. destruct (cancelled s); naive_solver. Qed.

Lemma accept_inv isTLS r w s s' :
  accept c isTLS r w s = Some s' → server_inv (s, w) → server_inv (s', w).
Proof.
  intros E [Hal Hw Hs Hct]. simpl in *.
  pose proof (control_acceptLoop isTLS r w s Hct) as Hct'.
  pose proof (sessions_acceptLoop isTLS r w s Hw Hs) as Hs'.
  assert (proc (acceptLoop c isTLS r w s).2 = proc s) as Hp
    by (unfold acceptLoop; destruct r; [done|by destruct (cancelled s)]).
  unfold accept in E. destruct isTLS.
  - destruct (tls_loop s) eqn:El; try done. destruct (may_return _ _); [|done].
    destruct (acceptLoop c true r w s) as [[] s1] eqn:Ea; simplify_eq/=; [split; simpl; congruence || done|].
    apply acceptLoop_returns in Ea as [-> Hcn].
    split; simpl; [done..|]. clear Hct. destruct Hct'. control_cases.
  - destruct (start s) eqn:El; try done. destruct (may_return _ _); [|done].
    destruct (acceptLoop c false r w s) as [[] s1] eqn:Ea; simplify_eq/=; [split; simpl; congruence || done|].
    apply acceptLoop_returns in Ea as [-> Hcn].
    split; simpl; [done..|]. clear Hct. destruct Hct'. control_cases.
Qed.

Lemma session_step_inv i w s sw' :
  session_step c i w s = Some sw' → server_inv (s, w) → server_inv sw'.
Proof.
  intros E [Hal Hw Hs Hct]. simpl in *. unfold session_step in E.
  assert (∀ g w', Inv (session_of g) → J w' →
    server_inv (set_sessions (<[i := g]> (sessions s)) s, w')) as Hput.
  { intros g w' Hg Hw'. split; simpl; [done|done| |].
    - by apply Forall_insert.
    - by destruct Hct; split. }
  destruct (sessions s !! i) as [[x|x|x]|] eqn:Hi; [| |done|done];
    (assert (Inv (set_world c w x)) as Hx by
      (apply Hc; [|done]; by eapply (Forall_lookup_1 (λ g, Inv (session_of g))) in Hi)).
  - pose proof (law_greet _ _ _ Hc _ Hx) as Hg. apply wp_run in Hg as ([] & x' & Eg & Hx').
    rewrite Eg in E. simplify_eq. apply Hput; [done|by apply Hc].
  - pose proof (law_iterate _ _ _ Hc _ Hx) as Hg. apply wp_run in Hg as (b & x' & Eg & Hx').
    rewrite Eg in E. simplify_eq. apply Hput; [by destruct b|by apply Hc].
Qed.

Lemma watch_inv s s' : watch c s = Some s' → control s → control s' ∧ proc s' = proc s ∧ sessions s' = sessions s.
Proof.
  intros E Hct. unfold watch in E. destruct (watcher s) eqn:Ew; try done.
  - destruct (cancelled s) eqn:Ecn; [|done]. injection E as <-. split; [|done].
    destruct Hct. pose proof (ct_waiting0 Ew) as Hl.
    rewrite Hl. destruct (listenerTLS s) eqn:Et; control_cases.
  - injection E as <-. split; [|done]. destruct Hct. pose proof (ct_closeTLS0 Ew) as Hl.
    pose proof (ct_closed0 (or_introl Hl)) as Hcn.
    destruct (listenerTLS s) eqn:Et; control_cases.
Qed.

Lemma Start_listen_inv err s : start s = SListen → control s → control (Start_listen c err s).
Proof.
  intros El []. unfold Start_listen. destruct err as [e|]; [control_cases|].
  destruct (has_tls c); control_cases.
Qed.

Lemma Start_listenTLS_inv err s : start s = SListenTLS → control s → control (Start_listenTLS c err s).
Proof.
  intros El []. unfold Start_listenTLS.
  destruct err as [e|]; control_cases.
Qed.

Lemma server_step_inv e sw sw' : server_step c e sw = Some sw' → server_inv sw → server_inv sw'.
Proof.
  destruct sw as [s w]. unfold server_step. destruct (proc s) eqn:Hp; try done. intros E Hi.
  pose proof Hi as [Hal Hw Hs Hct]. simpl in *. destruct e as [err|err|b r| |i| |].
  - destruct (start s) eqn:El; try done. simplify_eq. pose proof (Start_listen_inv err s El Hct).
    split; simpl; [|done| |done]; unfold Start_listen; destruct err, (has_tls c); simpl; congruence || done.
  - destruct (start s) eqn:El; try done. simplify_eq. pose proof (Start_listenTLS_inv err s El Hct).
    split; simpl; [|done| |done]; unfold Start_listenTLS; destruct err; simpl; congruence || done.
  - destruct (accept c b r w s) eqn:Ea; simplify_eq/=. by eapply accept_inv.
  - destruct (watch c s) eqn:Ea; simplify_eq/=. destruct (watch_inv _ _ Ea Hct) as (? & ? & Hse).
    split; simpl; [congruence|done|by rewrite Hse|done].
  - by eapply session_step_inv.
  - simplify_eq. split; simpl; [congruence|done|done|]. destruct Hct. control_cases.
  - destruct (start s) eqn:El; try done. simplify_eq. split; simpl; [congruence|done|done|].
    destruct Hct. control_cases.
Qed.

(** The states a server reaches among other processes, which can change the store to any
    that satisfies [J] between its steps. *)
Inductive served (w0 : W) : server Sess * W → Prop :=
| served_start : served w0 (new_server, w0)
| served_step e sw sw' : served w0 sw → server_step c e sw = Some sw' → served w0 sw'
| served_others s w w' : served w0 (s, w) → J w' → served w0 (s, w').

Lemma served_inv w0 sw : J w0 → served w0 sw → server_inv sw.
Proof.
  intros Hw. induction 1 as [|e sw sw' _ IH E|s w w' _ [] Hw']; [by apply new_server_inv|by eapply server_step_inv|].
  by split.
Qed.

(** When tls.Listen fails, [Start] has returned and the plain listener stays open for as
    long as the process lives: nothing accepts its connections, and nothing closes it. *)
Lemma failed_start es : ∀ sw sw',
  (∃ err, start sw.1 = SReturned (Some err)) → tls_loop sw.1 = LoopNone → watcher sw.1 = WatchNone →
  sessions sw.1 = [] → run c es sw = Some sw' →
  start sw'.1 = start sw.1 ∧ listener sw'.1 = listener sw.1 ∧ sessions sw'.1 = [] ∧ sw'.2 = sw.2.
Proof.
  induction es as [|e es IH]; intros [s w] sw' [err Hs] Ht Hw Hl E; cbn [run fst snd] in *; [by simplify_eq|].
  destruct (server_step c e (s, w)) as [[s1 w1]|] eqn:E1; [|done]. cbn [mbind option_bind] in E.
  assert (start s1 = start s ∧ tls_loop s1 = tls_loop s ∧ watcher s1 = watcher s ∧ sessions s1 = sessions s
          ∧ listener s1 = listener s ∧ w1 = w) as (Q1 & Q2 & Q3 & Q4 & Q5 & ->).
  { unfold server_step in E1. destruct (proc s); try done.
    destruct e as [| |[]| |i| |]; unfold accept, watch, session_step in E1; rewrite ?Hs, ?Ht, ?Hw, ?Hl in E1;
      by simplify_eq/=. }
  destruct (IH (s1, w) sw') as (R1 & R2 & R3 & R4); simpl in *; [by rewrite Q1; eauto|congruence..|].
  split_and!; congruence.
Qed.

(** ** Runs

    A run of the server among other processes: at each instant an event of the server
    happens, or others have changed the store to one that satisfies [J]. *)
Record trace := mkTrace { config : nat → server Sess * W; happens : nat → option event }.

Definition valid (tr : trace) : Prop := ∀ n,
  match happens tr n with
  | Some e => server_step c e (config tr n) = Some (config tr (S n))
  | None => (config tr (S n)).1 = (config tr n).1 ∧ J (config tr (S n)).2
  end.

Lemma valid_inv tr n m : valid tr → server_inv (config tr n) → n ≤ m → server_inv (config tr m).
Proof.
  intros Hv Hi Hle. induction Hle as [|m _ IH]; [done|]. specialize (Hv m).
  destruct (happens tr m) as [e|]; [by eapply server_step_inv|]. destruct Hv as [Es Hj].
  destruct IH. split; [by rewrite Es|done|by rewrite Es..].
Qed.

(** The goroutines, whether the next statement of one can be executed without waiting for
    the network, and which events are its steps. Nothing is assumed of the sessions: a read,
    a write or a call of the store may never return. *)
Inductive gid := GStart | GTLS | GWatch.

Definition ready (g : gid) s : bool :=
  match proc s with
  | Running =>
      match g with
      | GStart => match start s, listener s with
                  | (SListen | SListenTLS), _ | SAccept, Some Closed => true
                  | _, _ => false
                  end
      | GTLS => match tls_loop s, listenerTLS s with LoopAccept, Some Closed => true | _, _ => false end
      | GWatch => match watcher s with WatchWait => cancelled s | WatchCloseTLS => true | _ => false end
      end
  | _ => false
  end.

Definition moves (g : gid) (e : event) : bool :=
  match g, e with
  | GStart, (EListen _ | EListenTLS _ | EAccept false _) => true
  | GTLS, EAccept true _ => true
  | GWatch, EWatch => true
  | _, _ => false
  end.

(** The scheduler forgets none of these goroutines when it can run. *)
Definition fair (tr : trace) : Prop := ∀ g n, ready g (config tr n).1 = true →
  ∃ m, n ≤ m ∧ (ready g (config tr m).1 = false ∨ ∃ e, happens tr m = Some e ∧ moves g e = true).

(** The rule for progress: when goroutine [g] is ready in every state of [P], and only its
    own steps leave [P], then it takes a step from [P], unless the process ends before. *)
Lemma fair_leads tr g (P : server Sess → Prop) n :
  valid tr → fair tr →
  (∀ s, P s → proc s = Running → ready g s = true) →
  (∀ e s w s' w', P s → server_step c e (s, w) = Some (s', w') → moves g e = false → P s') →
  P (config tr n).1 →
  ∃ k, n ≤ k ∧ (proc (config tr k).1 ≠ Running
                ∨ P (config tr k).1 ∧ ∃ e, happens tr k = Some e ∧ moves g e = true).
Proof.
  intros Hv Hf Hready Hkeep Hn.
  destruct (decide (proc (config tr n).1 = Running)) as [Hr|Hr]; [|by exists n; auto].
  destruct (Hf g n (Hready _ Hn Hr)) as (m & Hle & Hm). clear Hr.
  apply Nat.le_sum in Hle as [d ->]. revert n Hn Hm. induction d as [|d IH]; intros n Hn Hm.
  - exists n. split; [done|]. rewrite Nat.add_0_r in Hm. destruct Hm as [Hm|Hm]; [|by right].
    left. intros Hr. rewrite (Hready _ Hn Hr) in Hm. done.
  - destruct (happens tr n) as [e|] eqn:He; [destruct (moves g e) eqn:Hg; [by exists n; eauto 6|]|].
    all: destruct (IH (S n)) as (k & Hk & H); [|by rewrite Nat.add_succ_comm|exists k; split; [lia|done]].
    all: specialize (Hv n); rewrite He in Hv.
    + destruct (config tr n), (config tr (S n)). by eapply Hkeep.
    + by rewrite (proj1 Hv).
Qed.

(** *** Runs that come to rest *)

Lemma run_app es1 es2 sw : run c (es1 ++ es2) sw = run c es1 sw ≫= run c es2.
Proof.
  revert sw. induction es1 as [|e es IH]; intros sw; cbn [app run]; [done|].
  destruct (server_step c e sw); [apply IH|done].
Qed.

Lemma served_run w0 es sw : run c es (new_server, w0) = Some sw → served w0 sw.
Proof.
  revert sw. induction es as [|e es IH] using rev_ind; intros sw E; [injection E as <-; constructor|].
  rewrite run_app in E. destruct (run c es (new_server, w0)) as [sw1|]; [|done]. simpl in E.
  destruct (server_step c e sw1) as [sw2|] eqn:E2; simplify_eq/=. by eapply served_step; [apply IH|].
Qed.

(** The run that goes through [es] and in which nothing happens afterwards. *)
Definition scheduled (w0 : W) (es : list event) : trace :=
  mkTrace (λ n, default (new_server, w0) (run c (take n es) (new_server, w0))) (λ n, es !! n).

Lemma scheduled_valid w0 es sw :
  run c es (new_server, w0) = Some sw → J sw.2 → valid (scheduled w0 es).
Proof.
  intros E Hw n. unfold scheduled. cbn [happens config].
  destruct (es !! n) as [e|] eqn:He.
  - rewrite (take_S_r _ _ _ He). rewrite <- (take_drop (S n) es), (take_S_r _ _ _ He), !run_app in E.
    rewrite run_app. destruct (run c (take n es) (new_server, w0)) as [sw1|]; [|done].
    cbn [mbind option_bind run from_option id] in *. by destruct (server_step c e sw1).
  - apply lookup_ge_None in He. rewrite !take_ge by lia. by rewrite E.
Qed.

Lemma scheduled_fair w0 es sw :
  run c es (new_server, w0) = Some sw → (∀ g, ready g sw.1 = false) → fair (scheduled w0 es).
Proof.
  intros E Hr g n _. exists (n + length es). split; [lia|]. left. unfold scheduled. simpl.
  rewrite take_ge by lia. by rewrite E.
Qed.

(** *** What a step leaves as it is *)

Ltac step_cases E :=
  unfold server_step, accept, watch, acceptLoop, Start_listen, Start_listenTLS, session_step in E;
  repeat case_match; simplify_eq/=; try done.

Lemma step_cancelled e s w s' w' :
  cancelled s = true → server_step c e (s, w) = Some (s', w') → cancelled s' = true.
Proof. intros Hc' E. destruct e; step_cases E. Qed.

(** [Start] is past the listeners, with no error. *)
Definition launched s : Prop := start s = SAccept ∨ start s = SReturned None.

Lemma step_launched e s w s' w' : launched s → server_step c e (s, w) = Some (s', w') → launched s'.
Proof. intros [H|H] E; unfold launched; destruct e; step_cases E; auto. Qed.

Lemma step_watcher e s w s' w' :
  launched s → server_step c e (s, w) = Some (s', w') → moves GWatch e = false → watcher s' = watcher s.
Proof. intros [H|H] E He; destruct e; step_cases E. Qed.

Lemma step_closed e s w s' w' :
  launched s → server_step c e (s, w) = Some (s', w') →
  (listener s = Some Closed → listener s' = Some Closed)
  ∧ (listenerTLS s = Some Closed → listenerTLS s' = Some Closed).
Proof. intros [H|H] E; destruct e; step_cases E; split; intros Hx; rewrite ?Hx; simpl; congruence || done. Qed.

Lemma step_SAccept e s w s' w' :
  start s = SAccept → server_step c e (s, w) = Some (s', w') → moves GStart e = false → start s' = SAccept.
Proof. intros H E He; destruct e as [| |[]| | | |]; step_cases E. Qed.

Lemma step_tls_loop e s w s' w' :
  launched s → server_step c e (s, w) = Some (s', w') → moves GTLS e = false → tls_loop s' = tls_loop s.
Proof. intros [H|H] E He; destruct e as [| |[]| | | |]; step_cases E. Qed.

(** *** Shutdown *)

Context (tr : trace) (Hv : valid tr) (Hf : fair tr).
Local Notation srv n := (config tr n).1.

Lemma launched_always n m : launched (srv n) → n ≤ m → launched (srv m).
Proof.
  intros H Hle. induction Hle as [|m _ IH]; [done|]. specialize (Hv m).
  destruct (happens tr m) as [e|]; [|by rewrite (proj1 Hv)].
  destruct (config tr m), (config tr (S m)). by eapply step_launched.
Qed.

(** A process that is not running has exited, and Start had returned. *)
Lemma not_running n : server_inv (config tr n) → launched (srv n) → proc (srv n) ≠ Running →
  start (srv n) = SReturned None.
Proof.
  intros [Hal _ _ Hct] [Hl|Hl] Hp; [|done]. destruct (proc (srv n)) eqn:E; try done.
  destruct (ct_exited _ Hct E) as [r Hr]. congruence.
Qed.

(** A step of a goroutine that the rule [fair_leads] has found. *)
Lemma taken k e : happens tr k = Some e → server_step c e (config tr k) = Some (config tr (S k)).
Proof. intros E. specialize (Hv k). by rewrite E in Hv. Qed.

Lemma watcher_ends n :
  launched (srv n) → cancelled (srv n) = true → watcher (srv n) ≠ WatchNone →
  ∃ m, n ≤ m ∧ (proc (srv m) ≠ Running ∨ watcher (srv m) = WatchDone).
Proof.
  assert (∀ n, launched (srv n) → watcher (srv n) = WatchCloseTLS →
    ∃ m, n ≤ m ∧ (proc (srv m) ≠ Running ∨ watcher (srv m) = WatchDone)) as Hclose.
  { clear n. intros n Hl Hw.
    destruct (fair_leads tr GWatch (λ s, launched s ∧ watcher s = WatchCloseTLS) n Hv Hf)
      as (k & Hk & [Hp|[[Hlk Hwk] (e & He & Hm)]]); [..|by exists k; auto|].
    - intros s [_ Hs] Hr. unfold ready. by rewrite Hr, Hs.
    - intros e s w s' w' [Hs1 Hs2] E Hm. split; [by eapply step_launched|].
      rewrite <- Hs2. by eapply step_watcher.
    - done.
    - apply taken in He. destruct (config tr k) as [s w] eqn:Ek, (config tr (S k)) as [s' w'] eqn:Ek'.
      exists (S k). split; [lia|]. right. rewrite Ek'. simpl in *. destruct e; try done. step_cases He. }
  intros Hl Hc' Hw. destruct (watcher (srv n)) eqn:E; [done| |by apply Hclose|by exists n; auto].
  destruct (fair_leads tr GWatch (λ s, launched s ∧ watcher s = WatchWait ∧ cancelled s = true) n Hv Hf)
    as (k & Hk & [Hp|[(Hlk & Hwk & Hck) (e & He & Hm)]]); [..|by exists k; auto|].
  - intros s (_ & Hs & Hcs) Hr. unfold ready. by rewrite Hr, Hs.
  - intros e s w s' w' (Hs1 & Hs2 & Hs3) E' Hm. split_and!; [by eapply step_launched| |by eapply step_cancelled].
    rewrite <- Hs2. by eapply step_watcher.
  - done.
  - apply taken in He. assert (launched (srv (S k))) as Hl' by (eapply launched_always; [done|lia]).
    assert (watcher (srv (S k)) = WatchCloseTLS ∨ watcher (srv (S k)) = WatchDone) as [Hd|Hd].
    { destruct (config tr k) as [s w], (config tr (S k)) as [s' w']. simpl in *. destruct e; try done.
      step_cases He; auto. }
    + destruct (Hclose (S k) Hl' Hd) as (m & Hm' & H). exists m. split; [lia|done].
    + exists (S k). split; [lia|by right].
Qed.

(** After the signal, [Start] returns nil. *)
Lemma start_returns n :
  server_inv (config tr n) → start (srv n) = SAccept → cancelled (srv n) = true →
  ∃ m, n ≤ m ∧ start (srv m) = SReturned None.
Proof.
  intros Hi Hs Hc'. assert (launched (srv n)) as Hl by by left.
  destruct (watcher_ends n Hl Hc') as (k & Hk & Hw); [by apply (ct_accept _ (si_control _ Hi))|].
  pose proof (launched_always n k Hl Hk) as Hlk. pose proof (valid_inv tr n k Hv Hi Hk) as Hik.
  destruct Hw as [Hp|Hw]; [exists k; split; [done|by apply not_running]|].
  destruct (ct_watched _ (si_control _ Hik) Hw) as [Hcl _].
  destruct Hlk as [Hsk|Hsk]; [|by exists k].
  assert (launched (srv k)) as Hlk by by left.
  destruct (fair_leads tr GStart (λ s, start s = SAccept ∧ listener s = Some Closed) k Hv Hf)
    as (j & Hj & [Hp|[[Hsj Hcj] (e & He & Hm)]]).
  - intros s [Hs1 Hs2] Hr. unfold ready. by rewrite Hr, Hs1, Hs2.
  - intros e s w s' w' [Hs1 Hs2] E Hm. split; [by eapply step_SAccept|].
    by eapply step_closed; [by left|..].
  - done.
  - exists j. split; [lia|]. apply not_running; [|by eapply launched_always|done].
    eapply valid_inv; [done..|]. lia.
  - apply taken in He. exists (S j). split; [lia|].
    assert (cancelled (srv j) = true) as Hcn.
    { apply (ct_closed _ (si_control _ (valid_inv tr n j Hv Hi ltac:(lia)))). by left. }
    destruct (config tr j) as [s w], (config tr (S j)) as [s' w']. simpl in *.
    destruct e as [| |[] r| | | |]; try done; unfold server_step, accept in He;
      rewrite Hsj in He; try (by destruct (proc s)). rewrite Hcj in He. unfold acceptLoop in He. rewrite Hcn in He.
    destruct (proc s), r; by simplify_eq/=.
Qed.

Lemma tls_loop_always n m :
  launched (srv n) → tls_loop (srv n) = LoopAccept → n ≤ m →
  tls_loop (srv m) = LoopAccept ∨ tls_loop (srv m) = LoopReturned.
Proof.
  intros Hl Ht Hle. induction Hle as [|m Hle IH]; [by left|].
  pose proof (launched_always n m Hl Hle) as Hlm. specialize (Hv m).
  destruct (happens tr m) as [e|]; [|by rewrite (proj1 Hv)].
  destruct (config tr m) as [s w], (config tr (S m)) as [s' w']. simpl in *.
  destruct (moves GTLS e) eqn:Hm; [|by rewrite (step_tls_loop e s w s' w')].
  destruct e as [| |[]| | | |]; try done. unfold server_step, accept in Hv.
  destruct (proc s), (tls_loop s) eqn:El; try done. destruct (may_return _ _); [|done].
  destruct (acceptLoop _ _ _ _ _) as [[] s1] eqn:Ea; simplify_eq/=; auto. left. unfold acceptLoop in Ea. repeat case_match; by simplify_eq.
Qed.

(** After the signal the loop of the TLS listener returns, or the process has ended. *)
Lemma tls_loop_returns n :
  server_inv (config tr n) → launched (srv n) → tls_loop (srv n) = LoopAccept → cancelled (srv n) = true →
  ∃ m, n ≤ m ∧ (proc (srv m) = Exited ∨ tls_loop (srv m) = LoopReturned).
Proof.
  intros Hi Hl Ht Hc'.
  assert (∀ m, n ≤ m → proc (srv m) ≠ Running → proc (srv m) = Exited) as Hex.
  { intros m Hm Hp. pose proof (si_alive _ (valid_inv tr n m Hv Hi Hm)). by destruct (proc (srv m)). }
  set (P s := launched s ∧ tls_loop s = LoopAccept ∧ listenerTLS s = Some Closed).
  destruct (watcher_ends n Hl Hc') as (k & Hk & Hw); [by apply (ct_tls _ (si_control _ Hi))|].
  pose proof (launched_always n k Hl Hk) as Hlk. pose proof (valid_inv tr n k Hv Hi Hk) as Hik.
  destruct Hw as [Hp|Hw]; [exists k; auto|].
  destruct (tls_loop_always n k Hl Ht Hk) as [Htk|Htk]; [|by exists k; auto].
  destruct (ct_watched _ (si_control _ Hik) Hw) as [_ Hcl].
  destruct (ct_tls _ (si_control _ Hik) Htk) as [Hcl' _].
  destruct (fair_leads tr GTLS P k Hv Hf) as (j & Hj & [Hp|[(Hlj & Htj & Hcj) (e & He & Hm)]]).
  - intros s (_ & Hs1 & Hs2) Hr. unfold ready. by rewrite Hr, Hs1, Hs2.
  - intros e s w s' w' (Hs0 & Hs1 & Hs2) E Hm. split_and!; [by eapply step_launched| |by eapply step_closed].
    rewrite <- Hs1. by eapply step_tls_loop.
  - split_and!; [done..|]. by destruct (listenerTLS (srv k)) as [[]|].
  - exists j. split; [lia|]. left. apply Hex; [lia|done].
  - apply taken in He. exists (S j). split; [lia|]. right.
    assert (cancelled (srv j) = true) as Hcn.
    { apply (ct_closed _ (si_control _ (valid_inv tr n j Hv Hi ltac:(lia)))). by right. }
    destruct (config tr j) as [s w], (config tr (S j)) as [s' w']. simpl in *.
    destruct e as [| |[] r| | | |]; try done. unfold server_step, accept in He.
    rewrite Htj, Hcj in He. unfold acceptLoop in He. rewrite Hcn in He.
    destruct (proc s), r; by simplify_eq/=.
Qed.
End props.
