(* ===== verification/SmtpProps.v ===== *)
(** * Properties of the SMTP session

    The machine of the session refines the transition function [smtp_next]; every session
    keeps an invariant that ties the protocol state to the envelope; the read loop ends,
    without a panic, on every input; and what it hands to the delivery pipeline is a valid
    message. *)

From S2P Require Import Prelude GoStrings GoIO FSM Config Ports Security Smtp Concrete.

(** ** The protocol machine *)

#[export] Instance State_str_inj : Inj (=) (=) State_str.
Proof. intros [] []; vm_compute; intros; congruence. Qed.

(** What the events do, as a function on states (the "SMTP session FSM" of the README). *)
Definition smtp_next (ev : SMTPEvent) (st : State) : option State :=
  match ev, st with
  | EventEHLO, (StateInit | StateGreeted) => Some StateGreeted
  | EventMailFrom, StateGreeted => Some StateMailFrom
  | EventRcptTo, StateMailFrom => Some StateRcptTo
  | EventData, StateRcptTo => Some StateData
  | EventDone, StateData => Some StateGreeted
  | EventRset, (StateGreeted | StateMailFrom | StateRcptTo | StateData) => Some StateGreeted
  | EventQuit, (StateInit | StateGreeted | StateMailFrom | StateRcptTo | StateData) => Some StateQuit
  | _, _ => None
  end.

Lemma smtp_table ev st :
  event_table smtp_events (SMTPEvent_str ev) (State_str st) = State_str <$> smtp_next ev st.
Proof. destruct ev, st; vm_compute; reflexivity. Qed.

(** The states an accepted event leads to. An event whose destination is the state the
    machine is in is refused. *)
Abbreviation smtp_accepts := (accepts smtp_next).

Section machine.
Context `{L : FSMLib} `{LL : !FSMLaws L} `{T : TLSLib} {D : Type}.
Implicit Types s : Session D.

Definition at_state (s : Session D) (st : State) : Prop :=
  in_state State_str smtp_events (fsm s) st.

Lemma at_state_fun s st st' : at_state s st → at_state s st' → st = st'.
Proof. apply in_state_inj, _. Qed.

Lemma fresh_fsm : in_state State_str smtp_events newSMTPFSM StateInit.
Proof. apply in_state_NewFSM. Qed.

Lemma at_state_current s st st' : at_state s st → currentState s = State_str st' ↔ st = st'.
Proof.
  intros [H _]. unfold currentState. rewrite H. split; [apply (inj State_str)|congruence].
Qed.

Definition reply_503 : gostring := str "503 Bad sequence of commands".

Lemma transition_run s st ev :
  at_state s st →
  ∃ f', match smtp_accepts st ev with
        | Some d => transition ev s = Ok (true, set_fsm f' s)
                    ∧ in_state State_str smtp_events f' d
        | None => transition ev s = Ok (false, add_out reply_503 (set_fsm f' s))
                  ∧ in_state State_str smtp_events f' st
        end.
Proof.
  intros H. exists (fst (Event (fsm s) (SMTPEvent_str ev))).
  pose proof (Event_in_state State_str SMTPEvent_str smtp_events smtp_next smtp_table _ _ ev H) as HE.
  unfold transition, gets, modify, write, mbind, M_bind. simpl.
  destruct (Event (fsm s) (SMTPEvent_str ev)) as [f' err]; simpl in *.
  destruct (accepts smtp_next st ev) as [d|]; destruct HE as [He Hf].
  - by rewrite He.
  - destruct He as [e ->]. done.
Qed.

Lemma wp_transition s st ev (Q : bool → Session D → Prop) :
  at_state s st →
  (∀ f' d, smtp_accepts st ev = Some d → in_state State_str smtp_events f' d → Q true (set_fsm f' s)) →
  (∀ f', smtp_accepts st ev = None → in_state State_str smtp_events f' st →
         Q false (add_out reply_503 (set_fsm f' s))) →
  wp (transition ev) s Q.
Proof.
  intros H Ht Hf. destruct (transition_run s st ev H) as [f' HE]. unfold wp.
  destruct (accepts smtp_next st ev) as [d|] eqn:E; destruct HE as [-> Hs]; eauto.
Qed.
End machine.

(** ** Addresses *)

Section address.
Context `{U : UnicodeData}.

Lemma slice_from_Some s n : n ≤ length s → slice_from s n = Some (drop n s).
Proof. intros H. unfold slice_from. apply Nat.leb_le in H. by rewrite H. Qed.

Lemma slice_middle a j b : slice (a :: j ++ [b]) 1 (length (a :: j ++ [b]) - 1) = Some j.
Proof.
  unfold slice. change (drop 1 (a :: j ++ [b])) with (j ++ [b]).
  replace (length (a :: j ++ [b])) with (S (S (length j))) by (simpl; rewrite length_app; simpl; lia).
  replace (S (S (length j)) - 1) with (S (length j)) by lia.
  replace (S (length j) - 1) with (length j) by lia.
  rewrite take_app_length. destruct (_ && _) eqn:E; [done|].
  apply andb_false_iff in E as [E%Nat.leb_gt|E%Nat.leb_gt]; lia.
Qed.

Lemma angle_brackets rest :
  HasPrefix rest (str "<") = true → HasSuffix rest (str ">") = true →
  ∃ inner, rest = str "<" ++ inner ++ str ">" ∧ slice rest 1 (length rest - 1) = Some inner.
Proof.
  intros [k ->]%HasPrefix_true [j Hj]%HasSuffix_true.
  change (str "<") with ["<"%char] in *. change (str ">") with [">"%char] in *.
  destruct j as [|c j]; [done|]. injection Hj as <- ->.
  exists j. split; [done|]. apply slice_middle.
Qed.

(** What extractAddress returns, as a relation on the text after the keyword. *)
Lemma extractAddress_cases args prefix :
  is_ascii prefix = true →
  ∃ addr ok, extractAddress args prefix = Some (addr, ok)
    ∧ (ok = true →
         HasPrefix (ToUpper args) prefix = true ∧ addr ≠ []
         ∧ let rest := TrimSpace (drop (length prefix) args) in
           rest = str "<" ++ addr ++ str ">" ∨ rest = addr)
    ∧ (ok = false → addr = []).
Proof.
  intros Hp. unfold extractAddress.
  destruct (HasPrefix (ToUpper args) prefix) eqn:Hpre; simpl; [|by eexists [], false].
  rewrite slice_from_Some by (by eapply ToUpper_prefix_length). simpl.
  set (rest := TrimSpace (drop (length prefix) args)).
  destruct (HasPrefix rest (str "<") && HasSuffix rest (str ">")) eqn:Hb.
  - apply andb_true_iff in Hb as [H1 H2].
    destruct (angle_brackets rest H1 H2) as (inner & Hr & ->). simpl.
    case_bool_decide; [by eexists [], false|].
    exists inner, true. naive_solver.
  - case_bool_decide; [|by eexists [], false].
    exists rest, true. naive_solver.
Qed.

Lemma extractAddress_no_LF args prefix addr ok :
  LF ∉ args → is_ascii prefix = true → extractAddress args prefix = Some (addr, ok) → LF ∉ addr.
Proof.
  intros Ha Hp E. destruct (extractAddress_cases args prefix Hp) as (a & o & E' & Ht & Hf).
  rewrite E in E'. simplify_eq. destruct o; [|rewrite Hf by done; set_solver].
  destruct (Ht eq_refl) as (_ & _ & Hr). intros Hin. apply Ha.
  assert (LF ∈ TrimSpace (drop (length prefix) args)) as HT.
  { destruct Hr as [-> | ->]; [|done]. rewrite !elem_of_app. auto. }
  apply TrimSpace_elem in HT. rewrite <- (take_drop (length prefix) args). set_solver.
Qed.
End address.

(** ** The session invariant *)

(** A text that is empty or ends with a line feed. *)
Definition whole_lines (b : gostring) : Prop := b = [] ∨ last b = Some LF.

Lemma whole_lines_app a b : whole_lines a → whole_lines b → whole_lines (a ++ b).
Proof.
  intros Ha [-> |Hb]; [by rewrite app_nil_r|]. right. by rewrite last_app, Hb.
Qed.

(** What the pipeline is handed: a sender, one to a hundred recipients, and a body of whole
    lines within the configured size, whose length is announced. *)
Definition valid_event (max : Z) (e : MessageReceived) : Prop :=
  Received_From e ≠ [] ∧ 1 ≤ length (Received_To e) ≤ 100
  ∧ Received_Size e = Z.of_nat (length (Received_Body e))
  ∧ (Received_Size e ≤ Z.max 0 max)%Z ∧ whole_lines (Received_Body e).

(** Every line sent is one line: CRLF ends it and no other line feed occurs in it. *)
Definition one_line (l : gostring) : Prop := ∃ x, l = x ++ CRLF ∧ LF ∉ x.

Definition envelope_ok (st : State) (e : Envelope) : Prop :=
  length (To e) ≤ 100
  ∧ (st = StateMailFrom ∨ st = StateRcptTo ∨ st = StateData → From e ≠ [])
  ∧ (st = StateRcptTo ∨ st = StateData → To e ≠ []).

Section invariant.
Context `{L : FSMLib} `{LL : !FSMLaws L} `{T : TLSLib} `{U : UnicodeData} `{C : Clock}.
Context {D : Type} `{P : DeliveryPipeline D}.
Context (cf : Config) (J : D → Prop).

Record smtp_inv (s : Session D) : Prop := {
  inv_state : ∃ st, at_state s st ∧ envelope_ok st (envelope s);
  inv_tls : isTLS s = c_tls (conn s);
  inv_cfg : cfg s = cf;
  inv_out : Forall (λ l, one_line (snd l)) (out s);
  inv_J : J (delivery s);
}.

(** The pipeline keeps [J] on valid messages, and returns. *)
Context (deliver_J : ∀ e d, valid_event (MaxSize (SMTP cf)) e → J d →
                       wp (Deliver e) d (λ _ d', J d')).
Context (domain_no_LF : LF ∉ Domain_name (SMTP cf)).

Lemma one_line_str x : LF ∉ x → one_line (x ++ CRLF).
Proof. unfold one_line. eauto. Qed.

Lemma inv_add_out s x : smtp_inv s → LF ∉ x → smtp_inv (add_out x s).
Proof.
  intros [] Hx. split; simpl; try done.
  apply Forall_app. split; [done|]. apply Forall_singleton. by apply one_line_str.
Qed.

Lemma inv_set_input s c : smtp_inv s → smtp_inv (set_input c s).
Proof. intros []. by split. Qed.

Lemma inv_set_reader s b : smtp_inv s → smtp_inv (set_reader b s).
Proof. intros []. by split. Qed.

Lemma inv_tick s : smtp_inv s → smtp_inv (tick s).
Proof. intros []. by split. Qed.

Lemma inv_set_delivery s d : smtp_inv s → J d → smtp_inv (set_delivery d s).
Proof. intros [] ?. by split. Qed.

(** Moving the machine and changing the envelope together. *)
Lemma inv_move s f st e :
  smtp_inv s → in_state State_str smtp_events f st → envelope_ok st e →
  smtp_inv (set_envelope e (set_fsm f s)).
Proof. intros [] ? ?. split; simpl; eauto. Qed.

Lemma inv_set_fsm s f st :
  smtp_inv s → in_state State_str smtp_events f st → envelope_ok st (envelope s) →
  smtp_inv (set_fsm f s).
Proof. intros [] ? ?. split; simpl; eauto. Qed.

Lemma envelope_ok_reset st e :
  (st = StateInit ∨ st = StateGreeted ∨ st = StateQuit) → envelope_ok st (Envelope_Reset e).
Proof. intros H. unfold envelope_ok. simpl. split_and!; [lia|naive_solver..]. Qed.

(** A refused event changes nothing but the output. *)
Lemma inv_refused s st f :
  smtp_inv s → at_state s st → in_state State_str smtp_events f st →
  smtp_inv (add_out reply_503 (set_fsm f s)).
Proof.
  intros Hi Ha Hf. apply inv_add_out; [|no_LF].
  eapply inv_set_fsm; [done..|]. destruct Hi as [(st' & Ha' & He) _ _ _ _].
  by rewrite (at_state_fun s st st').
Qed.

(** *** The DATA loop *)

Definition within (body : gostring) : Prop :=
  (Z.of_nat (length body) ≤ Z.max 0 (MaxSize (SMTP cf)))%Z ∧ whole_lines body.

(** How the loop leaves the session: with the whole message; or, on a read error, with
    nothing but input consumed; or, past the size limit, reset. *)
Definition data_post (s : Session D) (r : option gostring) (s' : Session D) : Prop :=
  ∃ c, conn_size c ≤ conn_size (c_in (conn s)) ∧
  match r with
  | Some body => within body ∧ s' = set_input c s
  | None =>
      s' = set_input c s
      ∨ ∃ f, in_state State_str smtp_events f StateGreeted
           ∧ s' = set_fsm f (set_envelope (Envelope_Reset (envelope s))
                    (add_out (str "552 Message size exceeds maximum permitted") (set_input c s)))
  end.

Lemma data_loop_wp fuel rb body s :
  at_state s StateData → cfg s = cf → within body →
  length rb + conn_size (c_in (conn s)) < fuel →
  wp (data_loop fuel rb body) s (data_post s).
Proof.
  revert rb body s. induction fuel as [|fuel IH]; intros rb body s Hst Hcf Hb Hf; [lia|].
  cbn [data_loop]. apply wp_bind, wp_gets.
  pose proof (ReadString_spec rb (c_in (conn s))) as Hr.
  destruct (ReadString rb (c_in (conn s))) as [[[line|e] rb'] c'].
  - destruct Hr as (x & -> & Hx & _ & _ & Hc & Hl). simpl.
    apply wp_bind, wp_modify.
    destruct (_ || _); [apply wp_ret; exists c'; auto|].
    apply wp_bind.
    assert (∀ m : M (Session D) gostring, m = or_panic (slice_from (x ++ [LF]) 1) ∨ m = mret (x ++ [LF]) →
      ∃ l, m (set_input c' s) = Ok (l, set_input c' s) ∧ whole_lines l) as Hline.
    { intros m [-> | ->]; [|eexists; split; [done|right; apply last_snoc]].
      rewrite slice_from_Some by (rewrite length_app; simpl; lia). eexists. split; [done|].
      destruct x as [|b x]; [by left|right; apply last_snoc]. }
    match goal with |- wp ?m _ _ => destruct (Hline m) as (l & El & Hwl) end.
    { destruct (HasPrefix _ _); auto. }
    unfold wp at 1. rewrite El. apply wp_bind, wp_gets. simpl. rewrite Hcf.
    destruct (_ <? _)%Z eqn:Hmax; reflect_bools.
    + apply wp_bind, wp_modify, wp_bind, wp_modify, wp_bind.
      eapply (wp_transition _ StateData); [done|..].
      * intros f d Ha Hf'. vm_compute in Ha. simplify_eq. apply wp_ret.
        exists c'. split; [lia|]. right. exists f. done.
      * intros f Ha. done.
    + eapply wp_mono; [apply IH; [done..|destruct Hb; split; [lia|by apply whole_lines_app]|simpl; lia]|].
      intros r s' (c'' & Hc'' & Hr'). exists c''. simpl in Hc''. split; [lia|].
      by destruct r.
  - destruct Hr as (_ & _ & _ & Hc). apply wp_bind, wp_modify, wp_ret. exists c'. auto.
Qed.

(** *** Handlers *)

(** Input that is still to be read, buffered or not. *)
Definition input_left (s : Session D) : nat := length (reader s) + conn_size (c_in (conn s)).

(** A handler only consumes input, or it upgrades the connection to TLS, once. *)
Definition progress (s s' : Session D) : Prop :=
  (isTLS s' = isTLS s ∧ input_left s' ≤ input_left s) ∨ (isTLS s = false ∧ isTLS s' = true).

Definition keeps (s : Session D) {A} (_ : A) (s' : Session D) : Prop :=
  smtp_inv s' ∧ progress s s'.

Lemma wp_write s x : smtp_inv s → LF ∉ x → wp (write x) s (keeps s).
Proof.
  intros Hi Hx. apply wp_modify. split; [by apply inv_add_out|]. left. done.
Qed.

Lemma handleEHLO_wp s args : smtp_inv s → LF ∉ args → wp (handleEHLO args) s (keeps s).
Proof.
  intros Hi Ha. unfold handleEHLO. case_bool_decide.
  { apply wp_write; [done|no_LF]. }
  apply wp_bind. destruct (inv_state s Hi) as (st & Hst & He).
  eapply wp_transition; [done|intros f d Hd Hf|intros f Hd Hf]; simpl.
  - destruct st; vm_compute in Hd; simplify_eq.
    apply wp_bind, wp_modify, wp_bind, wp_gets.
    assert (smtp_inv (set_envelope (Envelope_Reset (envelope (set_fsm f s))) (set_fsm f s))) as Hi'.
    { eapply inv_move; [done..|]. apply envelope_ok_reset. auto. }
    set (s1 := set_envelope _ _) in *.
    do 3 (apply wp_bind, wp_modify). apply wp_bind.
    assert (cfg s1 = cf) as -> by apply Hi.
    assert (∀ s2, smtp_inv s2 → progress s s2 →
      wp (write (str "250 ENHANCEDSTATUSCODES")) s2 (keeps s)) as Hlast.
    { intros s2 ? ?. apply wp_modify. split; [apply inv_add_out; [done|no_LF]|done]. }
    assert (smtp_inv (add_out (str "250-8BITMIME")
              (add_out (str "250-SIZE " ++ fmt_d (MaxSize (SMTP cf)))
                 (add_out (str "250-" ++ Domain_name (SMTP cf) ++ str " greets " ++ args) s1)))) as Hi2.
    { repeat apply inv_add_out; try done; no_LF. }
    destruct (_ && _).
    + apply wp_modify, Hlast; [apply inv_add_out; [done|no_LF]|by left].
    + apply wp_ret, Hlast; [done|by left].
  - split; [by eapply inv_refused|by left].
Qed.

(** The refused branch of every handler that fires an event. *)
Lemma keeps_refused s st f {A} (a : A) :
  smtp_inv s → at_state s st → in_state State_str smtp_events f st →
  keeps s a (add_out reply_503 (set_fsm f s)).
Proof. intros. split; [by eapply inv_refused|by left]. Qed.

Lemma handleMAIL_wp s args : smtp_inv s → LF ∉ args → wp (handleMAIL args) s (keeps s).
Proof.
  intros Hi Ha. unfold handleMAIL. apply wp_bind.
  destruct (extractAddress_cases args (str "FROM:")) as (addr & ok & -> & Hok & _); [done|].
  apply wp_ret. destruct ok; simpl; [|apply wp_write; [done|no_LF]].
  destruct (Hok eq_refl) as (_ & Hne & _). apply wp_bind.
  destruct (inv_state s Hi) as (st & Hst & He).
  eapply wp_transition; [done|intros f d Hd Hf|intros f Hd Hf]; simpl.
  - destruct st; vm_compute in Hd; simplify_eq.
    apply wp_bind, wp_modify, wp_modify. split; [|by left].
    apply inv_add_out; [|no_LF]. eapply inv_move; [done..|].
    destruct He as (Hl & _ & _). split_and!; simpl; naive_solver.
  - by eapply keeps_refused.
Qed.

Lemma handleRCPT_wp s args : smtp_inv s → LF ∉ args → wp (handleRCPT args) s (keeps s).
Proof.
  intros Hi Ha. unfold handleRCPT. apply wp_bind.
  destruct (extractAddress_cases args (str "TO:")) as (addr & ok & -> & Hok & _); [done|].
  apply wp_ret. destruct ok; cbn [negb]; [|apply wp_write; [done|no_LF]].
  apply wp_bind, wp_gets. cbv beta.
  destruct (100 <=? length (To (envelope s))) eqn:Hn; [apply wp_write; [done|no_LF]|].
  reflect_bools. apply wp_bind. destruct (inv_state s Hi) as (st & Hst & He).
  unfold transitionRcptTo. apply wp_bind, wp_gets.
  assert (∀ f, in_state State_str smtp_events f StateRcptTo → From (envelope s) ≠ [] →
    wp (modify (λ s, set_envelope (AddRecipient addr (envelope s)) s);; write (str "250 OK"))
       (set_fsm f s) (keeps s)) as Hadd.
  { intros f Hf HF. apply wp_bind, wp_modify, wp_modify. split; [|by left].
    apply inv_add_out; [|no_LF]. eapply inv_move; [done..|].
    split_and!; simpl; [rewrite length_app; simpl; lia|done|].
    intros _ ?%app_eq_nil. naive_solver. }
  case_bool_decide as Hc.
  - apply (at_state_current s st StateRcptTo Hst) in Hc as ->. apply wp_ret. simpl.
    assert (set_fsm (fsm s) s = s) as E by by destruct s.
    rewrite <- E at 1. apply Hadd; [done|]. apply He. auto.
  - eapply wp_transition; [done|intros f d Hd Hf|intros f Hd Hf]; simpl.
    + destruct st; vm_compute in Hd; simplify_eq. apply Hadd; [done|]. apply He. auto.
    + by eapply keeps_refused.
Qed.

Lemma handleRSET_wp s : smtp_inv s → wp handleRSET s (keeps s).
Proof.
  intros Hi. unfold handleRSET. apply wp_bind.
  destruct (inv_state s Hi) as (st & Hst & He).
  eapply wp_transition; [done|intros f d Hd Hf|intros f Hd Hf]; simpl.
  - assert (d = StateGreeted) as -> by (destruct st; vm_compute in Hd; congruence).
    apply wp_bind, wp_modify, wp_modify. split; [|by left].
    apply inv_add_out; [|no_LF]. eapply inv_move; [done..|]. apply envelope_ok_reset. auto.
  - by eapply keeps_refused.
Qed.

Lemma handleQUIT_wp s : smtp_inv s → wp handleQUIT s (keeps s).
Proof.
  intros Hi. unfold handleQUIT. apply wp_bind.
  destruct (inv_state s Hi) as (st & Hst & He).
  assert (cfg s = cf) as Hcf by apply Hi.
  eapply wp_transition; [done|intros f d Hd Hf|intros f Hd Hf];
    apply wp_bind, wp_gets, wp_modify;
    match goal with |- context [cfg ?x] => replace (cfg x) with cf by done end;
    (split; [|by left]); (apply inv_add_out; [|no_LF]).
  - assert (d = StateQuit) as -> by (destruct st; vm_compute in Hd; congruence).
    eapply inv_set_fsm; [done..|]. destruct He as (? & _ & _). split_and!; naive_solver.
  - by eapply inv_refused.
Qed.

Lemma handleSTARTTLS_wp `{!TLSLaws T} s : smtp_inv s → wp handleSTARTTLS s (keeps s).
Proof.
  intros Hi. unfold handleSTARTTLS. apply wp_bind, wp_gets.
  destruct (isTLS s) eqn:Ht; [apply wp_write; [done|no_LF]|].
  destruct (tlsCfg s) as [t|]; [|apply wp_write; [done|no_LF]].
  destruct (_ || _); [apply wp_write; [done|no_LF]|].
  apply wp_bind, wp_modify.
  assert (smtp_inv (add_out (str "220 Ready to start TLS") s)) as Hi'
    by (apply inv_add_out; [done|no_LF]).
  destruct (Handshake t (c_in (conn s))) as [plain|msg rest] eqn:Hh.
  - do 4 (apply wp_bind, wp_modify). apply wp_modify. split; [|by right].
    destruct Hi'. split; simpl in *; try done.
    exists StateInit. split; [apply fresh_fsm|]. apply envelope_ok_reset. auto.
  - apply wp_modify. split; [by apply inv_set_input|]. left.
    apply handshake_consumes in Hh. unfold input_left. simpl. split; [done|lia].
Qed.

Lemma handleDATA_wp s : smtp_inv s → wp handleDATA s (keeps s).
Proof.
  intros Hi. unfold handleDATA. apply wp_bind.
  destruct (inv_state s Hi) as (st & Hst & He).
  assert (cfg s = cf) as Hcf by apply Hi.
  eapply wp_transition; [done|intros f d Hd Hf|intros f Hd Hf]; simpl;
    [|by eapply keeps_refused].
  destruct st; vm_compute in Hd; simplify_eq.
  apply wp_bind, wp_modify, wp_bind, wp_gets, wp_bind.
  set (s1 := add_out _ (set_fsm f s)).
  assert (smtp_inv s1) as Hi1.
  { apply inv_add_out; [|no_LF]. eapply inv_set_fsm; [done..|].
    destruct He as (? & HF & HT). split_and!; naive_solver. }
  eapply wp_mono; [apply data_loop_wp; [done..|split; [simpl; lia|by left]|unfold data_fuel; simpl; lia]|].
  intros r s2 (c & Hc & Hr).
  assert (∀ s3, isTLS s3 = isTLS s → reader s3 = reader s → conn_size (c_in (conn s3)) ≤ conn_size c →
    progress s s3) as Hp.
  { intros s3 ? E ?. left. unfold input_left. rewrite E. simpl in Hc. split; [done|lia]. }
  destruct r as [body|].
  - destruct Hr as [Hb ->]. unfold read_clock.
    apply wp_bind, wp_bind, wp_gets, wp_bind, wp_modify, wp_ret, wp_bind, wp_modify, wp_bind, wp_gets, wp_bind.
    simpl. set (ev := mkReceived _ _ _ _ _). set (s3 := set_envelope _ _).
    assert (smtp_inv s3) as Hi3.
    { by destruct Hi1. }
    assert (valid_event (MaxSize (SMTP cf)) ev) as Hv.
    { destruct He as (? & HF & HT). unfold valid_event. simpl. destruct Hb as [Hb Hwl]. split_and!; [auto| |done|done|done|done].
      destruct (To (envelope s)) as [|? ?] eqn:E; [exfalso; apply HT; auto|simpl; lia]. }
    pose proof (deliver_J ev _ Hv (inv_J s3 Hi3)) as HD.
    unfold wp at 1, zoom. unfold wp in HD.
    destruct (Deliver ev (delivery s3)) as [[err d']| |]; [|done..].
    assert (smtp_inv (set_delivery d' s3)) as Hi4 by by apply inv_set_delivery.
    destruct err as [e|].
    + apply wp_modify. split; [apply inv_add_out; [done|no_LF]|by apply Hp].
    + apply wp_bind. eapply (wp_transition _ StateData); [done|intros f' d Hd Hf'|intros f' Hd Hf'; done].
      vm_compute in Hd. simplify_eq. apply wp_modify. split; [|by apply Hp].
      apply inv_add_out; [|no_LF]. eapply inv_set_fsm; [done..|].
      destruct He as (? & HF & HT). split_and!; simpl; naive_solver.
  - apply wp_ret. destruct Hr as [-> | (f' & Hf' & ->)].
    + split; [by apply inv_set_input|by apply Hp].
    + split; [|by apply Hp]. change (smtp_inv (set_envelope (Envelope_Reset (envelope s1))
        (set_fsm f' (add_out (str "552 Message size exceeds maximum permitted") (set_input c s1))))).
      eapply inv_move; [|done|apply envelope_ok_reset; auto].
      apply inv_add_out; [by apply inv_set_input|no_LF].
Qed.

(** *** The read loop *)

Lemma handle_line_wp `{!TLSLaws T} s x :
  smtp_inv s → LF ∉ x → wp (handle_line (x ++ [LF])) s (keeps s).
Proof.
  intros Hi Hx. unfold handle_line.
  pose proof (TrimRight_no_LF x Hx) as Hl. set (line := TrimRight _ _) in *.
  case_bool_decide; [apply wp_ret; split; [done|by left]|].
  destruct (Cut line SP) as [[c args] f] eqn:Hcut.
  assert (LF ∉ args) as Hargs by by eapply Cut_no_LF in Hcut as [_ ?].
  assert (∀ (m : M (Session D) unit) (b : bool), wp m s (keeps s) → wp (m;; mret b) s (keeps s)) as Hseq.
  { intros m b Hm. apply wp_bind. eapply wp_mono; [exact Hm|]. intros [] s' Hk. by apply wp_ret. }
  repeat case_match; apply Hseq;
    eauto using handleEHLO_wp, handleSTARTTLS_wp, handleMAIL_wp, handleRCPT_wp, handleDATA_wp,
      handleRSET_wp, handleQUIT_wp;
    apply wp_write; (done || no_LF).
Qed.

(** An iteration that goes on has read a line, or upgraded the connection. *)
Definition advances (s s' : Session D) : Prop :=
  (isTLS s' = isTLS s ∧ input_left s' < input_left s) ∨ (isTLS s = false ∧ isTLS s' = true).

Lemma iteration_wp `{!TLSLaws T} s :
  smtp_inv s → wp iteration s (λ continue s', smtp_inv s' ∧ (continue = true → advances s s')).
Proof.
  intros Hi. unfold iteration. apply wp_bind, wp_gets.
  pose proof (ReadString_spec (reader s) (c_in (conn s))) as Hr.
  destruct (ReadString _ _) as [[[line|e] b] c]; do 2 (apply wp_bind, wp_modify).
  - destruct Hr as (x & -> & Hx & _ & _ & _ & Hlt). cbn [app].
    eapply wp_mono.
    { apply handle_line_wp; [|done]. by apply inv_set_reader, inv_set_input. }
    intros r s' [Hi' Hp]. split; [done|]. intros _. unfold progress, advances, input_left in *.
    simpl in Hp. destruct Hp as [[? ?]|?]; [left; split; [done|lia]|by right].
  - apply wp_ret. split; [by apply inv_set_reader, inv_set_input|done].
Qed.

Lemma advances_wf : well_founded (λ s' s, advances s s').
Proof. apply (upgrade_wf isTLS input_left). Qed.

Lemma read_loop_total `{!TLSLaws T} s :
  smtp_inv s → ∃ fuel, wp (read_loop fuel) s (λ _ s', smtp_inv s').
Proof.
  induction (advances_wf s) as [s _ IH]. intros Hi.
  pose proof (iteration_wp s Hi) as Hit. apply wp_run in Hit as (cont & s' & E & Hi' & Ha).
  destruct cont.
  - destruct (IH s' (Ha eq_refl) Hi') as [fuel Hf]. exists (S fuel).
    cbn [read_loop]. apply wp_bind. unfold wp at 1. by rewrite E.
  - exists 1. cbn [read_loop]. apply wp_bind. unfold wp at 1. by rewrite E.
Qed.

Lemma NewSession_inv c d t :
  J d → smtp_inv (NewSession c cf d t).
Proof.
  intros Hd. split; simpl; try done.
  exists StateInit. split; [apply fresh_fsm|]. unfold envelope_ok. simpl. split_and!; [lia|naive_solver..].
Qed.

Lemma Handle_total `{!TLSLaws T} s :
  smtp_inv s → ∃ fuel, wp (Handle fuel) s (λ _ s', smtp_inv s').
Proof.
  intros Hi. assert (cfg s = cf) as Hcf by apply Hi.
  set (s1 := add_out (str "220 " ++ Domain_name (SMTP cf) ++ str " ESMTP gomail-core ready") s).
  assert (smtp_inv s1) as Hi1 by (apply inv_add_out; [done|no_LF]).
  destruct (read_loop_total s1 Hi1) as [fuel Hf]. exists fuel.
  unfold Handle. apply wp_bind, wp_gets, wp_bind, wp_modify. by rewrite Hcf.
Qed.
End invariant.
