(* ===== verification/SmtpTheorems.v ===== *)
(** * What the SMTP server guarantees

    The theorems about whole sessions and about the handlers, each with the witness that
    applies it to a concrete session. *)

From S2P Require Import Prelude GoStrings GoIO FSM Config Ports Security Smtp Concrete SmtpProps.

(** ** Whole sessions *)

Section sessions.
Context `{L : FSMLib} `{LL : !FSMLaws L} `{T : TLSLib} `{TL : !TLSLaws T} `{U : UnicodeData} `{C : Clock}.
Context {D : Type} `{P : DeliveryPipeline D} `{PR : !DeliveryReturns D}.

Lemma deliver_any (e : MessageReceived) (d : D) : wp (Deliver e) d (λ _ _, True).
Proof. destruct (deliver_returns e d) as (a & d' & E). unfold wp. by rewrite E. Qed.

(** The recorder keeps its log valid. *)
Lemma deliver_recorded max (e : MessageReceived) (d : recording D) :
  valid_event max e → Forall (valid_event max) (log_of d) →
  wp (Deliver e) d (λ _ d', Forall (valid_event max) (log_of d')).
Proof.
  intros He Hd. destruct (deliver_returns e (inner d)) as (a & d' & E).
  unfold wp. simpl. rewrite E. simpl. apply Forall_app. auto.
Qed.

(** C20: for every finite input a client can send, in whatever segments and with whatever read
    errors, the session's read loop ends (the goroutine returns), without a panic. *)
Theorem smtp_session_ends (c : Conn) (cf : Config) (d : D) (t : option (tls_Config Certificate)) :
  LF ∉ Domain_name (SMTP cf) →
  ∃ fuel s', Handle fuel (NewSession c cf d t) = Ok (tt, s').
Proof.
  intros Hdom.
  destruct (Handle_total cf (λ _, True) (λ e d _ _, deliver_any e d) Hdom (NewSession c cf d t))
    as [fuel Hf]; [by apply NewSession_inv|].
  apply wp_run in Hf as ([] & s' & E & _). eauto.
Qed.

(** Whatever the client sends, every message handed to the delivery pipeline has a
    non-empty sender, between one and a hundred recipients, a body of whole lines within the
    configured size, and the size of that body. *)
Theorem smtp_delivers_valid_messages (c : Conn) (cf : Config) (d : D) (t : option (tls_Config Certificate)) :
  LF ∉ Domain_name (SMTP cf) →
  ∃ fuel s', Handle fuel (NewSession c cf (mkRecording [] d) t) = Ok (tt, s')
    ∧ Forall (valid_event (MaxSize (SMTP cf))) (log_of (delivery s')).
Proof.
  intros Hdom.
  destruct (Handle_total cf (λ d : recording D, Forall (valid_event (MaxSize (SMTP cf))) (log_of d))
              (λ e d, deliver_recorded _ e d) Hdom (NewSession c cf (mkRecording [] d) t))
    as [fuel Hf]; [by apply NewSession_inv|].
  apply wp_run in Hf as ([] & s' & E & Hi). exists fuel, s'. split; [done|apply Hi].
Qed.

(** No reply can be split: whatever the client sends (in commands, host names or
    addresses), every line the server writes has its line feed at the end only, provided
    the configured domain has none. *)
Theorem smtp_replies_are_lines (c : Conn) (cf : Config) (d : D) (t : option (tls_Config Certificate)) :
  LF ∉ Domain_name (SMTP cf) →
  ∃ fuel s', Handle fuel (NewSession c cf d t) = Ok (tt, s')
    ∧ Forall (λ l, one_line (snd l)) (out s').
Proof.
  intros Hdom.
  destruct (Handle_total cf (λ _, True) (λ e d _ _, deliver_any e d) Hdom (NewSession c cf d t))
    as [fuel Hf]; [by apply NewSession_inv|].
  apply wp_run in Hf as ([] & s' & E & Hi). exists fuel, s'. split; [done|apply Hi].
Qed.

(** The sessions the loop goes through, between two commands. *)
Inductive reachable (s0 : Session D) : Session D → Prop :=
| reach_start : reachable s0 s0
| reach_step s s' continue :
    reachable s0 s → iteration s = Ok (continue, s') → reachable s0 s'.

(** C24: in every session the loop goes through, the machine is in one of the six states;
    after MAIL there is a sender, after RCPT there are recipients, never more than a
    hundred; and [isTLS] says whether the connection is encrypted. *)
Theorem smtp_reachable_invariant (c : Conn) (cf : Config) (d : D) (t : option (tls_Config Certificate))
    (s : Session D) :
  LF ∉ Domain_name (SMTP cf) →
  reachable (NewSession c cf d t) s →
  (∃ st, at_state s st ∧ envelope_ok st (envelope s)) ∧ isTLS s = c_tls (conn s).
Proof.
  intros Hdom Hr.
  assert (smtp_inv cf (λ _ : D, True) s) as Hi.
  { induction Hr as [|s1 s2 continue _ IH E]; [by apply NewSession_inv|].
    pose proof (iteration_wp cf (λ _, True) (λ e d _ _, deliver_any e d) Hdom s1 IH) as Hw.
    unfold wp in Hw. rewrite E in Hw. apply Hw. }
  split; apply Hi.
Qed.
End sessions.

(** ** The protocol machine *)

Section protocol.
Context `{L : FSMLib} `{LL : !FSMLaws L} `{T : TLSLib} `{U : UnicodeData} `{C : Clock}.
Context {D : Type} `{P : DeliveryPipeline D}.
Implicit Types s : Session D.

(** C32: the machine of the session implements [smtp_next]: an event that leads to another
    state is accepted, moves there and writes nothing; any other event, including one
    that would stay in the same state, is answered with 503 and changes neither the state
    nor the envelope. *)
Theorem smtp_transition_refines s st ev :
  at_state s st →
  ∃ ok s', transition ev s = Ok (ok, s') ∧ envelope s' = envelope s ∧
    match smtp_next ev st with
    | Some st' =>
        if decide (st' = st)
        then ok = false ∧ at_state s' st ∧ out s' = out s ++ [(c_tls (conn s), reply_503 ++ CRLF)]
        else ok = true ∧ at_state s' st' ∧ out s' = out s
    | None => ok = false ∧ at_state s' st ∧ out s' = out s ++ [(c_tls (conn s), reply_503 ++ CRLF)]
    end.
Proof.
  intros H. destruct (transition_run s st ev H) as [f' HE]. unfold accepts in HE.
  destruct (smtp_next ev st) as [st'|]; [destruct (decide (st' = st))|];
    destruct HE as [-> Hf]; eauto 10.
Qed.

(** RSET and a further EHLO in the state "greeted" (after a greeting or a finished
    transaction) are refused with 503 and do not reset the envelope. *)
Theorem smtp_greeted_reset_refused s args :
  at_state s StateGreeted → args ≠ [] →
  (∃ s', handleRSET s = Ok (tt, s') ∧ envelope s' = envelope s ∧ at_state s' StateGreeted
      ∧ out s' = out s ++ [(c_tls (conn s), reply_503 ++ CRLF)])
  ∧ (∃ s', handleEHLO args s = Ok (tt, s') ∧ envelope s' = envelope s ∧ at_state s' StateGreeted
      ∧ out s' = out s ++ [(c_tls (conn s), reply_503 ++ CRLF)]).
Proof.
  intros Hst Hargs. split.
  - destruct (transition_run s StateGreeted EventRset Hst) as [f [E Hf]].
    unfold handleRSET, mbind, M_bind. rewrite E. simpl. eauto 10.
  - destruct (transition_run s StateGreeted EventEHLO Hst) as [f [E Hf]].
    unfold handleEHLO, mbind, M_bind. rewrite bool_decide_false by done. rewrite E. simpl. eauto 10.
Qed.
End protocol.

(** ** Message data *)

Definition is_line (l : gostring) : Prop := ∃ x, l = x ++ [LF] ∧ LF ∉ x.
Definition end_of_data (l : gostring) : Prop := l = str "." ++ CRLF ∨ l = str "." ++ [LF].

(** What the server does with a line of data, and what a client does with a line of its
    message (RFC 5321 section 4.5.2). *)
Definition unstuff (l : gostring) : gostring := if HasPrefix l (str "..") then drop 1 l else l.
Definition stuff (l : gostring) : gostring := if HasPrefix l (str ".") then str "." ++ l else l.

Lemma HasPrefix_dots l : HasPrefix l (str "..") = true → HasPrefix l (str ".") = true.
Proof. intros [k ->]%HasPrefix_true. by apply HasPrefix_true; exists (str "." ++ k). Qed.

Lemma unstuff_stuff l : unstuff (stuff l) = l.
Proof.
  unfold stuff, unstuff. destruct (HasPrefix l (str ".")) eqn:E.
  - apply HasPrefix_true in E as [k ->].
    change (str "." ++ str "." ++ k) with (str ".." ++ k). by rewrite HasPrefix_app.
  - destruct (HasPrefix l (str "..")) eqn:E2; [|done]. apply HasPrefix_dots in E2. congruence.
Qed.

Lemma stuff_is_line l : is_line l → is_line (stuff l).
Proof.
  intros (x & -> & Hx). unfold stuff. destruct (HasPrefix _ _); [|by exists x].
  exists (str "." ++ x). split; [done|]. no_LF.
Qed.

Lemma stuff_not_end l : ¬ end_of_data (stuff l).
Proof.
  unfold stuff. destruct (HasPrefix l (str ".")) eqn:E.
  - apply HasPrefix_true in E as [k ->]. by intros [[=]|[=]].
  - intros [-> | ->]; done.
Qed.

Section data.
Context `{L : FSMLib} `{LL : !FSMLaws L} `{T : TLSLib} `{U : UnicodeData} `{C : Clock}.
Context {D : Type} `{P : DeliveryPipeline D}.
Implicit Types s : Session D.

Lemma data_loop_line fuel rb body s x y :
  stream rb (c_in (conn s)) = x ++ LF :: y → LF ∉ x → ¬ end_of_data (x ++ [LF]) →
  (Z.of_nat (length (body ++ unstuff (x ++ [LF]))) ≤ MaxSize (SMTP (cfg s)))%Z →
  length rb + conn_size (c_in (conn s)) < S fuel →
  ∃ rb' c', data_loop (S fuel) rb body s
              = data_loop fuel rb' (body ++ unstuff (x ++ [LF])) (set_input c' s)
    ∧ stream rb' c' = y ∧ length rb' + conn_size c' < fuel.
Proof.
  intros Hs Hx He Hm Hf. pose proof (ReadString_spec rb (c_in (conn s))) as Hr.
  destruct (ReadString_line rb _ x y Hs Hx) as (rb' & c' & E & Hs' & _). rewrite E in Hr.
  destruct Hr as (x' & _ & _ & _ & _ & _ & Hl). exists rb', c'. split_and!; [|done|lia].
  cbn [data_loop]. unfold mbind, M_bind, gets, modify. rewrite E.
  rewrite (bool_decide_false (x ++ [LF] = str "." ++ CRLF)) by (intros E'; apply He; by left).
  rewrite (bool_decide_false (x ++ [LF] = str "." ++ [LF])) by (intros E'; apply He; by right).
  cbn [orb]. unfold unstuff in *.
  destruct (HasPrefix (x ++ [LF]) (str "..")) eqn:Hd.
  - rewrite slice_from_Some by (rewrite length_app; simpl; lia). cbn [or_panic].
    unfold mret, M_ret. cbn [cfg set_input set_conn].
    replace (_ <? _)%Z with false by (symmetry; by apply Z.ltb_ge). done.
  - unfold mret, M_ret. cbn [cfg set_input set_conn].
    replace (_ <? _)%Z with false by (symmetry; by apply Z.ltb_ge). done.
Qed.

Lemma data_loop_end fuel rb body s term y :
  stream rb (c_in (conn s)) = term ++ y → end_of_data term →
  ∃ rb' c', data_loop (S fuel) rb body s = Ok (Some body, set_input c' s) ∧ stream rb' c' = y.
Proof.
  intros Hs He.
  assert (∃ x, term = x ++ [LF] ∧ LF ∉ x) as (x & -> & Hx).
  { destruct He as [-> | ->]; [exists (str "." ++ [CR])|exists (str ".")]; (split; [done|by_computation]). }
  rewrite <- app_assoc in Hs. cbn [app] in Hs.
  destruct (ReadString_line rb _ x y Hs Hx) as (rb' & c' & E & Hs' & _).
  exists rb', c'. split; [|done].
  cbn [data_loop]. unfold mbind, M_bind, gets, modify. rewrite E.
  destruct He as [-> | ->].
  - by rewrite (bool_decide_true (str "." ++ CRLF = str "." ++ CRLF)).
  - rewrite (bool_decide_true (str "." ++ [LF] = str "." ++ [LF])) by done. by rewrite orb_true_r.
Qed.

(** The loop collects the lines up to the end-of-data marker, un-stuffed. What arrives
    after the marker is in the connection or in the loop's own reader, which is dropped. *)
Lemma data_loop_collects ls : ∀ fuel rb body s term y,
  Forall is_line ls → Forall (λ l, ¬ end_of_data l) ls → end_of_data term →
  stream rb (c_in (conn s)) = concat ls ++ term ++ y →
  (Z.of_nat (length (body ++ concat (unstuff <$> ls))) ≤ MaxSize (SMTP (cfg s)))%Z →
  length rb + conn_size (c_in (conn s)) < fuel →
  ∃ rb' c', data_loop fuel rb body s = Ok (Some (body ++ concat (unstuff <$> ls)), set_input c' s)
    ∧ stream rb' c' = y.
Proof.
  induction ls as [|l ls IH]; intros fuel rb body s term y Hl Hn He Hs Hm Hf.
  - destruct fuel as [|fuel]; [lia|]. rewrite fmap_nil. cbn [concat]. rewrite app_nil_r.
    eapply data_loop_end; [exact Hs|exact He].
  - apply Forall_cons in Hl as [(x & -> & Hx) Hl]. apply Forall_cons in Hn as [Hn Hn'].
    destruct fuel as [|fuel]; [lia|]. cbn [concat] in Hs. rewrite <- !app_assoc in Hs.
    rewrite fmap_cons in *. cbn [concat] in *. rewrite app_assoc in Hm |- *.
    assert (Z.of_nat (length (body ++ unstuff (x ++ [LF]))) ≤ MaxSize (SMTP (cfg s)))%Z
      by (rewrite length_app in Hm; lia).
    destruct (data_loop_line fuel rb body s x (concat ls ++ term ++ y)) as (rb' & c' & -> & Hs' & Hl'); [done..|].
    destruct (IH fuel rb' (body ++ unstuff (x ++ [LF])) (set_input c' s) term y)
      as (rb'' & c'' & E & Hy); [done..|]. exists rb'', c''. by rewrite E.
Qed.

(** DATA of a message that is accepted; the envelope keeps its sender and recipients. *)
Lemma handleDATA_delivers s ls rest d' :
  let body := concat ls in
  at_state s StateRcptTo → Forall is_line ls →
  upcoming (c_in (conn s)) = concat (stuff <$> ls) ++ str "." ++ CRLF ++ rest →
  (Z.of_nat (length body) ≤ MaxSize (SMTP (cfg s)))%Z →
  Deliver (mkReceived (From (envelope s)) (To (envelope s)) body (Z.of_nat (length body)) (time_Now (ticks s)))
    (delivery s) = Ok (None, d') →
  ∃ s', handleDATA s = Ok (tt, s') ∧ delivery s' = d' ∧ at_state s' StateGreeted
    ∧ cfg s' = cfg s ∧ From (envelope s') = From (envelope s) ∧ To (envelope s') = To (envelope s)
    ∧ out s' = out s ++ [(c_tls (conn s), str "354 Start mail input; end with <CRLF>.<CRLF>" ++ CRLF);
                         (c_tls (conn s), str "250 OK: message accepted for delivery" ++ CRLF)].
Proof.
  intros body Hst Hls Hin Hmax HD. unfold handleDATA.
  destruct (transition_run s StateRcptTo EventData Hst) as [f [E Hf]].
  unfold mbind at 1, M_bind at 1. rewrite E. cbn [negb].
  set (s1 := set_fsm f s). unfold mbind, M_bind, write, modify, gets.
  set (s2 := add_out _ s1).
  assert (concat (unstuff <$> (stuff <$> ls)) = body) as Hb.
  { rewrite <- list_fmap_compose. unfold body. f_equal. rewrite <- (list_fmap_id ls) at 2.
    apply list_fmap_ext. intros. apply unstuff_stuff. }
  destruct (data_loop_collects (stuff <$> ls) (data_fuel s2) [] [] s2 (str "." ++ CRLF) rest)
    as (rb' & c' & Hloop & _).
  - apply Forall_fmap. eapply Forall_impl; [exact Hls|]. intros l. apply stuff_is_line.
  - apply Forall_fmap, Forall_forall. intros l _. apply stuff_not_end.
  - by left.
  - unfold stream. cbn [app]. by rewrite <- app_assoc.
  - by rewrite Hb.
  - unfold data_fuel. cbn [length]. lia.
  - rewrite Hloop, Hb. cbn [app]. set (s3 := set_input c' s2).
    unfold read_clock, mbind, M_bind, gets, modify, mret, M_ret, zoom.
    set (s4 := set_envelope _ _).
    change (Deliver _ (delivery s4)) with (Deliver (mkReceived (From (envelope s)) (To (envelope s)) body (Z.of_nat (length body)) (time_Now (ticks s))) (delivery s)). rewrite HD.
    destruct (transition_run (set_delivery d' s4) StateData EventDone Hf) as [f' [E' Hf']].
    rewrite E'. eexists. split; [reflexivity|]. split_and!; [done..|].
    cbn. by rewrite <- app_assoc.
Qed.

(** C8: a client that writes its message with the dot-stuffing of RFC 5321 has it
    delivered unchanged, if it is not larger than the configured size: after RCPT, DATA reads the stuffed lines up to the end-of-data
    marker and hands the original lines to the pipeline, with the sender, the recipients,
    the size and the time of receipt; on success it answers 354 and 250 and returns to
    "greeted". *)
Theorem smtp_data_roundtrip s ls rest d' :
  let body := concat ls in
  let event := {| Received_From := From (envelope s); Received_To := To (envelope s);
                  Received_Body := body; Received_Size := Z.of_nat (length body);
                  Received_Timestamp := time_Now (ticks s) |} in
  at_state s StateRcptTo →
  Forall is_line ls →
  upcoming (c_in (conn s)) = concat (stuff <$> ls) ++ str "." ++ CRLF ++ rest →
  (Z.of_nat (length body) ≤ MaxSize (SMTP (cfg s)))%Z →
  Deliver event (delivery s) = Ok (None, d') →
  ∃ s', handleDATA s = Ok (tt, s') ∧ delivery s' = d' ∧ at_state s' StateGreeted
    ∧ out s' = out s ++ [(c_tls (conn s), str "354 Start mail input; end with <CRLF>.<CRLF>" ++ CRLF);
                         (c_tls (conn s), str "250 OK: message accepted for delivery" ++ CRLF)].
Proof.
  intros body event Hst Hls Hin Hmax HD.
  destruct (handleDATA_delivers s ls rest d' Hst Hls Hin Hmax HD) as (s' & E & Hd & Hs & _ & _ & _ & Ho). eauto.
Qed.

Lemma data_loop_too_big fuel rb body s x y :
  at_state s StateData →
  stream rb (c_in (conn s)) = x ++ LF :: y → LF ∉ x → ¬ end_of_data (x ++ [LF]) →
  (MaxSize (SMTP (cfg s)) < Z.of_nat (length (body ++ unstuff (x ++ [LF]))))%Z →
  ∃ rb' c' f, data_loop (S fuel) rb body s
      = Ok (None, set_fsm f (set_envelope (Envelope_Reset (envelope s))
              (add_out (str "552 Message size exceeds maximum permitted") (set_input c' s))))
    ∧ in_state State_str smtp_events f StateGreeted ∧ stream rb' c' = y.
Proof.
  intros Hst Hs Hx He Hm.
  destruct (ReadString_line rb _ x y Hs Hx) as (rb' & c' & E & Hs' & _).
  set (s1 := set_envelope (Envelope_Reset (envelope s))
               (add_out (str "552 Message size exceeds maximum permitted") (set_input c' s))).
  destruct (transition_run s1 StateData EventRset Hst) as [f [Et Hf]].
  exists rb', c', f. split_and!; [|done|done].
  cbn [data_loop]. unfold mbind, M_bind, gets, modify, write, reset_envelope. rewrite E.
  rewrite (bool_decide_false (x ++ [LF] = str "." ++ CRLF)) by (intros E'; apply He; by left).
  rewrite (bool_decide_false (x ++ [LF] = str "." ++ [LF])) by (intros E'; apply He; by right).
  cbn [orb]. unfold unstuff in *.
  destruct (HasPrefix (x ++ [LF]) (str "..")) eqn:Hd;
    [rewrite slice_from_Some by (rewrite length_app; simpl; lia); cbn [or_panic]|];
    unfold mret, M_ret; cbn [cfg set_input set_conn];
    (replace (_ <? _)%Z with true by (symmetry; by apply Z.ltb_lt));
    unfold modify;
    match goal with |- context [transition EventRset ?t] => change t with s1 end; by rewrite Et.
Qed.

(** The loop on lines that stay within the limit, followed by one that exceeds it. *)
Lemma data_loop_overflows ls : ∀ fuel rb done s x rest,
  at_state s StateData →
  Forall is_line ls → Forall (λ l, ¬ end_of_data l) ls → LF ∉ x → ¬ end_of_data (x ++ [LF]) →
  stream rb (c_in (conn s)) = concat ls ++ x ++ LF :: rest →
  (Z.of_nat (length (done ++ concat (unstuff <$> ls))) ≤ MaxSize (SMTP (cfg s)))%Z →
  (MaxSize (SMTP (cfg s)) < Z.of_nat (length (done ++ concat (unstuff <$> ls) ++ unstuff (x ++ [LF]))))%Z →
  length rb + conn_size (c_in (conn s)) < fuel →
  ∃ rb' c' f, data_loop fuel rb done s
    = Ok (None, set_fsm f (set_envelope (Envelope_Reset (envelope s))
            (add_out (str "552 Message size exceeds maximum permitted") (set_input c' s))))
    ∧ in_state State_str smtp_events f StateGreeted ∧ stream rb' c' = rest.
Proof.
  induction ls as [|l ls IH]; intros fuel rb done s x rest Hst Hl Hn Hx He Hs Hmax Hbig Hf;
    (destruct fuel as [|fuel]; [lia|]).
  - by apply data_loop_too_big with x.
  - apply Forall_cons in Hl as [(z & -> & Hz) Hl]. apply Forall_cons in Hn as [Hnz Hn].
    cbn [concat] in Hs. rewrite <- !app_assoc in Hs. rewrite fmap_cons in *. cbn [concat] in *.
    rewrite <- app_assoc in Hbig. rewrite app_assoc in Hmax, Hbig.
    assert (Z.of_nat (length (done ++ unstuff (z ++ [LF]))) ≤ MaxSize (SMTP (cfg s)))%Z
      by (rewrite length_app in Hmax; lia).
    destruct (data_loop_line fuel rb done s z (concat ls ++ x ++ LF :: rest))
      as (rb' & c' & -> & Hs' & Hl'); [done..|].
    by apply (IH fuel rb' (done ++ unstuff (z ++ [LF])) (set_input c' s) x rest).
Qed.

(** C35: a message that grows past the configured size is refused with 552: nothing is
    delivered, the envelope is cleared and the session is back in "greeted". The rest of
    the message is not skipped: what of it is still in the connection is read next, as
    commands. *)
Theorem smtp_oversize_refused s ls x rest :
  let body := concat (unstuff <$> ls) in
  at_state s StateRcptTo →
  Forall is_line ls → Forall (λ l, ¬ end_of_data l) ls → LF ∉ x → ¬ end_of_data (x ++ [LF]) →
  upcoming (c_in (conn s)) = concat ls ++ x ++ LF :: rest →
  (Z.of_nat (length body) ≤ MaxSize (SMTP (cfg s)))%Z →
  (MaxSize (SMTP (cfg s)) < Z.of_nat (length (body ++ unstuff (x ++ [LF]))))%Z →
  ∃ s' rb, handleDATA s = Ok (tt, s') ∧ delivery s' = delivery s ∧ at_state s' StateGreeted
    ∧ envelope s' = empty_envelope ∧ rb ++ upcoming (c_in (conn s')) = rest
    ∧ out s' = out s ++ [(c_tls (conn s), str "354 Start mail input; end with <CRLF>.<CRLF>" ++ CRLF);
                         (c_tls (conn s), str "552 Message size exceeds maximum permitted" ++ CRLF)].
Proof.
  intros body Hst Hls Hn Hx He Hin Hmax Hbig.
  destruct (transition_run s StateRcptTo EventData Hst) as [f [E Hf]].
  set (s2 := add_out (str "354 Start mail input; end with <CRLF>.<CRLF>") (set_fsm f s)).
  destruct (data_loop_overflows ls (data_fuel s2) [] [] s2 x rest) as (rb' & c' & f' & Hrun & Hf' & Hr); try done.
  { unfold data_fuel. cbn [length]. lia. }
  unfold handleDATA, mbind, M_bind. rewrite E. cbn [negb].
  unfold write, modify, gets. fold s2. rewrite Hrun.
  eexists _, rb'. split; [reflexivity|]. split_and!; try done. cbn. by rewrite <- app_assoc.
Qed.
End data.

(** ** Transactions, pipelining and TLS *)

Section transactions.
Context `{L : FSMLib} `{LL : !FSMLaws L} `{T : TLSLib} `{U : UnicodeData} `{C : Clock}.
Context {D : Type} `{P : DeliveryPipeline D}.
Implicit Types s : Session D.




(** *** Code that does not use the session's reader *)

Definition with_reader {A} (b : gostring) (o : outcome (A * Session D)) : outcome (A * Session D) :=
  match o with Ok (a, s) => Ok (a, set_reader b s) | Panic => Panic | NoFuel => NoFuel end.

Definition ignores_reader {A} (m : M (Session D) A) : Prop :=
  ∀ b s, m (set_reader b s) = with_reader b (m s).

Lemma ignores_ret {A} (a : A) : ignores_reader (mret a).
Proof. done. Qed.
Lemma ignores_bind {A B} (m : M (Session D) A) (k : A → M (Session D) B) :
  ignores_reader m → (∀ a, ignores_reader (k a)) → ignores_reader (m ≫= k).
Proof. intros Hm Hk b s. unfold mbind, M_bind. rewrite Hm. destruct (m s) as [[a s']| |]; [apply Hk|done..]. Qed.
Lemma ignores_gets {A} (g : Session D → A) : (∀ b s, g (set_reader b s) = g s) → ignores_reader (gets g).
Proof. intros H b s. unfold gets. by rewrite H. Qed.
Lemma ignores_modify f : (∀ b s, f (set_reader b s) = set_reader b (f s)) → ignores_reader (modify f).
Proof. intros H b s. unfold modify. by rewrite H. Qed.
Lemma ignores_or_panic {A} (o : option A) : ignores_reader (or_panic o).
Proof. by destruct o. Qed.
Lemma ignores_deliver {A} (m : M D A) : ignores_reader (zoom delivery set_delivery m).
Proof. intros b s. unfold zoom. simpl. by destruct (m (delivery s)) as [[]| |]. Qed.
Lemma ignores_transition ev : ignores_reader (transition ev).
Proof.
  apply ignores_bind; [by apply ignores_gets|]. intros f. destruct (Event f _) as [f' [err|]].
  all: repeat (apply ignores_bind; [by apply ignores_modify|intros _]); apply ignores_ret.
Qed.

Lemma ignores_data_loop fuel : ∀ rb body, ignores_reader (data_loop fuel rb body).
Proof.
  induction fuel as [|fuel IH]; intros rb body; [done|]. cbn [data_loop].
  apply ignores_bind; [by apply ignores_gets|]. intros c. destruct (ReadString rb (c_in c)) as [[r rb'] c'].
  apply ignores_bind; [by apply ignores_modify|]. intros _. destruct r as [line|e]; [|apply ignores_ret].
  destruct (_ || _); [apply ignores_ret|].
  apply ignores_bind; [destruct (HasPrefix _ _); [apply ignores_or_panic|apply ignores_ret]|]. intros line'.
  apply ignores_bind; [by apply ignores_gets|]. intros max. destruct (_ <? _)%Z; [|apply IH].
  do 2 (apply ignores_bind; [by apply ignores_modify|intros _]).
  apply ignores_bind; [apply ignores_transition|]. intros ok. apply ignores_ret.
Qed.

Lemma ignores_handleDATA : ignores_reader handleDATA.
Proof.
  apply ignores_bind; [apply ignores_transition|]. intros [|]; cbn [negb]; [|apply ignores_ret].
  apply ignores_bind; [by apply ignores_modify|]. intros _.
  apply ignores_bind; [by apply ignores_gets|]. intros fuel.
  apply ignores_bind; [apply ignores_data_loop|]. intros [body|]; [|apply ignores_ret].
  apply ignores_bind.
  { apply ignores_bind; [by apply ignores_gets|]. intros n.
    apply ignores_bind; [by apply ignores_modify|]. intros _. apply ignores_ret. }
  intros now. apply ignores_bind; [by apply ignores_modify|]. intros _.
  apply ignores_bind; [by apply ignores_gets|]. intros e.
  apply ignores_bind; [apply ignores_deliver|]. intros [err|]; [by apply ignores_modify|].
  apply ignores_bind; [apply ignores_transition|]. intros ok. by apply ignores_modify.
Qed.

(** C37: the DATA command reads the message from the connection with a reader of its own. When
    the beginning of a message arrives in one segment with the DATA line (both within the 4096
    bytes of the session's buffer), DATA does exactly what it does when these bytes were never
    sent: it sees only what arrives later, and it leaves them in the session's buffer. When
    DATA has returned, the loop takes the first line of those bytes as its next command. *)
Theorem smtp_pipelined_data_not_read s payload c :
  reader s = [] → c_in (conn s) = Seg (str "DATA" ++ CRLF ++ payload) :: c → 6 + length payload ≤ bufio_size →
  iteration s = with_reader payload (iteration (set_input (Seg (str "DATA" ++ CRLF) :: c) s))
  ∧ ∀ s', iteration s = Ok (true, s') → reader s' = payload
      ∧ ∀ line more, payload = line ++ LF :: more → LF ∉ line →
          iteration s' = handle_line (line ++ [LF]) (set_reader more s').
Proof.
  intros Hr Hc Hlen.
  assert (∀ y, 6 + length y ≤ bufio_size → ∀ s0, reader s0 = [] → c_in (conn s0) = Seg (str "DATA" ++ CRLF ++ y) :: c →
    iteration s0 = with_reader y ((handleDATA;; mret true) (set_reader [] (set_input c s0)))) as Hit.
  { intros y Hy s0 Hr0 Hc0. unfold iteration at 1. unfold mbind at 1, M_bind at 1, get. rewrite Hr0, Hc0.
    change (str "DATA" ++ CRLF ++ y) with ((str "DATA" ++ [CR]) ++ LF :: y).
    rewrite ReadString_buffers; [|by_computation|rewrite length_app; simpl; lia].
    unfold modify, mbind at 1 2, M_bind at 1 2.
    change (handle_line ((str "DATA" ++ [CR]) ++ [LF])) with (handleDATA;; (mret true : M (Session D) bool)).
    rewrite <- (ignores_bind _ _ ignores_handleDATA (λ _, ignores_ret true) y). done. }
  rewrite (Hit payload Hlen s Hr Hc).
  rewrite (Hit [] ltac:(rewrite <- Hlen; simpl; lia) (set_input (Seg (str "DATA" ++ CRLF) :: c) s)) by done.
  split.
  - change (set_input c (set_input _ s)) with (set_input c s).
    by destruct ((handleDATA;; mret true) (set_reader [] (set_input c s))) as [[a s1]| |].
  - intros s' E. destruct ((handleDATA;; mret true) (set_reader [] (set_input c s))) as [[a s1]| |]; simplify_eq/=.
    split; [done|]. intros line more -> Hl. unfold iteration, mbind, M_bind, get, modify.
    cbn [reader set_reader conn]. rewrite ReadString_buffered by done. by destruct s1 as [[] ? ? ? ? ? ? ? ? ? ?].
Qed.

(** STARTTLS is possible: in plain text, with TLS configured, and not between MAIL and the end
    of RCPT. *)
Definition may_upgrade s st (t : tls_Config Certificate) : Prop :=
  isTLS s = false ∧ tlsCfg s = Some t ∧ st ≠ StateMailFrom ∧ st ≠ StateRcptTo.

(** C34: STARTTLS turns a plain session into an encrypted one exactly when TLS is configured,
    the state is neither mail_from nor rcpt_to, and the handshake succeeds. Then what the
    client had sent in plain text after the command, buffered by the reader, is discarded, and
    the session starts again from "init" with an empty envelope. When the handshake fails the
    session goes on in plain text with the input the handshake left; in every other case only
    a 503 or 454 reply is written. *)
Theorem smtp_starttls_upgrade s st :
  at_state s st →
  ∃ s', handleSTARTTLS s = Ok (tt, s')
    ∧ (isTLS s = false ∧ isTLS s' = true ↔
       ∃ t plaintext, may_upgrade s st t ∧ Handshake t (c_in (conn s)) = HsDone plaintext)
    ∧ (∀ t plaintext, may_upgrade s st t → Handshake t (c_in (conn s)) = HsDone plaintext →
         conn s' = mkConn true plaintext ∧ reader s' = [] ∧ at_state s' StateInit ∧ envelope s' = empty_envelope
         ∧ delivery s' = delivery s ∧ out s' = out s ++ [(c_tls (conn s), str "220 Ready to start TLS" ++ CRLF)])
    ∧ (∀ t msg rest, may_upgrade s st t → Handshake t (c_in (conn s)) = HsFailed msg rest →
         s' = set_input rest (add_out (str "220 Ready to start TLS") s))
    ∧ ((∀ t, ¬ may_upgrade s st t) →
         s' = add_out (if isTLS s then str "503 Already using TLS"
                       else match tlsCfg s with None => str "454 TLS not available" | Some _ => reply_503 end) s).
Proof.
  intros Hst. unfold handleSTARTTLS, mbind, M_bind, get, may_upgrade.
  destruct (isTLS s) eqn:Ht; [eexists; split; [reflexivity|]; simpl; rewrite ?Ht; naive_solver|].
  destruct (tlsCfg s) as [t|] eqn:Hcfg; [|eexists; split; [reflexivity|]; simpl; rewrite ?Ht; naive_solver].
  assert (bool_decide (currentState s = State_str StateMailFrom)
          || bool_decide (currentState s = State_str StateRcptTo)
          = bool_decide (st = StateMailFrom ∨ st = StateRcptTo)) as ->.
  { rewrite <- bool_decide_or. apply bool_decide_ext. by rewrite !(at_state_current s st). }
  case_bool_decide as Hb; [eexists; split; [reflexivity|]; simpl; rewrite ?Ht; naive_solver|].
  assert (st ≠ StateMailFrom ∧ st ≠ StateRcptTo) as [H1 H2] by naive_solver.
  unfold write, modify. destruct (Handshake t (c_in (conn s))) as [plaintext|msg rest] eqn:Hh.
  - eexists; split; [reflexivity|]. split_and!.
    + split; [by exists t, plaintext|done].
    + intros ? ? (_ & [= <-] & _) E. rewrite Hh in E. injection E as <-. split_and!; try done. apply fresh_fsm.
    + intros ? ? ? (_ & [= <-] & _) ?. congruence.
    + intros Hn. by destruct (Hn t).
  - eexists; split; [reflexivity|]. split_and!.
    + simpl. split; [by intros [_ ?]; congruence|]. intros (? & ? & (_ & [= <-] & _) & ?). congruence.
    + intros ? ? (_ & [= <-] & _) ?. congruence.
    + intros ? ? ? (_ & [= <-] & _) E. rewrite Hh in E. by injection E as <- <-.
    + intros Hn. by destruct (Hn t).
Qed.

(** ExtractAddress reads back an address: the keyword in any letter case, followed by
    the address in angle brackets, gives exactly the address, whatever bytes it has; an
    empty address is refused. *)
Theorem smtp_extractAddress_brackets keyword prefix addr :
  is_ascii keyword = true → map upper_byte keyword = prefix →
  extractAddress (keyword ++ str "<" ++ addr ++ str ">") prefix
    = Some (if bool_decide (addr = []) then ([], false) else (addr, true)).
Proof.
  intros Hk <-. unfold extractAddress.
  destruct (ToUpper_ascii_prefix keyword (str "<" ++ addr ++ str ">") Hk) as [k ->].
  rewrite HasPrefix_app. cbn [negb]. rewrite length_map.
  rewrite slice_from_Some by (rewrite length_app; lia). rewrite drop_app_length. cbn [mbind option_bind].
  replace (TrimSpace (str "<" ++ addr ++ str ">")) with (str "<" ++ addr ++ str ">")
    by (symmetry; by apply (TrimSpace_id "<" addr ">")).
  replace (HasPrefix (str "<" ++ addr ++ str ">") (str "<")) with true by (symmetry; apply HasPrefix_app).
  replace (HasSuffix (str "<" ++ addr ++ str ">") (str ">")) with true.
  2: { symmetry. apply HasSuffix_true. by exists (str "<" ++ addr). }
  cbn [andb]. change (str "<" ++ addr ++ str ">") with ("<"%char :: addr ++ [">"%char]).
  rewrite slice_middle. cbn [mbind option_bind]. by case_bool_decide.
Qed.
End transactions.

(** ** Witnesses *)

Definition demo_input : conn_input :=
  [cmd "EHLO client"; cmd "MAIL FROM:<a@b>"; cmd "RCPT TO:<c@d>"; cmd "DATA";
   cmd "Subject: x"; cmd "..y"; cmd "."; cmd "QUIT"].

(** A session in a given state, with a sender, recipients and pending input. *)
Definition demo_session (st : State) (to : list gostring) (c : conn_input) : Session (recording accepting) :=
  set_envelope (mkEnvelope (str "a@b") to [] 0 zero_time)
    (set_fsm (NewFSM (State_str st) smtp_events)
       (NewSession (mkConn false c) default_config (mkRecording [] Accepting) None)).

Lemma demo_state st to c : at_state (demo_session st to c) st.
Proof. apply in_state_NewFSM. Qed.

Lemma smtp_session_ends_witness :
  LF ∉ Domain_name (SMTP default_config)
  ∧ ∃ fuel s', Handle fuel (NewSession (mkConn false demo_input) default_config Accepting None) = Ok (tt, s').
Proof. split; [by_computation|]. apply smtp_session_ends. by_computation. Defined.

Lemma smtp_delivers_valid_messages_witness :
  ∃ fuel s', Handle fuel (NewSession (mkConn false demo_input) default_config (mkRecording [] Accepting) None) = Ok (tt, s')
    ∧ Forall (valid_event 26214400) (log_of (delivery s')).
Proof. apply smtp_delivers_valid_messages. by_computation. Defined.

Lemma smtp_replies_are_lines_witness :
  ∃ fuel s', Handle fuel (NewSession (mkConn false demo_input) default_config Accepting None) = Ok (tt, s')
    ∧ Forall (λ l, one_line (snd l)) (out s').
Proof. apply smtp_replies_are_lines. by_computation. Defined.

Definition after_one : Session accepting :=
  match iteration (NewSession (mkConn false demo_input) default_config Accepting None) with
  | Ok (_, s) => s
  | _ => NewSession (mkConn false []) default_config Accepting None
  end.

Lemma smtp_reachable_invariant_witness :
  reachable (NewSession (mkConn false demo_input) default_config Accepting None) after_one
  ∧ ((∃ st, at_state after_one st ∧ envelope_ok st (envelope after_one)) ∧ isTLS after_one = c_tls (conn after_one)).
Proof.
  assert (reachable (NewSession (mkConn false demo_input) default_config Accepting None) after_one) as H.
  { eapply (reach_step _ _ _ true); [apply reach_start|]. vm_compute. reflexivity. }
  split; [exact H|].
  apply (smtp_reachable_invariant (mkConn false demo_input) default_config Accepting None after_one); [by_computation|exact H].
Defined.

Lemma smtp_transition_refines_witness :
  at_state (demo_session StateGreeted [] []) StateGreeted
  ∧ ∃ ok s', transition EventMailFrom (demo_session StateGreeted [] []) = Ok (ok, s')
      ∧ envelope s' = envelope (demo_session StateGreeted [] [])
      ∧ (ok = true ∧ at_state s' StateMailFrom ∧ out s' = []).
Proof.
  split; [apply demo_state|].
  apply (smtp_transition_refines (demo_session StateGreeted [] []) StateGreeted EventMailFrom). apply demo_state.
Defined.

Lemma smtp_greeted_reset_refused_witness :
  ∃ s', handleRSET (demo_session StateGreeted [str "c@d"] []) = Ok (tt, s') ∧ To (envelope s') = [str "c@d"].
Proof.
  destruct (smtp_greeted_reset_refused (demo_session StateGreeted [str "c@d"] []) (str "client"))
    as [(s' & E & He & _) _]; [apply demo_state|done|].
  exists s'. split; [exact E|]. by rewrite He.
Defined.

Lemma smtp_data_roundtrip_witness :
  let s := demo_session StateRcptTo [str "c@d"] [cmd "hi"; cmd "..y"; cmd "."; cmd "QUIT"] in
  ∃ s', handleDATA s = Ok (tt, s') ∧ at_state s' StateGreeted
    ∧ Received_Body <$> log_of (delivery s') = [str "hi" ++ CRLF ++ str ".y" ++ CRLF].
Proof.
  intros s.
  destruct (smtp_data_roundtrip s [str "hi" ++ CRLF; str ".y" ++ CRLF] (str "QUIT" ++ CRLF)
    (mkRecording [mkReceived (str "a@b") [str "c@d"] (str "hi" ++ CRLF ++ str ".y" ++ CRLF) 8 1700000001000000000] Accepting))
    as (s' & E & Hd & Hs & _).
  - apply demo_state.
  - constructor; [exists (str "hi" ++ [CR]); split; [done|by_computation]|].
    constructor; [exists (str ".y" ++ [CR]); split; [done|by_computation]|done].
  - reflexivity.
  - vm_compute. discriminate.
  - reflexivity.
  - exists s'. split; [exact E|]. split; [exact Hs|]. by rewrite Hd.
Defined.

(** A session with a limit of ten bytes. *)
Definition small_config : Config :=
  Load (λ k, if bool_decide (k = str "GOMAIL_SMTP_MAX_SIZE") then str "10" else []).
Definition small_session : Session (recording accepting) :=
  set_envelope (mkEnvelope (str "a@b") [str "c@d"] [] 0 zero_time)
    (set_fsm (NewFSM (State_str StateRcptTo) smtp_events)
       (NewSession (mkConn false [cmd "12345"; cmd "6789"; cmd "QUIT"]) small_config (mkRecording [] Accepting) None)).

Lemma smtp_oversize_refused_witness :
  ∃ s' rb, handleDATA small_session = Ok (tt, s') ∧ log_of (delivery s') = []
    ∧ rb ++ upcoming (c_in (conn s')) = str "QUIT" ++ CRLF.
Proof.
  destruct (smtp_oversize_refused small_session [str "12345" ++ CRLF] (str "6789" ++ [CR]) (str "QUIT" ++ CRLF))
    as (s' & rb & E & Hd & _ & _ & Hr & _).
  - apply in_state_NewFSM.
  - constructor; [exists (str "12345" ++ [CR]); split; [done|by_computation]|done].
  - constructor; [intros [[=]|[=]]|done].
  - by_computation.
  - intros [[=]|[=]].
  - reflexivity.
  - vm_compute. discriminate.
  - vm_compute. reflexivity.
  - exists s', rb. split; [exact E|]. split; [by rewrite Hd|exact Hr].
Defined.


(** The message is sent with the DATA line: its first line is taken as a command. *)
Lemma smtp_pipelined_data_not_read_witness :
  let s := demo_session StateRcptTo [str "c@d"] [Seg (str "DATA" ++ CRLF ++ str "hi" ++ CRLF); cmd "later"; cmd "."] in
  ∃ s', iteration s = Ok (true, s') ∧ reader s' = str "hi" ++ CRLF
    ∧ Received_Body <$> log_of (delivery s') = [str "later" ++ CRLF]
    ∧ iteration s' = handle_line (str "hi" ++ CRLF) (set_reader [] s').
Proof.
  intros s. destruct (smtp_pipelined_data_not_read s (str "hi" ++ CRLF) [cmd "later"; cmd "."])
    as [_ H]; [reflexivity|reflexivity|by apply Nat.leb_le|].
  assert (iteration s = Ok (true, state_of s (iteration s))) as E by (apply outcome_eq; vm_compute; reflexivity).
  destruct (H _ E) as [Hr Hn]. exists (state_of s (iteration s)). split; [exact E|]. split; [exact Hr|].
  split; [vm_compute; reflexivity|].
  apply (Hn (str "hi" ++ [CR]) []); [reflexivity|by_computation].
Defined.

Definition tls_session : Session accepting :=
  set_reader (str "MAIL FROM:<evil@x>" ++ CRLF)
    (NewSession (mkConn false [Seg (str "HELLO"); cmd "EHLO secure"]) default_config Accepting
       (Some (mkTLS [tt] VersionTLS12 []))).

Lemma smtp_starttls_upgrade_witness :
  (∃ s', handleSTARTTLS tls_session = Ok (tt, s') ∧ isTLS s' = true
     ∧ conn s' = mkConn true [cmd "EHLO secure"] ∧ reader s' = [])
  ∧ handleSTARTTLS (demo_session StateGreeted [] [])
    = Ok (tt, add_out (str "454 TLS not available") (demo_session StateGreeted [] [])).
Proof.
  split.
  - destruct (smtp_starttls_upgrade tls_session StateInit) as (s' & E & Hiff & H & _); [apply in_state_NewFSM|].
    assert (may_upgrade tls_session StateInit (mkTLS [tt] VersionTLS12 [])) as Hm by done.
    destruct (H _ [cmd "EHLO secure"] Hm eq_refl) as (Hc & Hr & _).
    destruct (proj2 Hiff) as [_ Ht]; [by exists (mkTLS [tt] VersionTLS12 []), [cmd "EHLO secure"]|].
    by exists s'.
  - destruct (smtp_starttls_upgrade (demo_session StateGreeted [] []) StateGreeted) as (s' & E & _ & _ & _ & H);
      [apply demo_state|].
    rewrite H in E; [exact E|]. intros t (_ & [=] & _).
Defined.

Lemma smtp_extractAddress_brackets_witness :
  extractAddress (str "From:<" ++ str "alice@gomail.local" ++ str ">") (str "FROM:") = Some (str "alice@gomail.local", true).
Proof. apply (smtp_extractAddress_brackets (str "From:") (str "FROM:") (str "alice@gomail.local")); reflexivity. Defined.
