(* ===== verification/SmtpServer.v ===== *)
(** * The SMTP server (internal/smtp/server.go)

    The server of [Server.v] with SMTP sessions, and what holds of it: its sessions keep
    their invariant however they are scheduled and whatever others do to the store, and it
    stops after the signal. *)

From S2P Require Import Prelude GoStrings GoIO FSM Config Ports Security Smtp Concrete Server ServerProps SmtpProps SmtpTheorems.

Section server.
Context `{L : FSMLib} `{T : TLSLib} `{U : UnicodeData} `{C : Clock} {D : Type} `{P : DeliveryPipeline D}.

(** The first statement of [Handle]. *)
Definition greeting : M (Session D) unit :=
  s ← get; write (str "220 " ++ Domain_name (SMTP (cfg s)) ++ str " ESMTP gomail-core ready").

(** The session learns from the connection whether it is encrypted: [isTLS] is only logged. *)
Definition NewServer (cf : Config) (t : option (tls_Config Certificate)) : code (Session D) D := {|
  name := str "smtp";
  has_tls := bool_decide (t ≠ None);
  spawn conn isTLS d := NewSession conn cf d t;
  greet := greeting;
  iterate := iteration;
  set_world := set_delivery;
  world_of := delivery;
|}.

(** [Start] and [acceptLoop] of this server, and its sessions. *)
Definition smtp_serve (cf : Config) (t : option (tls_Config Certificate)) (e : event)
    (sw : server (Session D) * D) : option (server (Session D) * D) :=
  server_step (NewServer cf t) e sw.

(** [Handle] is the greeting and then the iterations that the server schedules. *)
Lemma Handle_parts fuel s : Handle (D := D) fuel s = (greeting;; read_loop fuel) s.
Proof. done. Qed.
End server.

Section theorems.
Context `{L : FSMLib} `{LL : !FSMLaws L} `{T : TLSLib} `{TL : !TLSLaws T} `{U : UnicodeData} `{C : Clock}.

(** The laws of [ServerProps.v] for SMTP sessions. *)
Section laws.
Context {D : Type} `{P : DeliveryPipeline D} (cf : Config) (J : D → Prop).
Context (deliver_J : ∀ e d, valid_event (MaxSize (SMTP cf)) e → J d → wp (Deliver e) d (λ _ d', J d')).
Context (domain_no_LF : LF ∉ Domain_name (SMTP cf)).

Lemma smtp_code_laws t : code_laws (NewServer cf t) (smtp_inv cf J) J.
Proof.
  split; simpl.
  - intros input b w Hw. by apply NewSession_inv.
  - intros x Hx. apply wp_bind, wp_get, wp_modify. assert (cfg x = cf) as -> by apply Hx.
    apply inv_add_out; [done|no_LF].
  - intros x Hx. eapply wp_mono; [by apply iteration_wp|]. by intros continue x' [].
  - intros x Hx. apply Hx.
  - intros x w Hx Hw. by apply inv_set_delivery.
Qed.
End laws.

(** What every SMTP process may be assumed to leave in the recording store. *)
Definition recorded_valid {D} (cf : Config) (d : recording D) : Prop :=
  Forall (valid_event (MaxSize (SMTP cf))) (log_of d).

Context {D : Type} `{P : DeliveryPipeline D} `{PR : !DeliveryReturns D}.

(** C2: an SMTP server with any number of connections, scheduled in any way, and beside other
    SMTP processes on the same store: no client input, accept error, or failed delivery
    crashes the process; every message any session hands to delivery is valid; every reply
    of every session is one line; a session knows whether its connection is encrypted; a
    listener is closed only after the signal. *)
Theorem smtp_server_safe (cf : Config) (t : option (tls_Config Certificate)) (d : D) s w :
  LF ∉ Domain_name (SMTP cf) →
  served (NewServer cf t) (recorded_valid cf) (mkRecording [] d) (s, w) →
  proc s ≠ Crashed
  ∧ Forall (valid_event (MaxSize (SMTP cf))) (log_of w)
  ∧ Forall (λ g, let x := session_of g in
      Forall (λ l, one_line (snd l)) (out x) ∧ isTLS x = c_tls (conn x)) (sessions s)
  ∧ (listener s = Some Closed ∨ listenerTLS s = Some Closed → cancelled s = true).
Proof.
  intros Hdom Hr.
  pose proof (smtp_code_laws cf (recorded_valid cf) (λ e d He Hd, deliver_recorded _ e d He Hd) Hdom t) as Hc.
  assert (recorded_valid cf (mkRecording [] d)) as H0 by by apply Forall_nil_2.
  destruct (served_inv _ _ _ Hc _ _ H0 Hr) as [Hal Hj Hs Hct]. simpl in *.
  split_and!; [done..| |apply Hct].
  eapply Forall_impl; [exact Hs|]. intros g Hg. split; apply Hg.
Qed.

(** C9: once the signal has come to a server that is accepting connections, Start returns nil
    and the TLS accept loop returns or ends with the process, whatever the network answers to
    Accept, whatever others do to the store, and whatever the sessions do: the only assumption
    is that the scheduler runs the goroutines of the two accept loops and the one that waits
    for the signal, so it also holds when clients never stop sending or a session is blocked
    for ever. *)
Theorem smtp_server_live (cf : Config) (t : option (tls_Config Certificate)) (d : D)
    (tr : trace (Sess := Session D) (W := D)) n :
  LF ∉ Domain_name (SMTP cf) → config tr 0 = (new_server, d) →
  valid (NewServer cf t) (λ _, True) tr → fair tr →
  start (config tr n).1 = SAccept → cancelled (config tr n).1 = true →
  (∃ m, n ≤ m ∧ start (config tr m).1 = SReturned None)
  ∧ (tls_loop (config tr n).1 = LoopAccept →
     ∃ m, n ≤ m ∧ (proc (config tr m).1 = Exited ∨ tls_loop (config tr m).1 = LoopReturned)).
Proof.
  intros Hdom H0 Hv Hf.
  pose proof (smtp_code_laws cf (λ _, True) (λ e d _ _, deliver_any e d) Hdom t) as Hc.
  assert (server_inv (smtp_inv cf (λ _, True)) (λ _, True) (config tr n)) as Hi.
  { eapply (valid_inv _ _ _ Hc tr 0); [done| |lia]. rewrite H0. by apply new_server_inv. }
  intros Hs Hcn. split; [by eapply (start_returns _ _ _ Hc)|].
  intros Ht. apply (tls_loop_returns _ _ _ Hc tr Hv Hf n Hi); [by left|done..].
Qed.

(** C19: when tls.Listen fails, Start returns its error with the plain listener open, and
    whatever happens afterwards that listener is neither served nor closed; when the plain
    port cannot be opened, Start returns the error and there is no listener. *)
Theorem smtp_start_errors (cf : Config) (t : tls_Config Certificate) (d : D) e es s w :
  (run (NewServer cf (Some t)) (EListen None :: EListenTLS (Some e) :: es) (new_server, d) = Some (s, w) →
   start s = SReturned (Some e) ∧ listener s = Some Listening ∧ sessions s = [] ∧ w = d)
  ∧ (run (NewServer cf (Some t)) (EListen (Some e) :: es) (new_server, d) = Some (s, w) →
     start s = SReturned (Some e) ∧ listener s = None ∧ sessions s = [] ∧ w = d).
Proof.
  split; intros E; cbn [run] in E; simpl in E;
    by apply failed_start in E as (H1 & H2 & H3 & H4); simpl in *; [|eauto..].
Qed.
End theorems.

(** ** Witnesses *)

Lemma default_smtp_domain : LF ∉ Domain_name (SMTP default_config).
Proof. by_computation. Qed.

(** Two clients at the same time; the first sends a message. *)
Definition two_clients : list event :=
  [EListen None; EAccept false (Accepted demo_input); ESession 0; EAccept false (Accepted [cmd "NOOP"]);
   ESession 0; ESession 1; ESession 0; ESession 0; ESession 1; ESession 0; ESession 0].

Definition demo_server := NewServer (D := recording accepting) default_config None.
Definition busy : server (Session (recording accepting)) * recording accepting :=
  default (new_server, mkRecording [] Accepting) (run demo_server two_clients (new_server, mkRecording [] Accepting)).

Lemma busy_run : run demo_server two_clients (new_server, mkRecording [] Accepting) = Some busy.
Proof. vm_compute. reflexivity. Qed.

Lemma smtp_server_safe_witness :
  served demo_server (recorded_valid default_config) (mkRecording [] Accepting) busy
  ∧ length (log_of busy.2) = 1 ∧ proc busy.1 ≠ Crashed
  ∧ Forall (valid_event (MaxSize (SMTP default_config))) (log_of busy.2).
Proof.
  pose proof (served_run demo_server (recorded_valid default_config) (mkRecording [] Accepting) _ _ busy_run) as Hr.
  destruct (smtp_server_safe default_config None Accepting busy.1 busy.2 default_smtp_domain) as (H1 & H2 & _).
  { rewrite <- surjective_pairing. exact Hr. }
  split; [exact Hr|]. split; [vm_compute; reflexivity|]. split; [exact H1|exact H2].
Defined.

(** A connection whose session is never scheduled again, then the signal. *)
Definition short_life : list event :=
  [EListen None; EAccept false (Accepted [cmd "NOOP"]); ESession 0; ECancel; EWatch;
   EAccept false (AcceptErr (str "use of closed network connection"))].

Definition small_server := NewServer (D := accepting) default_config None.
Definition rested : server (Session accepting) * accepting :=
  default (new_server, Accepting) (run small_server short_life (new_server, Accepting)).

Lemma rested_run : run small_server short_life (new_server, Accepting) = Some rested.
Proof. vm_compute. reflexivity. Qed.

Lemma rested_ready g : ready g rested.1 = false.
Proof. destruct g; vm_compute; reflexivity. Qed.

Lemma smtp_server_live_witness :
  let tr := scheduled small_server Accepting short_life in
  valid small_server (λ _, True) tr ∧ fair tr
  ∧ ∃ m, 4 ≤ m ∧ start (config tr m).1 = SReturned None.
Proof.
  intros tr.
  assert (valid small_server (λ _, True) tr) as Hv by exact (scheduled_valid _ (λ _, True) _ _ _ rested_run I).
  assert (fair tr) as Hf by exact (scheduled_fair _ _ _ _ rested_run rested_ready).
  split; [exact Hv|]. split; [exact Hf|].
  apply (smtp_server_live default_config None Accepting tr 4 default_smtp_domain eq_refl Hv Hf);
    vm_compute; reflexivity.
Defined.

Lemma smtp_start_errors_witness :
  ∃ s, run (NewServer default_config (Some (mkTLS [] 0 []))) [EListen None; EListenTLS (Some (str "in use")); ECancel]
         (new_server, Accepting) = Some (s, Accepting)
    ∧ start s = SReturned (Some (str "in use")) ∧ listener s = Some Listening.
Proof.
  eexists. split; [vm_compute; reflexivity|].
  destruct (smtp_start_errors (D := accepting) default_config (mkTLS [] 0 []) Accepting (str "in use") [ECancel]
    (set_cancelled (Start_listenTLS (NewServer default_config (Some (mkTLS [] 0 []))) (Some (str "in use"))
       (Start_listen (NewServer default_config (Some (mkTLS [] 0 []))) None new_server))) Accepting) as [H _].
  destruct H as (H1 & H2 & _); [vm_compute; reflexivity|]. split; [exact H1|exact H2].
Defined.
