(* ===== verification/Mysql.v ===== *)
(** * The MySQL store (internal/storage/mysql)

    The tables are those of migrations/001_init.sql, as lists of rows; each SQL statement
    of the store is the list function it denotes. String columns are compared with the
    collation of the database, a parameter. Any call to the server can fail: [faults] says,
    call by call, which do, and whether the statement was applied although its answer was
    lost. A row that does not fit its columns is refused by the server in the strict mode,
    which is MySQL's default: [columns] are the limits of the table messages. *)

From S2P Require Import Prelude GoStrings.

(** ** Rows (domain.go, user.go, mailbox.go, message.go) *)

Record Domain := mkDomain { d_ID : N; d_Name : gostring }.

Record User := mkUser {
  u_ID : N; u_DomainID : N; u_Username : gostring; u_PasswordHash : gostring; u_QuotaBytes : Z }.

Record Mailbox := mkMailbox {
  mb_ID : N; mb_UserID : N; mb_Name : gostring; mb_UIDValidity : N; mb_UIDNext : N }.

Record Message := mkMessage {
  m_ID : N; m_MailboxID : N; m_UID : N; m_Flags : gostring; m_SizeBytes : Z; m_RawKey : gostring;
  m_EnvelopeFrom : gostring; m_EnvelopeTo : gostring; m_Subject : gostring; m_InternalDate : Z }.

(** ** The server *)

(** The collation decides which strings are equal in a WHERE clause and in a unique key. *)
Class Collation := {
  coll_eqb : gostring → gostring → bool;
  coll_equiv : Equivalence (λ a b, coll_eqb a b = true);
}.

Record fault := mkFault { f_msg : gostring; f_applied : bool }.

(** Domains and users carry their [active] flag. [next_id] is the AUTO_INCREMENT counter of
    the table messages. *)
Record DB := mkDB {
  domains : list (Domain * bool);
  users : list (User * bool);
  mailboxes : list Mailbox;
  messages : list Message;
  next_id : N;
  faults : list (option fault);
}.

Definition set_mailboxes (l : list Mailbox) (s : DB) : DB :=
  mkDB (domains s) (users s) l (messages s) (next_id s) (faults s).
Definition set_messages (l : list Message) (n : N) (s : DB) : DB :=
  mkDB (domains s) (users s) (mailboxes s) l n (faults s).
Definition set_faults (l : list (option fault)) (s : DB) : DB :=
  mkDB (domains s) (users s) (mailboxes s) (messages s) (next_id s) l.

(** The next call to the server: does it fail? *)
Definition call : M DB (option fault) := λ s,
  match faults s with
  | [] => Ok (None, s)
  | f :: l => Ok (f, set_faults l s)
  end.

Definition ErrNoRows : gostring := str "sql: no rows in result set".

(** [GetContext]: the first row of a query, [sql.ErrNoRows], or another error. *)
Inductive get_result (A : Type) := Row (a : A) | NoRows | GetErr (msg : gostring).
Arguments Row {A} _.
Arguments NoRows {A}.
Arguments GetErr {A} _.

Definition GetContext {A} (query : DB → list A) : M DB (get_result A) :=
  f ← call;
  match f with
  | Some f => mret (GetErr (f_msg f))
  | None => rows ← gets query;
            mret (match rows with [] => NoRows | r :: _ => Row r end)
  end.

(** [SelectContext]: all rows of a query. *)
Definition SelectContext {A} (query : DB → list A) : M DB (result (list A)) :=
  f ← call;
  match f with
  | Some f => mret (Err (f_msg f))
  | None => rows ← gets query; mret (Good rows)
  end.

(** ** The statements *)

Definition max_uint32 : N := 4294967295.

Section statements.
Context `{K : Collation}.

(** SELECT ... FROM domains WHERE name = ? AND active = TRUE *)
Definition select_domain (name : gostring) (s : DB) : list Domain :=
  fst <$> List.filter (λ r, coll_eqb (d_Name (fst r)) name && snd r) (domains s).

(** SELECT ... FROM users WHERE username = ? AND domain_id = ? AND active = TRUE *)
Definition select_user (username : gostring) (domainID : N) (s : DB) : list User :=
  fst <$> List.filter (λ r, coll_eqb (u_Username (fst r)) username && (u_DomainID (fst r) =? domainID)%N && snd r)
            (users s).

(** SELECT ... FROM mailboxes WHERE user_id = ? AND name = ? *)
Definition select_mailbox (userID : N) (name : gostring) (s : DB) : list Mailbox :=
  List.filter (λ m, (mb_UserID m =? userID)%N && coll_eqb (mb_Name m) name) (mailboxes s).

(** SELECT ... FROM mailboxes WHERE user_id = ? *)
Definition select_mailboxes (userID : N) (s : DB) : list Mailbox :=
  List.filter (λ m, (mb_UserID m =? userID)%N) (mailboxes s).

(** SELECT ... FROM mailboxes WHERE id = ? *)
Definition select_mailbox_by_id (id : N) (s : DB) : list Mailbox :=
  List.filter (λ m, (mb_ID m =? id)%N) (mailboxes s).

(** SELECT ... FROM messages WHERE mailbox_id = ? ORDER BY uid ASC *)
Definition uid_le (a b : Message) : Prop := (m_UID a ≤ m_UID b)%N.
#[export] Instance uid_le_dec : RelDecision uid_le.
Proof. intros a b. unfold uid_le. apply _. Defined.

Definition select_messages (mailboxID : N) (s : DB) : list Message :=
  merge_sort uid_le (List.filter (λ m, (m_MailboxID m =? mailboxID)%N) (messages s)).

(** SELECT ... FROM messages WHERE mailbox_id = ? AND uid = ? *)
Definition select_message_by_uid (mailboxID uid : N) (s : DB) : list Message :=
  List.filter (λ m, (m_MailboxID m =? mailboxID)%N && (m_UID m =? uid)%N) (messages s).

(** UPDATE mailboxes SET uid_next = uid_next + 1 WHERE id = ?: uid_next is INT UNSIGNED, and
    a value out of range is refused. *)
Definition bump (mailboxID : N) (m : Mailbox) : Mailbox :=
  if (mb_ID m =? mailboxID)%N
  then mkMailbox (mb_ID m) (mb_UserID m) (mb_Name m) (mb_UIDValidity m) (mb_UIDNext m + 1)
  else m.
Definition update_uid_next (mailboxID : N) (s : DB) : option DB :=
  if existsb (λ m, (mb_ID m =? mailboxID)%N && (max_uint32 <=? mb_UIDNext m)%N) (mailboxes s)
  then None
  else Some (set_mailboxes (bump mailboxID <$> mailboxes s) s).

(** A string for a column VARCHAR(n) of the default character set utf8mb4: at most [n]
    characters of valid UTF-8; spaces beyond the width are cut off, anything else beyond it
    is an error. *)
Definition valid_utf8 (s : gostring) : bool :=
  forallb (λ rw, negb ((fst rw =? 65533)%N && (snd rw =? 1))) (runes s).
Definition varchar (column : gostring) (n : nat) (s : gostring) : result gostring :=
  if negb (valid_utf8 s) then Err (str "Incorrect string value for column '" ++ column ++ str "'")
  else if length (runes s) <=? n then Good s
  else if forallb (λ rw, (fst rw =? 32)%N) (drop n (runes s))
       then Good (take (sum_list (snd <$> take n (runes s))) s)
       else Err (str "Data too long for column '" ++ column ++ str "'").

Definition int_unsigned (column : gostring) (z : Z) : result Z :=
  if ((0 <=? z) && (z <=? Z.of_N max_uint32))%Z then Good z
  else Err (str "Out of range value for column '" ++ column ++ str "'").

(** A TIMESTAMP has whole seconds, rounded, from 1970-01-01 00:00:01 to 2038-01-19 03:14:07. *)
Definition timestamp (column : gostring) (t : Z) : result Z :=
  let secs := ((t + 500000000) / 1000000000)%Z in
  if ((1 <=? secs) && (secs <=? 2147483647))%Z then Good (secs * 1000000000)%Z
  else Err (str "Incorrect datetime value for column '" ++ column ++ str "'").

(** The row as the columns of the table messages take it, or the error with which they
    refuse it. The flags of every row the program inserts are empty. *)
Definition columns (m : Message) : result Message :=
  match int_unsigned (str "uid") (Z.of_N (m_UID m)), int_unsigned (str "size_bytes") (m_SizeBytes m),
        varchar (str "raw_key") 1000 (m_RawKey m), varchar (str "envelope_from") 500 (m_EnvelopeFrom m),
        varchar (str "envelope_to") 500 (m_EnvelopeTo m), varchar (str "subject") 1000 (m_Subject m),
        timestamp (str "internal_date") (m_InternalDate m) with
  | Good _, Good size, Good key, Good from, Good to, Good subject, Good date =>
      Good (mkMessage (m_ID m) (m_MailboxID m) (m_UID m) (m_Flags m) size key from to subject date)
  | Err e, _, _, _, _, _, _ | _, Err e, _, _, _, _, _ | _, _, Err e, _, _, _, _ | _, _, _, Err e, _, _, _
  | _, _, _, _, Err e, _, _ | _, _, _, _, _, Err e, _ | _, _, _, _, _, _, Err e => Err e
  end.

(** INSERT INTO messages (...) VALUES (...) with a row that fits: the id comes from
    AUTO_INCREMENT. *)
Definition insert_message (m : Message) (s : DB) : N * DB :=
  let id := next_id s in
  (id, set_messages
         (messages s ++ [mkMessage id (m_MailboxID m) (m_UID m) (m_Flags m) (m_SizeBytes m) (m_RawKey m)
                           (m_EnvelopeFrom m) (m_EnvelopeTo m) (m_Subject m) (m_InternalDate m)])
         (id + 1) s).

(** ** The store's methods *)

Context `{U : UnicodeData}.

Definition FindDomain (name : gostring) : M DB (result Domain) :=
  r ← GetContext (select_domain name);
  mret (match r with
        | Row d => Good d
        | NoRows => Err (str "domain " ++ Quote name ++ str " not found")
        | GetErr e => Err (wrap (str "find domain") e)
        end).

Definition FindUser (username : gostring) (domainID : N) : M DB (result User) :=
  r ← GetContext (select_user username domainID);
  mret (match r with
        | Row u => Good u
        | NoRows => Err (str "user " ++ Quote username ++ str " not found")
        | GetErr e => Err (wrap (str "find user") e)
        end).

Definition FindMailbox (userID : N) (name : gostring) : M DB (result Mailbox) :=
  r ← GetContext (select_mailbox userID name);
  mret (match r with
        | Row m => Good m
        | NoRows => Err (str "mailbox " ++ Quote name ++ str " not found for user " ++ fmt_d userID)
        | GetErr e => Err (wrap (str "find mailbox") e)
        end).

Definition ListMailboxes (userID : N) : M DB (result (list Mailbox)) :=
  r ← SelectContext (select_mailboxes userID);
  mret (match r with
        | Good boxes => Good boxes
        | Err e => Err (wrap (str "list mailboxes") e)
        end).

(** The transaction: a return before [Commit] rolls back to [s0], the state at its start. *)
Definition rollback (s0 : DB) : M DB unit := modify (λ s, set_faults (faults s) s0).

Definition AllocateUID (mailboxID : N) : M DB (result N) :=
  f ← call;
  match f with
  | Some f => mret (Err (wrap (str "allocate uid begin tx") (f_msg f)))
  | None =>
      s0 ← get;
      cur ← GetContext (λ s, mb_UIDNext <$> select_mailbox_by_id mailboxID s);
      match cur with
      | NoRows => rollback s0;; mret (Err (wrap (str "allocate uid select") ErrNoRows))
      | GetErr e => rollback s0;; mret (Err (wrap (str "allocate uid select") e))
      | Row current =>
          f ← call;
          s ← get;
          match f, update_uid_next mailboxID s with
          | Some f, _ => rollback s0;; mret (Err (wrap (str "allocate uid update") (f_msg f)))
          | None, None =>
              rollback s0;;
              mret (Err (wrap (str "allocate uid update") (str "Out of range value for column 'uid_next'")))
          | None, Some s' =>
              modify (λ _, s');;
              f ← call;
              match f with
              | Some f =>
                  (if f_applied f then mret tt else rollback s0);;
                  mret (Err (wrap (str "allocate uid commit") (f_msg f)))
              | None => mret (Good current)
              end
          end
      end
  end.

Definition FindInboxByUserID (userID : N) : M DB (result Mailbox) :=
  r ← FindMailbox userID (str "INBOX");
  mret (match r with
        | Good mb => Good mb
        | Err e => Err (wrap (str "find inbox") e)
        end).

Definition GetMailboxByID (id : N) : M DB (result Mailbox) :=
  r ← GetContext (select_mailbox_by_id id);
  mret (match r with
        | Row m => Good m
        | NoRows => Err (str "mailbox " ++ fmt_d id ++ str " not found")
        | GetErr e => Err (wrap (str "get mailbox by id") e)
        end).

Definition InsertMessage (msg : Message) : M DB (result N) :=
  f ← call;
  match f with
  | Some f =>
      (match columns msg with
       | Good row => if f_applied f then modify (λ s, snd (insert_message row s)) else mret tt
       | Err _ => mret tt
       end);;
      mret (Err (wrap (str "insert message") (f_msg f)))
  | None =>
      match columns msg with
      | Err e => mret (Err (wrap (str "insert message") e))
      | Good row =>
          s ← get;
          let '(id, s') := insert_message row s in
          modify (λ _, s');;
          f ← call;  (* result.LastInsertId() *)
          match f with
          | Some f => mret (Err (wrap (str "insert message last id") (f_msg f)))
          | None => mret (Good id)
          end
      end
  end.

Definition ListMessages (mailboxID : N) : M DB (result (list Message)) :=
  r ← SelectContext (select_messages mailboxID);
  mret (match r with
        | Good msgs => Good msgs
        | Err e => Err (wrap (str "list messages") e)
        end).

Definition GetMessageByUID (mailboxID uid : N) : M DB (result Message) :=
  r ← GetContext (select_message_by_uid mailboxID uid);
  mret (match r with
        | Row m => Good m
        | NoRows => Err (wrap (str "get message by uid") ErrNoRows)
        | GetErr e => Err (wrap (str "get message by uid") e)
        end).
End statements.

(** ** The connection string in the log (store.go) *)

(** The loops of maskDSN: at each ':' look for an '@' after it. *)
Fixpoint mask_loop (before rest : gostring) : option gostring :=
  match rest with
  | [] => None
  | c :: rest' =>
      if bool_decide (c = ":"%char) then
        match cut_at "@"%char rest' with
        | Some (_, after) => Some (before ++ [c] ++ str "***" ++ "@"%char :: after)
        | None => mask_loop (before ++ [c]) rest'
        end
      else mask_loop (before ++ [c]) rest'
  end.
Definition maskDSN (dsn : gostring) : gostring :=
  match mask_loop [] dsn with Some masked => masked | None => dsn end.
