(* ===== verification/MysqlProps.v ===== *)
(** * Properties of the MySQL store

    What [AllocateUID] does on each of its paths, the invariant that keeps the UIDs of a
    mailbox unique, and the allocation of UIDs by concurrent deliveries. *)

From S2P Require Import Prelude GoStrings Mysql.

(** ** The invariant of the tables *)

(** Primary keys are unique (AUTO_INCREMENT), every message is in an existing mailbox
    (FOREIGN KEY), its UID is below the mailbox's uid_next, and no two messages of a
    mailbox have the same UID; uid_next fits its column. *)
Record uid_inv (s : DB) : Prop := {
  inv_mailbox_ids : NoDup (mb_ID <$> mailboxes s);
  inv_message_ids : NoDup (m_ID <$> messages s);
  inv_next_id : Forall (λ m, m_ID m < next_id s)%N (messages s);
  inv_in_mailbox : Forall (λ m, m_MailboxID m ∈ mb_ID <$> mailboxes s) (messages s);
  inv_below : ∀ m b, m ∈ messages s → b ∈ mailboxes s → mb_ID b = m_MailboxID m →
              (m_UID m < mb_UIDNext b)%N;
  inv_uids : NoDup ((λ m, (m_MailboxID m, m_UID m)) <$> messages s);
  inv_range : Forall (λ b, mb_UIDNext b ≤ max_uint32)%N (mailboxes s);
}.

(** ** Equal tables

    Two states of the server are equivalent when their tables are the same; they may
    differ in the failures still to come. *)

#[export] Instance db_equiv : Equiv DB := λ s t, set_faults [] s = set_faults [] t.
#[export] Instance db_equivalence : Equivalence (≡@{DB}).
Proof. unfold equiv, db_equiv. split; congruence. Qed.

Lemma set_faults_equiv l s : set_faults l s ≡ s.
Proof. done. Qed.

#[export] Instance mailboxes_proper : Proper ((≡) ==> (=)) mailboxes.
Proof. intros s t E. by injection E. Qed.
#[export] Instance messages_proper : Proper ((≡) ==> (=)) messages.
Proof. intros s t E. by injection E. Qed.
#[export] Instance domains_proper : Proper ((≡) ==> (=)) domains.
Proof. intros s t E. by injection E. Qed.
#[export] Instance users_proper : Proper ((≡) ==> (=)) users.
Proof. intros s t E. by injection E. Qed.
#[export] Instance next_id_proper : Proper ((≡) ==> (=)) next_id.
Proof. intros s t E. by injection E. Qed.
#[export] Instance set_mailboxes_proper : Proper ((=) ==> (≡) ==> (≡)) set_mailboxes.
Proof. intros l _ <- s t E. destruct s, t. injection E as -> -> -> -> ->. done. Qed.
#[export] Instance set_messages_proper : Proper ((=) ==> (=) ==> (≡) ==> (≡)) set_messages.
Proof. intros l _ <- n _ <- s t E. destruct s, t. injection E as -> -> -> -> ->. done. Qed.

#[export] Instance uid_inv_proper : Proper ((≡) ==> (iff)) uid_inv.
Proof.
  assert (∀ s t, s ≡ t → uid_inv s → uid_inv t) as H.
  { intros s t E []. pose proof (mailboxes_proper _ _ E) as Eb.
    pose proof (messages_proper _ _ E) as Em. pose proof (next_id_proper _ _ E) as En.
    split; rewrite <- ?Eb, <- ?Em, <- ?En; done. }
  intros s t E. split; apply H; [done|by symmetry].
Qed.

Lemma bump_ids id (l : list Mailbox) : mb_ID <$> (bump id <$> l) = mb_ID <$> l.
Proof.
  rewrite <- list_fmap_compose. apply list_fmap_ext. intros i b _. simpl. unfold bump.
  by destruct (_ =? _)%N.
Qed.

Lemma elem_of_bump id (l : list Mailbox) b :
  b ∈ bump id <$> l → ∃ b0, b0 ∈ l ∧ mb_ID b = mb_ID b0
    ∧ mb_UIDNext b = (if (mb_ID b0 =? id)%N then mb_UIDNext b0 + 1 else mb_UIDNext b0)%N.
Proof.
  intros (b0 & -> & H)%list_elem_of_fmap. exists b0. unfold bump.
  destruct (mb_ID b0 =? id)%N; auto.
Qed.

(** The UPDATE statement applied: every mailbox with the key is below the limit. *)
Lemma update_uid_next_Some id s s' :
  update_uid_next id s = Some s' →
  s' = set_mailboxes (bump id <$> mailboxes s) s
  ∧ ∀ b, b ∈ mailboxes s → mb_ID b = id → (mb_UIDNext b < max_uint32)%N.
Proof.
  unfold update_uid_next. destruct (existsb _ _) eqn:E; [done|]. intros; simplify_eq.
  split; [done|]. intros b Hb Hid.
  destruct (decide (mb_UIDNext b < max_uint32)%N) as [|Hn]; [done|]. exfalso.
  enough (true = false) by done. rewrite <- E. symmetry. apply existsb_exists.
  exists b. split; [by apply list_elem_of_In|].
  rewrite andb_true_iff, N.eqb_eq, N.leb_le. split; [done|lia].
Qed.

Lemma uid_inv_bump id s :
  uid_inv s → (∀ b, b ∈ mailboxes s → mb_ID b = id → (mb_UIDNext b < max_uint32)%N) →
  uid_inv (set_mailboxes (bump id <$> mailboxes s) s).
Proof.
  intros [] Hlt. split; simpl; try done.
  - by rewrite bump_ids.
  - by rewrite bump_ids.
  - intros m b Hm (b0 & Hb0 & Hid & Hn)%elem_of_bump E. rewrite Hid in E.
    specialize (inv_below0 m b0 Hm Hb0 E). rewrite Hn. destruct (_ =? _)%N; lia.
  - apply Forall_forall. intros b (b0 & Hb0 & Hid & Hn)%elem_of_bump.
    rewrite Forall_forall in inv_range0. specialize (inv_range0 b0 Hb0). rewrite Hn.
    destruct (mb_ID b0 =? id)%N eqn:E; [|done]. apply N.eqb_eq in E.
    specialize (Hlt b0 Hb0 E). lia.
Qed.

Lemma mailbox_unique_ids (l : list Mailbox) b b' :
  NoDup (mb_ID <$> l) → b ∈ l → b' ∈ l → mb_ID b = mb_ID b' → b = b'.
Proof.
  intros Hn [i Hi]%list_elem_of_lookup [j Hj]%list_elem_of_lookup E.
  assert (i = j) as ->; [|congruence].
  eapply (NoDup_lookup (mb_ID <$> l)); [done|..]; rewrite list_lookup_fmap.
  - by rewrite Hi.
  - rewrite Hj. simpl. by rewrite E.
Qed.

Lemma mailbox_unique s b b' :
  uid_inv s → b ∈ mailboxes s → b' ∈ mailboxes s → mb_ID b = mb_ID b' → b = b'.
Proof.
  intros [Hn _ _ _ _ _ _]. by apply mailbox_unique_ids.
Qed.

(** Inserting a message with a UID that is not in use and below uid_next. *)
Lemma uid_inv_insert s m b :
  uid_inv s → b ∈ mailboxes s → mb_ID b = m_MailboxID m → (m_UID m < mb_UIDNext b)%N →
  (∀ m', m' ∈ messages s → m_MailboxID m' = m_MailboxID m → m_UID m' ≠ m_UID m) →
  uid_inv (snd (insert_message m s)).
Proof.
  intros Hinv Hb Hid Hlt Hfresh. pose proof Hinv as []. split; simpl; try done.
  - rewrite fmap_app. apply NoDup_app. split_and!; [done| |apply NoDup_singleton].
    intros i (m' & -> & Hm')%list_elem_of_fmap Hin. simpl in Hin. apply list_elem_of_singleton in Hin.
    rewrite Forall_forall in inv_next_id0. specialize (inv_next_id0 m' Hm'). simpl in *. lia.
  - apply Forall_app. split; [|apply Forall_singleton; simpl; lia].
    eapply Forall_impl; [exact inv_next_id0|]. simpl. intros. lia.
  - apply Forall_app. split; [done|]. apply Forall_singleton. simpl. rewrite <- Hid.
    by apply list_elem_of_fmap_2.
  - intros m' b' [Hm'|Hm']%elem_of_app Hb' E; [by apply inv_below0|].
    apply list_elem_of_singleton in Hm' as ->. simpl in *.
    by rewrite (mailbox_unique s b' b) by (done || by rewrite Hid).
  - rewrite fmap_app. apply NoDup_app. split_and!; [done| |apply NoDup_singleton].
    intros k (m' & -> & Hm')%list_elem_of_fmap Hin. simpl in Hin. apply list_elem_of_singleton in Hin.
    injection Hin as E1 E2. by apply (Hfresh m' Hm' E1).
Qed.

(** ** Calls to the server *)

Lemma wp_call s (Q : option fault → DB → Prop) :
  (∀ f s', s' ≡ s → Q f s') → wp call s Q.
Proof. intros H. unfold wp, call. destruct (faults s) as [|f l]; by apply H. Qed.

(** A query answers from the tables, or reports an error; it changes nothing. *)
Lemma wp_GetContext {A} (query : DB → list A) s (Q : get_result A → DB → Prop) :
  Proper ((≡) ==> (=)) query →
  (∀ r s', s' ≡ s → match r with
                    | Row a => head (query s) = Some a
                    | NoRows => query s = []
                    | GetErr _ => True
                    end → Q r s') →
  wp (GetContext query) s Q.
Proof.
  intros Hq H. apply wp_bind, wp_call. intros [f|] s' E; [by apply H|].
  apply wp_bind, wp_gets, wp_ret, H; [done|]. rewrite <- (Hq _ _ E).
  by destruct (query s') eqn:Eq.
Qed.

Lemma wp_SelectContext {A} (query : DB → list A) s (Q : result (list A) → DB → Prop) :
  Proper ((≡) ==> (=)) query →
  (∀ r s', s' ≡ s → match r with Good l => l = query s | Err _ => True end → Q r s') →
  wp (SelectContext query) s Q.
Proof.
  intros Hq H. apply wp_bind, wp_call. intros [f|] s' E; [by apply H|].
  apply wp_bind, wp_gets, wp_ret, H; [done|]. by apply Hq.
Qed.

#[export] Instance select_mailbox_by_id_proper id : Proper ((≡) ==> (=)) (select_mailbox_by_id id).
Proof. intros s t E. unfold select_mailbox_by_id. by rewrite E. Qed.

Lemma wp_rollback s0 s (Q : unit → DB → Prop) : (∀ s', s' ≡ s0 → Q tt s') → wp (rollback s0) s Q.
Proof. intros H. apply wp_modify, H. done. Qed.

(** ** AllocateUID *)

Definition bumped (id : N) (s : DB) : DB := set_mailboxes (bump id <$> mailboxes s) s.

#[export] Instance bumped_proper id : Proper ((≡) ==> (≡)) (bumped id).
Proof. intros s t E. unfold bumped. rewrite (mailboxes_proper _ _ E). by rewrite E. Qed.

Lemma select_by_id_elem id s b :
  head (select_mailbox_by_id id s) = Some b → b ∈ mailboxes s ∧ mb_ID b = id.
Proof.
  intros [Hb Hid]%filter_head_elem. by apply N.eqb_eq in Hid.
Qed.

(** On every path: a UID returned is the uid_next of the mailbox and the row was advanced
    past it; an error leaves the tables as they were, except when the answer to a commit
    that was applied is lost: then the UID is skipped. *)
Lemma AllocateUID_wp id s (Q : result N → DB → Prop) :
  (∀ b s', b ∈ mailboxes s → mb_ID b = id → head (select_mailbox_by_id id s) = Some b →
     (∀ b', b' ∈ mailboxes s → mb_ID b' = id → (mb_UIDNext b' < max_uint32)%N) →
     s' ≡ bumped id s → Q (Good (mb_UIDNext b)) s' ∧ ∀ e, Q (Err e) s') →
  (∀ e s', s' ≡ s → Q (Err e) s') →
  wp (AllocateUID id) s Q.
Proof.
  intros Hgood Herr. apply wp_bind, wp_call. intros [f|] s0 E0; [by apply wp_ret, Herr|].
  apply wp_bind, wp_get.
  assert (∀ e s1, wp (rollback s0;; mret (Err e)) s1 Q) as Hroll.
  { intros e s1. apply wp_bind, wp_rollback. intros s2 E2. apply wp_ret, Herr. by rewrite E2. }
  apply wp_bind, wp_GetContext.
  { intros s1 s2 E. by rewrite E. }
  intros [cur| |e] s1 E1 Hcur; [|apply Hroll|apply Hroll].
  rewrite E0, head_Some in Hcur. destruct Hcur as [rows Hcur].
  destruct (select_mailbox_by_id id s) as [|b rest] eqn:Hb; simplify_eq/=.
  apply (f_equal head) in Hb as Hb'. apply select_by_id_elem in Hb' as [Hin Hid].
  apply wp_bind, wp_call. intros [f|] s2 E2; [apply Hroll|].
  apply wp_bind, wp_get.
  destruct (update_uid_next id s2) as [s3|] eqn:Eu; [|apply Hroll].
  apply update_uid_next_Some in Eu as [-> Hlt]. assert (s2 ≡ s) as Es by by rewrite E2, E1.
  rewrite (mailboxes_proper _ _ Es) in Hlt.
  assert (set_mailboxes (bump id <$> mailboxes s2) s2 ≡ bumped id s) as E3.
  { by apply (bumped_proper id _ _ Es). }
  apply wp_bind, wp_modify, wp_bind, wp_call. intros [f|] s4 E4.
  - apply wp_bind. destruct (f_applied f).
    + apply wp_ret, wp_ret. eapply Hgood; try done. by rewrite E4.
    + apply wp_rollback. intros s5 E5. apply wp_ret, Herr. by rewrite E5.
  - apply wp_ret. eapply Hgood; try done. by rewrite E4.
Qed.

(** Allocating a UID keeps the invariant, and the UID returned is above those in use. *)
Lemma bumped_inv id s :
  uid_inv s → (∀ b, b ∈ mailboxes s → mb_ID b = id → (mb_UIDNext b < max_uint32)%N) →
  uid_inv (bumped id s).
Proof. apply uid_inv_bump. Qed.

(** ** InsertMessage *)

(** The row that is stored is the message, with its texts cut to the columns. *)
Record stored_as (m row : Message) : Prop := {
  st_mailbox : m_MailboxID row = m_MailboxID m;
  st_uid : m_UID row = m_UID m;
  st_flags : m_Flags row = m_Flags m;
  st_size : m_SizeBytes row = m_SizeBytes m;
  st_from : varchar (str "envelope_from") 500 (m_EnvelopeFrom m) = Good (m_EnvelopeFrom row);
  st_to : varchar (str "envelope_to") 500 (m_EnvelopeTo m) = Good (m_EnvelopeTo row);
  st_subject : varchar (str "subject") 1000 (m_Subject m) = Good (m_Subject row);
}.

Lemma columns_stored m row : columns m = Good row → stored_as m row.
Proof.
  unfold columns. assert (∀ c z z', int_unsigned c z = Good z' → z' = z) as Hi.
  { unfold int_unsigned. intros c z z'. destruct (_ && _); naive_solver. }
  destruct (int_unsigned (str "uid") _) eqn:?; [|done].
  destruct (int_unsigned (str "size_bytes") _) eqn:Es; [|done].
  destruct (varchar (str "raw_key") _ _); [|done]. destruct (varchar (str "envelope_from") _ _) eqn:?; [|done].
  destruct (varchar (str "envelope_to") _ _) eqn:?; [|done]. destruct (varchar (str "subject") _ _) eqn:?; [|done].
  destruct (timestamp _ _); [|done]. intros [= <-]. apply Hi in Es. by split.
Qed.

(** A text within the width of its column is stored as it is. *)
Lemma varchar_fits c n s : valid_utf8 s = true → length (runes s) ≤ n → varchar c n s = Good s.
Proof. intros Hv Hl. unfold varchar. by rewrite Hv, (proj2 (Nat.leb_le _ _) Hl). Qed.

#[export] Instance insert_message_proper m : Proper ((≡) ==> (≡)) (λ s, snd (insert_message m s)).
Proof. intros s t E. destruct s, t. injection E as -> -> -> -> ->. done. Qed.

Lemma InsertMessage_wp m s (Q : result N → DB → Prop) :
  (∀ row s', columns m = Good row → s' ≡ snd (insert_message row s) →
     Q (Good (next_id s)) s' ∧ ∀ e, Q (Err e) s') →
  (∀ e s', s' ≡ s → Q (Err e) s') →
  wp (InsertMessage m) s Q.
Proof.
  intros Hgood Herr. apply wp_bind, wp_call. intros [f|] s0 E0.
  - apply wp_bind. destruct (columns m) as [row|]; [|by apply wp_ret, wp_ret, Herr].
    destruct (f_applied f).
    + apply wp_modify, wp_ret. eapply Hgood; [done|]. by apply insert_message_proper.
    + by apply wp_ret, wp_ret, Herr.
  - destruct (columns m) as [row|]; [|by apply wp_ret, Herr].
    apply wp_bind, wp_get. cbn [insert_message].
    apply wp_bind, wp_modify, wp_bind, wp_call. rewrite (next_id_proper _ _ E0).
    assert (∀ t, t ≡ snd (insert_message row s0) → t ≡ snd (insert_message row s)) as Hs.
    { intros t ->. by apply insert_message_proper. }
    intros [f|] s1 E1; apply wp_ret; (eapply Hgood; [done|]); apply Hs; rewrite E1; cbn [insert_message snd];
      by rewrite (next_id_proper _ _ E0).
Qed.

(** ** Queries *)

Section queries.
Context `{K : Collation} `{U : UnicodeData}.

#[export] Instance select_domain_proper name : Proper ((≡) ==> (=)) (select_domain name).
Proof. intros s t E. unfold select_domain. by rewrite E. Qed.
#[export] Instance select_user_proper name d : Proper ((≡) ==> (=)) (select_user name d).
Proof. intros s t E. unfold select_user. by rewrite E. Qed.
#[export] Instance select_mailbox_proper u name : Proper ((≡) ==> (=)) (select_mailbox u name).
Proof. intros s t E. unfold select_mailbox. by rewrite E. Qed.
#[export] Instance select_mailboxes_proper u : Proper ((≡) ==> (=)) (select_mailboxes u).
Proof. intros s t E. unfold select_mailboxes. by rewrite E. Qed.
#[export] Instance select_messages_proper id : Proper ((≡) ==> (=)) (select_messages id).
Proof. intros s t E. unfold select_messages. by rewrite E. Qed.
#[export] Instance select_message_by_uid_proper id uid :
  Proper ((≡) ==> (=)) (select_message_by_uid id uid).
Proof. intros s t E. unfold select_message_by_uid. by rewrite E. Qed.

(** Each method that reads returns the first row of its query, or an error. *)
Ltac solve_find :=
  apply wp_bind, wp_GetContext; [apply _|];
  intros [?| |?] ? ? ?; apply wp_ret; auto.

Lemma FindDomain_wp name s (Q : result Domain → DB → Prop) :
  (∀ d s', s' ≡ s → head (select_domain name s) = Some d → Q (Good d) s') →
  (∀ e s', s' ≡ s → Q (Err e) s') → wp (FindDomain name) s Q.
Proof. intros. solve_find. Qed.

Lemma FindUser_wp name d s (Q : result User → DB → Prop) :
  (∀ u s', s' ≡ s → head (select_user name d s) = Some u → Q (Good u) s') →
  (∀ e s', s' ≡ s → Q (Err e) s') → wp (FindUser name d) s Q.
Proof. intros. solve_find. Qed.

Lemma FindMailbox_wp u name s (Q : result Mailbox → DB → Prop) :
  (∀ b s', s' ≡ s → head (select_mailbox u name s) = Some b → Q (Good b) s') →
  (∀ e s', s' ≡ s → Q (Err e) s') → wp (FindMailbox u name) s Q.
Proof. intros. solve_find. Qed.

Lemma FindInboxByUserID_wp u s (Q : result Mailbox → DB → Prop) :
  (∀ b s', s' ≡ s → head (select_mailbox u (str "INBOX") s) = Some b → Q (Good b) s') →
  (∀ e s', s' ≡ s → Q (Err e) s') → wp (FindInboxByUserID u) s Q.
Proof. intros. apply wp_bind, FindMailbox_wp; intros; apply wp_ret; auto. Qed.

Lemma GetMailboxByID_wp id s (Q : result Mailbox → DB → Prop) :
  (∀ b s', s' ≡ s → head (select_mailbox_by_id id s) = Some b → Q (Good b) s') →
  (∀ e s', s' ≡ s → Q (Err e) s') → wp (GetMailboxByID id) s Q.
Proof. intros. solve_find. Qed.

Lemma GetMessageByUID_wp id uid s (Q : result Message → DB → Prop) :
  (∀ m s', s' ≡ s → head (select_message_by_uid id uid s) = Some m → Q (Good m) s') →
  (∀ e s', s' ≡ s → Q (Err e) s') → wp (GetMessageByUID id uid) s Q.
Proof. intros. solve_find. Qed.

Lemma ListMailboxes_wp u s (Q : result (list Mailbox) → DB → Prop) :
  (∀ s', s' ≡ s → Q (Good (select_mailboxes u s)) s') →
  (∀ e s', s' ≡ s → Q (Err e) s') → wp (ListMailboxes u) s Q.
Proof. intros. apply wp_bind, wp_SelectContext; [apply _|]. intros [] ? ? ?; apply wp_ret; subst; auto. Qed.

Lemma ListMessages_wp id s (Q : result (list Message) → DB → Prop) :
  (∀ s', s' ≡ s → Q (Good (select_messages id s)) s') →
  (∀ e s', s' ≡ s → Q (Err e) s') → wp (ListMessages id) s Q.
Proof. intros. apply wp_bind, wp_SelectContext; [apply _|]. intros [] ? ? ?; apply wp_ret; subst; auto. Qed.

(** The rows the queries select. *)
Lemma select_domain_elem name s d :
  head (select_domain name s) = Some d → (d, true) ∈ domains s ∧ coll_eqb (d_Name d) name = true.
Proof.
  unfold select_domain. rewrite head_fmap_Some. intros ([d' act] & [H E]%filter_head_elem & ->).
  reflect_bools. simpl in *. by subst.
Qed.

Lemma select_user_elem name dom s u :
  head (select_user name dom s) = Some u →
  (u, true) ∈ users s ∧ coll_eqb (u_Username u) name = true ∧ u_DomainID u = dom.
Proof.
  unfold select_user. rewrite head_fmap_Some. intros ([u' act] & [H E]%filter_head_elem & ->).
  reflect_bools. simpl in *. subst. split_and!; [done..|by apply N.eqb_eq].
Qed.

Lemma select_mailbox_elem u name s b :
  head (select_mailbox u name s) = Some b →
  b ∈ mailboxes s ∧ mb_UserID b = u ∧ coll_eqb (mb_Name b) name = true.
Proof. intros [H E]%filter_head_elem. reflect_bools. by apply N.eqb_eq in H0. Qed.
End queries.

(** ** ListMessages *)

Lemma merge_sorted_strict (l : list Message) :
  NoDup (m_UID <$> l) → StronglySorted uid_le l → StronglySorted (λ a b, (m_UID a < m_UID b)%N) l.
Proof.
  induction l as [|m l IH]; simpl; [constructor|]. rewrite NoDup_cons.
  intros [Hm Hn] [Hs Hf]%StronglySorted_inv. constructor; [auto|].
  rewrite Forall_forall in Hf |- *. intros m' Hm'. specialize (Hf m' Hm'). unfold uid_le in Hf.
  enough (m_UID m ≠ m_UID m') by lia. intros E. apply Hm. rewrite E. by apply list_elem_of_fmap_2.
Qed.

Lemma NoDup_mailbox_uids (l : list Message) id :
  NoDup ((λ m, (m_MailboxID m, m_UID m)) <$> l) →
  NoDup (m_UID <$> List.filter (λ m, (m_MailboxID m =? id)%N) l).
Proof.
  induction l as [|m l IH]; simpl; [constructor|]. rewrite NoDup_cons. intros [Hm Hn].
  destruct (m_MailboxID m =? id)%N eqn:E; [|auto]. simpl. constructor; [|auto].
  intros (m' & Eu & [Hm' E']%filter_In_elem)%list_elem_of_fmap. apply Hm.
  apply list_elem_of_fmap. exists m'. apply N.eqb_eq in E, E'. split; [congruence|done].
Qed.

Lemma select_messages_sorted id s :
  uid_inv s →
  select_messages id s ≡ₚ List.filter (λ m, (m_MailboxID m =? id)%N) (messages s)
  ∧ StronglySorted (λ a b, (m_UID a < m_UID b)%N) (select_messages id s).
Proof.
  intros Hinv. assert (Transitive uid_le) by (intros a b c; unfold uid_le; lia).
  assert (Total uid_le) by (intros a b; unfold uid_le; lia).
  unfold select_messages. split; [apply merge_sort_Permutation|].
  apply merge_sorted_strict; [|by apply StronglySorted_merge_sort].
  rewrite merge_sort_Permutation. apply NoDup_mailbox_uids, Hinv.
Qed.

(** ** maskDSN *)

Lemma mask_loop_colon before user rest :
  ":"%char ∉ user →
  mask_loop before (user ++ ":"%char :: rest) =
    match cut_at "@"%char rest with
    | Some (_, after) => Some (before ++ user ++ str ":***@" ++ after)
    | None => mask_loop (before ++ user ++ str ":") rest
    end.
Proof.
  revert before. induction user as [|c user IH]; intros before Hu; cbn [app mask_loop].
  - rewrite bool_decide_true by done. by destruct (cut_at _ _) as [[]|].
  - rewrite bool_decide_false by set_solver. rewrite IH by set_solver.
    destruct (cut_at _ _) as [[]|]; by rewrite <- !(assoc_L (++)).
Qed.

Lemma maskDSN_at user p rest :
  ":"%char ∉ user → "@"%char ∉ p →
  maskDSN (user ++ ":"%char :: (p ++ "@"%char :: rest)) = user ++ str ":***@" ++ rest.
Proof. intros Hu Hp. unfold maskDSN. by rewrite mask_loop_colon, cut_at_app. Qed.

(** ** The methods when no call to the server fails *)

Lemma AllocateUID_up id s :
  faults s = [] → NoDup (mb_ID <$> mailboxes s) →
  ∃ r s', AllocateUID id s = Ok (r, s') ∧
    match select_mailbox_by_id id s with
    | [] => (∃ e, r = Err e) ∧ s' = s
    | b :: _ => if decide (mb_UIDNext b < max_uint32)%N
                then r = Good (mb_UIDNext b) ∧ s' = bumped id s
                else (∃ e, r = Err e) ∧ s' = s
    end.
Proof.
  destruct s as [dom us mbs ms nid fl]. simpl. intros -> Hnd. set (s := mkDB dom us mbs ms nid []).
  unfold AllocateUID, mbind, M_bind, mret, M_ret, rollback, GetContext, gets, get, modify. simpl.
  destruct (select_mailbox_by_id id s) as [|b rest] eqn:Es; simpl; [eauto 10|].
  assert (b ∈ mbs ∧ mb_ID b = id) as [Hb Hid] by (apply (select_by_id_elem id s b); by rewrite Es).
  unfold update_uid_next. destruct (existsb _ _) eqn:Ex.
  - apply existsb_exists in Ex as (b' & Hb'%list_elem_of_In & Hx).
    apply andb_true_iff in Hx as [Hid'%N.eqb_eq Hn%N.leb_le].
    assert (b' = b) as -> by (eapply (mailbox_unique_ids mbs); [done..|congruence]).
    do 2 eexists. split; [done|]. rewrite decide_False by lia. eauto.
  - do 2 eexists. split; [done|]. destruct (decide _) as [|Hn]; [done|]. exfalso. revert Ex.
    apply not_false_iff_true. apply existsb_exists. exists b. split; [by apply list_elem_of_In|].
    apply andb_true_iff. split; [by apply N.eqb_eq|apply N.leb_le; lia].
Qed.

Section up.
Context `{K : Collation} `{U : UnicodeData}.
Context (s : DB) (Hup : faults s = []).

Lemma GetContext_up {A} (query : DB → list A) :
  GetContext query s = Ok (match head (query s) with Some r => Row r | None => NoRows end, s).
Proof.
  unfold GetContext, call, mbind, M_bind, gets, mret, M_ret. rewrite Hup.
  by destruct (query s).
Qed.

Lemma FindDomain_up name :
  ∃ e, FindDomain name s = Ok (match head (select_domain name s) with Some d => Good d | None => Err e end, s).
Proof.
  unfold FindDomain, mbind, M_bind. rewrite GetContext_up. destruct (head _); [by exists []|by eexists].
Qed.

Lemma FindUser_up name d :
  ∃ e, FindUser name d s = Ok (match head (select_user name d s) with Some u => Good u | None => Err e end, s).
Proof.
  unfold FindUser, mbind, M_bind. rewrite GetContext_up. destruct (head _); [by exists []|by eexists].
Qed.

Lemma FindInbox_up u :
  ∃ e, FindInboxByUserID u s
    = Ok (match head (select_mailbox u (str "INBOX") s) with Some b => Good b | None => Err e end, s).
Proof.
  unfold FindInboxByUserID, FindMailbox, mbind, M_bind. rewrite GetContext_up.
  destruct (head _); [by exists []|by eexists].
Qed.

Lemma InsertMessage_up m :
  InsertMessage m s = match columns m with
                      | Good row => Ok (Good (next_id s), snd (insert_message row s))
                      | Err e => Ok (Err (wrap (str "insert message") e), s)
                      end.
Proof.
  unfold InsertMessage, call, get, modify, mbind, M_bind, mret, M_ret. rewrite Hup.
  destruct (columns m) as [row|]; [|done]. simpl.
  unfold set_messages. simpl. by rewrite Hup.
Qed.
End up.
