(* ===== verification/MysqlTheorems.v ===== *)
(** * What the MySQL store guarantees

    The allocation of UIDs on every path, the listing of a mailbox, and the masking of the
    connection string. *)

From S2P Require Import Prelude GoStrings Mysql MysqlProps.

(** ** A small database *)

#[export] Instance bytewise : Collation.
Proof.
  refine {| coll_eqb a b := bool_decide (a = b) |}.
  split; red; intros *; rewrite ?bool_decide_eq_true; congruence.
Defined.

(** The rows that migrations/001_init.sql inserts. *)
Definition initial_db : DB := {|
  domains := [(mkDomain 1 (str "gomail.local"), true)];
  users := [(mkUser 1 1 (str "test") (str "$2a$10$92IXUNpkjO0rOQ5byMi.Ye4oKoEa3Ro9llC/.og/at2.uheWG/igi")
               1073741824, true)];
  mailboxes := [mkMailbox 1 1 (str "INBOX") 1 1; mkMailbox 2 1 (str "Sent") 1 1;
                mkMailbox 3 1 (str "Trash") 1 1; mkMailbox 4 1 (str "Drafts") 1 1];
  messages := [];
  next_id := 1;
  faults := [];
|}.

Lemma initial_db_inv : uid_inv initial_db.
Proof.
  split; try by_computation.
  - intros m b Hm. inversion Hm.
Qed.

(** The same with two messages in INBOX, inserted out of UID order. *)
Definition two_messages : DB :=
  set_messages
    [mkMessage 1 1 2 [] 4 [] (str "a@x") (str "test@gomail.local") (str "second") 0;
     mkMessage 2 1 1 [] 4 [] (str "b@x") (str "test@gomail.local") (str "first") 0] 3
    (set_mailboxes [mkMailbox 1 1 (str "INBOX") 1 3] initial_db).

Lemma two_messages_inv : uid_inv two_messages.
Proof.
  split; try by_computation.
  intros m b Hm Hb%list_elem_of_singleton _. subst b. revert m Hm. simpl. apply Forall_forall.
  by_computation.
Qed.

(** C25: AllocateUID keeps the UID invariant whatever calls to the server fail. A UID it
    returns is the mailbox's uid_next, above the UID of every message in the mailbox, and
    the row has been advanced past it; an error leaves the tables unchanged, or (the answer
    to an applied COMMIT was lost) skips that UID. *)
Theorem mysql_AllocateUID_paths id s :
  uid_inv s →
  ∃ r s', AllocateUID id s = Ok (r, s') ∧ uid_inv s' ∧
    match r with
    | Good uid =>
        (∃ b, b ∈ mailboxes s ∧ mb_ID b = id ∧ mb_UIDNext b = uid)
        ∧ s' ≡ bumped id s
        ∧ (∀ m, m ∈ messages s' → m_MailboxID m = id → (m_UID m < uid)%N)
    | Err _ => s' ≡ s ∨ s' ≡ bumped id s
    end.
Proof.
  intros Hinv. apply wp_run, AllocateUID_wp.
  - intros b s' Hb Hid _ Hlt E.
    assert (uid_inv s') by (rewrite E; by apply bumped_inv).
    split; [|auto]. split_and!; [done|eauto|done|].
    intros m Hm Hmb. rewrite E in Hm. simpl in Hm. apply (inv_below s Hinv m b); [done..|]. by rewrite Hid.
  - intros e s' E. rewrite E at 1. auto.
Qed.

Lemma mysql_AllocateUID_paths_witness :
  uid_inv two_messages ∧ ∃ s', AllocateUID 1 two_messages = Ok (Good 3%N, s').
Proof.
  split; [apply two_messages_inv|].
  destruct (mysql_AllocateUID_paths 1 two_messages two_messages_inv) as (r & s' & E & _).
  exists s'. rewrite E. revert E. vm_compute. congruence.
Defined.

(** C26: with the server up, AllocateUID returns the mailbox's uid_next when the mailbox
    exists and uid_next is below 2^32 - 1; for a missing mailbox, and when the 32-bit
    column is exhausted, it returns an error and changes nothing: no UID is ever reused by
    a wrap-around. *)
Theorem mysql_AllocateUID_server_up id s :
  faults s = [] → NoDup (mb_ID <$> mailboxes s) →
  ∃ r s', AllocateUID id s = Ok (r, s') ∧
    match select_mailbox_by_id id s with
    | [] => (∃ e, r = Err e) ∧ s' = s
    | b :: _ => if decide (mb_UIDNext b < max_uint32)%N
                then r = Good (mb_UIDNext b) ∧ s' = bumped id s
                else (∃ e, r = Err e) ∧ s' = s
    end.
Proof.
  intros Hf Hn. by apply AllocateUID_up.
Qed.

(** A mailbox whose UIDs are used up. *)
Definition exhausted : DB := set_mailboxes [mkMailbox 7 1 (str "INBOX") 1 max_uint32] initial_db.

Lemma mysql_AllocateUID_server_up_witness :
  NoDup (mb_ID <$> mailboxes exhausted) ∧ ∃ r, AllocateUID 7 exhausted = Ok (r, exhausted).
Proof.
  assert (NoDup (mb_ID <$> mailboxes exhausted)) as Hn by by_computation.
  split; [done|].
  destruct (mysql_AllocateUID_server_up 7 exhausted eq_refl Hn) as (r & s' & E & H).
  exists r. simpl in H. destruct H as [_ ->]. exact E.
Defined.

(** C27: listing a mailbox returns exactly its messages, in strictly increasing UID order
    whatever the order they were inserted in, and changes nothing; the only other result
    is an error of the server. *)
Theorem mysql_ListMessages_sorted id s :
  uid_inv s →
  ∃ r s', ListMessages id s = Ok (r, s') ∧ s' ≡ s ∧
    match r with
    | Good l =>
        l ≡ₚ List.filter (λ m, (m_MailboxID m =? id)%N) (messages s)
        ∧ StronglySorted (λ a b, (m_UID a < m_UID b)%N) l
    | Err _ => faults s ≠ []
    end.
Proof.
  intros Hinv. unfold ListMessages, SelectContext, call, mbind, M_bind, mret, M_ret, gets.
  destruct (faults s) as [|[f|] fl] eqn:Ef.
  - do 2 eexists. split; [done|]. split; [done|]. by apply select_messages_sorted.
  - by do 2 eexists.
  - do 2 eexists. split; [done|]. split; [done|]. apply (select_messages_sorted id (set_faults fl s)).
    by rewrite set_faults_equiv.
Qed.

Lemma mysql_ListMessages_sorted_witness :
  uid_inv two_messages
  ∧ ∃ s', ListMessages 1 two_messages = Ok (Good (reverse (messages two_messages)), s').
Proof.
  split; [apply two_messages_inv|].
  destruct (mysql_ListMessages_sorted 1 two_messages two_messages_inv) as (r & s' & E & _).
  exists s'. rewrite E. revert E. vm_compute. congruence.
Defined.

(** ** The connection string *)

(** MaskDSN replaces the password of a DSN [user:password@rest] by three asterisks and
    keeps the rest, for a user name without ':' and a password without '@'. *)
Theorem mysql_maskDSN_hides user password rest :
  ":"%char ∉ user → "@"%char ∉ password →
  maskDSN (user ++ str ":" ++ password ++ str "@" ++ rest) = user ++ str ":***@" ++ rest.
Proof.
  intros Hu Hp. apply (maskDSN_at user password rest Hu Hp).
Qed.

Lemma mysql_maskDSN_hides_witness :
  maskDSN (str "gomail" ++ str ":" ++ str "gomailpassword" ++ str "@" ++ str "tcp(localhost:3306)/gomail")
  = str "gomail:***@tcp(localhost:3306)/gomail".
Proof. apply mysql_maskDSN_hides; by_computation. Defined.

(** C40: the DSN is cut at the first '@' after the first ':': when the password contains an
    '@', the part after it stays in the masked string, which goes to the log. *)
Theorem mysql_maskDSN_at_sign user p q rest :
  ":"%char ∉ user → "@"%char ∉ p →
  maskDSN (user ++ str ":" ++ (p ++ str "@" ++ q) ++ str "@" ++ rest) = user ++ str ":***@" ++ q ++ str "@" ++ rest.
Proof.
  intros Hu Hp. rewrite <- !(assoc_L (++)). apply (maskDSN_at user p (q ++ str "@" ++ rest) Hu Hp).
Qed.

Lemma mysql_maskDSN_at_sign_witness :
  maskDSN (str "root" ++ str ":" ++ (str "p" ++ str "@" ++ str "ssword") ++ str "@" ++ str "tcp(db)/m")
  = str "root:***@ssword@tcp(db)/m".
Proof. apply mysql_maskDSN_at_sign; by_computation. Defined.
