(* ===== verification/UidAllocation.v ===== *)
(** * Concurrent deliveries

    Every SMTP session delivers from its own goroutine, so calls of [AllocateUID] and
    [InsertMessage] for the same mailbox interleave. A delivery is a process that goes
    through the statements of AllocateUID's transaction and the INSERT; the lock that
    SELECT ... FOR UPDATE takes on the mailbox's row is held until the transaction ends.
    Any delivery can fail at any statement, and the answer to an applied COMMIT or INSERT
    can be lost. *)

From S2P Require Import Prelude GoStrings Mysql MysqlProps MysqlTheorems.

(** Where a delivery is. *)
Inductive tx :=
| Waiting (id : N)            (** before its SELECT ... FOR UPDATE *)
| Selected (id current : N)   (** it holds the lock of the row and has read uid_next *)
| Updated (id current : N)    (** it has executed the UPDATE *)
| Allocated (id uid : N)      (** AllocateUID has committed [uid] *)
| Inserted (id uid : N)       (** the message's row is in the table *)
| Failed.

Definition holds (id : N) (p : tx) : bool :=
  match p with
  | Selected id' _ | Updated id' _ => (id' =? id)%N
  | _ => false
  end.

(** The undo of an UPDATE that is rolled back. *)
Definition restore (id current : N) (m : Mailbox) : Mailbox :=
  if (mb_ID m =? id)%N
  then mkMailbox (mb_ID m) (mb_UserID m) (mb_Name m) (mb_UIDValidity m) current
  else m.
Definition restored (id current : N) (s : DB) : DB :=
  set_mailboxes (restore id current <$> mailboxes s) s.

Inductive step : DB * list tx → DB * list tx → Prop :=
| step_select i id b s ps :
    ps !! i = Some (Waiting id) → existsb (holds id) ps = false →
    head (select_mailbox_by_id id s) = Some b →
    step (s, ps) (s, <[i := Selected id (mb_UIDNext b)]> ps)
| step_update i id current s s' ps :
    ps !! i = Some (Selected id current) → update_uid_next id s = Some s' →
    step (s, ps) (s', <[i := Updated id current]> ps)
| step_commit i id current s ps :
    ps !! i = Some (Updated id current) →
    step (s, ps) (s, <[i := Allocated id current]> ps)
| step_rollback i id current s ps :
    ps !! i = Some (Updated id current) →
    step (s, ps) (restored id current s, <[i := Failed]> ps)
| step_insert i id uid m s ps :
    ps !! i = Some (Allocated id uid) → m_MailboxID m = id → m_UID m = uid →
    step (s, ps) (snd (insert_message m s), <[i := Inserted id uid]> ps)
| step_fail i p s ps :
    (** an error before the UPDATE (nothing to undo), an error of the INSERT, or the
        answer to an applied COMMIT was lost *)
    ps !! i = Some p →
    step (s, ps) (s, <[i := Failed]> ps).

(** ** uid_next of a mailbox *)

Definition next_of (id : N) (s : DB) : option N := mb_UIDNext <$> head (select_mailbox_by_id id s).

Lemma head_filter_fmap id (f : Mailbox → Mailbox) (l : list Mailbox) :
  (∀ b, mb_ID (f b) = mb_ID b) →
  head (List.filter (λ m, (mb_ID m =? id)%N) (f <$> l))
  = f <$> head (List.filter (λ m, (mb_ID m =? id)%N) l).
Proof.
  intros Hf. induction l as [|b l IH]; simpl; [done|]. rewrite Hf.
  by destruct (mb_ID b =? id)%N.
Qed.

Lemma bump_id id b : mb_ID (bump id b) = mb_ID b.
Proof. unfold bump. by destruct (_ =? _)%N. Qed.
Lemma restore_id id n b : mb_ID (restore id n b) = mb_ID b.
Proof. unfold restore. by destruct (_ =? _)%N. Qed.

Lemma next_of_bumped id id' s :
  next_of id' (bumped id s) = (if decide (id = id') then (λ n, n + 1)%N else (λ n, n)) <$> next_of id' s.
Proof.
  unfold next_of, select_mailbox_by_id. simpl. rewrite head_filter_fmap by apply bump_id.
  destruct (head _) as [b|] eqn:Hb; [|by destruct (decide _)]. apply filter_head_elem in Hb as [_ Hb].
  apply N.eqb_eq in Hb. simpl. unfold bump. rewrite Hb.
  destruct (decide (id = id')) as [->|Hne]; [by rewrite N.eqb_refl|].
  by rewrite (proj2 (N.eqb_neq id' id)) by congruence.
Qed.

Lemma next_of_restored id n id' s :
  next_of id' (restored id n s) = (if decide (id = id') then (λ _, n) else (λ n, n)) <$> next_of id' s.
Proof.
  unfold next_of, select_mailbox_by_id. simpl. rewrite head_filter_fmap by apply restore_id.
  destruct (head _) as [b|] eqn:Hb; [|by destruct (decide _)]. apply filter_head_elem in Hb as [_ Hb].
  apply N.eqb_eq in Hb. simpl. unfold restore. rewrite Hb.
  destruct (decide (id = id')) as [->|Hne]; [by rewrite N.eqb_refl|].
  by rewrite (proj2 (N.eqb_neq id' id)) by congruence.
Qed.

Lemma next_of_elem id s n :
  next_of id s = Some n → ∃ b, b ∈ mailboxes s ∧ mb_ID b = id ∧ mb_UIDNext b = n.
Proof.
  unfold next_of. rewrite fmap_Some. intros (b & [Hb Hid]%select_by_id_elem & ->). eauto.
Qed.

Lemma restored_inv id n n' s :
  uid_inv s → next_of id s = Some n' → (n ≤ n')%N →
  (∀ m, m ∈ messages s → m_MailboxID m = id → (m_UID m < n)%N) →
  uid_inv (restored id n s).
Proof.
  intros Hinv (b1 & Hb1 & Hid1 & <-)%next_of_elem Hle Hm. pose proof Hinv as [Hids Hmids Hnid Hmbox Hbelow Huids Hrange].
  assert (mb_ID <$> (restore id n <$> mailboxes s) = mb_ID <$> mailboxes s) as Eids.
  { rewrite <- list_fmap_compose. apply list_fmap_ext. intros i b _. apply restore_id. }
  split; simpl; rewrite ?Eids; try done.
  - intros m b Hin (b0 & -> & Hb0)%list_elem_of_fmap. rewrite restore_id. intros E.
    unfold restore. destruct (mb_ID b0 =? id)%N eqn:Ei; simpl; [|by apply Hbelow].
    apply N.eqb_eq in Ei. apply Hm; congruence.
  - apply Forall_fmap. rewrite Forall_forall in Hrange |- *. intros b Hb. simpl.
    specialize (Hrange b Hb). unfold restore. destruct (mb_ID b =? id)%N eqn:Ei; [|done].
    apply N.eqb_eq in Ei. simpl.
    by rewrite (mailbox_unique s b b1) in Hrange by (done || congruence); lia.
Qed.

(** ** The invariant *)

(** A UID that AllocateUID has given out. *)
Definition given (id uid : N) (p : tx) : Prop := p = Allocated id uid ∨ p = Inserted id uid.

Record conc_inv (s : DB) (ps : list tx) : Prop := {
  c_inv : uid_inv s;
  c_lock i j id p q : ps !! i = Some p → ps !! j = Some q →
    holds id p = true → holds id q = true → i = j;
  c_selected i id n : ps !! i = Some (Selected id n) → next_of id s = Some n;
  c_updated i id n : ps !! i = Some (Updated id n) → next_of id s = Some (n + 1)%N;
  c_updated_msgs i id n m : ps !! i = Some (Updated id n) → m ∈ messages s →
    m_MailboxID m = id → (m_UID m < n)%N;
  c_updated_given i j id n uid p : ps !! i = Some (Updated id n) → ps !! j = Some p →
    given id uid p → (uid < n)%N;
  c_given i id uid p : ps !! i = Some p → given id uid p →
    ∃ n, next_of id s = Some n ∧ (uid < n)%N;
  c_unique i j id uid p q : ps !! i = Some p → ps !! j = Some q →
    given id uid p → given id uid q → i = j;
  c_fresh i id uid m : ps !! i = Some (Allocated id uid) → m ∈ messages s →
    m_MailboxID m = id → m_UID m ≠ uid;
}.

Ltac lookup_cases :=
  repeat match goal with
  | H : <[_ := _]> _ !! _ = Some _ |- _ =>
      apply list_lookup_insert_Some in H as [(? & ? & ?)|[? ?]]
  | H : given _ _ _ |- _ => destruct H as [?|?]
  end; simplify_eq/=.

(** The cases of the invariant about processes that the step does not touch. *)
Ltac unchanged HI :=
  first
  [ by eauto using c_selected, c_updated, c_updated_msgs, c_fresh
  | eapply (c_updated_given _ _ HI); [done..|by (left + right)]
  | eapply (c_given _ _ HI); [done|by (left + right)]
  | eapply (c_unique _ _ HI _ _ _ _); [done..|by (left + right)|by (left + right)]
  | by eapply (c_lock _ _ HI) ].

(** A process that holds no lock and is given nothing can be put anywhere. *)
Lemma conc_inv_fail s ps i : conc_inv s ps → conc_inv s (<[i := Failed]> ps).
Proof. intros HI. split; [apply HI|..]; intros; lookup_cases; unchanged HI. Qed.

Lemma not_locked ps id j p : existsb (holds id) ps = false → ps !! j = Some p → holds id p = false.
Proof.
  intros Hl Hj. apply not_true_iff_false. intros Hp. apply not_true_iff_false in Hl. apply Hl.
  apply existsb_exists. exists p. split; [|done]. by eapply list_elem_of_In, list_elem_of_lookup_2.
Qed.

Lemma holds_eq id p : holds id p = true → (∃ n, p = Selected id n) ∨ ∃ n, p = Updated id n.
Proof. destruct p; simpl; intros H; try done; apply N.eqb_eq in H as ->; eauto. Qed.

Lemma conc_inv_select s ps i id n :
  conc_inv s ps → existsb (holds id) ps = false → next_of id s = Some n →
  conc_inv s (<[i := Selected id n]> ps).
Proof.
  intros HI Hl Hn. split; [apply HI|..]; intros; lookup_cases; try unchanged HI.
  all: match goal with
       | Hl : existsb _ _ = false, Hj : _ !! _ = Some ?p, Hh : holds _ ?p = true,
           He : (_ =? _)%N = true |- _ =>
           apply N.eqb_eq in He as ->; rewrite (not_locked _ _ _ _ Hl Hj) in Hh; done
       end.
Qed.

(** While process [i] holds the lock of mailbox [id], no other process does. *)
Lemma lock_excludes s ps i id p :
  conc_inv s ps → ps !! i = Some p → holds id p = true →
  (∀ j n, ps !! j = Some (Selected id n) → i = j) ∧ (∀ j n, ps !! j = Some (Updated id n) → i = j).
Proof.
  intros HI Hi Hp. split; intros j n Hj; eapply (c_lock _ _ HI); try done; simpl; apply N.eqb_refl.
Qed.

Lemma conc_inv_update s ps i id n :
  conc_inv s ps → ps !! i = Some (Selected id n) → uid_inv (bumped id s) →
  conc_inv (bumped id s) (<[i := Updated id n]> ps).
Proof.
  intros HI Hi Hb. pose proof (c_selected _ _ HI _ _ _ Hi) as Hn.
  destruct (lock_excludes _ _ _ id _ HI Hi (N.eqb_refl id)) as [Hx Hx'].
  assert (∀ id' k, next_of id' s = Some k → ∃ k', next_of id' (bumped id s) = Some k' ∧ (k ≤ k')%N) as Hmono.
  { intros id' k Hk. rewrite next_of_bumped, Hk. destruct (decide _); simpl; eexists; split; try done; lia. }
  split; [done|..]; intros; lookup_cases; rewrite ?next_of_bumped; try unchanged HI.
  - rewrite (c_selected _ _ HI i0 id0 n0) by done. destruct (decide _) as [->|]; [naive_solver|done].
  - rewrite Hn. by rewrite decide_True.
  - rewrite (c_updated _ _ HI i0 id0 n0) by done. destruct (decide _) as [->|]; [naive_solver|done].
  - apply next_of_elem in Hn as (b & Hb' & Hid & <-). by apply (inv_below s (c_inv _ _ HI) m b).
  - destruct (c_given _ _ HI j id0 uid (Allocated id0 uid)) as (k & Hk & Hlt); [done|by left|].
    simplify_eq. done.
  - destruct (c_given _ _ HI j id0 uid (Inserted id0 uid)) as (k & Hk & Hlt); [done|by right|].
    simplify_eq. done.
  - destruct (c_given _ _ HI i0 id0 uid (Allocated id0 uid)) as (k & Hk & Hlt); [done|by left|].
    rewrite <- next_of_bumped. destruct (Hmono _ _ Hk) as (k' & ? & ?). exists k'. split; [done|lia].
  - destruct (c_given _ _ HI i0 id0 uid (Inserted id0 uid)) as (k & Hk & Hlt); [done|by right|].
    rewrite <- next_of_bumped. destruct (Hmono _ _ Hk) as (k' & ? & ?). exists k'. split; [done|lia].
Qed.

Lemma conc_inv_commit s ps i id n :
  conc_inv s ps → ps !! i = Some (Updated id n) → conc_inv s (<[i := Allocated id n]> ps).
Proof.
  intros HI Hi. destruct (lock_excludes _ _ _ id _ HI Hi (N.eqb_refl id)) as [Hx Hx'].
  assert (∀ j uid p, ps !! j = Some p → given id uid p → (uid < n)%N) as Hlt
    by (intros; by eapply (c_updated_given _ _ HI)).
  split; [apply HI|..]; intros; lookup_cases; try unchanged HI.
  - naive_solver.
  - exists (uid + 1)%N. split; [by eapply (c_updated _ _ HI)|lia].
  - exfalso. enough (uid < uid)%N by lia. eapply Hlt; [done|by left].
  - exfalso. enough (uid < uid)%N by lia. eapply Hlt; [done|by right].
  - exfalso. enough (uid < uid)%N by lia. eapply Hlt; [done|by left].
  - exfalso. enough (uid < uid)%N by lia. eapply Hlt; [done|by right].
  - enough (m_UID m < uid)%N by lia. by eapply (c_updated_msgs _ _ HI).
Qed.

Lemma conc_inv_rollback s ps i id n :
  conc_inv s ps → ps !! i = Some (Updated id n) →
  conc_inv (restored id n s) (<[i := Failed]> ps).
Proof.
  intros HI Hi. destruct (lock_excludes _ _ _ id _ HI Hi (N.eqb_refl id)) as [Hx Hx'].
  pose proof (c_updated _ _ HI _ _ _ Hi) as Hn.
  split.
  { eapply restored_inv; [apply HI|done|lia|]. intros m. by eapply (c_updated_msgs _ _ HI). }
  all: intros; lookup_cases; rewrite ?next_of_restored; try unchanged HI.
  - rewrite (c_selected _ _ HI i0 id0 n0) by done. destruct (decide _) as [->|]; [naive_solver|done].
  - rewrite (c_updated _ _ HI i0 id0 n0) by done. destruct (decide _) as [->|]; [naive_solver|done].
  - destruct (c_given _ _ HI i0 id0 uid (Allocated id0 uid)) as (k & Hk & Hlt); [done|by left|].
    rewrite Hk. destruct (decide _) as [->|]; simpl; eexists; split; try done.
    eapply (c_updated_given _ _ HI); [done..|by left].
  - destruct (c_given _ _ HI i0 id0 uid (Inserted id0 uid)) as (k & Hk & Hlt); [done|by right|].
    rewrite Hk. destruct (decide _) as [->|]; simpl; eexists; split; try done.
    eapply (c_updated_given _ _ HI); [done..|by right].
Qed.

Lemma elem_of_insert_message m m' s :
  m' ∈ messages (snd (insert_message m s)) →
  m' ∈ messages s ∨ m_MailboxID m' = m_MailboxID m ∧ m_UID m' = m_UID m.
Proof. simpl. intros [?| ->%list_elem_of_singleton]%elem_of_app; auto. Qed.

Lemma conc_inv_insert s ps i m :
  conc_inv s ps → ps !! i = Some (Allocated (m_MailboxID m) (m_UID m)) →
  conc_inv (snd (insert_message m s)) (<[i := Inserted (m_MailboxID m) (m_UID m)]> ps).
Proof.
  intros HI Hi. split.
  { destruct (c_given _ _ HI i (m_MailboxID m) (m_UID m) _ Hi) as (k & (b & Hb & Hid & <-)%next_of_elem & Hlt); [by left|].
    eapply uid_inv_insert; [apply HI|done..|]. intros m' Hm' E. by eapply (c_fresh _ _ HI). }
  all: intros; try match goal with
       | H : _ ∈ messages _ |- _ => apply elem_of_insert_message in H as [?|[? ?]]
       end; lookup_cases; try unchanged HI.
  - by apply (c_selected _ _ HI i0).
  - by apply (c_updated _ _ HI i0).
  - match goal with H : m_UID m0 = _ |- _ => rewrite H end.
    eapply (c_updated_given _ _ HI i0 i); [done..|left; congruence].
  - eapply (c_updated_given _ _ HI i0 j); [done..|by left].
  - intros E. apply H. eapply (c_unique _ _ HI i i0); [done..|by left|left; congruence].
Qed.

(** ** Every interleaving *)

Lemma conc_inv_step s ps s' ps' : step (s, ps) (s', ps') → conc_inv s ps → conc_inv s' ps'.
Proof.
  intros H HI. inversion H; simplify_eq.
  - apply conc_inv_select; [done..|]. unfold next_of. by rewrite fmap_Some; eauto.
  - destruct (update_uid_next_Some _ _ _ H5) as [-> Hlt].
    apply conc_inv_update; [done..|]. apply bumped_inv; [apply HI|done].
  - by apply conc_inv_commit.
  - by apply conc_inv_rollback.
  - by apply conc_inv_insert.
  - by apply conc_inv_fail.
Qed.

Lemma conc_inv_start s ids : uid_inv s → conc_inv s (Waiting <$> ids).
Proof.
  intros Hs. assert (∀ i p, (Waiting <$> ids) !! i = Some p → ∃ id, p = Waiting id) as Hw.
  { intros i p. rewrite list_lookup_fmap, fmap_Some. naive_solver. }
  split; [done|..]; intros;
    repeat match goal with H : (Waiting <$> ids) !! _ = Some _ |- _ => apply Hw in H as [? ?] end;
    lookup_cases.
Qed.

Lemma conc_inv_steps s ids s' ps' :
  uid_inv s → rtc step (s, Waiting <$> ids) (s', ps') → conc_inv s' ps'.
Proof.
  intros Hs Hr. change (conc_inv (s', ps').1 (s', ps').2). revert Hr.
  apply (rtc_ind_r (λ c, conc_inv c.1 c.2)); simpl.
  - by apply conc_inv_start.
  - intros [s1 ps1] [s2 ps2] _ Hst. by apply conc_inv_step.
Qed.

(** C3: however deliveries to any mailboxes interleave, and whichever of them fail, the
    UIDs given out for a mailbox are pairwise different, the tables keep the UID
    invariant, and a delivery that commits gets a UID above all those given out before it
    for that mailbox. *)
Theorem concurrent_uids_unique s ids s' ps :
  uid_inv s → rtc step (s, Waiting <$> ids) (s', ps) →
  uid_inv s'
  ∧ (∀ i j id uid p q, ps !! i = Some p → ps !! j = Some q →
       given id uid p → given id uid q → i = j)
  ∧ (∀ i j id n uid p, ps !! i = Some (Updated id n) → ps !! j = Some p → given id uid p → (uid < n)%N).
Proof.
  intros Hs Hr. pose proof (conc_inv_steps _ _ _ _ Hs Hr) as [].
  split_and!; [done|by eauto..].
Qed.

(** Two deliveries to INBOX of which the second commits while the first has not inserted. *)
Lemma concurrent_uids_unique_witness :
  ∃ s', rtc step (initial_db, Waiting <$> [1%N; 1%N]) (s', [Allocated 1 1; Updated 1 2])
  ∧ uid_inv s'.
Proof.
  assert (∃ s', rtc step (initial_db, Waiting <$> [1%N; 1%N]) (s', [Allocated 1 1; Updated 1 2])) as [s' Hr].
  { eexists.
    eapply rtc_l; [by eapply (step_select 0 1)|].
    eapply rtc_l; [by eapply (step_update 0 1)|].
    eapply rtc_l; [by eapply (step_commit 0 1)|].
    eapply rtc_l; [by eapply (step_select 1 1)|].
    eapply rtc_l; [by eapply (step_update 1 1)|].
    simpl. apply rtc_refl. }
  exists s'. split; [exact Hr|].
  exact (proj1 (concurrent_uids_unique initial_db [1%N; 1%N] s' _ initial_db_inv Hr)).
Defined.

(** The transaction as the program runs it is a run of these steps: a successful
    AllocateUID with no other transaction on the row is SELECT, UPDATE, COMMIT. *)
Lemma AllocateUID_runs id s uid s' :
  AllocateUID id s = Ok (Good uid, s') →
  ∃ s'', s'' ≡ s' ∧ rtc step (s, [Waiting id]) (s'', [Allocated id uid]).
Proof.
  intros H. pose proof (AllocateUID_wp id s (λ r s', r = Good uid →
    ∃ s'', s'' ≡ s' ∧ rtc step (s, [Waiting id]) (s'', [Allocated id uid]))) as Hw.
  unfold wp in Hw. rewrite H in Hw. apply Hw; [|done|done]. clear.
  intros b s' Hb Hid Hsel Hlt E. split; [|done]. intros [= <-]. exists (bumped id s). split; [by symmetry|].
  eapply rtc_l; [by eapply (step_select 0 id)|]. simpl.
  eapply rtc_l; [eapply (step_update 0 id); [done|]|].
  { unfold update_uid_next. destruct (existsb _ _) eqn:Ex; [|done].
    apply existsb_exists in Ex as (b' & Hb'%list_elem_of_In & Hx).
    apply andb_true_iff in Hx as [Hid'%N.eqb_eq Hn%N.leb_le]. specialize (Hlt b' Hb' Hid'). lia. }
  eapply rtc_l; [by eapply (step_commit 0 id)|]. apply rtc_refl.
Qed.
