(* ===== verification/Redis.v ===== *)
(** * The Redis store (internal/storage/redis/store.go)

    Redis and its client library are not part of the repository. [RedisLib] is what the
    store uses of them: a server whose keys are visible as a finite map, a clock, and one
    operation that sends a list of commands (one command, or a pipeline). [RedisLaws] are
    the documented effects of the commands; any call can fail, having executed some of its
    commands or none. The deployment limits the memory of Redis and lets it evict any key
    (docker-compose.yml: --maxmemory-policy allkeys-lru), so before and after each command any
    keys may be gone. *)

From S2P Require Import Prelude GoStrings Config.

Definition Second : Z := 1000000000.
Definition Hour : Z := 3600 * Second.

(** ** Commands *)

Record entry := mkEntry { e_val : gostring; e_expires : option Z }.

Inductive rcmd :=
| Set_ (key val : gostring) (ttl : Z)
| Get_ (key : gostring)
| Incr (key : gostring)
| Expire (key : gostring) (ttl : Z).

Inductive reply := RStatus | RValue (v : gostring) | RNil | RInt (n : Z) | RError (msg : gostring).

Abbreviation keyspace := (gmap gostring entry).

Definition alive (t : Z) (e : entry) : bool :=
  match e_expires e with None => true | Some x => (t <? x)%Z end.

Definition live (m : keyspace) (t : Z) (key : gostring) : option entry :=
  match m !! key with
  | Some e => if alive t e then Some e else None
  | None => None
  end.

(** A value that INCR accepts: the decimal form of a 64-bit integer. *)
Definition redis_int (v : gostring) : option Z :=
  match Atoi v with
  | Some n => if bool_decide (fmt_d n = v) then Some n else None
  | None => None
  end.

(** One command at time [t]; [secs] rounds the argument of EXPIRE to whole seconds. *)
Definition exec1 (secs : Z → Z) (t : Z) (c : rcmd) (m : keyspace) : keyspace * reply :=
  match c with
  | Set_ key val ttl =>
      (<[key := mkEntry val (if (0 <? ttl)%Z then Some (t + ttl)%Z else None)]> m, RStatus)
  | Get_ key => (m, match live m t key with Some e => RValue (e_val e) | None => RNil end)
  | Incr key =>
      match live m t key with
      | None => (<[key := mkEntry (fmt_d 1%Z) None]> m, RInt 1)
      | Some e =>
          match redis_int (e_val e) with
          | None => (m, RError (str "ERR value is not an integer or out of range"))
          | Some n =>
              if (n + 1 <? 2 ^ 63)%Z
              then (<[key := mkEntry (fmt_d (n + 1)%Z) (e_expires e)]> m, RInt (n + 1))
              else (m, RError (str "ERR increment or decrement would overflow"))
          end
      end
  | Expire key ttl =>
      match live m t key with
      | None => (m, RInt 0)
      | Some e =>
          if (0 <? secs ttl)%Z then (<[key := mkEntry (e_val e) (Some (t + secs ttl)%Z)]> m, RInt 1)
          else (delete key m, RInt 1)
      end
  end.

Fixpoint exec (secs : Z → Z) (t : Z) (cs : list rcmd) (m : keyspace) : keyspace * list reply :=
  match cs with
  | [] => (m, [])
  | c :: cs' =>
      let '(m1, r) := exec1 secs t c m in
      let '(m2, rs) := exec secs t cs' m1 in (m2, r :: rs)
  end.

(** Commands in order, at time [t]; before each of them and at the end keys can be evicted. *)
Inductive executes (secs : Z → Z) (t : Z) : list rcmd → keyspace → keyspace → list reply → Prop :=
| executes_nil m m0 : m0 ⊆ m → executes secs t [] m m0 []
| executes_cons c cs m m0 m1 m2 r rs :
    m0 ⊆ m → exec1 secs t c m0 = (m1, r) → executes secs t cs m1 m2 rs →
    executes secs t (c :: cs) m m2 (r :: rs).

Class RedisLib := {
  redis : Type;
  view : redis → keyspace;
  now : redis → Z;
  formatSec : Z → Z;
  Do : list rcmd → redis → redis * result (list reply);
}.

Class RedisLaws (R : RedisLib) := {
  Do_good cs r r' rs : Do cs r = (r', Good rs) →
    ∃ t, (now r ≤ t ≤ now r')%Z ∧ executes formatSec t cs (view r) (view r') rs;
  Do_err cs r r' e : Do cs r = (r', Err e) →
    (now r ≤ now r')%Z ∧ ∃ n t rs, executes formatSec t (take n cs) (view r) (view r') rs;
  formatSec_whole n : (0 < n)%Z → formatSec (n * Second) = (n * Second)%Z;
}.

(** ** The store *)

Definition bodyTTL : Z := 24 * Hour.

(** [fmt.Sprintf("msg:body:%d", messageID)]. *)
Definition messageBodyKey (messageID : N) : gostring := str "msg:body:" ++ fmt_d messageID.

Section store.
Context `{R : RedisLib}.

Definition send (cs : list rcmd) : M redis (result (list reply)) := λ r,
  let '(r', res) := Do cs r in Ok (res, r').

(** The error of a call or pipeline: of the connection, or the first error reply. *)
Definition first_error (res : result (list reply)) : option gostring :=
  match res with
  | Err e => Some e
  | Good rs => head (omap (λ r, match r with RError e => Some e | _ => None end) rs)
  end.

Definition SetMessageBody (messageID : N) (body : gostring) : M redis (option gostring) :=
  let key := messageBodyKey messageID in
  res ← send [Set_ key body bodyTTL];
  mret (match first_error res with
        | Some e => Some (wrap (str "redis set message body") e)
        | None => None
        end).

Definition GetMessageBody (messageID : N) : M redis (result (option gostring)) :=
  let key := messageBodyKey messageID in
  res ← send [Get_ key];
  mret (match res with
        | Err e => Err (wrap (str "redis get message body") e)
        | Good rs =>
            match head rs with
            | Some (RValue v) => Good (Some v)
            | Some RNil | None => Good None
            | Some (RError e) => Err (wrap (str "redis get message body") e)
            | Some RStatus => Good (Some (str "OK"))
            | Some (RInt n) => Good (Some (fmt_d n))
            end
        end).

Definition SetRateLimit (key : gostring) (window : Z) : M redis (result Z) :=
  res ← send [Incr (str "ratelimit:" ++ key); Expire (str "ratelimit:" ++ key) window];
  mret (match first_error res with
        | Some e => Err (wrap (str "redis rate limit") e)
        | None => match res with
                  | Good (RInt n :: _) => Good n
                  | _ => Good 0%Z
                  end
        end).
End store.

(** ** A server *)

(** Each call takes the next entry of [r_script]: its delay, whether it fails, and the keys
    that are evicted before it. *)
Record toy_redis := mkRedis {
  r_map : keyspace; r_now : Z; r_script : list (N * option gostring * list gostring) }.

#[export] Instance toy_redis_lib : RedisLib := {
  redis := toy_redis;
  view := r_map;
  now := r_now;
  formatSec d := if ((0 <? d) && (d <? Second))%Z then Second else (Z.quot d Second * Second)%Z;
  Do cs r :=
    let '(d, f, gone, script) := match r_script r with
                                 | [] => (0%N, None, [], [])
                                 | (d, f, gone) :: l => (d, f, gone, l)
                                 end in
    let t := (r_now r + Z.of_N d)%Z in
    match f with
    | Some e => (mkRedis (r_map r) t script, Err e)
    | None =>
        let '(m, rs) := exec (λ d, if ((0 <? d) && (d <? Second))%Z then Second
                                   else (Z.quot d Second * Second)%Z) t cs (foldr delete (r_map r) gone) in
        (mkRedis m t script, Good rs)
    end;
}.

Lemma exec_executes secs t cs m m' rs : exec secs t cs m = (m', rs) → executes secs t cs m m' rs.
Proof.
  revert m rs. induction cs as [|c cs IH]; intros m rs E; simpl in E; [by simplify_eq; constructor|].
  destruct (exec1 secs t c m) as [m1 r] eqn:E1. destruct (exec secs t cs m1) as [m2 rs'] eqn:E2.
  simplify_eq. econstructor; [done|done|by apply IH].
Qed.

Lemma executes_weaken secs t cs m m0 m' rs :
  m0 ⊆ m → executes secs t cs m0 m' rs → executes secs t cs m m' rs.
Proof.
  intros Hm H. inversion H; subst; [constructor; by etrans|]. econstructor; [by etrans|done..].
Qed.

Lemma foldr_delete_subseteq (m : keyspace) gone : foldr delete m gone ⊆ m.
Proof. induction gone as [|k gone IH]; simpl; [done|]. etrans; [apply delete_subseteq|done]. Qed.

#[export] Instance toy_redis_laws : RedisLaws toy_redis_lib.
Proof.
  split.
  - intros cs [m t script] r' rs. simpl. destruct script as [|[[d [e|]] gone] script]; [| |]; try done.
    + destruct (exec _ _ _ _) as [m' rs'] eqn:E. intros; simplify_eq/=.
      exists (t + 0)%Z. split; [lia|]. by apply exec_executes.
    + destruct (exec _ _ _ _) as [m' rs'] eqn:E. intros; simplify_eq/=.
      exists (t + Z.of_N d)%Z. split; [lia|].
      eapply executes_weaken; [apply foldr_delete_subseteq|by apply exec_executes].
  - intros cs [m t script] r' e. simpl. destruct script as [|[[d [e'|]] gone] script].
    + by destruct (exec _ _ _ _).
    + intros; simplify_eq/=. split; [lia|]. exists 0, 0%Z, []. by constructor.
    + by destruct (exec _ _ _ _).
  - intros n Hn. simpl. assert ((n * Second <? Second)%Z = false) as ->
      by (apply Z.ltb_ge; unfold Second; lia).
    rewrite andb_false_r. by rewrite Z.quot_mul.
Qed.

(** ** What the commands do to the keys *)

Lemma messageBodyKey_inj i j : messageBodyKey i = messageBodyKey j → i = j.
Proof. unfold messageBodyKey. intros E%app_inv_head. by apply fmt_d_inj in E. Qed.

Lemma messageBodyKey_ratelimit i k : messageBodyKey i ≠ str "ratelimit:" ++ k.
Proof. done. Qed.

(** What is stored under a message's key, as the store sees it at time [t]. *)
Definition cached `{R : RedisLib} (r : redis) (t : Z) (messageID : N) : option gostring :=
  e_val <$> live (view r) t (messageBodyKey messageID).

(** A command touches no key but its own. *)
Definition rcmd_key (c : rcmd) : gostring :=
  match c with Set_ k _ _ | Get_ k | Incr k | Expire k _ => k end.

Lemma exec1_other secs t c m k : k ≠ rcmd_key c → fst (exec1 secs t c m) !! k = m !! k.
Proof.
  destruct c; simpl; intros Hk; repeat (case_match; simpl); rewrite ?lookup_insert_ne, ?lookup_delete_ne; done.
Qed.

Lemma executes_other secs t cs m m' rs k e :
  executes secs t cs m m' rs → Forall (λ c, rcmd_key c ≠ k) cs → m' !! k = Some e → m !! k = Some e.
Proof.
  induction 1 as [m m0 Hm|c cs m m0 m1 m2 r rs Hm E _ IH]; intros HF He; [by eapply lookup_weaken|].
  apply Forall_cons in HF as [Hc HF]. specialize (IH HF He).
  pose proof (exec1_other secs t c m0 k (not_eq_sym Hc)) as Eo. rewrite E in Eo. simpl in Eo.
  eapply lookup_weaken; [|exact Hm]. congruence.
Qed.

(** The stored decimals of a counter. *)
Lemma redis_int_fmt z : (- 2 ^ 63 ≤ z < 2 ^ 63)%Z → redis_int (fmt_d z) = Some z.
Proof. intros H. unfold redis_int. rewrite Atoi_fmt by done. by rewrite bool_decide_true. Qed.

Lemma Atoi_range s z : Atoi s = Some z → (- 2 ^ 63 ≤ z < 2 ^ 63)%Z.
Proof.
  unfold Atoi. repeat case_match; try done; intros; simplify_eq; reflect_bools;
    repeat match goal with H : (_ <=? _)%Z = true |- _ => apply Z.leb_le in H end; lia.
Qed.

Lemma redis_int_range v z : redis_int v = Some z → (- 2 ^ 63 ≤ z < 2 ^ 63)%Z.
Proof.
  unfold redis_int. destruct (Atoi v) eqn:E; [|done]. case_bool_decide; intros; simplify_eq.
  by eapply Atoi_range.
Qed.

Section store_lemmas.
Context `{R : RedisLib} `{RL : !RedisLaws R}.

(** Nothing new under a key. *)
Definition no_new (r r' : redis) (key : gostring) : Prop :=
  ∀ e, view r' !! key = Some e → view r !! key = Some e.

#[export] Instance no_new_preorder key : PreOrder (λ r r', no_new r r' key).
Proof. split; [by intros r e|]. intros r1 r2 r3 H1 H2 e He. by apply H1, H2. Qed.

(** A call touches no key but those of its commands. *)
Lemma Do_no_new cs r r' res key :
  Do cs r = (r', res) → Forall (λ c, rcmd_key c ≠ key) cs → (now r ≤ now r')%Z ∧ no_new r r' key.
Proof.
  intros E HF. destruct res as [rs|e].
  - apply Do_good in E as (t & Ht & Ex). split; [lia|]. intros e. by eapply executes_other.
  - apply Do_err in E as (Ht & n & t & rs & Ex). split; [done|]. intros e'. eapply executes_other; [done|].
    by apply Forall_take.
Qed.

Definition body_entry (body : gostring) (t : Z) : entry := mkEntry body (Some (t + bodyTTL)%Z).

Lemma exec_set secs t key body m m' rs :
  executes secs t [Set_ key body bodyTTL] m m' rs →
  rs = [RStatus] ∧ ∀ e, m' !! key = Some e → e = body_entry body t.
Proof.
  intros H. inversion H as [|? ? ? m0 m1 ? r rs' Hm E H']; subst. inversion H' as [? ? Hm'|]; subst.
  simpl in E. simplify_eq. split; [done|]. intros e He. eapply lookup_weaken in He; [|exact Hm'].
  rewrite lookup_insert_eq in He. by simplify_eq.
Qed.

(** Storing a body: what is under its key afterwards is this body, for 24 hours from some
    moment of the call; an error may leave it stored or not; other keys get nothing new. *)
Lemma SetMessageBody_wp id body r (Q : option gostring → redis → Prop) :
  (∀ r' t, (now r ≤ t ≤ now r')%Z →
     (∀ e, view r' !! messageBodyKey id = Some e → e = body_entry body t) →
     (∀ id', id' ≠ id → no_new r r' (messageBodyKey id')) → Q None r') →
  (∀ r' e, (now r ≤ now r')%Z → (∃ cs e, Do cs r = (r', Err e)) →
     (∀ e, view r' !! messageBodyKey id = Some e →
        view r !! messageBodyKey id = Some e ∨ ∃ t, e = body_entry body t) →
     (∀ id', id' ≠ id → no_new r r' (messageBodyKey id')) → Q (Some e) r') →
  wp (SetMessageBody id body) r Q.
Proof.
  intros Hgood Herr. unfold wp, SetMessageBody, send, mbind, M_bind, mret, M_ret.
  assert (∀ r' res, Do [Set_ (messageBodyKey id) body bodyTTL] r = (r', res) →
    ∀ id', id' ≠ id → no_new r r' (messageBodyKey id')) as Ho.
  { intros r' res E id' Hne. apply (Do_no_new _ _ _ _ _ E). constructor; [|done].
    by intros ?%messageBodyKey_inj. }
  destruct (Do _ r) as [r' [rs|e]] eqn:E.
  - pose proof E as (t & Ht & [-> He]%exec_set)%Do_good. apply (Hgood r' t Ht He). by eapply Ho.
  - pose proof E as (Ht & n & t & rs & Ex)%Do_err. apply Herr; [done|by eauto| |by eapply Ho].
    intros e' He'. destruct n as [|n].
    + left. inversion Ex; subst. by eapply lookup_weaken.
    + rewrite firstn_cons, take_nil in Ex. apply exec_set in Ex as [_ Ex]. eauto.
Qed.

(** Reading a body: the answer is what is stored at that moment; no key gets anything new. *)
Lemma GetMessageBody_wp id r (Q : result (option gostring) → redis → Prop) :
  (∀ r' t m, (now r ≤ t ≤ now r')%Z → view r' ⊆ m → m ⊆ view r →
     Q (Good (e_val <$> live m t (messageBodyKey id))) r') →
  (∀ r' e, (now r ≤ now r')%Z → (∃ cs e, Do cs r = (r', Err e)) → view r' ⊆ view r → Q (Err e) r') →
  wp (GetMessageBody id) r Q.
Proof.
  intros Hgood Herr. unfold wp, GetMessageBody, send, mbind, M_bind, mret, M_ret.
  destruct (Do _ r) as [r' [rs|e]] eqn:E.
  - apply Do_good in E as (t & Ht & Ex).
    inversion Ex as [|? ? ? m0 m1 ? rr rs' Hm E H']; subst. inversion H' as [? ? Hm'|]; subst.
    simpl in E. simplify_eq. specialize (Hgood r' t m1 Ht Hm' Hm).
    by destruct (live m1 t (messageBodyKey id)).
  - pose proof E as (Ht & n & t & rs & Ex)%Do_err. apply Herr; [done|by eauto|].
    destruct n as [|n]; [by inversion Ex|]. rewrite firstn_cons, take_nil in Ex.
    inversion Ex as [|? ? ? m0 m1 ? rr rs' Hm E' H']; subst. inversion H' as [? ? Hm'|]; subst.
    simpl in E'. simplify_eq. by etrans.
Qed.
End store_lemmas.
