(* ===== verification/MessageStore.v ===== *)
(** * The message store (internal/storage/message_store.go)

    The store delivers a message by writing its metadata to MySQL and its body to Redis,
    and implements the ports the servers read through. Its world is the two databases and
    the clock. *)

From S2P Require Import Prelude GoStrings Mysql Redis Ports Security.

Record World `{R : RedisLib} := mkWorld { mysql : DB; cache : redis; clock_ticks : nat }.

Section message_store.
Context `{R : RedisLib} `{K : Mysql.Collation} `{U : UnicodeData} `{C : Clock}.

Definition set_mysql (s : DB) (w : World) : World := mkWorld _ s (cache w) (clock_ticks w).
Definition set_cache (r : redis) (w : World) : World := mkWorld _ (mysql w) r (clock_ticks w).

(** Calls of the two stores. *)
Definition in_mysql {A} (m : M DB A) : M World A := zoom mysql set_mysql m.
Definition in_redis {A} (m : M redis A) : M World A := zoom cache set_cache m.
Definition read_clock : M World Z := λ w,
  Ok (time_Now (clock_ticks w), mkWorld _ (mysql w) (cache w) (S (clock_ticks w))).

Definition parseAddress (addr : gostring) : gostring * gostring * bool :=
  match SplitN2 addr "@"%char with
  | [u; d] => if bool_decide (u = []) || bool_decide (d = []) then ([], [], false) else (u, d, true)
  | _ => ([], [], false)
  end.

(** The loop over the lines; [None]: the slice expression panics. *)
Fixpoint subject_loop (lines : list gostring) : option gostring :=
  match lines with
  | [] => Some []
  | line :: lines' =>
      if HasPrefix (ToUpper line) (str "SUBJECT:") then TrimSpace <$> slice_from line 8
      else if bool_decide (TrimSpace line = []) then Some []
      else subject_loop lines'
  end.
Definition extractSubject (body : gostring) : option gostring := subject_loop (Split body LF).

Definition deliverTo (from to body : gostring) : M World (option gostring) :=
  let '(username, domain, ok) := parseAddress to in
  if negb ok then mret (Some (str "invalid recipient address: " ++ to))
  else
    r ← in_mysql (Mysql.FindDomain domain);
    match r with
    | Err e => mret (Some (wrap (str "resolve domain") e))
    | Good d =>
    r ← in_mysql (Mysql.FindUser username (Mysql.d_ID d));
    match r with
    | Err e => mret (Some (wrap (str "resolve user") e))
    | Good user =>
    r ← in_mysql (Mysql.FindInboxByUserID (Mysql.u_ID user));
    match r with
    | Err e => mret (Some (wrap (str "find inbox") e))
    | Good inbox =>
    r ← in_mysql (Mysql.AllocateUID (Mysql.mb_ID inbox));
    match r with
    | Err e => mret (Some (wrap (str "allocate uid") e))
    | Good uid =>
    subject ← or_panic (extractSubject body);
    t ← read_clock;
    let msg := Mysql.mkMessage 0 (Mysql.mb_ID inbox) uid [] (Z.of_nat (length body)) [] from to subject t in
    r ← in_mysql (Mysql.InsertMessage msg);
    match r with
    | Err e => mret (Some (wrap (str "insert message") e))
    | Good msgID =>
    (* a failure to cache the body is only logged *)
    in_redis (Redis.SetMessageBody msgID body);;
    mret None
    end end end end end.

(** A failed recipient is only logged. *)
Fixpoint deliver_all (from : gostring) (tos : list gostring) (body : gostring) : M World unit :=
  match tos with
  | [] => mret tt
  | to :: tos' => deliverTo from to body;; deliver_all from tos' body
  end.

Definition Deliver (event : MessageReceived) : M World (option gostring) :=
  deliver_all (Received_From event) (Received_To event) (Received_Body event);; mret None.

(** ** The reading ports *)

Definition to_domain (d : Mysql.Domain) : Domain := mkDomain (Mysql.d_ID d) (Mysql.d_Name d).
Definition to_user (u : Mysql.User) : User :=
  mkUser (Mysql.u_ID u) (Mysql.u_DomainID u) (Mysql.u_Username u) (Mysql.u_PasswordHash u)
    (Mysql.u_QuotaBytes u).
Definition to_mailbox (b : Mysql.Mailbox) : Mailbox :=
  mkMailbox (Mysql.mb_ID b) (Mysql.mb_UserID b) (Mysql.mb_Name b) (Mysql.mb_UIDValidity b)
    (Mysql.mb_UIDNext b).
Definition to_message (m : Mysql.Message) : Message :=
  mkMessage (Mysql.m_ID m) (Mysql.m_MailboxID m) (Mysql.m_UID m) (Mysql.m_Flags m)
    (Mysql.m_SizeBytes m) (Mysql.m_RawKey m) (Mysql.m_EnvelopeFrom m) (Mysql.m_EnvelopeTo m)
    (Mysql.m_Subject m).

Definition FindDomain (name : gostring) : M World (result Domain) :=
  r ← in_mysql (Mysql.FindDomain name); mret (rmap to_domain r).
Definition FindUser (username : gostring) (domainID : N) : M World (result User) :=
  r ← in_mysql (Mysql.FindUser username domainID); mret (rmap to_user r).
Definition FindMailbox (userID : N) (name : gostring) : M World (result Mailbox) :=
  r ← in_mysql (Mysql.FindMailbox userID name); mret (rmap to_mailbox r).
Definition ListMailboxes (userID : N) : M World (result (list Mailbox)) :=
  r ← in_mysql (Mysql.ListMailboxes userID); mret (rmap (fmap to_mailbox) r).
Definition GetMailboxByID (id : N) : M World (result Mailbox) :=
  r ← in_mysql (Mysql.GetMailboxByID id); mret (rmap to_mailbox r).
Definition ListMessages (mailboxID : N) : M World (result (list Message)) :=
  r ← in_mysql (Mysql.ListMessages mailboxID); mret (rmap (fmap to_message) r).
Definition GetMessageByUID (mailboxID uid : N) : M World (result Message) :=
  r ← in_mysql (Mysql.GetMessageByUID mailboxID uid); mret (rmap to_message r).
Definition GetMessageBody (messageID : N) : M World (result (option gostring)) :=
  in_redis (Redis.GetMessageBody messageID).

#[export] Instance store_pipeline : DeliveryPipeline World := { Ports.Deliver := Deliver }.
#[export] Instance store_mailboxes : MailboxReader World := {
  Ports.FindMailbox := FindMailbox;
  Ports.ListMailboxes := ListMailboxes;
  Ports.GetMailboxByID := GetMailboxByID }.
#[export] Instance store_messages : MessageReader World := {
  Ports.GetMessageBody := GetMessageBody;
  Ports.ListMessages := ListMessages;
  Ports.GetMessageByUID := GetMessageByUID }.
#[export] Instance store_domains : DomainResolver World := { Ports.FindDomain := FindDomain }.
#[export] Instance store_users : UserAuthenticator World := { Ports.FindUser := FindUser }.
End message_store.
