(* ===== verification/StorageProps.v ===== *)
(** * Properties of the message store

    The pure parsers, what [deliverTo] does on each path with any failures of the two
    servers, and that the store is an implementation of the ports that always returns. *)

From S2P Require Import Prelude GoStrings Mysql MysqlProps Redis Ports Security MessageStore.

(** ** Parsers *)

Lemma parseAddress_true addr u d :
  parseAddress addr = (u, d, true) ↔ addr = u ++ "@"%char :: d ∧ "@"%char ∉ u ∧ u ≠ [] ∧ d ≠ [].
Proof. apply SplitN2_parts. Qed.

Section parsers.
Context `{U : UnicodeData}.

Lemma subject_loop_total lines : is_Some (subject_loop lines).
Proof.
  induction lines as [|l lines IH]; simpl; [eauto|].
  destruct (HasPrefix _ _) eqn:E; [|by destruct (bool_decide _)].
  apply ToUpper_prefix_length in E; [|by vm_compute]. apply fmap_is_Some.
  unfold slice_from. change (length (str "SUBJECT:")) with 8 in E.
  destruct (8 <=? length l) eqn:El; [eauto|]. apply Nat.leb_gt in El. lia.
Qed.

Lemma extractSubject_total body : is_Some (extractSubject body).
Proof. apply subject_loop_total. Qed.

(** The subject an executed delivery records. *)
Definition subject_of (body : gostring) : gostring := default [] (extractSubject body).

Lemma extractSubject_eq body : extractSubject body = Some (subject_of body).
Proof. unfold subject_of. by destruct (extractSubject_total body) as [x ->]. Qed.
End parsers.

(** ** Running the two stores inside the world *)

Section world.
Context `{R : RedisLib} `{K : Collation} `{U : UnicodeData} `{C : Clock}.
Implicit Types w : World.

Lemma wp_mysql {A} (m : M DB A) w (Q : A → World → Prop) :
  wp m (mysql w) (λ a s, Q a (set_mysql s w)) → wp (in_mysql m) w Q.
Proof. unfold wp, in_mysql, zoom. by destruct (m (mysql w)) as [[]| |]. Qed.

Lemma wp_redis {A} (m : M redis A) w (Q : A → World → Prop) :
  wp m (cache w) (λ a r, Q a (set_cache r w)) → wp (in_redis m) w Q.
Proof. unfold wp, in_redis, zoom. by destruct (m (cache w)) as [[]| |]. Qed.

Lemma SetMessageBody_returns id body r : wp (SetMessageBody id body) r (λ _ _, True).
Proof.
  unfold wp, SetMessageBody, send, mbind, M_bind, mret, M_ret. by destruct (Do _ r).
Qed.

(** ** What a delivery writes *)

(** The mailbox a recipient's mail goes to. *)
Definition resolve (to : gostring) (s : DB) : option Mysql.Mailbox :=
  match parseAddress to with
  | (username, domain, true) =>
      d ← head (select_domain domain s);
      u ← head (select_user username (d_ID d) s);
      head (select_mailbox (u_ID u) (str "INBOX") s)
  | _ => None
  end.

(** The row a delivery asks for, and the tables once a row is in the mailbox [b]. *)
Definition row (from to body : gostring) (b : Mysql.Mailbox) (t : Z) : Mysql.Message :=
  Mysql.mkMessage 0 (mb_ID b) (mb_UIDNext b) [] (Z.of_nat (length body)) [] from to (subject_of body) t.
Definition posted (m : Mysql.Message) (b : Mysql.Mailbox) (s : DB) : DB :=
  snd (insert_message m (bumped (mb_ID b) s)).

(** How [deliverTo] can change the tables: nothing, a skipped UID, or the message. *)
Inductive delivery_effect (from to body : gostring) (s : DB) : DB → Prop :=
| effect_none s' : s' ≡ s → delivery_effect from to body s s'
| effect_skipped b s' : resolve to s = Some b → b ∈ mailboxes s →
    (mb_UIDNext b < max_uint32)%N → s' ≡ bumped (mb_ID b) s → delivery_effect from to body s s'
| effect_posted b t m s' : resolve to s = Some b → b ∈ mailboxes s →
    (mb_UIDNext b < max_uint32)%N → columns (row from to body b t) = Good m → s' ≡ posted m b s →
    delivery_effect from to body s s'.
Lemma posted_inv from to body b t m s :
  uid_inv s → b ∈ mailboxes s → (mb_UIDNext b < max_uint32)%N → columns (row from to body b t) = Good m →
  uid_inv (posted m b s).
Proof.
  intros Hinv Hb Hlt [Hmb Hu _ _ _ _ _]%columns_stored. unfold posted. simpl in Hmb, Hu.
  assert (uid_inv (bumped (mb_ID b) s)) as Hinv'.
  { apply bumped_inv; [done|]. intros b' Hb' E. by rewrite (mailbox_unique s b' b). }
  apply (uid_inv_insert _ _ (bump (mb_ID b) b)); [done| | | |]; simpl.
  - by apply list_elem_of_fmap_2.
  - unfold bump. by rewrite N.eqb_refl.
  - unfold bump. rewrite N.eqb_refl. simpl. lia.
  - intros m' Hm E. rewrite Hu. enough (m_UID m' < mb_UIDNext b)%N by lia.
    apply (inv_below s Hinv); [done..|congruence].
Qed.

Lemma delivery_effect_inv from to body s s' :
  uid_inv s → delivery_effect from to body s s' → uid_inv s'.
Proof.
  intros Hinv [? E|b ? _ Hb Hlt E|b t m ? _ Hb Hlt Hm E]; rewrite E; [done| |by eapply posted_inv].
  apply bumped_inv; [done|]. intros b' Hb' E'. by rewrite (mailbox_unique s b' b).
Qed.

(** [deliverTo] with any failures: [None] means the message is in the recipient's INBOX. *)
Lemma deliverTo_wp from to body w (Q : option gostring → World → Prop) :
  NoDup (mb_ID <$> mailboxes (mysql w)) →
  (∀ w', delivery_effect from to body (mysql w) (mysql w') → cache w' = cache w → ∀ e, Q (Some e) w') →
  (∀ b t m s1 n, resolve to (mysql w) = Some b → b ∈ mailboxes (mysql w) →
     (mb_UIDNext b < max_uint32)%N → columns (row from to body b t) = Good m → s1 ≡ posted m b (mysql w) →
     wp (SetMessageBody (next_id (mysql w)) body) (cache w) (λ _ r, Q None (mkWorld _ s1 r n))) →
  wp (deliverTo from to body) w Q.
Proof.
  intros Hids Herr Hgood. unfold deliverTo.
  destruct (parseAddress to) as [[u dn] []] eqn:Ea; simpl; [|by apply Herr; [constructor|]].
  assert (∀ e s', s' ≡ mysql w → Q (Some e) (set_mysql s' w)) as Hnone.
  { intros e s' E. apply Herr; [by apply effect_none|done]. }
  apply wp_bind, wp_mysql, FindDomain_wp; [|by intros; apply wp_ret, Hnone].
  intros d s1 E1 Hd. apply wp_bind, wp_mysql, FindUser_wp; simpl;
    [|by intros e s' E'; apply wp_ret, (Hnone _ s'); rewrite E'].
  intros us s2 E2 Hu. apply wp_bind, wp_mysql, FindInboxByUserID_wp; simpl;
    [|by intros e s' E'; apply wp_ret, (Hnone _ s'); rewrite E', E2].
  intros b s3 E3 Hb. rewrite E1 in Hu. rewrite E2, E1 in Hb.
  assert (s3 ≡ mysql w) as Es by (by rewrite E3, E2).
  assert (resolve to (mysql w) = Some b) as Hr.
  { unfold resolve. rewrite Ea, Hd. simpl. rewrite Hu. done. }
  apply select_mailbox_elem in Hb as (Hb & _ & _).
  apply wp_bind, wp_mysql, AllocateUID_wp; simpl;
    [|by intros e s' E'; apply wp_ret, (Hnone _ s'); rewrite E'].
  intros b' s4 Hb' Hid _ Hlt E4. rewrite (mailboxes_proper _ _ Es) in Hb', Hlt.
  rewrite (mailbox_unique_ids _ b' b Hids Hb' Hb Hid). specialize (Hlt b Hb eq_refl).
  rewrite Es in E4. split; [|intros e; apply wp_ret, Herr; [by eapply effect_skipped|done]].
  rewrite extractSubject_eq. apply wp_bind, wp_ret, wp_bind.
  unfold wp at 1, read_clock. simpl.
  apply wp_bind, wp_mysql, InsertMessage_wp; simpl.
  - intros m s5 Hm E5.
    assert (s5 ≡ posted m b (mysql w)) as Ep.
    { rewrite E5. unfold posted. by apply insert_message_proper. }
    split; [|intros e; apply wp_ret, Herr; [by eapply effect_posted|done]].
    rewrite (next_id_proper _ _ E4). apply wp_bind, wp_redis. simpl.
    eapply wp_mono; [by apply (Hgood b (time_Now (clock_ticks w)) m s5 (S (clock_ticks w)))|].
    intros err r Hq. apply wp_ret, Hq.
  - intros e s5 E5. apply wp_ret, Herr; [|done]. eapply effect_skipped; [done..|]. simpl. by rewrite E5.
Qed.

(** ** Where the messages go *)

Definition identity (b : Mysql.Mailbox) : N * N * gostring * N :=
  (mb_ID b, mb_UserID b, mb_Name b, mb_UIDValidity b).

(** The tables only change in uid_next and in messages. *)
Record same_accounts (s s' : DB) : Prop := {
  sa_domains : domains s' = domains s;
  sa_users : users s' = users s;
  sa_mailboxes : identity <$> mailboxes s' = identity <$> mailboxes s;
}.

#[export] Instance same_accounts_preorder : PreOrder same_accounts.
Proof. split; [by split|]. intros s1 s2 s3 [] []. split; congruence. Qed.

Lemma same_accounts_equiv s s' : s' ≡ s → same_accounts s s'.
Proof. intros E. split; by rewrite E. Qed.

Lemma same_accounts_bumped id s : same_accounts s (bumped id s).
Proof.
  split; [done..|]. simpl. rewrite <- list_fmap_compose. apply list_fmap_ext.
  intros i b _. simpl. unfold bump. by destruct (_ =? _)%N.
Qed.

Lemma same_accounts_posted m b s : same_accounts s (posted m b s).
Proof. destruct (same_accounts_bumped (mb_ID b) s). by split. Qed.

Definition resolve_id (to : gostring) (s : DB) : option N := mb_ID <$> resolve to s.

Lemma head_filter_identity p (l l' : list Mysql.Mailbox) :
  (∀ b b', identity b = identity b' → p b = p b') → identity <$> l' = identity <$> l →
  mb_ID <$> head (List.filter p l') = mb_ID <$> head (List.filter p l).
Proof.
  intros Hp. revert l'. induction l as [|b l IH]; intros [|b' l'] E; try done.
  injection E as E1 E2 E3 E4 E. simpl. rewrite (Hp b' b) by (unfold identity; congruence).
  destruct (p b); simpl; [congruence|auto].
Qed.

Lemma resolve_same to s s' : same_accounts s s' → resolve_id to s' = resolve_id to s.
Proof.
  intros []. unfold resolve_id, resolve, select_domain, select_user, select_mailbox.
  rewrite sa_domains0, sa_users0. destruct (parseAddress to) as [[u d] []]; [|done].
  destruct (head (fst <$> List.filter _ (domains s))) as [dom|]; simpl; [|done].
  destruct (head (fst <$> List.filter _ (users s))) as [us|]; simpl; [|done].
  apply head_filter_identity; [|done]. unfold identity. intros b b' E.
  injection E as _ E2 E3 _. by rewrite E2, E3.
Qed.

(** A row for the recipient [to] of this message, in the INBOX that the address resolves to. *)
Record delivered_row (s : DB) (from body to : gostring) (m : Mysql.Message) : Prop := {
  dr_mailbox : resolve_id to s = Some (m_MailboxID m);
  dr_from : varchar (str "envelope_from") 500 from = Good (m_EnvelopeFrom m);
  dr_to : varchar (str "envelope_to") 500 to = Good (m_EnvelopeTo m);
  dr_subject : varchar (str "subject") 1000 (subject_of body) = Good (m_Subject m);
  dr_size : m_SizeBytes m = Z.of_nat (length body);
  dr_flags : m_Flags m = [];
  dr_id : (next_id s ≤ m_ID m)%N;
}.

Lemma posted_row from to body b t m s :
  resolve to s = Some b → columns (row from to body b t) = Good m →
  ∃ m', messages (posted m b s) = messages s ++ [m'] ∧ m_ID m' = next_id s ∧ delivered_row s from body to m'.
Proof.
  intros Hr [Hmb _ Hf Hsz Hfr Hto Hsu]%columns_stored. eexists. split; [done|]. split; [done|]. simpl in *.
  split; simpl; try done. unfold resolve_id. by rewrite Hr, Hmb.
Qed.

Lemma delivery_effect_rows from to body s s' :
  delivery_effect from to body s s' →
  same_accounts s s' ∧ (next_id s ≤ next_id s')%N ∧ ∃ tos new, tos `sublist_of` [to]
    ∧ messages s' = messages s ++ new ∧ Forall2 (delivered_row s from body) tos new.
Proof.
  intros [? E|b ? _ Hb Hlt E|b t m ? Hr Hb Hlt Hm E].
  - split_and!; [by apply same_accounts_equiv|by rewrite E|]. exists [], []. rewrite E, app_nil_r.
    split_and!; [apply sublist_nil_l|done|constructor].
  - split_and!; [|by rewrite E|].
    { etrans; [apply (same_accounts_bumped (mb_ID b))|by apply same_accounts_equiv]. }
    exists [], []. rewrite E, app_nil_r. split_and!; [apply sublist_nil_l|done|constructor].
  - split_and!; [|rewrite E; simpl; lia|].
    { etrans; [apply (same_accounts_posted m b)|by apply same_accounts_equiv]. }
    destruct (posted_row _ _ _ _ _ _ _ Hr Hm) as (m' & Em & _ & Hd). exists [to], [m']. rewrite E.
    split_and!; [done..|]. by constructor.
Qed.

(** [deliverTo] in one statement: whatever it returns, one of the three effects. *)
Lemma deliverTo_effect from to body w :
  NoDup (mb_ID <$> mailboxes (mysql w)) →
  wp (deliverTo from to body) w (λ _ w', delivery_effect from to body (mysql w) (mysql w')).
Proof.
  intros Hids. apply deliverTo_wp; [done|auto|]. intros b t m s1 n Hr Hb Hlt Hm E.
  eapply wp_mono; [apply SetMessageBody_returns|]. intros _ r _. by eapply effect_posted.
Qed.

(** What a delivery to recipients leaves: for some of them, in order, one row each, and in
    Redis nothing new but this body under the ids of those rows. *)
Record delivery_post (from body : gostring) (tos : list gostring) (w w' : World) : Prop := {
  dp_inv : uid_inv (mysql w');
  dp_accounts : same_accounts (mysql w) (mysql w');
  dp_ids : (next_id (mysql w) ≤ next_id (mysql w'))%N;
  dp_rows : ∃ tos' new, tos' `sublist_of` tos
    ∧ messages (mysql w') = messages (mysql w) ++ new
    ∧ Forall2 (delivered_row (mysql w) from body) tos' new
    ∧ ∀ id t b, cached (cache w') t id = Some b →
        cached (cache w) t id = Some b ∨ b = body ∧ id ∈ m_ID <$> new;
}.

Lemma delivered_row_same s s' from body to m :
  same_accounts s s' → (next_id s ≤ next_id s')%N → delivered_row s' from body to m → delivered_row s from body to m.
Proof.
  intros Hs Hid []. split; try done; [|lia]. by rewrite <- (resolve_same _ _ _ Hs).
Qed.

Lemma delivery_post_nil from body w : uid_inv (mysql w) → delivery_post from body [] w w.
Proof.
  intros Hinv. split; [done..|]. exists [], []. rewrite app_nil_r. split_and!; [done|done|constructor|auto].
Qed.

Lemma delivery_post_app from body tos1 tos2 w1 w2 w3 :
  delivery_post from body tos1 w1 w2 → delivery_post from body tos2 w2 w3 →
  delivery_post from body (tos1 ++ tos2) w1 w3.
Proof.
  intros [Hi1 Ha1 Hn1 (t1 & new1 & Ht1 & E1 & F1 & C1)] [Hi2 Ha2 Hn2 (t2 & new2 & Ht2 & E2 & F2 & C2)].
  split; [done|by etrans|lia|]. exists (t1 ++ t2), (new1 ++ new2). split_and!.
  - by apply sublist_app.
  - by rewrite E2, E1, (assoc_L (++)).
  - apply Forall2_app; [done|]. eapply Forall2_impl; [exact F2|]. intros to m. by apply delivered_row_same.
  - intros id t b [H|[-> H]]%C2; [apply C1 in H as [H|[-> H]]|]; rewrite ?fmap_app, ?elem_of_app; auto.
Qed.

Section bodies.
Context `{RL : !RedisLaws R}.

Lemma cached_no_new r r' id t b :
  no_new r r' (messageBodyKey id) → cached r' t id = Some b → cached r t id = Some b.
Proof.
  unfold cached, live. intros H. destruct (view r' !! messageBodyKey id) as [e|] eqn:E; [|done].
  by rewrite (H e E).
Qed.

Lemma deliverTo_post from to body w :
  uid_inv (mysql w) → wp (deliverTo from to body) w (λ _ w', delivery_post from body [to] w w').
Proof.
  intros Hinv.
  assert (∀ w', delivery_effect from to body (mysql w) (mysql w') →
    (∀ new, messages (mysql w') = messages (mysql w) ++ new → ∀ id t b, cached (cache w') t id = Some b →
       cached (cache w) t id = Some b ∨ b = body ∧ id ∈ m_ID <$> new) →
    delivery_post from body [to] w w') as Hpost.
  { intros w' He Hc. pose proof (delivery_effect_inv _ _ _ _ _ Hinv He).
    apply delivery_effect_rows in He as (Hs & Hn & tos & new & Ht & Em & HF). split; [done..|].
    exists tos, new. split_and!; [done..|]. by apply Hc. }
  apply deliverTo_wp; [apply Hinv| |].
  - intros w' He Hc e. apply Hpost; [done|]. intros new _ id t b. rewrite Hc. auto.
  - intros b t m s1 n Hr Hb Hlt Hm E.
    assert (delivery_effect from to body (mysql w) s1) as He by by eapply effect_posted.
    assert (∀ r', (∀ e, view r' !! messageBodyKey (next_id (mysql w)) = Some e →
        view (cache w) !! messageBodyKey (next_id (mysql w)) = Some e ∨ ∃ t, e = body_entry body t) →
      (∀ id', id' ≠ next_id (mysql w) → no_new (cache w) r' (messageBodyKey id')) →
      delivery_post from body [to] w (mkWorld _ s1 r' n)) as Hset.
    { intros r' Hk Ho. apply Hpost; [done|]. simpl. intros new Em id t' b' Hc.
      destruct (decide (id = next_id (mysql w))) as [->|Hne]; [|left; by eapply cached_no_new; [apply Ho|]].
      rewrite E in Em. simpl in Em. apply app_inv_head in Em as <-. revert Hc. unfold cached, live.
      destruct (view r' !! _) as [e|] eqn:Ee; [|done].
      destruct (Hk e eq_refl) as [->|[t0 ->]]; [by left|]. destruct (alive _ _); [|done].
      intros [= <-]. right. split; [done|]. left. }
    apply SetMessageBody_wp.
    + intros r' t0 _ Hk Ho. apply Hset; [|done]. intros e He'%Hk. eauto.
    + intros r' e _ _ Hk Ho. by apply Hset.
Qed.

Lemma deliver_all_post from tos body w :
  uid_inv (mysql w) → wp (deliver_all from tos body) w (λ _ w', delivery_post from body tos w w').
Proof.
  revert w. induction tos as [|to tos IH]; intros w Hinv; simpl.
  { apply wp_ret. by apply delivery_post_nil. }
  apply wp_bind. eapply wp_mono; [by apply deliverTo_post|]. intros err w1 H1.
  eapply wp_mono; [by apply IH, H1|]. intros [] w2 H2. exact (delivery_post_app _ _ [to] tos _ _ _ H1 H2).
Qed.
End bodies.

(** ** Every method returns *)

Lemma mysql_returns {A} (m : M DB A) : (∀ s, wp m s (λ _ _, True)) → returns (in_mysql m).
Proof. intros H. by apply returns_zoom, returns_wp. Qed.

Lemma redis_returns {A} (m : M redis A) : (∀ r, wp m r (λ _ _, True)) → returns (in_redis m).
Proof. intros H. by apply returns_zoom, returns_wp. Qed.

Lemma GetMessageBody_returns id r : wp (Redis.GetMessageBody id) r (λ _ _, True).
Proof.
  unfold wp, Redis.GetMessageBody, send, mbind, M_bind, mret, M_ret. by destruct (Do _ r).
Qed.

Hint Resolve mysql_returns redis_returns SetMessageBody_returns GetMessageBody_returns
  FindDomain_wp FindUser_wp FindMailbox_wp FindInboxByUserID_wp ListMailboxes_wp
  GetMailboxByID_wp ListMessages_wp GetMessageByUID_wp AllocateUID_wp InsertMessage_wp : gomail.

Ltac unfold_methods :=
  unfold MessageStore.FindMailbox, MessageStore.ListMailboxes, MessageStore.GetMailboxByID,
    MessageStore.GetMessageBody, MessageStore.ListMessages, MessageStore.GetMessageByUID,
    MessageStore.FindDomain, MessageStore.FindUser.

Ltac solve_returns :=
  repeat first
  [ apply returns_bind; [|intros ?]
  | apply returns_ret
  | solve [auto with gomail]
  | case_match ].

Lemma deliverTo_returns from to body : returns (deliverTo from to body).
Proof.
  unfold deliverTo. destruct (parseAddress to) as [[u d] []]; simpl; solve_returns.
  - rewrite extractSubject_eq. apply returns_ret.
  - intros w. by eexists _, _.
Qed.

#[export] Instance store_delivery_returns : DeliveryReturns World.
Proof.
  intros e. apply returns_bind; [|intros _; apply returns_ret].
  induction (Received_To e) as [|to tos IH]; simpl; [apply returns_ret|].
  apply returns_bind; [apply deliverTo_returns|by intros].
Qed.

#[export] Instance store_readers_return : ReadersReturn World.
Proof. split; intros; simpl; unfold_methods; solve_returns. Qed.
End world.
