(* ===== verification/StorageTheorems.v ===== *)
(** * What the message store guarantees

    Delivery with any failures of MySQL and Redis, delivery when both are up, and reading a
    delivered message back. *)

From S2P Require Import Prelude GoStrings Mysql MysqlProps Redis Ports Security Smtp Concrete.
From S2P Require Import MysqlTheorems MessageStore StorageProps.

(** The world after installation, with both servers up. *)
Definition initial_world : World := mkWorld _ initial_db (mkRedis ∅ 0 []) 0.

Definition hello : MessageReceived := {|
  Received_From := str "alice@example.org";
  Received_To := [str "test@gomail.local"; str "nobody@gomail.local"; str "test@gomail.local"];
  Received_Body := str "Subject: hi" ++ CRLF ++ CRLF ++ str "body" ++ CRLF;
  Received_Size := 21; Received_Timestamp := 0 |}.

Section delivery.
Context `{R : RedisLib} `{RL : !RedisLaws R} `{K : Collation} `{U : UnicodeData} `{C : Clock}.
Implicit Types w : World.

(** C5: Deliver never panics and always reports success, whatever calls to the databases
    fail and whichever recipients are refused; the UID invariant, the accounts and every
    stored message are kept; the rows it adds are, in the order of the recipients, at most
    one for each of them, in the INBOX that recipient's address resolves to, with the sender,
    the recipient, the subject and the size of this message; and the only bodies that Redis
    has afterwards and did not have before are this message's, under the ids of those rows. *)
Theorem store_deliver_safe (event : MessageReceived) w :
  uid_inv (mysql w) →
  ∃ w' tos new, MessageStore.Deliver event w = Ok (None, w')
    ∧ uid_inv (mysql w') ∧ same_accounts (mysql w) (mysql w')
    ∧ messages (mysql w') = messages (mysql w) ++ new
    ∧ tos `sublist_of` Received_To event
    ∧ Forall2 (delivered_row (mysql w) (Received_From event) (Received_Body event)) tos new
    ∧ ∀ id t b, cached (cache w') t id = Some b →
        cached (cache w) t id = Some b ∨ b = Received_Body event ∧ id ∈ m_ID <$> new.
Proof.
  intros Hinv.
  pose proof (deliver_all_post (Received_From event) (Received_To event) (Received_Body event) w Hinv) as H.
  apply wp_run in H as ([] & w' & E & [Hi Hs _ (tos & new & Ht & Hm & HF & Hc)]).
  exists w', tos, new. unfold MessageStore.Deliver, mbind, M_bind. rewrite E. by split_and!.
Qed.

(** ** Both servers up *)

(** The contract of delivery on the tables, with the number of clock readings: a recipient
    that resolves to a mailbox with a UID left takes that UID; if the row fits the columns of
    the table it is posted with it, otherwise the UID is lost. Any other recipient changes
    nothing. *)
Definition post_one (from body : gostring) (st : DB * nat) (to : gostring) : DB * nat :=
  match resolve to (fst st) with
  | Some b =>
      if decide (mb_UIDNext b < max_uint32)%N
      then (match columns (row from to body b (time_Now (snd st))) with
            | Good m => posted m b (fst st)
            | Err _ => bumped (mb_ID b) (fst st)
            end, S (snd st))
      else st
  | None => st
  end.

Lemma select_by_id_unique b s :
  NoDup (mb_ID <$> mailboxes s) → b ∈ mailboxes s →
  ∃ rest, select_mailbox_by_id (mb_ID b) s = b :: rest.
Proof.
  intros Hn Hb. destruct (select_mailbox_by_id (mb_ID b) s) as [|b' rest] eqn:E.
  - assert (b ∈ select_mailbox_by_id (mb_ID b) s) as Hin
      by (apply filter_In_elem; split; [done|apply N.eqb_refl]).
    rewrite E in Hin. inversion Hin.
  - destruct (select_by_id_elem (mb_ID b) s b') as [Hb' Hid]; [by rewrite E|].
    exists rest. by rewrite (mailbox_unique_ids _ b' b Hn Hb' Hb Hid).
Qed.

Lemma in_mysql_eq {A} (m : M DB A) w a s' :
  m (mysql w) = Ok (a, s') → in_mysql m w = Ok (a, set_mysql s' w).
Proof. intros E. unfold in_mysql, zoom. by rewrite E. Qed.

Lemma set_mysql_id w : set_mysql (mysql w) w = w.
Proof. by destruct w. Qed.

Lemma deliverTo_up from to body w :
  faults (mysql w) = [] → NoDup (mb_ID <$> mailboxes (mysql w)) →
  ∃ err w', deliverTo from to body w = Ok (err, w')
    ∧ (mysql w', clock_ticks w') = post_one from body (mysql w, clock_ticks w) to
    ∧ faults (mysql w') = [].
Proof.
  intros Hup Hn. unfold post_one, resolve, deliverTo. simpl.
  destruct (parseAddress to) as [[u dn] []]; simpl; [|by eexists _, _].
  destruct (FindDomain_up _ Hup dn) as [e1 E1].
  unfold mbind, M_bind. rewrite (in_mysql_eq _ _ _ _ E1), set_mysql_id.
  destruct (head (select_domain dn (mysql w))) as [d|]; simpl; [|by eexists _, _].
  destruct (FindUser_up _ Hup u (d_ID d)) as [e2 E2].
  rewrite (in_mysql_eq _ _ _ _ E2), set_mysql_id.
  destruct (head (select_user u (d_ID d) (mysql w))) as [us|]; simpl; [|by eexists _, _].
  destruct (FindInbox_up _ Hup (u_ID us)) as [e3 E3].
  rewrite (in_mysql_eq _ _ _ _ E3), set_mysql_id.
  destruct (head (select_mailbox _ _ (mysql w))) as [b|] eqn:Hb; simpl; [|by eexists _, _].
  apply select_mailbox_elem in Hb as (Hb & _ & _).
  destruct (AllocateUID_up (mb_ID b) _ Hup Hn) as (r & s' & E4 & H4).
  rewrite (in_mysql_eq _ _ _ _ E4). destruct (select_by_id_unique b _ Hn Hb) as [rest Er].
  rewrite Er in H4.
  destruct (decide _) as [Hlt|Hge]; [destruct H4 as [-> ->]|destruct H4 as [[e ->] ->]].
  - rewrite extractSubject_eq. cbn [or_panic]. unfold mret, M_ret, read_clock. cbn [clock_ticks set_mysql].
    unfold in_mysql at 1, zoom at 1. cbn [mysql].
    rewrite InsertMessage_up by done. fold (row from to body b (time_Now (clock_ticks w))).
    destruct (columns _) as [m|e]; [|by eexists _, _].
    unfold in_redis, zoom. simpl.
    match goal with |- context [SetMessageBody ?i ?bd ?r] =>
      pose proof (SetMessageBody_returns i bd r) as Hs; apply wp_run in Hs as (er & r' & Es & _);
      rewrite Es end.
    by eexists _, _.
  - rewrite set_mysql_id. by eexists _, _.
Qed.

(** C6: when no call to MySQL fails, Deliver changes the tables exactly as its contract
    says, recipient by recipient in order: the message is posted to the INBOX the address
    resolves to, with that mailbox's next UID and the texts as the columns store them; a row
    that does not fit its columns (sender or recipient over 500 characters, subject over
    1000, text that is not UTF-8, a size over 32 bits, a date after 2038) is not stored but
    its UID is used up; a recipient that does not resolve, or whose mailbox has no UID left,
    changes nothing. None of these affects the other recipients. *)
Theorem store_deliver_refines (event : MessageReceived) w :
  faults (mysql w) = [] → uid_inv (mysql w) →
  ∃ w', MessageStore.Deliver event w = Ok (None, w')
    ∧ (mysql w', clock_ticks w')
      = foldl (post_one (Received_From event) (Received_Body event)) (mysql w, clock_ticks w)
          (Received_To event).
Proof.
  unfold MessageStore.Deliver. generalize (Received_To event) as tos.
  generalize (Received_From event), (Received_Body event). intros from body tos Hup Hinv.
  enough (∃ w', deliver_all from tos body w = Ok (tt, w') ∧ (mysql w', clock_ticks w')
    = foldl (post_one from body) (mysql w, clock_ticks w) tos) as (w' & E & H).
  { exists w'. unfold mbind, M_bind. by rewrite E. }
  revert w Hup Hinv. induction tos as [|to tos IH]; intros w Hup Hinv; simpl; [by eexists|].
  destruct (deliverTo_up from to body w Hup (inv_mailbox_ids _ Hinv)) as (err & w1 & E1 & H1 & Hup1).
  unfold mbind, M_bind. rewrite E1, <- H1. apply IH; [done|].
  pose proof (deliverTo_effect from to body w (inv_mailbox_ids _ Hinv)) as He.
  unfold wp in He. rewrite E1 in He. by eapply delivery_effect_inv.
Qed.
End delivery.

(** Two deliveries to the same mailbox around a recipient that does not exist. *)
Lemma store_deliver_safe_witness :
  uid_inv (mysql initial_world) ∧ ∃ w', MessageStore.Deliver hello initial_world = Ok (None, w').
Proof.
  split; [apply initial_db_inv|].
  destruct (store_deliver_safe hello initial_world initial_db_inv) as (w' & tos & new & E & _).
  by exists w'.
Defined.

Lemma store_deliver_refines_witness :
  ∃ w', MessageStore.Deliver hello initial_world = Ok (None, w')
    ∧ (λ m, (m_MailboxID m, m_UID m, m_Subject m)) <$> messages (mysql w')
      = [(1%N, 1%N, str "hi"); (1%N, 2%N, str "hi")].
Proof.
  destruct (store_deliver_refines hello initial_world eq_refl initial_db_inv) as (w' & E & H).
  exists w'. split; [exact E|]. revert H.
  match goal with |- _ = ?x → _ => let y := eval vm_compute in x in change x with y end.
  intros [= -> _]. reflexivity.
Defined.

(** ** Reading a message back *)

Section reading.
Context `{R : RedisLib} `{RL : !RedisLaws R} `{K : Collation} `{U : UnicodeData} `{C : Clock}.
Implicit Types w : World.













End reading.





(** ** Addresses and subjects *)

(** An address is accepted exactly when it is a non-empty user name without '@', an
    '@' and a non-empty domain, and then the two parts are returned. *)
Theorem store_parseAddress_spec (addr u d : gostring) :
  parseAddress addr = (u, d, true) ↔ addr = u ++ str "@" ++ d ∧ "@"%char ∉ u ∧ u ≠ [] ∧ d ≠ [].
Proof. apply parseAddress_true. Qed.

Section subjects.
Context `{U : UnicodeData}.

(** A header line, without its line feed, that is not a Subject header. *)
Definition other_header (h : gostring) : Prop :=
  LF ∉ h ∧ HasPrefix (ToUpper h) (str "SUBJECT:") = false ∧ TrimSpace h ≠ [].

Definition lines_of (hs : list gostring) : gostring := concat (map (λ h, h ++ [LF]) hs).

Lemma extractSubject_skip hs rest :
  Forall other_header hs → extractSubject (lines_of hs ++ rest) = extractSubject rest.
Proof.
  induction 1 as [|h hs (Hl & Hs & Ht) _ IH]; [done|].
  unfold extractSubject, lines_of in *. cbn [map concat]. rewrite <- !(assoc_L (++)).
  change ([LF] ++ concat (map (λ h, h ++ [LF]) hs) ++ rest)
    with (LF :: (concat (map (λ h, h ++ [LF]) hs) ++ rest)).
  rewrite Split_app by done. cbn [subject_loop]. rewrite Hs, bool_decide_false by done. exact IH.
Qed.

(** C38: the subject recorded is the trimmed text of the first Subject header, its name in
    any case, after any other headers; a message whose headers end (with an empty line)
    before one has the empty subject, whatever its text contains. *)
Theorem store_extractSubject_headers hs name x rest blank :
  Forall other_header hs →
  (is_ascii name = true → map upper_byte name = str "SUBJECT:" → LF ∉ name → LF ∉ x →
   extractSubject (lines_of hs ++ name ++ x ++ LF :: rest) = Some (TrimSpace x))
  ∧ (blank = [] ∨ blank = [CR] → extractSubject (lines_of hs ++ blank ++ LF :: rest) = Some []).
Proof.
  intros Hh. rewrite !extractSubject_skip by done. split.
  - intros Ha Hn Hln Hlx. unfold extractSubject. rewrite (assoc_L (++)), Split_app by (apply not_elem_of_app; auto).
    cbn [subject_loop]. destruct (ToUpper_ascii_prefix name x Ha) as [k ->].
    rewrite Hn, HasPrefix_app. unfold slice_from.
    assert (length name = 8) as Hlen by (apply (f_equal length) in Hn; by rewrite length_map in Hn).
    rewrite length_app, Hlen. simpl (8 <=? _). cbn [fmap option_fmap option_map].
    by rewrite drop_app_length'.
  - unfold extractSubject. intros [->| ->]; (rewrite Split_app by by_computation);
      cbn [subject_loop]; by vm_compute.
Qed.
End subjects.

Lemma store_extractSubject_headers_witness :
  extractSubject (lines_of [str "From: a@b"] ++ str "subject:" ++ str " hi" ++ LF :: str "text") = Some (str "hi").
Proof.
  destruct (store_extractSubject_headers [str "From: a@b"] (str "subject:") (str " hi") (str "text") [])
    as [H _].
  - repeat constructor; [by_computation|by vm_compute..].
  - rewrite H; [by vm_compute|by vm_compute|by vm_compute|by_computation|by_computation].
Defined.

(** ** The rate limiter *)

Section rate_limit.
Context `{R : RedisLib} `{RL : !RedisLaws R}.

(** The number of requests the server has counted for a key at time [t]. *)
Definition counted (r : redis) (t : Z) (key : gostring) : option Z :=
  match live (view r) t (str "ratelimit:" ++ key) with
  | None => Some 0%Z
  | Some e => redis_int (e_val e)
  end.

Lemma live_weaken m0 m t key :
  m0 ⊆ m → live m0 t key = live m t key ∨ live m0 t key = None.
Proof.
  intros Hm. unfold live. destruct (m0 !! key) as [e|] eqn:E; [|by right].
  left. by rewrite (lookup_weaken _ _ _ _ E Hm).
Qed.

(** An INCR that answers with a number. *)
Lemma exec1_incr secs t key m m' c :
  exec1 secs t (Incr key) m = (m', RInt c) →
  match live m t key with None => Some 0%Z | Some e => redis_int (e_val e) end = Some (c - 1)%Z
  ∧ (- 2 ^ 63 ≤ c < 2 ^ 63)%Z
  ∧ ∃ ex, m' !! key = Some (mkEntry (fmt_d c) ex) ∧ alive t (mkEntry (fmt_d c) ex) = true.
Proof.
  cbn [exec1]. destruct (live m t key) as [[v ex]|] eqn:E.
  - assert (alive t (mkEntry v ex) = true) as Ha.
    { unfold live in E. destruct (m !! key); [|done]. destruct (alive t e) eqn:?; by simplify_eq. }
    cbn [e_val e_expires]. destruct (redis_int v) as [z|] eqn:Ez; [|done].
    destruct (z + 1 <? 2 ^ 63)%Z eqn:Elt; [|done]. apply redis_int_range in Ez as Hz.
    intros; simplify_eq. reflect_bools. rewrite lookup_insert_eq. split_and!; [f_equal; lia|lia..|].
    by exists ex.
  - intros; simplify_eq. rewrite lookup_insert_eq. split_and!; [done..|]. by exists None.
Qed.

(** An EXPIRE of a key that is alive or evicted. *)
Lemma exec1_expire secs t key w m m' r v ex :
  (0 < secs w)%Z → (∀ e, m !! key = Some e → e = mkEntry v ex) → alive t (mkEntry v ex) = true →
  exec1 secs t (Expire key w) m = (m', r) →
  m' !! key = None ∨ m' !! key = Some (mkEntry v (Some (t + secs w)%Z)).
Proof.
  intros Hw Hm Ha. cbn [exec1]. unfold live. destruct (m !! key) as [e|] eqn:E.
  - rewrite (Hm e eq_refl), Ha. cbn [e_val]. rewrite (proj2 (Z.ltb_lt _ _) Hw). intros; simplify_eq.
    right. by rewrite lookup_insert_eq.
  - intros; simplify_eq. by left.
Qed.

(** A successful SetRateLimit returns one more than the requests counted for the key, or one
    if Redis had evicted the counter; from then on that is the count until [window] has
    passed without a request, unless the counter is evicted; the counter never overflows
    silently, and no message body appears, also when the call fails. *)
Theorem redis_rate_limit_counts key n r res r' :
  (0 < n)%Z → SetRateLimit key (n * Second) r = Ok (res, r') →
  (∀ t id b, cached r' t id = Some b → cached r t id = Some b)
  ∧ match res with
    | Good c => ∃ t, (now r ≤ t ≤ now r')%Z ∧ (counted r t key = Some (c - 1)%Z ∨ c = 1%Z) ∧ (c < 2 ^ 63)%Z
                  ∧ ((∀ t', counted r' t' key = if (t' <? t + n * Second)%Z then Some c else Some 0%Z)
                     ∨ ∀ t', counted r' t' key = Some 0%Z)
    | Err _ => True
    end.
Proof.
  intros Hn. assert (formatSec (n * Second) = n * Second)%Z as Hf by by apply formatSec_whole.
  unfold SetRateLimit, send, mbind, M_bind, mret, M_ret.
  set (k := str "ratelimit:" ++ key). destruct (Do _ r) as [r1 res'] eqn:E. intros Er.
  injection Er as Er <-. split.
  { intros t id b. apply cached_no_new. eapply Do_no_new; [exact E|].
    repeat constructor; simpl; intros Hk; by apply (messageBodyKey_ratelimit id key). }
  destruct res' as [rs|e]; [|by subst]. apply Do_good in E as (t & Ht & Ex).
  inversion Ex as [|? ? ? m0 m1 ? rr rs1 Hm0 E1 Ex1]; subst.
  inversion Ex1 as [|? ? ? m1' m2 ? rr' rs2 Hm1 E2 Ex2]; subst. inversion Ex2 as [? ? Hm2|]; subst.
  destruct rr as [| | |c|e]; try (cbn [exec1] in E1; repeat case_match; done).
  cbn [first_error]. destruct (head _); [done|]. exists t. split; [done|].
  apply exec1_incr in E1 as (Hc & Hr & ex & Hk & Ha). split_and!; [|lia|].
  { unfold counted. fold k. destruct (live_weaken _ _ t k Hm0) as [<-|Hnone]; [by left|].
    right. rewrite Hnone in Hc. injection Hc. lia. }
  assert (∀ e, m1' !! k = Some e → e = mkEntry (fmt_d c) ex) as Hk'.
  { intros e He. eapply lookup_weaken in He; [|exact Hm1]. congruence. }
  unfold counted, live. fold k. destruct (view r1 !! k) as [e|] eqn:Ee; [left|by right].
  eapply lookup_weaken in Ee; [|exact Hm2].
  eapply exec1_expire in E2 as [E2|E2]; [| |by rewrite Hf; unfold Second; lia|exact Hk'|exact Ha]; [congruence|].
  rewrite E2 in Ee. simplify_eq. intros t'. rewrite Hf. unfold alive. cbn [e_expires].
  destruct (t' <? _)%Z; [|done]. by apply redis_int_fmt.
Qed.
End rate_limit.

(** The second request of a minute. *)
Definition one_request : redis :=
  mkRedis {[ str "ratelimit:1.2.3.4" := mkEntry (fmt_d 1%Z) (Some (10 * Second)%Z) ]} 0 [].

Lemma redis_rate_limit_counts_witness :
  ∃ r', SetRateLimit (str "1.2.3.4") (60 * Second) one_request = Ok (Good 2%Z, r')
    ∧ counted r' (59 * Second) (str "1.2.3.4") = Some 2%Z.
Proof.
  set (o := SetRateLimit (str "1.2.3.4") (60 * Second) one_request).
  assert (o = Ok (Good 2%Z, state_of one_request o)) as E by (apply outcome_eq; vm_compute; reflexivity).
  exists (state_of one_request o). split; [exact E|].
  destruct (redis_rate_limit_counts (str "1.2.3.4") 60 one_request _ _ eq_refl E) as [_ (t & Ht & _ & _ & Hc)].
  change (now one_request) with 0%Z in Ht. destruct Hc as [Hc|Hc]; rewrite Hc.
  - assert ((59 * Second <? t + 60 * Second)%Z = true) as ->; [|done].
    apply Z.ltb_lt. unfold Second. lia.
  - exfalso. specialize (Hc 0%Z). revert Hc. vm_compute. discriminate.
Defined.
