(* ===== verification/Imap.v ===== *)
(** * The IMAP session (internal/imap: types.go, session.go, handler.go, auth.go)

    A session is the connection and its buffered reader, the protocol machine, the
    authenticated user, the selected mailbox and the storage behind the ports, one world
    that implements the four interfaces the session reads through. [received] and [out] are
    not in the code: the lines that were read from the connection, and what was written to
    it, with whether it went over TLS. *)

From S2P Require Import Prelude GoStrings GoIO FSM Config Ports Security.

(** ** Types (types.go) *)

Definition Capability : list gostring :=
  [str "IMAP4rev1"; str "LITERAL+"; str "SASL-IR"; str "LOGIN"; str "IDLE"; str "STARTTLS"].

Record SelectedMailbox := mkSelected {
  Selected_ID : N;
  Selected_Name : gostring;
  Selected_UIDValidity : N;
  Selected_UIDNext : N;
  Selected_ReadOnly : bool;
}.

(** ** The protocol machine (session.go) *)

Inductive State := StateNotAuthenticated | StateAuthenticated | StateSelected | StateLogout.
#[export] Instance State_eq_dec : EqDecision State.
Proof. solve_decision. Defined.

Definition State_str (st : State) : gostring :=
  match st with
  | StateNotAuthenticated => str "not_authenticated"
  | StateAuthenticated => str "authenticated"
  | StateSelected => str "selected"
  | StateLogout => str "logout"
  end.

Inductive IMAPEvent := EventLogin | EventSelect | EventClose | EventLogout.

Definition IMAPEvent_str (ev : IMAPEvent) : gostring :=
  match ev with
  | EventLogin => str "login"
  | EventSelect => str "select"
  | EventClose => str "close"
  | EventLogout => str "logout"
  end.

Definition imap_events : list EventDesc := [
  mkEvent (IMAPEvent_str EventLogin) [State_str StateNotAuthenticated] (State_str StateAuthenticated);
  mkEvent (IMAPEvent_str EventSelect) [State_str StateAuthenticated] (State_str StateSelected);
  mkEvent (IMAPEvent_str EventClose) [State_str StateSelected] (State_str StateAuthenticated);
  mkEvent (IMAPEvent_str EventLogout)
    [State_str StateNotAuthenticated; State_str StateAuthenticated; State_str StateSelected]
    (State_str StateLogout) ].

(** ** The session *)

Record Session `{L : FSMLib} `{T : TLSLib} {W : Type} := mkSession {
  conn : Conn;
  reader : gostring;
  fsm : FSM;
  cfg : Config;
  id : gostring;
  tlsCfg : option (tls_Config Certificate);
  isTLS : bool;
  userID : N;
  username : gostring;
  selected : option SelectedMailbox;
  store : W;
  received : list gostring;
  out : list (bool * gostring);
}.
Arguments Session {L T} W.

Section session.
Context `{L : FSMLib} `{T : TLSLib} `{U : UnicodeData} `{C : Clock} `{B : Bcrypt}.
Context {W : Type} `{PB : MailboxReader W} `{PM : MessageReader W} `{PD : DomainResolver W}
  `{PU : UserAuthenticator W}.
Implicit Types s : Session W.

Definition set_conn (c : Conn) (s : Session W) : Session W :=
  mkSession _ _ _ c (reader s) (fsm s) (cfg s) (id s) (tlsCfg s) (isTLS s) (userID s) (username s)
    (selected s) (store s) (received s) (out s).
Definition set_reader (b : gostring) (s : Session W) : Session W :=
  mkSession _ _ _ (conn s) b (fsm s) (cfg s) (id s) (tlsCfg s) (isTLS s) (userID s) (username s)
    (selected s) (store s) (received s) (out s).
Definition set_fsm (f : FSM) (s : Session W) : Session W :=
  mkSession _ _ _ (conn s) (reader s) f (cfg s) (id s) (tlsCfg s) (isTLS s) (userID s) (username s)
    (selected s) (store s) (received s) (out s).
Definition set_isTLS (b : bool) (s : Session W) : Session W :=
  mkSession _ _ _ (conn s) (reader s) (fsm s) (cfg s) (id s) (tlsCfg s) b (userID s) (username s)
    (selected s) (store s) (received s) (out s).
Definition set_user (uid : N) (name : gostring) (s : Session W) : Session W :=
  mkSession _ _ _ (conn s) (reader s) (fsm s) (cfg s) (id s) (tlsCfg s) (isTLS s) uid name
    (selected s) (store s) (received s) (out s).
Definition set_selected (sel : option SelectedMailbox) (s : Session W) : Session W :=
  mkSession _ _ _ (conn s) (reader s) (fsm s) (cfg s) (id s) (tlsCfg s) (isTLS s) (userID s)
    (username s) sel (store s) (received s) (out s).
Definition set_store (w : W) (s : Session W) : Session W :=
  mkSession _ _ _ (conn s) (reader s) (fsm s) (cfg s) (id s) (tlsCfg s) (isTLS s) (userID s)
    (username s) (selected s) w (received s) (out s).
Definition add_out (line : gostring) (s : Session W) : Session W :=
  mkSession _ _ _ (conn s) (reader s) (fsm s) (cfg s) (id s) (tlsCfg s) (isTLS s) (userID s)
    (username s) (selected s) (store s) (received s) (out s ++ [(c_tls (conn s), line ++ CRLF)]).
Definition receive (line : gostring) (s : Session W) : Session W :=
  mkSession _ _ _ (conn s) (reader s) (fsm s) (cfg s) (id s) (tlsCfg s) (isTLS s) (userID s)
    (username s) (selected s) (store s) (received s ++ [line]) (out s).
Definition set_input (c : conn_input) (s : Session W) : Session W :=
  set_conn (mkConn (c_tls (conn s)) c) s.

Definition newSession (c : Conn) (cf : Config) (w : W) (t : option (tls_Config Certificate))
    (tls : bool) : Session W :=
  mkSession _ _ _ c [] (NewFSM (State_str StateNotAuthenticated) imap_events) cf
    (fmt_d (time_Now 0)) t tls 0 [] None w [] [].

(** A call of a port. *)
Definition port {A} (m : M W A) : M (Session W) A := zoom store set_store m.

Definition currentState (s : Session W) : gostring := Current (fsm s).

Definition transition (event : IMAPEvent) : M (Session W) bool :=
  f ← gets fsm;
  let '(f', err) := Event f (IMAPEvent_str event) in
  modify (set_fsm f');;
  mret (match err with Some _ => false | None => true end).

Definition transitionSelect : M (Session W) bool :=
  cur ← gets currentState;
  if bool_decide (cur = State_str StateSelected) then mret true
  else transition EventSelect.

Definition writeLine (line : gostring) : M (Session W) unit := modify (add_out line).
Definition writeTagged (tag status message : gostring) : M (Session W) unit :=
  writeLine (tag ++ str " " ++ status ++ str " " ++ message).
Definition writeUntagged (status message : gostring) : M (Session W) unit :=
  writeLine (str "* " ++ status ++ str " " ++ message).

(** *** Handlers (handler.go, auth.go) *)

Definition checkPassword (password hash : gostring) : bool :=
  match CompareHashAndPassword hash password with None => true | Some _ => false end.

Definition parseAddress (addr : gostring) : gostring * gostring * bool :=
  match SplitN2 addr "@"%char with
  | [u; d] => if bool_decide (u = []) || bool_decide (d = []) then ([], [], false) else (u, d, true)
  | _ => ([], [], false)
  end.

Definition handleCapability (tag : gostring) : M (Session W) unit :=
  s ← get;
  (if bool_decide (tlsCfg s ≠ None) && negb (isTLS s)
   then writeUntagged (str "CAPABILITY") (Join (Capability ++ [str "STARTTLS"]) (str " "))
   else writeUntagged (str "CAPABILITY") (Join Capability (str " ")));;
  writeTagged tag (str "OK") (str "CAPABILITY completed").

Definition handleLogin (tag args : gostring) : M (Session W) unit :=
  match SplitN2 args SP with
  | [p0; p1] =>
      let username := Trim p0 [DQ] in
      let password := Trim p1 [DQ] in
      let '(localPart, domain, ok) := parseAddress username in
      if negb ok then writeTagged tag (str "NO") (str "Invalid username format, expected user@domain")
      else
        r ← port (FindDomain domain);
        match r with
        | Err _ => writeTagged tag (str "NO") (str "Invalid credentials")
        | Good d =>
        r ← port (FindUser localPart (Domain_ID d));
        match r with
        | Err _ => writeTagged tag (str "NO") (str "Invalid credentials")
        | Good user =>
        if negb (checkPassword password (User_PasswordHash user))
        then writeTagged tag (str "NO") (str "Invalid credentials")
        else
          ok ← transition EventLogin;
          if negb ok then writeTagged tag (str "NO") (str "Login failed")
          else
            modify (set_user (User_ID user) username);;
            writeTagged tag (str "OK") (str "LOGIN completed")
        end end
  | _ => writeTagged tag (str "BAD") (str "Syntax: LOGIN username password")
  end.

Definition handleSelect (tag args : gostring) (readOnly : bool) : M (Session W) unit :=
  let name := Trim (TrimSpace args) [DQ] in
  if bool_decide (name = []) then writeTagged tag (str "BAD") (str "Syntax: SELECT mailbox")
  else
    uid ← gets userID;
    r ← port (FindMailbox uid name);
    match r with
    | Err _ => writeTagged tag (str "NO") (str "Mailbox " ++ Quote name ++ str " does not exist")
    | Good mb =>
    r ← port (ListMessages (Mailbox_ID mb));
    match r with
    | Err _ => writeTagged tag (str "NO") (str "Error reading mailbox")
    | Good messages =>
    ok ← transitionSelect;
    if negb ok then writeTagged tag (str "NO") (str "Cannot select mailbox")
    else
      modify (set_selected (Some (mkSelected (Mailbox_ID mb) (Mailbox_Name mb) (Mailbox_UIDValidity mb)
        (Mailbox_UIDNext mb) readOnly)));;
      writeUntagged (fmt_d (length messages)) (str "EXISTS");;
      writeUntagged (str "0") (str "RECENT");;
      writeLine (str "* OK [UNSEEN 0] No unseen messages");;
      writeLine (str "* OK [UIDVALIDITY " ++ fmt_d (Mailbox_UIDValidity mb) ++ str "] UIDs valid");;
      writeLine (str "* OK [UIDNEXT " ++ fmt_d (Mailbox_UIDNext mb) ++ str "] Predicted next UID");;
      writeLine (str "* FLAGS (\Seen \Answered \Flagged \Deleted \Draft)");;
      writeLine (str "* OK [PERMANENTFLAGS (\Seen \Answered \Flagged \Deleted \Draft \*)] Permanent flags");;
      if readOnly then writeTagged tag (str "OK") (str "[READ-ONLY] EXAMINE completed")
      else writeTagged tag (str "OK") (str "[READ-WRITE] SELECT completed")
    end end.

Fixpoint list_loop (pattern : gostring) (mailboxes : list Mailbox) : M (Session W) unit :=
  match mailboxes with
  | [] => mret tt
  | mb :: mailboxes' =>
      (if bool_decide (pattern = str "*") || bool_decide (pattern = str "%")
          || EqualFold (Mailbox_Name mb) pattern
       then writeLine (str "* LIST (\HasNoChildren) " ++ [DQ] ++ str "/" ++ [DQ] ++ str " " ++ Quote (Mailbox_Name mb))
       else mret tt);;
      list_loop pattern mailboxes'
  end.

Definition handleList (tag args : gostring) : M (Session W) unit :=
  match SplitN2 args SP with
  | [_; p1] =>
      let pattern := Trim p1 [DQ] in
      uid ← gets userID;
      r ← port (ListMailboxes uid);
      match r with
      | Err _ => writeTagged tag (str "NO") (str "Error listing mailboxes")
      | Good mailboxes =>
          list_loop pattern mailboxes;;
          writeTagged tag (str "OK") (str "LIST completed")
      end
  | _ => writeTagged tag (str "BAD") (str "Syntax: LIST reference pattern")
  end.

(** The attributes of a FETCH response before the body. *)
Definition fetch_attributes (items : gostring) (seqNum : nat) (msg : Message) : gostring :=
  str "* " ++ fmt_d seqNum ++ str " FETCH (" ++
  (if Contains items (str "FLAGS") then str "FLAGS (" ++ Message_Flags msg ++ str ") " else []) ++
  (if Contains items (str "UID") then str "UID " ++ fmt_d (Message_UID msg) ++ str " " else []) ++
  (if Contains items (str "RFC822.SIZE") then str "RFC822.SIZE " ++ fmt_d (Message_SizeBytes msg) ++ str " "
   else []).

Definition placeholder : gostring := str "(message body unavailable)".

Definition fetch_body (body : gostring) : gostring :=
  str "BODY[] {" ++ fmt_d (length body) ++ str "}" ++ CRLF ++ body ++ str " ".

Fixpoint fetch_loop (items : gostring) (i : nat) (messages : list Message) : M (Session W) unit :=
  match messages with
  | [] => mret tt
  | msg :: messages' =>
      let seqNum := S i in
      let response := fetch_attributes items seqNum msg in
      response ← (if Contains items (str "BODY[]") || Contains items (str "RFC822") then
                    r ← port (GetMessageBody (Message_ID msg));
                    let body := match r with Good (Some body) => body | _ => placeholder end in
                    mret (response ++ fetch_body body)
                  else mret response);
      writeLine (TrimRight response (str " ") ++ str ")");;
      fetch_loop items (S i) messages'
  end.

Definition handleFetch (tag args : gostring) : M (Session W) unit :=
  sel ← gets selected;
  match sel with
  | None => writeTagged tag (str "BAD") (str "No mailbox selected")
  | Some mb =>
      match SplitN2 args SP with
      | [_; p1] =>
          r ← port (ListMessages (Selected_ID mb));
          match r with
          | Err _ => writeTagged tag (str "NO") (str "Error fetching messages")
          | Good messages =>
              let items := ToUpper p1 in
              fetch_loop items 0 messages;;
              writeTagged tag (str "OK") (str "FETCH completed")
          end
      | _ => writeTagged tag (str "BAD") (str "Syntax: FETCH sequence data-items")
      end
  end.

Definition handleStore (tag args : gostring) : M (Session W) unit :=
  sel ← gets selected;
  match sel with
  | None => writeTagged tag (str "BAD") (str "No mailbox selected")
  | Some mb =>
      if Selected_ReadOnly mb
      then writeTagged tag (str "NO") (str "[READ-ONLY] Cannot store flags in read-only mailbox")
      else writeTagged tag (str "OK") (str "STORE completed")
  end.

Definition handleSearch (tag args : gostring) : M (Session W) unit :=
  sel ← gets selected;
  match sel with
  | None => writeTagged tag (str "BAD") (str "No mailbox selected")
  | Some mb =>
      r ← port (ListMessages (Selected_ID mb));
      match r with
      | Err _ => writeTagged tag (str "NO") (str "Error searching messages")
      | Good messages =>
          let seqNums := imap (λ i _, fmt_d (S i)) messages in
          writeLine (str "* SEARCH " ++ Join seqNums (str " "));;
          writeTagged tag (str "OK") (str "SEARCH completed")
      end
  end.

Definition handleExpunge (tag : gostring) : M (Session W) unit :=
  sel ← gets selected;
  match sel with
  | None => writeTagged tag (str "BAD") (str "No mailbox selected")
  | Some mb =>
      if Selected_ReadOnly mb
      then writeTagged tag (str "NO") (str "[READ-ONLY] Cannot expunge read-only mailbox")
      else writeTagged tag (str "OK") (str "EXPUNGE completed")
  end.

Definition handleClose (tag : gostring) : M (Session W) unit :=
  modify (set_selected None);;
  transition EventClose;;
  writeTagged tag (str "OK") (str "CLOSE completed").

Definition handleLogout (tag : gostring) : M (Session W) unit :=
  transition EventLogout;;
  writeUntagged (str "BYE") (str "gomail-core logging out");;
  writeTagged tag (str "OK") (str "LOGOUT completed").

Definition handleSTARTTLS (tag : gostring) : M (Session W) unit :=
  s ← get;
  if isTLS s then writeTagged tag (str "NO") (str "Already using TLS")
  else
    match tlsCfg s with
    | None => writeTagged tag (str "NO") (str "TLS not available")
    | Some t =>
        writeTagged tag (str "OK") (str "Begin TLS negotiation now");;
        match Handshake t (c_in (conn s)) with
        | HsFailed _ rest => modify (set_input rest)
        | HsDone plaintext =>
            modify (set_conn (mkConn true plaintext));;
            modify (set_reader []);;
            modify (set_isTLS true)
        end
    end.

(** *** Dispatch and the read loop (session.go) *)

Definition dispatch (tag cmd args : gostring) : M (Session W) unit :=
  cur ← gets currentState;
  if bool_decide (cur = State_str StateNotAuthenticated) then
    if bool_decide (cmd = str "LOGIN") then handleLogin tag args
    else if bool_decide (cmd = str "STARTTLS") then handleSTARTTLS tag
    else if bool_decide (cmd = str "CAPABILITY") then handleCapability tag
    else if bool_decide (cmd = str "LOGOUT") then handleLogout tag
    else writeTagged tag (str "NO") (str "Command not allowed before authentication")
  else if bool_decide (cur = State_str StateAuthenticated) then
    if bool_decide (cmd = str "SELECT") then handleSelect tag args false
    else if bool_decide (cmd = str "EXAMINE") then handleSelect tag args true
    else if bool_decide (cmd = str "LIST") then handleList tag args
    else if bool_decide (cmd = str "LSUB") then handleList tag args
    else if bool_decide (cmd = str "CAPABILITY") then handleCapability tag
    else if bool_decide (cmd = str "NOOP") then writeTagged tag (str "OK") (str "NOOP completed")
    else if bool_decide (cmd = str "LOGOUT") then handleLogout tag
    else writeTagged tag (str "NO") (str "Command not allowed without selected mailbox")
  else if bool_decide (cur = State_str StateSelected) then
    if bool_decide (cmd = str "FETCH") then handleFetch tag args
    else if bool_decide (cmd = str "STORE") then handleStore tag args
    else if bool_decide (cmd = str "SEARCH") then handleSearch tag args
    else if bool_decide (cmd = str "EXPUNGE") then handleExpunge tag
    else if bool_decide (cmd = str "CLOSE") then handleClose tag
    else if bool_decide (cmd = str "SELECT") then handleSelect tag args false
    else if bool_decide (cmd = str "EXAMINE") then handleSelect tag args true
    else if bool_decide (cmd = str "LIST") then handleList tag args
    else if bool_decide (cmd = str "CAPABILITY") then handleCapability tag
    else if bool_decide (cmd = str "NOOP") then writeTagged tag (str "OK") (str "NOOP completed")
    else if bool_decide (cmd = str "LOGOUT") then handleLogout tag
    else writeTagged tag (str "BAD") (str "Unknown command")
  else mret tt.

(** What the loop does with a line; [false]: the session ends. *)
Definition handle_line (line : gostring) : M (Session W) bool :=
  let line := TrimRight line CRLF in
  if bool_decide (line = []) then mret true
  else
    let '(tag, rest, ok) := Cut line SP in
    if negb ok then writeLine (line ++ str " BAD Invalid command");; mret true
    else
      let '(cmd, args, _) := Cut rest SP in
      let cmd := ToUpper cmd in
      dispatch tag cmd args;;
      cur ← gets currentState;
      mret (negb (bool_decide (cur = State_str StateLogout))).

Definition iteration : M (Session W) bool :=
  s ← get;
  let '(r, b, c) := ReadString (reader s) (c_in (conn s)) in
  modify (set_input c);;
  modify (set_reader b);;
  match r with
  | Err _ => mret false
  | Good line => modify (receive line);; handle_line line
  end.

Fixpoint read_loop (fuel : nat) : M (Session W) unit :=
  match fuel with
  | O => λ _, NoFuel
  | S fuel' => continue ← iteration; if (continue : bool) then read_loop fuel' else mret tt
  end.

Definition Handle (fuel : nat) : M (Session W) unit :=
  s ← get;
  writeUntagged (str "OK") (Domain_name (SMTP (cfg s)) ++ str " IMAP4rev1 gomail-core ready");;
  read_loop fuel.
End session.
