(* ===== verification/ImapProps.v ===== *)
(** * Properties of the IMAP session

    The machine of the session, the invariant that ties the protocol state to the
    authenticated user and the selected mailbox, and the termination of the read loop. *)

From S2P Require Import Prelude GoStrings GoIO FSM Config Ports Security Imap.

(** ** The protocol machine *)

#[export] Instance State_str_inj : Inj (=) (=) State_str.
Proof. intros [] []; vm_compute; intros; congruence. Qed.

(** The states of RFC 3501 section 3. *)
Definition imap_next (ev : IMAPEvent) (st : State) : option State :=
  match ev, st with
  | EventLogin, StateNotAuthenticated => Some StateAuthenticated
  | EventSelect, StateAuthenticated => Some StateSelected
  | EventClose, StateSelected => Some StateAuthenticated
  | EventLogout, (StateNotAuthenticated | StateAuthenticated | StateSelected) => Some StateLogout
  | _, _ => None
  end.

Lemma imap_table ev st :
  event_table imap_events (IMAPEvent_str ev) (State_str st) = State_str <$> imap_next ev st.
Proof. destruct ev, st; vm_compute; reflexivity. Qed.

(** No event leads to the state it is fired in. *)
Lemma imap_accepts st ev : accepts imap_next st ev = imap_next ev st.
Proof. by destruct ev, st. Qed.

Section machine.
Context `{L : FSMLib} `{LL : !FSMLaws L} `{T : TLSLib} {W : Type}.
Implicit Types s : Session W.

Definition in_st (f : FSM) (st : State) : Prop := in_state State_str imap_events f st.
Definition at_state (s : Session W) (st : State) : Prop := in_st (fsm s) st.

Lemma imap_at_state_fun s st st' : at_state s st → at_state s st' → st = st'.
Proof. apply in_state_inj, _. Qed.

Lemma imap_at_state_current s st st' : at_state s st → currentState s = State_str st' ↔ st = st'.
Proof.
  intros [H _]. unfold currentState. rewrite H. split; [apply (inj State_str)|congruence].
Qed.

Lemma imap_transition_run s st ev :
  at_state s st →
  ∃ f', transition ev s = Ok (bool_decide (is_Some (imap_next ev st)), set_fsm f' s)
    ∧ in_st f' (default st (imap_next ev st)).
Proof.
  intros H. exists (fst (Event (fsm s) (IMAPEvent_str ev))).
  pose proof (Event_in_state State_str IMAPEvent_str imap_events imap_next imap_table _ _ ev H) as HE.
  rewrite imap_accepts in HE. unfold transition, gets, modify, mbind, M_bind. simpl.
  destruct (Event (fsm s) (IMAPEvent_str ev)) as [f' err]; simpl in *.
  destruct (imap_next ev st) as [d|]; destruct HE as [He Hf].
  - by rewrite He.
  - by destruct He as [e ->].
Qed.

Lemma imap_wp_transition s st ev (Q : bool → Session W → Prop) :
  at_state s st →
  (∀ f', in_st f' (default st (imap_next ev st)) →
         Q (bool_decide (is_Some (imap_next ev st))) (set_fsm f' s)) →
  wp (transition ev) s Q.
Proof.
  intros H HQ. destruct (imap_transition_run s st ev H) as (f' & E & Hf). unfold wp. rewrite E. auto.
Qed.
End machine.

(** A FETCH response: the attributes, then the body if it was asked for. *)
Definition fetch_line `{U : UnicodeData} (items : gostring) (n : nat) (msg : Message)
    (body : option gostring) : gostring :=
  TrimRight (fetch_attributes items n msg ++ match body with Some b => fetch_body b | None => [] end)
    (str " ") ++ str ")".

(** The name and the password that a line gives to LOGIN. *)
Definition given_login `{U : UnicodeData} (line : gostring) : option (gostring * gostring) :=
  match Cut (TrimRight line CRLF) SP with
  | (_, rest, true) =>
      let '(cmd, args, _) := Cut rest SP in
      match SplitN2 args SP with
      | [p0; p1] => if bool_decide (ToUpper cmd = str "LOGIN") then Some (Trim p0 [DQ], Trim p1 [DQ]) else None
      | _ => None
      end
  | _ => None
  end.

(** ** The invariant *)

Section invariant.
Context `{L : FSMLib} `{LL : !FSMLaws L} `{T : TLSLib} `{U : UnicodeData} `{C : Clock} `{B : Bcrypt}.
Context {W : Type} `{PB : MailboxReader W} `{PM : MessageReader W} `{PD : DomainResolver W}
  `{PU : UserAuthenticator W}.
Implicit Types s : Session W.

(** What is assumed of the store: it keeps [J]; a domain it returns for a name satisfies
    [Dok]; a user whose hash accepts a password is [Auth]enticated under the name that was
    given and with that password; a mailbox it finds for a user is [Owned] by that user; the messages of a mailbox
    satisfy [Mok] and the bodies [Bok]. *)
Context (J : W → Prop) (Dok : gostring → Domain → Prop) (Auth : gostring → gostring → N → Prop)
  (Owned : N → N → Prop) (Mok : Message → Prop) (Bok : gostring → Prop).

Record store_spec : Prop := {
  sp_domain name w : J w →
    wp (FindDomain name) w (λ r w', J w' ∧ ∀ d, r = Good d → Dok name d);
  sp_user addr loc name d w : J w → parseAddress addr = (loc, name, true) → Dok name d →
    wp (FindUser loc (Domain_ID d)) w (λ r w', J w' ∧ ∀ u pw, r = Good u →
      checkPassword pw (User_PasswordHash u) = true → Auth addr pw (User_ID u));
  sp_mailbox uid name w : J w →
    wp (FindMailbox uid name) w (λ r w', J w' ∧ ∀ b, r = Good b → Owned uid (Mailbox_ID b));
  sp_mailboxes uid w : J w → wp (ListMailboxes uid) w (λ _ w', J w');
  sp_messages id w : J w →
    wp (ListMessages id) w (λ r w', J w' ∧ ∀ l, r = Good l → Forall Mok l);
  sp_body id w : J w →
    wp (GetMessageBody id) w (λ r w', J w' ∧ ∀ b, r = Good (Some b) → Bok b);
}.

(** What is assumed of the written text: [Out] holds of lines, and of FETCH responses. *)
Context (Out : gostring → Prop).
Record out_spec : Prop := {
  out_line x : LF ∉ x → Out (x ++ CRLF);
  out_fetch items n msg body : Mok msg → (∀ b, body = Some b → Bok b) →
    Out (fetch_line items n msg body ++ CRLF);
  body_placeholder : Bok placeholder;
}.

Context (Hstore : store_spec) (Hout : out_spec) (cf : Config) (Hdom : LF ∉ Domain_name (SMTP cf)).

(** The client gave LOGIN this name and this password. *)
Definition was_given (name pw : gostring) (s : Session W) : Prop :=
  ∃ line, line ∈ received s ∧ given_login line = Some (name, pw).

(** The user of the session is authenticated with the name and the password the client gave. *)
Definition logged_in (s : Session W) : Prop :=
  ∃ pw, was_given (username s) pw s ∧ Auth (username s) pw (userID s).

(** The user and the mailbox of a session in state [st]. *)
Definition user_ok (st : State) (s : Session W) : Prop :=
  match st with
  | StateNotAuthenticated => selected s = None
  | StateAuthenticated => logged_in s ∧ selected s = None
  | StateSelected => logged_in s
      ∧ ∃ mb, selected s = Some mb ∧ Owned (userID s) (Selected_ID mb)
  | StateLogout => True
  end.

Record imap_inv (s : Session W) : Prop := {
  inv_state : ∃ st, at_state s st ∧ user_ok st s;
  inv_tls : isTLS s = c_tls (conn s);
  inv_cfg : cfg s = cf;
  inv_J : J (store s);
  inv_out : Forall (λ l, Out (snd l)) (out s);
}.

Definition input_left (s : Session W) : nat := length (reader s) + conn_size (c_in (conn s)).

Definition progress (s s' : Session W) : Prop :=
  (isTLS s' = isTLS s ∧ input_left s' ≤ input_left s) ∨ (isTLS s = false ∧ isTLS s' = true).

Definition keeps (s : Session W) {A} (_ : A) (s' : Session W) : Prop :=
  imap_inv s' ∧ progress s s'.

Lemma imap_inv_add_out s x : imap_inv s → Out (x ++ CRLF) → imap_inv (add_out x s).
Proof.
  intros [] Hx. split; try done. simpl. apply Forall_app. split; [done|].
  by apply Forall_singleton.
Qed.

Lemma inv_set_store s w : imap_inv s → J w → imap_inv (set_store w s).
Proof. by intros []. Qed.

Lemma imap_inv_set_input s c : imap_inv s → imap_inv (set_input c s).
Proof. by intros []. Qed.

Lemma imap_inv_set_reader s b : imap_inv s → imap_inv (set_reader b s).
Proof. by intros []. Qed.

Lemma imap_inv_receive s line : imap_inv s → imap_inv (receive line s).
Proof.
  intros [(st & Hst & Hu) ? ? ? ?]. split; try done. exists st. split; [done|].
  assert (logged_in s → logged_in (receive line s)) as Hl.
  { intros (pw & (l & Hl & Hg) & Ha). exists pw. split; [|done]. exists l. split; [|done].
    apply elem_of_app. by left. }
  destruct st; simpl; [done|by split; [apply Hl|]; apply Hu|by split; [apply Hl|]; apply Hu|done].
Qed.

(** Moving the machine to a state that fits the user and the mailbox. *)
Lemma imap_inv_set_fsm s f st :
  imap_inv s → in_st f st → user_ok st s → imap_inv (set_fsm f s).
Proof. intros [] Hf Hu. split; try done. by exists st. Qed.

Lemma wp_port {A} (m : M W A) s (Q : A → Session W → Prop) :
  wp m (store s) (λ a w, Q a (set_store w s)) → wp (port m) s Q.
Proof. unfold wp, port, zoom. by destruct (m (store s)) as [[]| |]. Qed.

Lemma wp_writeLine s0 s x :
  imap_inv s → progress s0 s → LF ∉ x → wp (writeLine x) s (keeps s0).
Proof.
  intros Hi Hp Hx. apply wp_modify. split; [|done]. apply imap_inv_add_out; [done|by apply out_line].
Qed.

Lemma progress_refl s : progress s s.
Proof. by left. Qed.
Lemma imap_wp_write s0 s x (k : M (Session W) unit) :
  imap_inv s → progress s0 s → Out (x ++ CRLF) →
  (imap_inv (add_out x s) → progress s0 (add_out x s) → wp k (add_out x s) (keeps s0)) →
  wp (writeLine x;; k) s (keeps s0).
Proof. intros Hi Hp Hx Hk. apply wp_bind, wp_modify, Hk; [by apply imap_inv_add_out|done]. Qed.

(** Close a sequence of replies. *)
Ltac replies :=
  lazymatch goal with
  | |- wp (writeLine _ ≫= _) _ _ =>
      apply imap_wp_write; [done|done|apply (out_line Hout); no_LF|intros ? ?]; replies
  | |- wp (writeLine _) _ _ => apply wp_writeLine; [done|done|no_LF]
  end.

Lemma handleCapability_wp s tag : imap_inv s → LF ∉ tag → wp (handleCapability tag) s (keeps s).
Proof.
  intros Hi Ht. pose proof (progress_refl s) as Hp. unfold handleCapability, writeTagged, writeUntagged.
  apply wp_bind, wp_get. destruct (_ && _); replies.
Qed.

Lemma handleStore_wp s tag args : imap_inv s → LF ∉ tag → wp (handleStore tag args) s (keeps s).
Proof.
  intros Hi Ht. pose proof (progress_refl s) as Hp. unfold handleStore, writeTagged.
  apply wp_bind, wp_gets. repeat case_match; replies.
Qed.

Lemma handleExpunge_wp s tag : imap_inv s → LF ∉ tag → wp (handleExpunge tag) s (keeps s).
Proof.
  intros Hi Ht. pose proof (progress_refl s) as Hp. unfold handleExpunge, writeTagged.
  apply wp_bind, wp_gets. repeat case_match; replies.
Qed.

(** A call of a port: the store keeps [J]. *)
Lemma wp_port_J {A} (m : M W A) s0 s (R : A → Prop) (Q : A → Session W → Prop) :
  wp m (store s) (λ a w, J w ∧ R a) → imap_inv s → progress s0 s →
  (∀ a w, imap_inv (set_store w s) → progress s0 (set_store w s) → R a → Q a (set_store w s)) →
  wp (port m) s Q.
Proof.
  intros Hm Hi Hp HQ. apply wp_port. eapply wp_mono; [done|]. intros a w [Hj Hr].
  apply HQ; [by apply inv_set_store|done|done].
Qed.

Lemma Join_no_LF l sep : Forall (λ x, LF ∉ x) l → LF ∉ sep → LF ∉ Join l sep.
Proof.
  intros Hl Hs. induction Hl as [|x l Hx Hl IH]; [by_computation|].
  destruct l as [|y l]; [done|]. cbn [Join]. repeat (apply not_elem_of_app; split); done.
Qed.

Lemma handleSearch_wp s tag args : imap_inv s → LF ∉ tag → wp (handleSearch tag args) s (keeps s).
Proof.
  intros Hi Ht. pose proof (progress_refl s) as Hp. unfold handleSearch, writeTagged.
  apply wp_bind, wp_gets. destruct (selected s) as [mb|]; [|replies].
  apply wp_bind. eapply wp_port_J; [apply (sp_messages Hstore), Hi|done|done|].
  intros r w Hi' Hp' _. destruct r as [l|e]; [|replies].
  apply imap_wp_write; [done|done|apply (out_line Hout)|intros; replies].
  apply not_elem_of_app. split; [by_computation|]. apply Join_no_LF; [|by_computation].
  apply Forall_lookup_2. intros i x. rewrite list_lookup_imap, fmap_Some.
  intros (y & _ & ->). auto with gomail.
Qed.
Lemma list_loop_wp s0 s pattern l :
  imap_inv s → progress s0 s → wp (list_loop pattern l) s (keeps s0).
Proof.
  revert s. induction l as [|mb l IH]; intros s Hi Hp; cbn [list_loop]; [by apply wp_ret|].
  apply wp_bind. destruct (_ || _).
  - apply wp_modify, IH; [|done]. apply imap_inv_add_out; [done|]. apply (out_line Hout). no_LF.
  - by apply wp_ret, IH.
Qed.

Lemma progress_trans s1 s2 s3 : progress s1 s2 → progress s2 s3 → progress s1 s3.
Proof.
  unfold progress. intros [[E1 L1]|[E1 E1']] [[E2 L2]|[E2 E2']].
  - left. split; [congruence|lia].
  - right. split; congruence.
  - right. split; congruence.
  - congruence.
Qed.

Lemma handleList_wp s tag args : imap_inv s → LF ∉ tag → wp (handleList tag args) s (keeps s).
Proof.
  intros Hi Ht. pose proof (progress_refl s) as Hp. unfold handleList, writeTagged.
  destruct (SplitN2 args SP) as [|p0 [|p1 [|]]]; [replies|replies| |replies].
  apply wp_bind, wp_gets, wp_bind.
  eapply (wp_port_J _ _ _ (λ _, True)).
  { eapply wp_mono; [apply (sp_mailboxes Hstore), Hi|by auto]. } { done. } { done. }
  intros r w Hi' Hp' _. destruct r as [l|e]; [|replies].
  apply wp_bind. eapply wp_mono; [by apply (list_loop_wp s)|]. intros [] s' [Hi2 Hp2]. replies.
Qed.

Lemma fetch_loop_wp s0 s items i l :
  imap_inv s → progress s0 s → Forall Mok l →
  wp (fetch_loop items i l) s (keeps s0).
Proof.
  pose proof (body_placeholder Hout) as Hph. intros Hi Hp Hl. revert s i Hi Hp. induction Hl as [|msg l Hm _ IH]; intros s i Hi Hp;
    cbn [fetch_loop]; [by apply wp_ret|].
  assert (∀ s1 body, imap_inv s1 → progress s0 s1 → (∀ b, body = Some b → Bok b) →
    wp (writeLine (fetch_line items (S i) msg body);; fetch_loop items (S i) l) s1 (keeps s0)) as Hw.
  { intros s1 body Hi1 Hp1 Hb. apply wp_bind, wp_modify, IH; [|done].
    apply imap_inv_add_out; [done|]. by apply (out_fetch Hout). }
  apply wp_bind. destruct (_ || _).
  - apply wp_bind. eapply wp_port_J; [apply (sp_body Hstore), Hi|done|done|]. intros r w Hi' Hp' Hr.
    apply wp_ret. apply (Hw _ (Some (match r with Good (Some b) => b | _ => placeholder end)));
      [done|done|]. intros b. destruct r as [[b'|]|]; intros; simplify_eq; auto.
  - apply wp_ret. pose proof (Hw s None Hi Hp) as H. unfold fetch_line in H.
    rewrite app_nil_r in H. by apply H.
Qed.
Lemma handleFetch_wp s tag args : imap_inv s → LF ∉ tag → wp (handleFetch tag args) s (keeps s).
Proof.
  intros Hi Ht. pose proof (progress_refl s) as Hp. unfold handleFetch, writeTagged.
  apply wp_bind, wp_gets. destruct (selected s) as [mb|]; [|replies].
  destruct (SplitN2 args SP) as [|p0 [|p1 [|]]]; [replies|replies| |replies].
  apply wp_bind. eapply wp_port_J; [apply (sp_messages Hstore), Hi|done|done|]. intros r w Hi' Hp' Hr.
  destruct r as [l|e]; [|replies]. apply wp_bind.
  eapply wp_mono; [apply (fetch_loop_wp s); auto|]. intros [] s' [Hi2 Hp2]. replies.
Qed.

Lemma handleClose_wp s tag :
  imap_inv s → at_state s StateSelected → LF ∉ tag → wp (handleClose tag) s (keeps s).
Proof.
  intros Hi Hst Ht. unfold handleClose, writeTagged. apply wp_bind, wp_modify, wp_bind.
  eapply (imap_wp_transition _ StateSelected); [done|]. simpl. intros f Hf.
  assert (imap_inv (set_fsm f (set_selected None s))).
  { destruct Hi as [(st & Hst' & Hu) ? ? ? ?]. rewrite <- (imap_at_state_fun _ _ _ Hst Hst') in Hu.
    split; try done. exists StateAuthenticated. split; [done|]. by split; [apply Hu|]. }
  assert (progress s (set_fsm f (set_selected None s))) by by left. replies.
Qed.

Lemma handleLogout_wp s tag : imap_inv s → LF ∉ tag → wp (handleLogout tag) s (keeps s).
Proof.
  intros Hi Ht. unfold handleLogout, writeTagged, writeUntagged. apply wp_bind.
  destruct (inv_state s Hi) as (st & Hst & Hu).
  eapply imap_wp_transition; [done|]. intros f Hf.
  assert (imap_inv (set_fsm f s)).
  { eapply imap_inv_set_fsm; [done..|]. by destruct st. }
  assert (progress s (set_fsm f s)) by by left. replies.
Qed.

Lemma imap_handleSTARTTLS_wp `{!TLSLaws T} s tag :
  imap_inv s → LF ∉ tag → wp (handleSTARTTLS tag) s (keeps s).
Proof.
  intros Hi Ht. pose proof (progress_refl s) as Hp. unfold handleSTARTTLS, writeTagged.
  apply wp_bind, wp_get. destruct (isTLS s) eqn:Htls; [replies|].
  destruct (tlsCfg s) as [t|]; [|replies].
  apply imap_wp_write; [done|done|apply (out_line Hout); no_LF|]. intros Hi' _.
  destruct (Handshake t (c_in (conn s))) as [plain|msg rest] eqn:Hh.
  - do 2 (apply wp_bind, wp_modify). apply wp_modify. split; [by destruct Hi'|by right].
  - apply wp_modify. split; [by apply imap_inv_set_input|]. left.
    apply handshake_consumes in Hh. unfold input_left. simpl. split; [done|lia].
Qed.

Lemma handleLogin_wp s tag args :
  imap_inv s → at_state s StateNotAuthenticated → LF ∉ tag →
  (∀ p0 p1, SplitN2 args SP = [p0; p1] → was_given (Trim p0 [DQ]) (Trim p1 [DQ]) s) →
  wp (handleLogin tag args) s (keeps s).
Proof.
  intros Hi Hst Ht Hgiven. pose proof (progress_refl s) as Hp. unfold handleLogin, writeTagged.
  destruct (SplitN2 args SP) as [|p0 [|p1 [|]]]; [replies|replies| |replies].
  specialize (Hgiven p0 p1 eq_refl).
  destruct (parseAddress (Trim p0 [DQ])) as [[loc dom] []] eqn:Ea; cbn [negb]; [|replies].
  apply wp_bind. eapply wp_port_J; [apply (sp_domain Hstore), Hi|done|done|]. intros r w1 Hi1 Hp1 Hd.
  destruct r as [d|e]; [|replies]. apply wp_bind.
  eapply wp_port_J; [apply (sp_user Hstore (Trim p0 [DQ]) loc dom d); [apply Hi1|exact Ea|by apply Hd]|done|done|].
  intros r w2 Hi2 Hp2 Hu. destruct r as [u|e]; [|replies].
  destruct (checkPassword _ _) eqn:Hpw; cbn [negb]; [|replies].
  apply wp_bind. eapply (imap_wp_transition _ StateNotAuthenticated); [done|]. simpl. intros f Hf.
  apply wp_bind, wp_modify.
  set (s3 := set_user _ _ _). assert (imap_inv s3).
  { destruct Hi2 as [(st & Hst' & Hu') ? ? ? ?]. rewrite <- (imap_at_state_fun _ _ _ Hst Hst') in Hu'.
    split; try done. exists StateAuthenticated. split; [done|]. split; [|done]. exists (Trim p1 [DQ]). split; [exact Hgiven|by apply Hu]. }
  assert (progress s s3) by by left. replies.
Qed.

Lemma handleSelect_wp s tag args ro st :
  imap_inv s → at_state s st → st = StateAuthenticated ∨ st = StateSelected → LF ∉ tag →
  wp (handleSelect tag args ro) s (keeps s).
Proof.
  intros Hi Hst Hor Ht. pose proof (progress_refl s) as Hp. unfold handleSelect, writeTagged, writeUntagged.
  case_bool_decide; [replies|]. apply wp_bind, wp_gets, wp_bind.
  eapply wp_port_J; [apply (sp_mailbox Hstore), Hi|done|done|]. intros r w1 Hi1 Hp1 Ho.
  destruct r as [mb|e]; [|replies]. apply wp_bind.
  eapply wp_port_J; [apply (sp_messages Hstore), Hi1|done|done|]. intros r w2 Hi2 Hp2 _.
  destruct r as [l|e]; [|replies]. set (s2 := set_store w2 _) in *.
  assert (∀ f, in_st f StateSelected → imap_inv (set_selected (Some (mkSelected (Mailbox_ID mb)
    (Mailbox_Name mb) (Mailbox_UIDValidity mb) (Mailbox_UIDNext mb) ro)) (set_fsm f s2))) as Hsel.
  { intros f Hf. destruct Hi2 as [(st' & Hst' & Hu') ? ? ? ?].
    rewrite <- (imap_at_state_fun s st st' Hst Hst') in Hu'. split; try done. exists StateSelected.
    split; [done|]. split; [by destruct Hor as [->| ->]; destruct Hu'|]. simpl. eauto. }
  apply wp_bind. unfold transitionSelect. apply wp_bind, wp_gets. case_bool_decide as Hc.
  - apply wp_ret. cbn [negb]. apply wp_bind, wp_modify.
    assert (set_fsm (fsm s2) s2 = s2) as E by by destruct s2.
    pose proof (Hsel (fsm s2)) as Hi3. rewrite E in Hi3. specialize (Hi3 ltac:(
      apply (imap_at_state_current s st StateSelected Hst) in Hc as <-; exact Hst)).
    set (s3 := set_selected _ _) in *. assert (progress s s3) by by left. destruct ro; replies.
  - assert (st = StateAuthenticated) as ->.
    { destruct Hor as [->| ->]; [done|]. exfalso. by apply Hc, (imap_at_state_current s StateSelected). }
    eapply (imap_wp_transition _ StateAuthenticated); [done|]. intros f Hf.
    change (bool_decide _) with true. cbn [negb]. apply wp_bind, wp_modify. pose proof (Hsel f Hf) as Hi3.
    match goal with |- wp _ ?x _ => change (imap_inv x) in Hi3; set (s3 := x) in * end.
    assert (progress s s3) by by left. destruct ro; replies.
Qed.
(** *** The read loop *)

Lemma dispatch_wp `{!TLSLaws T} s tag cmd args :
  imap_inv s → LF ∉ tag →
  (cmd = str "LOGIN" → ∀ p0 p1, SplitN2 args SP = [p0; p1] → was_given (Trim p0 [DQ]) (Trim p1 [DQ]) s) →
  wp (dispatch tag cmd args) s (keeps s).
Proof.
  intros Hi Ht Hgiven. pose proof (progress_refl s) as Hp. destruct (inv_state s Hi) as (st & Hst & Hu).
  assert (∀ a b c, LF ∉ b → LF ∉ c → a = tag → wp (writeTagged a b c) s (keeps s)) as Hw.
  { intros a b c Hb Hc ->. apply wp_writeLine; [done..|no_LF]. }
  unfold dispatch. apply wp_bind, wp_gets.
  case_bool_decide as H1; [|case_bool_decide as H2; [|case_bool_decide as H3; [|by apply wp_ret]]].
  - apply (imap_at_state_current _ _ StateNotAuthenticated Hst) in H1 as ->.
    case_bool_decide; [by eauto using handleLogin_wp|].
    repeat case_match; eauto using imap_handleSTARTTLS_wp, handleCapability_wp, handleLogout_wp;
      apply Hw; (done || no_LF).
  - apply (imap_at_state_current _ _ StateAuthenticated Hst) in H2 as ->.
    repeat case_match; eauto using handleSelect_wp, handleList_wp, handleCapability_wp, handleLogout_wp;
      apply Hw; (done || no_LF).
  - apply (imap_at_state_current _ _ StateSelected Hst) in H3 as ->.
    repeat case_match; eauto using handleFetch_wp, handleStore_wp, handleSearch_wp, handleExpunge_wp,
      handleClose_wp, handleSelect_wp, handleList_wp, handleCapability_wp, handleLogout_wp;
      apply Hw; (done || no_LF).
Qed.

Lemma imap_handle_line_wp `{!TLSLaws T} s x :
  imap_inv s → LF ∉ x → x ++ [LF] ∈ received s → wp (handle_line (x ++ [LF])) s (keeps s).
Proof.
  intros Hi Hx Hin. unfold handle_line.
  pose proof (TrimRight_no_LF x Hx) as Hl. set (line := TrimRight _ _) in *.
  case_bool_decide; [apply wp_ret; split; [done|by left]|].
  destruct (Cut line SP) as [[tag rest] []] eqn:Hcut; cbn [negb].
  - destruct (Cut rest SP) as [[c args] ok] eqn:Hcut'. apply wp_bind. eapply wp_mono.
    { apply dispatch_wp; [done|apply (Cut_no_LF _ _ _ _ _ Hl Hcut)|].
      intros Hc p0 p1 Hs. exists (x ++ [LF]). split; [done|]. unfold given_login. fold line.
      by rewrite Hcut, Hcut', Hs, bool_decide_true. }
    intros [] s' Hk. by apply wp_bind, wp_gets, wp_ret.
  - apply wp_bind, wp_modify, wp_ret. split; [|by left]. apply imap_inv_add_out; [done|].
    apply (out_line Hout). no_LF.
Qed.

Definition advances (s s' : Session W) : Prop :=
  (isTLS s' = isTLS s ∧ input_left s' < input_left s) ∨ (isTLS s = false ∧ isTLS s' = true).

Lemma imap_iteration_wp `{!TLSLaws T} s :
  imap_inv s → wp iteration s (λ continue s', imap_inv s' ∧ (continue = true → advances s s')).
Proof.
  intros Hi. unfold iteration. apply wp_bind, wp_get.
  pose proof (ReadString_spec (reader s) (c_in (conn s))) as Hr.
  destruct (ReadString _ _) as [[[line|e] b] c]; do 2 (apply wp_bind, wp_modify).
  - destruct Hr as (x & -> & Hx & _ & _ & _ & Hlt). cbn [app].
    apply wp_bind, wp_modify. eapply wp_mono.
    { apply imap_handle_line_wp; [by apply imap_inv_receive, imap_inv_set_reader, imap_inv_set_input|done|].
      apply elem_of_app. right. by apply list_elem_of_singleton. }
    intros r s' [Hi' Hp]. split; [done|]. intros _. unfold progress, advances, input_left in *.
    simpl in Hp. destruct Hp as [[? ?]|?]; [left; split; [done|lia]|by right].
  - apply wp_ret. split; [by apply imap_inv_set_reader, imap_inv_set_input|done].
Qed.

Lemma imap_advances_wf : well_founded (λ s' s, advances s s').
Proof. apply (upgrade_wf isTLS input_left). Qed.

Lemma imap_read_loop_total `{!TLSLaws T} s :
  imap_inv s → ∃ fuel, wp (read_loop fuel) s (λ _ s', imap_inv s').
Proof.
  induction (imap_advances_wf s) as [s _ IH]. intros Hi.
  pose proof (imap_iteration_wp s Hi) as Hit. apply wp_run in Hit as (cont & s' & E & Hi' & Ha).
  destruct cont.
  - destruct (IH s' (Ha eq_refl) Hi') as [fuel Hf]. exists (S fuel).
    cbn [read_loop]. apply wp_bind. unfold wp at 1. by rewrite E.
  - exists 1. cbn [read_loop]. apply wp_bind. unfold wp at 1. by rewrite E.
Qed.

Lemma newSession_inv c w t : J w → imap_inv (newSession c cf w t (c_tls c)).
Proof.
  intros Hw. split; simpl; try done. exists StateNotAuthenticated. split; [apply in_state_NewFSM|done].
Qed.

Lemma imap_Handle_total `{!TLSLaws T} s :
  imap_inv s → ∃ fuel, wp (Handle fuel) s (λ _ s', imap_inv s').
Proof.
  intros Hi. assert (cfg s = cf) as Hcf by apply Hi.
  set (s1 := add_out (str "* " ++ str "OK" ++ str " " ++ Domain_name (SMTP cf)
               ++ str " IMAP4rev1 gomail-core ready") s).
  assert (imap_inv s1) as Hi1 by (apply imap_inv_add_out; [done|apply (out_line Hout); no_LF]).
  destruct (imap_read_loop_total s1 Hi1) as [fuel Hf]. exists fuel.
  unfold Handle. apply wp_bind, wp_get, wp_bind, wp_modify. by rewrite Hcf.
Qed.
End invariant.
