(* ===== verification/ImapTheorems.v ===== *)
(** * What the IMAP server guarantees *)

From S2P Require Import Prelude GoStrings GoIO FSM Config Ports Security Smtp Concrete Imap ImapProps.

(** ** Literals

    A FETCH response carries a body as a literal: its length in braces, a line break, and
    that many bytes. [decode_literal] is how a client reads one. *)

Definition decode_literal (x : gostring) : option (gostring * gostring * gostring) :=
  '(pre, r1) ← cut_at "{"%char x;
  '(num, r2) ← cut_at "}"%char r1;
  n ← Atoi num;
  match r2 with
  | c1 :: c2 :: r3 =>
      if bool_decide ([c1; c2] = CRLF) && (Z.to_nat n <=? length r3)
      then Some (pre, take (Z.to_nat n) r3, drop (Z.to_nat n) r3) else None
  | _ => None
  end.

(** A body that does not end with a space. *)
Definition clean_body (b : gostring) : Prop := last b ≠ Some SP.

(** What the server may write: a line, or a line with one literal of the length it says. *)
Definition framed (x : gostring) : Prop :=
  (∃ l, x = l ++ CRLF ∧ LF ∉ l)
  ∨ ∃ pre body post,
      x = pre ++ str "{" ++ fmt_d (length body) ++ str "}" ++ CRLF ++ body ++ post ++ CRLF
      ∧ LF ∉ pre ∧ LF ∉ post.

Lemma trim_right_snoc p l b : p b = true → trim_right p (l ++ [b]) = trim_right p l.
Proof. intros H. unfold trim_right. rewrite reverse_app. simpl. by rewrite H. Qed.

Lemma TrimRight_space (x : gostring) :
  last x ≠ Some SP → TrimRight (x ++ [SP]) (str " ") = x.
Proof.
  intros Hx. unfold TrimRight. rewrite trim_right_snoc by by vm_compute.
  destruct x as [|b x _] using rev_ind; [done|]. rewrite last_snoc in Hx.
  apply trim_right_id. unfold in_cutset. apply bool_decide_eq_false. change (str " ") with [SP]. set_solver.
Qed.

Section framing.
Context `{U : UnicodeData}.

(** The response without the body, up to the literal. *)
Definition literal_prefix (items : gostring) (n : nat) (msg : Message) : gostring :=
  fetch_attributes items n msg ++ str "BODY[] ".

Lemma fetch_line_body items n msg b :
  clean_body b →
  fetch_line items n msg (Some b)
  = literal_prefix items n msg ++ str "{" ++ fmt_d (length b) ++ str "}" ++ CRLF ++ b ++ str ")".
Proof.
  intros Hb. unfold fetch_line, fetch_body, literal_prefix.
  set (x := fetch_attributes items n msg ++ str "BODY[] {" ++ fmt_d (length b) ++ str "}" ++ CRLF ++ b).
  replace (fetch_attributes items n msg ++ _) with (x ++ [SP])
    by (unfold x; rewrite <- !(assoc_L (++)); done).
  rewrite TrimRight_space; [unfold x; by rewrite <- !(assoc_L (++))|].
  unfold x. rewrite !last_app. unfold clean_body in Hb. by destruct (last b).
Qed.

Lemma absent_literal (c : ascii) (big small : gostring) :
  Forall (λ x, x ∈ big) small → c ∉ big → c ∉ small.
Proof. intros HF Hc Hs. rewrite Forall_forall in HF. auto. Qed.

Lemma absent_decimal (c : ascii) (n : N) : c ∉ str "0123456789" → c ∉ fmt_d n.
Proof.
  intros Hc. eapply absent_literal; [|exact Hc].
  eapply Forall_impl; [apply fmt_d_N_digits|]. intros d [Hl Hh].
  assert (byteN d ∈ byteN <$> str "0123456789") as (e & E & He)%list_elem_of_fmap.
  { assert (byteN d = 48 ∨ byteN d = 49 ∨ byteN d = 50 ∨ byteN d = 51 ∨ byteN d = 52 ∨ byteN d = 53
      ∨ byteN d = 54 ∨ byteN d = 55 ∨ byteN d = 56 ∨ byteN d = 57)%N as H by lia.
    change (byteN <$> str "0123456789") with [48; 49; 50; 51; 52; 53; 54; 55; 56; 57]%N. set_solver. }
  by apply byteN_inj in E as ->.
Qed.

Lemma absent_decimal_Z (c : ascii) (z : Z) : c ∉ str "-0123456789" → c ∉ fmt_d z.
Proof.
  intros Hc. assert (c ∉ str "0123456789") as Hd by set_solver.
  destruct z as [|p|p]; [apply (absent_decimal c 0 Hd)|apply (absent_decimal c (Npos p) Hd)|].
  change (fmt_d (Zneg p)) with ("-"%char :: fmt_d (Npos p)).
  apply not_elem_of_cons. split; [set_solver|by apply absent_decimal].
Qed.

Definition attribute_bytes : gostring := str "* FETCH (FLAGS) UIDRFC822.SIZE-0123456789BODY[]".

(** The prefix of a response has only these bytes, and those of the flags. *)
Lemma absent_prefix c items n msg :
  c ∉ attribute_bytes → c ∉ Message_Flags msg → c ∉ literal_prefix items n msg.
Proof.
  intros Hc Hf.
  assert (∀ x, Forall (λ x, x ∈ attribute_bytes) (str x) → c ∉ str x) as Hl
    by (intros x HF; by eapply absent_literal).
  assert (∀ k : N, c ∉ fmt_d k) as HN by (intros k; apply absent_decimal, Hl; by_computation).
  assert (∀ z : Z, c ∉ fmt_d z) as HZ by (intros z; apply absent_decimal_Z, Hl; by_computation).
  assert (c ∉ []) as Hnil by by inversion 1.
  unfold literal_prefix, fetch_attributes.
  repeat (apply not_elem_of_app; split);
    repeat case_match; repeat (apply not_elem_of_app; split);
    first [done | apply HN | apply HZ | apply (HN (N.of_nat n)) | apply Hl; by_computation].
Qed.
End framing.

Section literals.
Context `{U : UnicodeData}.

Lemma decode_fetch_line items n msg b :
  clean_body b → "{"%char ∉ Message_Flags msg → (Z.of_nat (length b) < 2 ^ 63)%Z →
  decode_literal (fetch_line items n msg (Some b) ++ CRLF)
  = Some (literal_prefix items n msg, b, str ")" ++ CRLF).
Proof.
  intros Hb Hf Hl. rewrite fetch_line_body by done. rewrite <- !(assoc_L (++)). unfold decode_literal.
  change (str "{" ++ ?x) with ("{"%char :: x).
  rewrite cut_at_app by (apply absent_prefix; [by_computation|done]). cbn [mbind option_bind].
  change (str "}" ++ ?x) with ("}"%char :: x).
  rewrite cut_at_app by (apply (absent_decimal _ (N.of_nat (length b))); by_computation).
  cbn [mbind option_bind].
  replace (fmt_d (length b)) with (fmt_d (Z.of_nat (length b))) by by destruct (length b).
  rewrite Atoi_fmt by lia. cbn [mbind option_bind app CRLF].
  rewrite Nat2Z.id, length_app. rewrite (proj2 (Nat.leb_le _ _)) by lia.
  rewrite bool_decide_true by done. cbn [andb]. by rewrite take_app_length, drop_app_length.
Qed.

Lemma framed_line x : LF ∉ x → framed (x ++ CRLF).
Proof. intros Hx. left. eauto. Qed.

Lemma framed_fetch items n msg body :
  LF ∉ Message_Flags msg → (∀ b, body = Some b → clean_body b) →
  framed (fetch_line items n msg body ++ CRLF).
Proof.
  intros Hf Hb. destruct body as [b|].
  - right. exists (literal_prefix items n msg), b, (str ")"). rewrite fetch_line_body by auto.
    rewrite <- !(assoc_L (++)). split; [done|]. split; [|by_computation].
    apply absent_prefix; [by_computation|done].
  - apply framed_line. unfold fetch_line. rewrite app_nil_r. apply not_elem_of_app. split; [|by_computation].
    intros H%trim_right_elem. revert H.
    assert (LF ∉ literal_prefix items n msg) as Hp by (apply absent_prefix; [by_computation|done]).
    unfold literal_prefix in Hp. by apply not_elem_of_app in Hp as [? _].
Qed.
End literals.

(** ** Whole sessions *)

Section sessions.
Context `{L : FSMLib} `{LL : !FSMLaws L} `{T : TLSLib} `{TL : !TLSLaws T} `{U : UnicodeData} `{C : Clock}
  `{B : Bcrypt}.
Context {W : Type} `{PB : MailboxReader W} `{PM : MessageReader W} `{PD : DomainResolver W}
  `{PU : UserAuthenticator W} `{RR : !ReadersReturn W}.
Implicit Types s : Session W.

(** The store as it answers: the relations of the invariant say what it returned. *)
Definition found_domain (name : gostring) (d : Domain) : Prop :=
  ∃ w w' : W, FindDomain name w = Ok (Good d, w').
Definition authenticated (name pw : gostring) (uid : N) : Prop :=
  ∃ loc dom d u (w w' : W), name = loc ++ str "@" ++ dom ∧ found_domain dom d
    ∧ FindUser loc (Domain_ID d) w = Ok (Good u, w')
    ∧ checkPassword pw (User_PasswordHash u) = true ∧ User_ID u = uid.
Definition found_mailbox (uid mailbox : N) : Prop :=
  ∃ name mb (w w' : W), FindMailbox uid name w = Ok (Good mb, w') ∧ Mailbox_ID mb = mailbox.
Definition listed (P : Message → Prop) : Prop :=
  ∀ id (w w' : W) l, ListMessages id w = Ok (Good l, w') → Forall P l.
Definition stored (P : gostring → Prop) : Prop :=
  ∀ id (w w' : W) b, GetMessageBody id w = Ok (Good (Some b), w') → P b.

Lemma answers (Mok : Message → Prop) (Bok : gostring → Prop) :
  listed Mok → stored Bok →
  store_spec (λ _ : W, True) found_domain authenticated found_mailbox Mok Bok.
Proof.
  intros Hl Hs. split.
  - intros name w _. eapply wp_mono; [apply wp_returns, find_domain_returns|]. intros r w' E. split; [done|].
    intros d ->. by exists w, w'.
  - intros addr loc name d w _ Ea Hd. eapply wp_mono; [apply wp_returns, find_user_returns|]. intros r w' E.
    split; [done|]. intros u pw -> Hpw. apply SplitN2_parts in Ea as [-> _]. by exists loc, name, d, u, w, w'.
  - intros uid name w _. eapply wp_mono; [apply wp_returns, find_mailbox_returns|]. intros r w' E.
    split; [done|]. intros b ->. by exists name, b, w, w'.
  - intros uid w _. eapply wp_mono; [apply wp_returns, list_mailboxes_returns|]. done.
  - intros id w _. eapply wp_mono; [apply wp_returns, list_messages_returns|]. intros r w' E.
    split; [done|]. intros l ->. by eapply Hl.
  - intros id w _. eapply wp_mono; [apply wp_returns, get_body_returns|]. intros r w' E.
    split; [done|]. intros b ->. by eapply Hs.
Qed.

Lemma any_out : out_spec (λ _ : Message, True) (λ _ : gostring, True) (λ _, True).
Proof. done. Qed.

(** C21: for every finite input a client can send, in whatever segments and with whatever read
    errors, and for every store whose methods return, the session's read loop ends, without
    a panic. *)
Theorem imap_session_ends (c : Conn) (cf : Config) (w : W) (t : option (tls_Config Certificate)) :
  LF ∉ Domain_name (SMTP cf) →
  ∃ fuel s', Handle fuel (newSession c cf w t (c_tls c)) = Ok (tt, s').
Proof.
  intros Hdom. assert (store_spec (λ _ : W, True) found_domain authenticated found_mailbox
    (λ _, True) (λ _, True)) as Hs by (apply answers; [intros ?????; by apply Forall_true|done]).
  destruct (imap_Handle_total _ _ _ _ _ _ _ Hs any_out cf Hdom (newSession c cf w t (c_tls c))) as [fuel Hf];
    [by apply newSession_inv|]. apply wp_run in Hf as ([] & s' & E & _). eauto.
Qed.

(** C23: every chunk the server writes is one line, or one line with a literal whose
    announced length is the length of the body it carries: no tag, mailbox name or message
    body can make a client lose the framing, provided the store's flags hold no line feed
    and its bodies do not end with a space. *)
Theorem imap_replies_framed (c : Conn) (cf : Config) (w : W) (t : option (tls_Config Certificate)) :
  LF ∉ Domain_name (SMTP cf) →
  listed (λ m, LF ∉ Message_Flags m) → stored clean_body →
  ∃ fuel s', Handle fuel (newSession c cf w t (c_tls c)) = Ok (tt, s')
    ∧ Forall (λ l, framed (snd l)) (out s').
Proof.
  intros Hdom Hl Hb.
  assert (out_spec (λ m, LF ∉ Message_Flags m) clean_body framed) as Ho.
  { split; [apply framed_line|intros; by apply framed_fetch|by vm_compute]. }
  destruct (imap_Handle_total _ _ _ _ _ _ _ (answers _ _ Hl Hb) Ho cf Hdom (newSession c cf w t (c_tls c)))
    as [fuel Hf]; [by apply newSession_inv|].
  apply wp_run in Hf as ([] & s' & E & Hi). exists fuel, s'. split; [done|apply Hi].
Qed.

(** The sessions the loop goes through, between two commands. *)
Inductive imap_reachable (s0 : Session W) : Session W → Prop :=
| ireach_start : imap_reachable s0 s0
| ireach_step s s' continue :
    imap_reachable s0 s → iteration s = Ok (continue, s') → imap_reachable s0 s'.

(** C14: whatever the client sends, when a session is in the state authenticated or selected
    then the client has sent a LOGIN command whose name is the session's, the store returned
    the session's user for that name, and the user's hash accepts the password of that same
    command; a mailbox is selected exactly in the state selected (until
    logout), and it is one the store found for that user; [isTLS] says whether the
    connection is encrypted. *)
Theorem imap_reachable_invariant (c : Conn) (cf : Config) (w : W) (t : option (tls_Config Certificate)) s :
  imap_reachable (newSession c cf w t (c_tls c)) s →
  (∃ st, at_state s st ∧
     match st with
     | StateNotAuthenticated => selected s = None
     | StateAuthenticated =>
         (∃ line pw, line ∈ received s ∧ given_login line = Some (username s, pw)
            ∧ authenticated (username s) pw (userID s)) ∧ selected s = None
     | StateSelected =>
         (∃ line pw, line ∈ received s ∧ given_login line = Some (username s, pw)
            ∧ authenticated (username s) pw (userID s))
         ∧ ∃ mb, selected s = Some mb ∧ found_mailbox (userID s) (Selected_ID mb)
     | StateLogout => True
     end) ∧ isTLS s = c_tls (conn s).
Proof.
  intros Hr. assert (store_spec (λ _ : W, True) found_domain authenticated found_mailbox
    (λ _, True) (λ _, True)) as Hs by (apply answers; [intros ?????; by apply Forall_true|done]).
  assert (imap_inv (λ _ : W, True) authenticated found_mailbox (λ _, True) cf s) as Hi.
  { induction Hr as [|s1 s2 continue _ IH E]; [by apply newSession_inv|].
    pose proof (imap_iteration_wp _ _ _ _ _ _ _ Hs any_out cf s1 IH) as Hw.
    by apply (run_wp _ _ _ _ _ Hw E). }
  split; [|apply Hi]. destruct (inv_state _ _ _ _ _ _ Hi) as (st & Hst & Hu). exists st. split; [done|].
  destruct st; [done| | |done]; destruct Hu as [(pw & (line & Hl & Hg) & Ha) Hm]; split; [by eauto|done|by eauto|done].
Qed.
End sessions.

(** ** The handlers *)

Section handlers.
Context `{L : FSMLib} `{LL : !FSMLaws L} `{T : TLSLib} `{U : UnicodeData} `{C : Clock} `{B : Bcrypt}.
Context {W : Type} `{PB : MailboxReader W} `{PM : MessageReader W} `{PD : DomainResolver W}
  `{PU : UserAuthenticator W}.
Implicit Types s : Session W.

(** C33: the machine of the session implements the table [imap_next], whose states are those of
    RFC 3501 section 3: an event that [imap_next] allows is accepted and moves there, any other event is refused and moves
    nowhere; nothing else of the session changes. *)
Theorem imap_transition_refines s st ev :
  at_state s st →
  ∃ f, transition ev s = Ok (bool_decide (is_Some (imap_next ev st)), set_fsm f s)
    ∧ at_state (set_fsm f s) (default st (imap_next ev st)).
Proof. apply imap_transition_run. Qed.

(** The reply to a tagged command, as it is written. *)
Definition tagged (s : Session W) (tag text : gostring) : bool * gostring :=
  (c_tls (conn s), (tag ++ str " " ++ text) ++ CRLF).

Context `{RR : !ReadersReturn W}.

(** C28: LOGIN with an address and a password succeeds exactly when the store has the
    domain and the user and the user's hash accepts the password; then the session is that
    user's. In every other case (no such domain, no such user, an error of the store, a
    wrong password) the reply is the same, and the session stays unauthenticated. *)
Theorem imap_login_outcomes s tag p0 p1 loc dom :
  at_state s StateNotAuthenticated → SP ∉ p0 → parseAddress (Trim p0 [DQ]) = (loc, dom, true) →
  ∃ s', handleLogin tag (p0 ++ str " " ++ p1) s = Ok (tt, s') ∧
    ((∃ d u w1 w2, FindDomain dom (store s) = Ok (Good d, w1)
        ∧ FindUser loc (Domain_ID d) w1 = Ok (Good u, w2)
        ∧ checkPassword (Trim p1 [DQ]) (User_PasswordHash u) = true
        ∧ at_state s' StateAuthenticated ∧ userID s' = User_ID u ∧ username s' = loc ++ str "@" ++ dom
        ∧ out s' = out s ++ [tagged s tag (str "OK LOGIN completed")])
     ∨ (¬ (∃ d u w1 w2, FindDomain dom (store s) = Ok (Good d, w1)
        ∧ FindUser loc (Domain_ID d) w1 = Ok (Good u, w2)
        ∧ checkPassword (Trim p1 [DQ]) (User_PasswordHash u) = true)
        ∧ at_state s' StateNotAuthenticated ∧ userID s' = userID s ∧ username s' = username s
        ∧ out s' = out s ++ [tagged s tag (str "NO Invalid credentials")])).
Proof.
  intros Hst Hp0 Ha. unfold handleLogin, SplitN2. change (str " " ++ p1) with (SP :: p1).
  rewrite cut_at_app by done. rewrite Ha. apply SplitN2_parts in Ha as (Ea & _). cbn [negb].
  unfold mbind, M_bind, port, zoom.
  destruct (find_domain_returns dom (store s)) as ([d|e] & w1 & E1); rewrite E1.
  2: { eexists. split; [done|]. right. split; [|done]. intros (? & ? & ? & ? & ? & ? & ?). simplify_eq; congruence. }
  destruct (find_user_returns loc (Domain_ID d) w1) as ([u|e] & w2 & E2); cbn [store set_store]; rewrite E2.
  2: { eexists. split; [done|]. right. split; [|done]. intros (? & ? & ? & ? & ? & ? & ?). simplify_eq; congruence. }
  destruct (checkPassword _ _) eqn:Hpw; cbn [negb].
  2: { eexists. split; [done|]. right. split; [|done]. intros (? & ? & ? & ? & ? & ? & ?). simplify_eq; congruence. }
  set (s2 := set_store w2 (set_store w1 s)).
  destruct (imap_transition_run s2 StateNotAuthenticated EventLogin Hst) as (f & Ef & Hf).
  rewrite Ef. eexists. split; [done|]. left. exists d, u, w1, w2. by split_and!.
Qed.

(** What FETCH answers for a message: its sequence number, the attributes and, if asked for,
    a body. *)
Definition responds (items : gostring) (body : Message → gostring → Prop) (n : nat) (m : Message)
    (x : gostring) : Prop :=
  if Contains items (str "BODY[]") || Contains items (str "RFC822")
  then ∃ b, body m b ∧ x = fetch_line items n m (Some b) ++ CRLF
  else x = fetch_line items n m None ++ CRLF.

(** The loop of FETCH over a store that keeps [Rel] and answers bodies that satisfy [body]. *)
Lemma fetch_loop_responses (Rel : W → Prop) (body : Message → gostring → Prop) items msgs :
  (∀ m w, m ∈ msgs → Rel w → wp (GetMessageBody (Message_ID m)) w (λ r w', Rel w'
     ∧ body m (match r with Good (Some b) => b | _ => placeholder end))) →
  ∀ i s, Rel (store s) →
  wp (fetch_loop items i msgs) s (λ _ s', Rel (store s') ∧ conn s' = conn s
    ∧ ∃ responses, out s' = out s ++ map (λ x, (c_tls (conn s), x)) responses
      ∧ Forall3 (responds items body) (seq (S i) (length msgs)) msgs responses).
Proof.
  induction msgs as [|m msgs IH]; intros Hbody i s Hs; cbn [fetch_loop].
  { apply wp_ret. split_and!; [done..|]. exists []. rewrite app_nil_r. split; [done|constructor]. }
  assert (∀ s1 x, Rel (store s1) → conn s1 = conn s → out s1 = out s → responds items body (S i) m (x ++ CRLF) →
    wp (writeLine x;; fetch_loop items (S i) msgs) s1 (λ _ s', Rel (store s') ∧ conn s' = conn s
      ∧ ∃ responses, out s' = out s ++ map (λ x, (c_tls (conn s), x)) responses
        ∧ Forall3 (responds items body) (seq (S i) (length (m :: msgs))) (m :: msgs) responses)) as Hw.
  { intros s1 x H1 Hc Ho Hx. apply wp_bind, wp_modify. eapply wp_mono.
    { apply IH; [|exact H1]. intros m' w Hm. apply Hbody. by right. }
    intros [] s2 (H2 & Hc2 & rs & Ho2 & HF). split_and!; [done|by rewrite Hc2|].
    exists ((x ++ CRLF) :: rs). split; [|by constructor]. rewrite Ho2. simpl. rewrite Ho, Hc.
    by rewrite <- (assoc_L (++)). }
  unfold responds in Hw at 1. apply wp_bind. destruct (_ || _).
  - apply wp_bind, wp_port. eapply wp_mono; [apply Hbody; [left|exact Hs]|]. intros r w [Hr Hb].
    apply wp_ret, Hw; [done..|]. by eexists.
  - apply wp_ret, Hw; [done..|]. unfold fetch_line. by rewrite app_nil_r.
Qed.

(** C22: FETCH of the bodies of a mailbox whose bodies the store has, answers for each
    message of the selected mailbox, in order, a response from which a client decodes the
    message's sequence number, its attributes and exactly the stored body, and then OK; a
    body must not end with a space (the code trims it) nor the flags contain a brace. The
    set of sequence numbers in the command plays no role: every message is sent. *)
Theorem imap_fetch_bodies s tag set items mb msgs w (body : N → gostring) :
  selected s = Some mb → SP ∉ set → Contains (ToUpper items) (str "BODY[]") = true →
  ListMessages (Selected_ID mb) (store s) = Ok (Good msgs, w) →
  (∀ m, m ∈ msgs → GetMessageBody (Message_ID m) w = Ok (Good (Some (body (Message_ID m))), w)
     ∧ clean_body (body (Message_ID m)) ∧ "{"%char ∉ Message_Flags m
     ∧ (Z.of_nat (length (body (Message_ID m))) < 2 ^ 63)%Z) →
  ∃ s' responses, handleFetch tag (set ++ str " " ++ items) s = Ok (tt, s')
    ∧ out s' = out s ++ map (λ x, (c_tls (conn s), x)) responses ++ [tagged s tag (str "OK FETCH completed")]
    ∧ Forall3 (λ n m x, decode_literal x
        = Some (literal_prefix (ToUpper items) n m, body (Message_ID m), str ")" ++ CRLF))
        (seq 1 (length msgs)) msgs responses.
Proof.
  intros Hsel Hset Hit El Hb.
  pose proof (fetch_loop_responses (λ w', w' = w)
    (λ m b, b = body (Message_ID m) ∧ clean_body b ∧ "{"%char ∉ Message_Flags m ∧ (Z.of_nat (length b) < 2 ^ 63)%Z)
    (ToUpper items) msgs) as Hloop.
  specialize (Hloop ltac:(intros m w' Hm ->; destruct (Hb m Hm) as (E & ?); unfold wp; by rewrite E) 0 (set_store w s) eq_refl).
  apply wp_run in Hloop as ([] & s2 & E & _ & Hc & rs & Ho & HF).
  exists (add_out (tag ++ str " OK FETCH completed") s2), rs. split_and!.
  - unfold handleFetch, gets, mbind, M_bind. rewrite Hsel. unfold SplitN2.
    change (str " " ++ items) with (SP :: items). rewrite cut_at_app by done.
    unfold port, zoom. rewrite El, E. done.
  - simpl. rewrite Ho, Hc. by rewrite <- (assoc_L (++)).
  - eapply Forall3_impl; [exact HF|]. intros n m x. unfold responds. rewrite Hit. cbn [orb].
    intros (b & (-> & Hcl & Hf & Hl) & ->). by apply decode_fetch_line.
Qed.

(** A SELECT or EXAMINE that fails because the mailbox does not exist (or the store
    reports an error) is answered NO with the name quoted, and leaves the session as it
    was: a mailbox selected before stays selected. *)
Theorem imap_select_failure s tag args ro name e w :
  Trim (TrimSpace args) [DQ] = name → name ≠ [] → FindMailbox (userID s) name (store s) = Ok (Err e, w) →
  handleSelect tag args ro s
  = Ok (tt, add_out (tag ++ str " NO Mailbox " ++ Quote name ++ str " does not exist") (set_store w s)).
Proof.
  intros Hn Hne Ef. unfold handleSelect. rewrite Hn, bool_decide_false by done.
  unfold gets, mbind, M_bind, port, zoom. rewrite Ef. done.
Qed.
End handlers.

(** ** Witnesses

    A client that logs in, selects INBOX and fetches; [run_commands] runs a session over
    the lines it sends. *)

Definition imap_client (lines : list string) : Session demo :=
  newSession (mkConn false (cmd <$> lines)) default_config Demo None false.

Lemma default_domain : LF ∉ Domain_name (SMTP default_config).
Proof. by_computation. Qed.

Lemma imap_session_ends_witness :
  ∃ fuel s', Handle fuel (imap_client ["a LOGIN u@x.org password"; "b SELECT INBOX"; "c LOGOUT"]%string) = Ok (tt, s').
Proof. apply (imap_session_ends (mkConn false _) default_config Demo None), default_domain. Defined.

Lemma imap_replies_framed_witness :
  ∃ fuel s', Handle fuel (imap_client ["a LOGIN u@x.org password"; "b SELECT INBOX"; "c FETCH 1 BODY[]"]%string)
      = Ok (tt, s') ∧ Forall (λ l, framed (snd l)) (out s').
Proof.
  apply (imap_replies_framed (mkConn false _) default_config Demo None); [apply default_domain|..].
  - intros i w w' l. simpl. intros; simplify_eq. destruct (i =? 10)%N; by_computation.
  - intros i w w' b. simpl. intros; simplify_eq. destruct (i <=? 2)%N; [|done]. simplify_eq.
    unfold demo_body. by destruct (i =? 1)%N.
Defined.

(** The session after LOGIN and SELECT. *)
Definition run_commands (lines : list string) : Session demo :=
  let s0 := imap_client lines in
  foldl (λ s _, state_of s (iteration s)) s0 lines.

Lemma imap_reachable_invariant_witness :
  let s := run_commands ["a LOGIN u@x.org password"; "b SELECT INBOX"]%string in
  currentState s = State_str StateSelected ∧ ∃ mb, selected s = Some mb ∧ found_mailbox (W := demo) (userID s) (Selected_ID mb).
Proof.
  set (s := run_commands ["a LOGIN u@x.org password"; "b SELECT INBOX"]%string). cbv zeta.
  assert (currentState s = State_str StateSelected) as Hc by (vm_compute; reflexivity).
  split; [exact Hc|].
  assert (imap_reachable (imap_client ["a LOGIN u@x.org password"; "b SELECT INBOX"]%string) s) as Hr.
  { eapply ireach_step; [eapply ireach_step; [apply ireach_start|]|];
      apply outcome_eq; vm_compute; reflexivity. }
  destruct (imap_reachable_invariant (mkConn false _) default_config Demo None s Hr) as [(st & Hst & Hu) _].
  apply (imap_at_state_current s st StateSelected Hst) in Hc as ->. exact (proj2 Hu).
Defined.

Lemma imap_client_state lines : at_state (imap_client lines) StateNotAuthenticated.
Proof. apply in_state_NewFSM. Qed.

Lemma imap_transition_refines_witness :
  ∃ f, transition EventLogin (imap_client []) = Ok (true, set_fsm f (imap_client []))
    ∧ at_state (set_fsm f (imap_client [])) StateAuthenticated.
Proof.
  destruct (imap_transition_refines (imap_client []) StateNotAuthenticated EventLogin
    (imap_client_state [])) as (f & E & Hf). exists f. split; [exact E|exact Hf].
Defined.

(** A wrong password: the reply is that of an unknown user. *)
Lemma imap_login_outcomes_witness :
  ∃ s', handleLogin (str "a") (str "u@x.org" ++ str " " ++ str "guess") (imap_client []) = Ok (tt, s')
    ∧ out s' = [(false, str "a NO Invalid credentials" ++ CRLF)].
Proof.
  destruct (imap_login_outcomes (imap_client []) (str "a") (str "u@x.org") (str "guess") (str "u") (str "x.org")
    (imap_client_state []) ltac:(by_computation) ltac:(vm_compute; reflexivity))
    as (s' & E & [(d & u & w1 & w2 & E1 & E2 & Hp & _)|(_ & _ & _ & _ & Ho)]).
  - exfalso. vm_compute in E1. inversion E1. subst d. vm_compute in E2. inversion E2. subst u.
    vm_compute in Hp. discriminate.
  - exists s'. split; [exact E|]. rewrite Ho. vm_compute. reflexivity.
Defined.

Lemma imap_fetch_bodies_witness :
  let s := run_commands ["a LOGIN u@x.org password"; "b SELECT INBOX"]%string in
  ∃ s' (responses : list gostring),
    handleFetch (str "c") (str "1" ++ str " " ++ str "(FLAGS BODY[])") s = Ok (tt, s') ∧ length responses = 2.
Proof.
  set (s := run_commands _). cbv zeta.
  destruct (imap_fetch_bodies s (str "c") (str "1") (str "(FLAGS BODY[])")
    (mkSelected 10 (str "INBOX") 1 3 false) demo_messages Demo demo_body) as (s' & rs & E & _ & HF).
  - vm_compute. reflexivity.
  - by_computation.
  - vm_compute. reflexivity.
  - vm_compute. reflexivity.
  - apply Forall_forall. constructor; [|constructor; [|constructor]];
      (split_and!; [reflexivity|by vm_compute|by_computation|by vm_compute]).
  - exists s', rs. split; [exact E|]. symmetry. exact (Forall3_length_lr _ _ _ _ HF).
Defined.

Definition after_select : Session demo := run_commands ["a LOGIN u@x.org password"; "b SELECT INBOX"]%string.

Lemma after_select_facts :
  FindMailbox (userID after_select) (str "Nope") (store after_select) = Ok (Err (str "not found"), Demo)
  ∧ bool_decide (selected after_select = None) = false
  ∧ Trim (TrimSpace (str "Nope")) [DQ] = str "Nope".
Proof. split_and!; vm_compute; reflexivity. Qed.

Lemma imap_select_failure_witness :
  ∃ line, handleSelect (str "c") (str "Nope") false after_select
    = Ok (tt, add_out line (set_store Demo after_select)).
Proof.
  destruct after_select_facts as (E & _ & En). eexists.
  apply (imap_select_failure after_select (str "c") (str "Nope") false (str "Nope") (str "not found") Demo En);
    [discriminate|exact E].
Defined.
