(* ===== verification/ImapServer.v ===== *)
(** * The IMAP server (internal/imap/server.go)

    The server of [Server.v] with IMAP sessions: the accept loop tells the session whether
    its connection is encrypted. *)

From S2P Require Import Prelude GoStrings GoIO FSM Config Ports Security Concrete Server ServerProps Imap ImapProps ImapTheorems.

Section server.
Context `{L : FSMLib} `{T : TLSLib} `{U : UnicodeData} `{C : Clock} `{B : Bcrypt}.
Context {W : Type} `{PB : MailboxReader W} `{PM : MessageReader W} `{PD : DomainResolver W}
  `{PU : UserAuthenticator W}.

(** The first statement of [Handle]. *)
Definition greeting : M (Session W) unit :=
  s ← get; writeUntagged (str "OK") (Domain_name (SMTP (cfg s)) ++ str " IMAP4rev1 gomail-core ready").

Definition NewServer (cf : Config) (t : option (tls_Config Certificate)) : code (Session W) W := {|
  name := str "imap";
  has_tls := bool_decide (t ≠ None);
  spawn conn isTLS w := newSession conn cf w t isTLS;
  greet := greeting;
  iterate := iteration;
  set_world := set_store;
  world_of := store;
|}.

(** [Start] and [acceptLoop] of this server, and its sessions. *)
Definition imap_serve (cf : Config) (t : option (tls_Config Certificate)) (e : event)
    (sw : server (Session W) * W) : option (server (Session W) * W) :=
  server_step (NewServer cf t) e sw.

(** [Handle] is the greeting and then the iterations that the server schedules. *)
Lemma imap_Handle_parts fuel s : Handle (W := W) fuel s = (greeting;; read_loop fuel) s.
Proof. done. Qed.
End server.

Section theorems.
Context `{L : FSMLib} `{LL : !FSMLaws L} `{T : TLSLib} `{TL : !TLSLaws T} `{U : UnicodeData} `{C : Clock}
  `{B : Bcrypt}.
Context {W : Type} `{PB : MailboxReader W} `{PM : MessageReader W} `{PD : DomainResolver W}
  `{PU : UserAuthenticator W}.

(** The laws of [ServerProps.v] for IMAP sessions. *)
Section laws.
Context (J : W → Prop) (Dok : gostring → Domain → Prop) (Auth : gostring → gostring → N → Prop)
  (Owned : N → N → Prop) (Mok : Message → Prop) (Bok : gostring → Prop) (Out : gostring → Prop).
Context (Hstore : store_spec J Dok Auth Owned Mok Bok) (Hout : out_spec Mok Bok Out).
Context (cf : Config) (domain_no_LF : LF ∉ Domain_name (SMTP cf)).

Lemma imap_code_laws t : code_laws (NewServer cf t) (imap_inv J Auth Owned Out cf) J.
Proof.
  split; simpl.
  - intros input b w Hw. by apply (newSession_inv J Auth Owned Out cf (mkConn b input)).
  - intros x Hx. apply wp_bind, wp_get, wp_modify. assert (cfg x = cf) as -> by apply Hx.
    apply imap_inv_add_out; [done|]. apply (out_line _ _ _ Hout). no_LF.
  - intros x Hx. eapply wp_mono; [by eapply imap_iteration_wp|]. by intros continue x' [].
  - intros x Hx. apply Hx.
  - intros x w Hx Hw. by apply inv_set_store.
Qed.
End laws.

Context `{RR : !ReadersReturn W}.

(** C10: as for SMTP, whatever the network, the clients and the store do, and also when
    sessions are blocked for ever: once the signal has come to an IMAP server that is
    accepting connections, Start returns nil and the TLS accept loop returns or ends with the
    process, provided the scheduler runs their goroutines and the one that waits for the
    signal. *)
Theorem imap_server_live (cf : Config) (t : option (tls_Config Certificate)) (w : W)
    (tr : trace (Sess := Session W) (W := W)) n :
  LF ∉ Domain_name (SMTP cf) → config tr 0 = (new_server, w) →
  valid (NewServer cf t) (λ _, True) tr → fair tr →
  start (config tr n).1 = SAccept → cancelled (config tr n).1 = true →
  (∃ m, n ≤ m ∧ start (config tr m).1 = SReturned None)
  ∧ (tls_loop (config tr n).1 = LoopAccept →
     ∃ m, n ≤ m ∧ (proc (config tr m).1 = Exited ∨ tls_loop (config tr m).1 = LoopReturned)).
Proof.
  intros Hdom H0 Hv Hf.
  assert (store_spec (λ _ : W, True) found_domain authenticated found_mailbox (λ _, True) (λ _, True)) as Hs
    by (apply answers; [intros ?????; by apply Forall_true|done]).
  pose proof (imap_code_laws _ _ _ _ _ _ _ Hs any_out cf Hdom t) as Hc.
  pose proof (λ Hi, valid_inv _ _ _ Hc tr 0 n Hv Hi (Nat.le_0_l n)) as Hi. rewrite H0 in Hi.
  specialize (Hi (new_server_inv _ _ _ I)).
  intros Hst Hcn. split; [by eapply (start_returns _ _ _ Hc)|].
  intros Ht. apply (tls_loop_returns _ _ _ Hc tr Hv Hf n Hi); [by left|done..].
Qed.
End theorems.

(** ** Witnesses *)

(** A client on the TLS port logs out, one on the plain port does nothing; then the signal. *)
Definition tls_life : list event :=
  [EListen None; EListenTLS None; EAccept true (Accepted [cmd "a LOGOUT"]); EAccept false (Accepted []);
   ESession 0; ESession 1; ESession 0; ECancel; EWatch;
   EAccept true (AcceptErr (str "temporary")); EWatch;
   EAccept false (AcceptErr (str "use of closed network connection"))].

Definition tls_server := NewServer (W := demo) default_config (Some (mkTLS [] VersionTLS12 [])).
Definition tls_rested : server (Session demo) * demo :=
  default (new_server, Demo) (run tls_server tls_life (new_server, Demo)).

Lemma tls_rested_run : run tls_server tls_life (new_server, Demo) = Some tls_rested.
Proof. vm_compute. reflexivity. Qed.

Lemma tls_rested_ready g : ready g tls_rested.1 = false.
Proof. destruct g; vm_compute; reflexivity. Qed.

Lemma imap_server_live_witness :
  let tr := scheduled tls_server Demo tls_life in
  valid tls_server (λ _, True) tr ∧ fair tr
  ∧ (∃ m, 8 ≤ m ∧ start (config tr m).1 = SReturned None)
  ∧ (∃ m, 8 ≤ m ∧ (proc (config tr m).1 = Exited ∨ tls_loop (config tr m).1 = LoopReturned)).
Proof.
  intros tr.
  assert (valid tls_server (λ _, True) tr) as Hv by exact (scheduled_valid _ (λ _, True) _ _ _ tls_rested_run I).
  assert (fair tr) as Hf by exact (scheduled_fair _ _ _ _ tls_rested_run tls_rested_ready).
  split; [exact Hv|]. split; [exact Hf|].
  destruct (imap_server_live default_config (Some (mkTLS [] VersionTLS12 [])) Demo tr 8 default_domain eq_refl Hv Hf)
    as [H1 H2]; [vm_compute; reflexivity..|].
  split; [exact H1|]. apply H2. vm_compute. reflexivity.
Defined.
