(* ===== verification/EndToEnd.v ===== *)
(** * The servers on the message store

    The theorems about the SMTP and IMAP sessions are proved for any implementation of the
    ports; here the ports are those of the message store, MySQL and Redis with any
    failures. *)

From S2P Require Import Prelude GoStrings GoIO FSM Config Mysql MysqlProps Redis Ports Security Smtp.
From S2P Require Import Concrete SmtpProps MysqlTheorems MessageStore StorageProps Imap ImapProps ImapTheorems StorageTheorems.

(** ** SMTP into the store *)

Section smtp_store.
Context `{L : FSMLib} `{LL : !FSMLaws L} `{T : TLSLib} `{TL : !TLSLaws T}.
Context `{R : RedisLib} `{RL : !RedisLaws R} `{K : Collation} `{U : UnicodeData} `{C : Clock}.

(** What deliveries do to the store that started as [w0]: the tables keep their invariant,
    no account or stored message changes, no flag gets a line feed, and every body that
    Redis has for a message is made of whole lines. *)
Record filled (w0 w : World) : Prop := {
  filled_inv : uid_inv (mysql w);
  filled_accounts : same_accounts (mysql w0) (mysql w);
  filled_messages : messages (mysql w0) `prefix_of` messages (mysql w);
  filled_flags : Forall (λ m, LF ∉ m_Flags m) (messages (mysql w0)) →
    Forall (λ m, LF ∉ m_Flags m) (messages (mysql w));
  filled_bodies : ∀ id t b, cached (cache w) t id = Some b → whole_lines b;
}.

Lemma delivery_post_filled w0 from body tos w w' :
  whole_lines body → filled w0 w → delivery_post from body tos w w' → filled w0 w'.
Proof.
  intros Hb [Hinv Hacc Hpre Hfl Hbod] [Hinv' Hacc' _ (tos' & new & _ & Em & HF & Hc)].
  split; [done|by etrans|..]; [rewrite Em; by apply prefix_app_r|rewrite Em|].
  - intros H0%Hfl. apply Forall_app. split; [done|]. clear -HF.
    induction HF as [|to m tos new Hm _ IH]; constructor; [|done]. rewrite (dr_flags _ _ _ _ _ Hm).
    by apply not_elem_of_nil.
  - intros id t b H. apply Hc in H as [H|[-> _]]; [by eapply Hbod|done].
Qed.

Lemma Deliver_filled w0 max (e : MessageReceived) w :
  valid_event max e → filled w0 w → wp (Ports.Deliver e) w (λ _ w', filled w0 w').
Proof.
  intros (_ & _ & _ & _ & Hb) Hf. apply wp_bind.
  eapply wp_mono; [apply deliver_all_post, Hf|]. intros [] w' Hp. apply wp_ret.
  by eapply delivery_post_filled.
Qed.

(** Whatever an SMTP client sends, and whatever fails in MySQL and Redis meanwhile, the
    session ends with the UIDs of every mailbox unique and below uid_next, every account and
    every message stored before it as they were, and only bodies of whole lines in Redis. *)
Theorem smtp_session_keeps_store (c : Conn) (cf : Config) (w : World) (t : option (tls_Config Certificate)) :
  LF ∉ Domain_name (SMTP cf) → uid_inv (mysql w) →
  (∀ id t b, cached (cache w) t id = Some b → whole_lines b) →
  ∃ fuel s', Smtp.Handle fuel (Smtp.NewSession c cf w t) = Ok (tt, s') ∧ filled w (Smtp.delivery s').
Proof.
  intros Hdom Hinv Hbod. assert (filled w w) as Hf by by split.
  destruct (SmtpProps.Handle_total cf (filled w) (λ e d He, Deliver_filled w _ e d He) Hdom
    (Smtp.NewSession c cf w t)) as [fuel HF]; [by apply SmtpProps.NewSession_inv|].
  apply wp_run in HF as ([] & s' & E & Hi). exists fuel, s'. split; [done|apply Hi].
Qed.
End smtp_store.

(** ** IMAP on the store *)

Section imap_store.
Context `{L : FSMLib} `{LL : !FSMLaws L} `{T : TLSLib} `{TL : !TLSLaws T} `{B : Bcrypt}.
Context `{R : RedisLib} `{RL : !RedisLaws R} `{K : Collation} `{U : UnicodeData} `{C : Clock}.

(** The user an address names. *)
Definition named_user (db : DB) (name : gostring) : option Mysql.User :=
  match Imap.parseAddress name with
  | (username, domain, true) =>
      d ← head (select_domain domain db);
      head (select_user username (d_ID d) db)
  | _ => None
  end.

(** The address names the user [uid], who is active, in an active domain, and whose password
    hash accepts [pw]. *)
Definition account (db : DB) (name pw : gostring) (uid : N) : Prop :=
  ∃ u d, named_user db name = Some u ∧ u_ID u = uid
    ∧ (u, true) ∈ users db ∧ (d, true) ∈ domains db ∧ u_DomainID u = d_ID d
    ∧ checkPassword pw (u_PasswordHash u) = true.

(** Mail for the address someone logged in with goes to that user's INBOX. *)
Lemma account_resolve db name pw uid :
  account db name pw uid → resolve name db = head (select_mailbox uid (str "INBOX") db).
Proof.
  intros (u & d & Hu & <- & _). unfold resolve. unfold named_user in Hu.
  change (MessageStore.parseAddress name) with (Imap.parseAddress name).
  destruct (Imap.parseAddress name) as [[loc dom] []]; [|done].
  destruct (head (select_domain dom db)) as [d'|]; simpl in *; [|done]. by rewrite Hu.
Qed.

Definition owned_mailbox (db : DB) (uid mailbox : N) : Prop :=
  ∃ b, b ∈ mailboxes db ∧ mb_ID b = mailbox ∧ mb_UserID b = uid.

Definition domain_row (db : DB) (name : gostring) (d : Ports.Domain) : Prop :=
  ∃ row, head (select_domain name db) = Some row ∧ d_ID row = Domain_ID d.

(** What the IMAP session needs of the store, for any property [K] of it that reads keep:
    accounts are those of [db], messages satisfy [Mok] and bodies [Bok]. *)
Record readable (db : DB) (Mok : Ports.Message → Prop) (Bok : gostring → Prop) (K : World → Prop) : Prop := {
  rd_accounts w : K w → same_accounts db (mysql w);
  rd_messages w m : K w → m ∈ messages (mysql w) → Mok (to_message m);
  rd_bodies w id t b : K w → cached (cache w) t id = Some b → Bok b;
  rd_mysql w s' : K w → s' ≡ mysql w → K (set_mysql s' w);
  rd_redis w r' : K w → view r' ⊆ view (cache w) → K (set_cache r' w);
}.

Lemma whole_lines_clean b : whole_lines b → clean_body b.
Proof. by intros [->| H]; unfold clean_body; rewrite ?H. Qed.

Lemma cached_weaken (r : redis) m t id b :
  m ⊆ view r → e_val <$> live m t (messageBodyKey id) = Some b → cached r t id = Some b.
Proof. intros Hm. unfold cached. by destruct (live_weaken m (view r) t (messageBodyKey id) Hm) as [->| ->]. Qed.

Lemma same_mailbox db db' b :
  same_accounts db db' → b ∈ mailboxes db' → ∃ b0, b0 ∈ mailboxes db ∧ mb_ID b0 = mb_ID b ∧ mb_UserID b0 = mb_UserID b.
Proof.
  intros [_ _ E] Hb. apply (list_elem_of_fmap_2 identity) in Hb. rewrite E in Hb.
  apply list_elem_of_fmap in Hb as (b0 & E0 & Hb0). exists b0. by injection E0.
Qed.

(** The message store meets what the IMAP session assumes of its ports. *)
Lemma store_spec_readable db Mok Bok J :
  readable db Mok Bok J → store_spec J (domain_row db) (account db) (owned_mailbox db) Mok Bok.
Proof.
  intros Hrd. split.
  - intros name w Hw. pose proof (rd_accounts _ _ _ _ Hrd w Hw) as [Ed _ _]. apply wp_bind, wp_mysql, FindDomain_wp.
    + intros d s' Es Hd. apply wp_ret. split; [by apply Hrd|]. intros d' [= <-].
      exists d. unfold select_domain in *. by rewrite <- Ed.
    + intros e s' Es. apply wp_ret. split; [by apply Hrd|done].
  - intros addr loc name d w Hw Ea (row & Hrow & Hid). pose proof (rd_accounts _ _ _ _ Hrd w Hw) as [_ Eu _].
    apply wp_bind, wp_mysql, FindUser_wp.
    + intros u s' Es Hu. apply wp_ret. split; [by apply Hrd|]. intros u' pw [= <-] Hpw.
      assert (select_user loc (Domain_ID d) (mysql w) = select_user loc (d_ID row) db) as Es'
        by (unfold select_user; by rewrite Eu, Hid).
      rewrite Es' in Hu. exists u, row. unfold named_user. rewrite Ea, Hrow. simpl. rewrite Hu.
      apply select_user_elem in Hu as (Hin & _ & Hd). apply select_domain_elem in Hrow as [Hin' _].
      by split_and!.
    + intros e s' Es. apply wp_ret. split; [by apply Hrd|done].
  - intros uid name w Hw. pose proof (rd_accounts _ _ _ _ Hrd w Hw) as Ha. apply wp_bind, wp_mysql, FindMailbox_wp.
    + intros b s' Es Hb. apply wp_ret. split; [by apply Hrd|]. intros b' [= <-].
      apply select_mailbox_elem in Hb as (Hin & Hu & _).
      destruct (same_mailbox _ _ _ Ha Hin) as (b0 & Hb0 & H1 & H2). exists b0. split_and!; [done..|congruence].
    + intros e s' Es. apply wp_ret. split; [by apply Hrd|done].
  - intros uid w Hw. apply wp_bind, wp_mysql, ListMailboxes_wp; intros; apply wp_ret; by apply Hrd.
  - intros id w Hw. apply wp_bind, wp_mysql, ListMessages_wp.
    + intros s' Es. apply wp_ret. split; [by apply Hrd|]. intros l [= <-].
      apply Forall_fmap. unfold select_messages. rewrite merge_sort_Permutation. apply Forall_forall.
      intros m [Hm _]%filter_In_elem. by eapply (rd_messages _ _ _ _ Hrd).
    + intros e s' Es. apply wp_ret. split; [by apply Hrd|done].
  - intros id w Hw. apply wp_redis, Redis.GetMessageBody_wp.
    + intros r' t m _ Hm1 Hm2. split; [apply Hrd; [done|by etrans]|]. intros b [= Hc].
      eapply (rd_bodies _ _ _ _ Hrd w id t); [done|]. by eapply cached_weaken.
    + intros r' e _ _ Ev. split; [by apply Hrd|done].
Qed.

(** The store during a session that runs alone on [w0]: the same tables, and no new body. *)
Definition serving (w0 w : World) : Prop := mysql w ≡ mysql w0 ∧ view (cache w) ⊆ view (cache w0).

Section alone.
Context (w0 : World).

Lemma serving_readable : readable (mysql w0) (λ _, True) (λ _, True) (serving w0).
Proof.
  split.
  - intros w [E _]. by apply same_accounts_equiv.
  - done.
  - done.
  - intros w s' [E Hb] Es. split; [by rewrite <- E|done].
  - intros w r' [E Hb] Ev. split; [done|]. simpl. by etrans.
Qed.

Lemma store_spec_serving :
  store_spec (serving w0) (domain_row (mysql w0)) (account (mysql w0)) (owned_mailbox (mysql w0))
    (λ _, True) (λ _, True).
Proof. apply store_spec_readable, serving_readable. Qed.

(** The messages of a mailbox, as the ports list them, and the bodies they may have. *)
Definition mailbox_messages (mailbox : N) : list Ports.Message :=
  to_message <$> select_messages mailbox (mysql w0).
Definition stored_body (m : Ports.Message) (b : gostring) : Prop :=
  b = placeholder ∨ ∃ t, cached (cache w0) t (Message_ID m) = Some b.

Lemma ListMessages_serving mailbox w :
  serving w0 w → wp (Ports.ListMessages mailbox) w (λ r w', serving w0 w'
    ∧ ∀ l, r = Good l → l = mailbox_messages mailbox).
Proof.
  intros [E Hv]. apply wp_bind, wp_mysql, ListMessages_wp.
  - intros s' Es. apply wp_ret. split; [split; [by rewrite <- E|done]|]. intros l [= <-].
    unfold mailbox_messages, select_messages. by rewrite E.
  - intros e s' Es. apply wp_ret. split; [split; [by rewrite <- E|done]|done].
Qed.

Lemma GetMessageBody_serving m w :
  serving w0 w → wp (Ports.GetMessageBody (Message_ID m)) w (λ r w', serving w0 w'
    ∧ stored_body m (match r with Good (Some b) => b | _ => placeholder end)).
Proof.
  intros [E Hv]. apply wp_redis, Redis.GetMessageBody_wp.
  - intros r' t q _ H1 H2. assert (q ⊆ view (cache w0)) as Hq by (by etrans).
    split; [split; [done|]; simpl; by etrans|].
    destruct (e_val <$> live q t _) as [b|] eqn:Hb; [right|by left]. exists t. by eapply cached_weaken.
  - intros r' e _ _ H1. split; [split; [done|]; simpl; by etrans|by left].
Qed.

(** What FETCH writes: a response for each message of the mailbox, or none and an error. *)
Definition fetched (mb : SelectedMailbox) (tag args : gostring) (s s' : Imap.Session World) : Prop :=
  (∃ text, out s' = out s ++ [tagged s tag text]
     ∧ text ∈ str <$> ["NO Error fetching messages"; "BAD Syntax: FETCH sequence data-items"]%string)
  ∨ ∃ responses set items, SplitN2 args SP = [set; items]
    ∧ out s' = out s ++ map (λ x, (c_tls (conn s), x)) responses ++ [tagged s tag (str "OK FETCH completed")]
    ∧ Forall3 (responds (ToUpper items) stored_body)
        (seq 1 (length (mailbox_messages (Selected_ID mb)))) (mailbox_messages (Selected_ID mb)) responses.

(** What SEARCH writes: the number of each message of the mailbox, or an error. *)
Definition searched (mb : SelectedMailbox) (tag : gostring) (s s' : Imap.Session World) : Prop :=
  out s' = out s ++ [(c_tls (conn s), (str "* SEARCH " ++
      Join (fmt_d <$> seq 1 (length (mailbox_messages (Selected_ID mb)))) (str " ")) ++ CRLF);
    tagged s tag (str "OK SEARCH completed")]
  ∨ out s' = out s ++ [tagged s tag (str "NO Error searching messages")].

Lemma dispatch_selected (s : Imap.Session World) tag args :
  at_state s StateSelected →
  dispatch tag (str "FETCH") args s = handleFetch tag args s
  ∧ dispatch tag (str "SEARCH") args s = handleSearch tag args s.
Proof.
  intros [E _]. unfold dispatch, gets, mbind, M_bind. unfold currentState. rewrite E. by split.
Qed.

Lemma handleFetch_serving (s : Imap.Session World) mb tag args :
  serving w0 (store s) → selected s = Some mb →
  wp (handleFetch tag args) s (λ _ s', fetched mb tag args s s').
Proof.
  intros Hs Hsel. unfold handleFetch. apply wp_bind, wp_gets. rewrite Hsel.
  assert (∀ s1 status text, out s1 = out s → conn s1 = conn s →
    (status ++ str " " ++ text) ∈ str <$> ["NO Error fetching messages"; "BAD Syntax: FETCH sequence data-items"]%string →
    wp (writeTagged tag status text) s1 (λ _ s', fetched mb tag args s s')) as Hno.
  { intros s1 status text Ho Hc Ht. apply wp_modify. left. exists (status ++ str " " ++ text). split; [|done].
    simpl. by rewrite Ho, Hc. }
  destruct (SplitN2 args SP) as [|set [|items [|]]] eqn:Ea; [apply Hno; [done..|by_computation]|..];
    [apply Hno; [done..|by_computation]| |apply Hno; [done..|by_computation]].
  apply wp_bind, wp_port. eapply wp_mono; [by apply ListMessages_serving|]. intros r w [Hw Hl].
  destruct r as [l|e]; [|apply Hno; [done..|by_computation]]. rewrite (Hl l eq_refl). apply wp_bind. eapply wp_mono.
  { apply (fetch_loop_responses (serving w0) stored_body); [|exact Hw]. intros m w' _. apply GetMessageBody_serving. }
  intros [] s' (_ & Hc & rs & Ho & HF). apply wp_modify. right. exists rs, set, items.
  simpl. rewrite Ho, Hc. split_and!; [done|by rewrite <- (assoc_L (++))|done].
Qed.

Lemma imap_seq {A} (l : list A) k : imap (λ i _, fmt_d (k + i)) l = fmt_d <$> seq k (length l).
Proof.
  revert k. induction l as [|x l IH]; intros k; [done|]. simpl. rewrite Nat.add_0_r. f_equal.
  rewrite <- IH. apply imap_ext. intros i y _. simpl. by rewrite Nat.add_succ_r.
Qed.

Lemma handleSearch_serving (s : Imap.Session World) mb tag args :
  serving w0 (store s) → selected s = Some mb →
  wp (handleSearch tag args) s (λ _ s', searched mb tag s s').
Proof.
  intros Hs Hsel. unfold handleSearch. apply wp_bind, wp_gets. rewrite Hsel.
  apply wp_bind, wp_port. eapply wp_mono; [by apply ListMessages_serving|]. intros r w [Hw Hl].
  destruct r as [l|e]; [|apply wp_modify; by right]. rewrite (Hl l eq_refl).
  apply wp_bind, wp_modify, wp_modify. left. simpl. rewrite <- (assoc_L (++)).
  by rewrite (imap_seq _ 1).
Qed.
End alone.

(** C4: an IMAP session on the store, whatever the client sends and whatever fails, never
    changes the tables; while it is logged in, the client has given LOGIN an address and a
    password such that the address is that of an active user of an active domain, whose hash
    accepts that password, and the session is this user's; the mailbox selected is one of
    that user's, FETCH writes a response for each message of that mailbox in order, with its
    position as sequence number and with no body but one that Redis had under that message's
    id or the placeholder, and then OK (or nothing but an error), and SEARCH lists exactly the
    positions of that mailbox's messages (or nothing but an error). *)
Theorem imap_session_isolation (c : Conn) (cf : Config) (w : World) (t : option (tls_Config Certificate))
    (s : Imap.Session World) st :
  imap_reachable (newSession c cf w t (c_tls c)) s → at_state s st →
  mysql (store s) ≡ mysql w
  ∧ (st = StateAuthenticated ∨ st = StateSelected →
     ∃ line pw, line ∈ received s ∧ given_login line = Some (username s, pw)
       ∧ account (mysql w) (username s) pw (userID s))
  ∧ (st = StateSelected → ∃ mb, selected s = Some mb ∧ owned_mailbox (mysql w) (userID s) (Selected_ID mb)
       ∧ ∀ tag args,
         (∃ s', dispatch tag (str "FETCH") args s = Ok (tt, s') ∧ fetched w mb tag args s s')
         ∧ (∃ s', dispatch tag (str "SEARCH") args s = Ok (tt, s') ∧ searched w mb tag s s')).
Proof.
  intros Hr Hst.
  assert (imap_inv (serving w) (account (mysql w)) (owned_mailbox (mysql w)) (λ _, True) cf s) as Hi.
  { clear Hst. induction Hr as [|s1 s2 continue _ IH E]; [by apply newSession_inv|].
    pose proof (imap_iteration_wp _ _ _ _ _ _ _ (store_spec_serving w) any_out cf s1 IH) as Hw.
    by apply (run_wp _ _ _ _ _ Hw E). }
  destruct Hi as [(st' & Hst' & Hu) _ _ Hdb _]. rewrite <- (imap_at_state_fun s st st' Hst Hst') in Hu.
  split_and!; [apply Hdb| |].
  { intros [->| ->]; destruct Hu as [(pw & (line & Hl & Hg) & Ha) _]; by eauto. }
  intros ->. destruct Hu as [_ (mb & Hmb & Hown)].
  exists mb. split_and!; [done..|]. intros tag args.
  destruct (dispatch_selected s tag args Hst) as [-> ->]. split.
  - pose proof (handleFetch_serving w s mb tag args Hdb Hmb) as H. apply wp_run in H as ([] & s' & E & H). eauto.
  - pose proof (handleSearch_serving w s mb tag args Hdb Hmb) as H. apply wp_run in H as ([] & s' & E & H). eauto.
Qed.
End imap_store.

(** ** One message through the system *)

Definition smtp_client : Smtp.Session World :=
  Smtp.NewSession (mkConn false [cmd "EHLO client"; cmd "MAIL FROM:<alice@example.org>";
      cmd "RCPT TO:<test@gomail.local>"; cmd "DATA"; cmd "Subject: hi"; cmd ""; cmd "..dots"; cmd "."; cmd "QUIT"])
    default_config initial_world None.

Lemma initial_bodies id t b : cached (cache initial_world) t id = Some b → whole_lines b.
Proof. unfold cached, live. simpl. by rewrite lookup_empty. Qed.

Lemma smtp_session_keeps_store_witness :
  ∃ fuel s', Smtp.Handle fuel smtp_client = Ok (tt, s') ∧ filled initial_world (Smtp.delivery s').
Proof.
  apply (smtp_session_keeps_store (mkConn false _) default_config initial_world None);
    [exact default_domain|exact initial_db_inv|exact initial_bodies].
Defined.

(** The store after that session. *)
Definition mailed : World := Smtp.delivery (state_of smtp_client (Smtp.Handle 20 smtp_client)).

Definition store_client (w : World) (lines : list string) : Imap.Session World :=
  let s0 := newSession (mkConn false (cmd <$> lines)) default_config w None false in
  foldl (λ s _, state_of s (iteration s)) s0 lines.

(** A reader of the recipient gets the message, with the dots the client stuffed removed. *)
Example mail_roundtrip :
  let s := store_client mailed
    ["a LOGIN test@gomail.local password"; "b SELECT INBOX"; "c FETCH 1:* BODY[]"]%string in
  (decode_literal ∘ snd <$> last (take (length (out s) - 1) (out s)))
  = Some (Some (str "* 1 FETCH (BODY[] ",
           str "Subject: hi" ++ CRLF ++ CRLF ++ str ".dots" ++ CRLF, str ")" ++ CRLF)).
Proof. vm_compute. reflexivity. Qed.

Lemma imap_session_isolation_witness :
  let s := store_client initial_world ["a LOGIN test@gomail.local password"; "b SELECT INBOX"]%string in
  ∃ mb, selected s = Some mb ∧ owned_mailbox initial_db (userID s) (Selected_ID mb).
Proof.
  set (s := store_client initial_world ["a LOGIN test@gomail.local password"; "b SELECT INBOX"]%string).
  cbv zeta.
  assert (imap_reachable (newSession (mkConn false (cmd <$>
    ["a LOGIN test@gomail.local password"; "b SELECT INBOX"]%string)) default_config initial_world None false) s) as Hr.
  { eapply ireach_step; [eapply ireach_step; [apply ireach_start|]|];
      apply outcome_eq; vm_compute; reflexivity. }
  assert (at_state s StateSelected) as Hst.
  { split; [vm_compute; reflexivity|]. intros e st. vm_compute. reflexivity. }
  destruct (imap_session_isolation (mkConn false _) default_config initial_world None s StateSelected Hr Hst) as (_ & _ & H).
  destruct (H eq_refl) as (mb & Hmb & Ho & _). exists mb. split; [exact Hmb|exact Ho].
Defined.
