(* ===== verification/Json.v ===== *)
(** * JSON text (encoding/json)

    JSON values, and what the package encoding/json does between them and text: [json_text]
    is what an Encoder writes (with the escapes of HTML characters that it uses by
    default), [Decode] is how a Decoder reads the first value of its input, with the limits
    of the package. Numbers keep the text of their literal. *)

From S2P Require Import Prelude GoStrings.

Inductive json :=
| JNull
| JBool (b : bool)
| JNum (lit : gostring)
| JStr (s : gostring)
| JArr (l : list json)
| JObj (fields : list (gostring * json)).

(** A Go integer as it is encoded. *)
Definition JInt (n : Z) : json := JNum (fmt_d n).

(** ** Encoding *)

Definition backslash : ascii := "\"%char.

(** The ASCII characters that are written as they are. *)
Definition html_safe (b : ascii) : bool :=
  (32 <=? byteN b)%N && negb (bool_decide (b ∈ [DQ; "&"%char; "<"%char; ">"%char; backslash])).

Definition escape_ascii (b : ascii) : gostring :=
  if html_safe b then [b]
  else if bool_decide (b = DQ) || bool_decide (b = backslash) then [backslash; b]
  else if (byteN b =? 8)%N then str "\b" else if (byteN b =? 12)%N then str "\f"
  else if (byteN b =? 10)%N then str "\n" else if (byteN b =? 13)%N then str "\r"
  else if (byteN b =? 9)%N then str "\t"
  else str "\u00" ++ hex 2 (byteN b).

(** One rune of a string, decoded as [r] from the [w] first bytes of [s]. *)
Definition escape_rune (r : N) (w : nat) (s : gostring) : gostring :=
  if (r <? 128)%N then escape_ascii (ascii_of_N r)
  else if (w =? 1) && (r =? RuneError)%N then str "\ufffd"
  else if (r =? 8232)%N || (r =? 8233)%N then str "\u202" ++ hex 1 (N.land r 15)
  else take w s.

Fixpoint escape_go (fuel : nat) (s : gostring) : gostring :=
  match fuel, s with
  | S fuel', _ :: _ => let '(r, w) := decode_rune s in escape_rune r w s ++ escape_go fuel' (drop w s)
  | _, _ => []
  end.
Definition quote (s : gostring) : gostring := [DQ] ++ escape_go (length s) s ++ [DQ].

Definition comma : gostring := str ",".

Fixpoint json_text (v : json) : gostring :=
  match v with
  | JNull => str "null"
  | JBool b => if b then str "true" else str "false"
  | JNum lit => lit
  | JStr s => quote s
  | JArr l => str "[" ++ Join (map json_text l) comma ++ str "]"
  | JObj fields =>
      str "{" ++ Join (map (λ '(k, v), quote k ++ str ":" ++ json_text v) fields) comma ++ str "}"
  end.

(** ** Decoding *)

Definition is_space (b : ascii) : bool := bool_decide (b ∈ [SP; "009"%char; CR; LF]).
Definition skip_space (s : gostring) : gostring := trim_left is_space s.

Definition digit (b : ascii) : bool := in_range 48 57 b.

(** The digits at the front of [s]. *)
Definition digits (s : gostring) : gostring * gostring := span_until (λ b, negb (digit b)) s.

(** At least one digit. *)
Definition digits1 (s : gostring) : option (gostring * gostring) :=
  match digits s with ([], _) => None | p => Some p end.

Definition scan_int (s : gostring) : option (gostring * gostring) :=
  match s with
  | b :: t => if bool_decide (b = "0"%char) then Some ([b], t) else digits1 s
  | [] => None
  end.

Definition scan_frac (s : gostring) : option (gostring * gostring) :=
  match s with
  | b :: t => if bool_decide (b = "."%char)
              then '(d, r) ← digits1 t; Some (b :: d, r) else Some ([], s)
  | [] => Some ([], s)
  end.

Definition scan_sign (s : gostring) : gostring * gostring :=
  match s with
  | b :: t => if bool_decide (b ∈ str "+-") then ([b], t) else ([], s)
  | [] => ([], s)
  end.

Definition scan_exp (s : gostring) : option (gostring * gostring) :=
  match s with
  | b :: t => if bool_decide (b ∈ str "eE")
              then let '(sg, t) := scan_sign t in '(d, r) ← digits1 t; Some (b :: sg ++ d, r)
              else Some ([], s)
  | [] => Some ([], s)
  end.

(** The number literal at the front of [s]. *)
Definition scan_number (s : gostring) : option (gostring * gostring) :=
  let '(sg, s) := match s with
                  | b :: t => if bool_decide (b = "-"%char) then ([b], t) else ([], s)
                  | [] => ([], s)
                  end in
  '(i, s) ← scan_int s;
  '(f, s) ← scan_frac s;
  '(e, s) ← scan_exp s;
  Some (sg ++ i ++ f ++ e, s).

(** The four hexadecimal digits of an escape, and what follows them. *)
Definition unhex (b : ascii) : option N :=
  if in_range 48 57 b then Some (byteN b - 48)%N
  else if in_range 97 102 b then Some (byteN b - 87)%N
  else if in_range 65 70 b then Some (byteN b - 55)%N
  else None.
Definition getu4 (s : gostring) : option (N * gostring) :=
  match s with
  | a :: b :: c :: d :: t =>
      a ← unhex a; b ← unhex b; c ← unhex c; d ← unhex d;
      Some (a * 4096 + b * 256 + c * 16 + d, t)%N
  | _ => None
  end.

(** [utf16.DecodeRune] of two halves, when they are a surrogate pair. *)
Definition surrogate (r : N) : bool := (55296 <=? r)%N && (r <? 57344)%N.
Definition decode_pair (r1 r2 : N) : option N :=
  if ((55296 <=? r1) && (r1 <? 56320) && (56320 <=? r2) && (r2 <? 57344))%N
  then Some ((r1 - 55296) * 1024 + (r2 - 56320) + 65536)%N else None.

Definition simple_escape (e : ascii) : option ascii :=
  if bool_decide (e ∈ [DQ; backslash; "/"%char]) then Some e
  else if bool_decide (e = "b"%char) then Some (ascii_of_N 8)
  else if bool_decide (e = "f"%char) then Some (ascii_of_N 12)
  else if bool_decide (e = "n"%char) then Some LF
  else if bool_decide (e = "r"%char) then Some CR
  else if bool_decide (e = "t"%char) then Some (ascii_of_N 9)
  else None.

(** The rune of a \u escape, after which [t] follows: half a surrogate pair is completed by
    a second escape, or replaced. *)
Definition unicode_escape (r : N) (t : gostring) : gostring * gostring :=
  if surrogate r then
    match t with
    | b :: u :: t' =>
        if bool_decide (b = backslash) && bool_decide (u = "u"%char) then
          match getu4 t' with
          | Some (r2, t'') =>
              match decode_pair r r2 with
              | Some p => (encode_rune p, t'')
              | None => (encode_rune RuneError, t)
              end
          | None => (encode_rune RuneError, t)
          end
        else (encode_rune RuneError, t)
    | _ => (encode_rune RuneError, t)
    end
  else (encode_rune r, t).

(** The rest of a string after its opening quote: its value, and the input after the closing
    quote. Invalid UTF-8 is replaced by U+FFFD. *)
Fixpoint unquote (fuel : nat) (s : gostring) : option (gostring * gostring) :=
  match fuel, s with
  | S fuel', b :: t =>
      if bool_decide (b = DQ) then Some ([], t)
      else if bool_decide (b = backslash) then
        match t with
        | [] => None
        | e :: t' =>
            if bool_decide (e = "u"%char) then
              '(r, t'') ← getu4 t';
              let '(x, t'') := unicode_escape r t'' in
              '(y, rest) ← unquote fuel' t''; Some (x ++ y, rest)
            else
              x ← simple_escape e;
              '(y, rest) ← unquote fuel' t'; Some (x :: y, rest)
        end
      else if (byteN b <? 32)%N then None
      else
        let '(r, w) := decode_rune s in
        '(y, rest) ← unquote fuel' (drop w s); Some (encode_rune r ++ y, rest)
  | _, _ => None
  end.
Definition scan_string (s : gostring) : option (gostring * gostring) := unquote (length s) s.

Definition scan_word (w : gostring) (v : json) (s : gostring) : option (json * gostring) :=
  if HasPrefix s w then Some (v, drop (length w) s) else None.

Definition maxNestingDepth : nat := Z.to_nat 10000.

(** A value, the elements of an array and the members of an object (each at least one, up to
    and including the closing bracket), with the input left. [depth] arrays and objects are
    open. Every call consumes input or calls a function that does. *)
Fixpoint parse_value (fuel depth : nat) (s : gostring) : option (json * gostring) :=
  match fuel with
  | O => None
  | S fuel' =>
      match skip_space s with
      | [] => None
      | b :: t =>
          if bool_decide (b = "{"%char) then
            if maxNestingDepth <=? depth then None
            else match skip_space t with
                 | c :: t' => if bool_decide (c = "}"%char) then Some (JObj [], t')
                              else '(l, r) ← parse_members fuel' (S depth) (c :: t'); Some (JObj l, r)
                 | [] => None
                 end
          else if bool_decide (b = "["%char) then
            if maxNestingDepth <=? depth then None
            else match skip_space t with
                 | c :: t' => if bool_decide (c = "]"%char) then Some (JArr [], t')
                              else '(l, r) ← parse_elements fuel' (S depth) (c :: t'); Some (JArr l, r)
                 | [] => None
                 end
          else if bool_decide (b = DQ) then '(x, r) ← scan_string t; Some (JStr x, r)
          else if bool_decide (b = "t"%char) then scan_word (str "true") (JBool true) (b :: t)
          else if bool_decide (b = "f"%char) then scan_word (str "false") (JBool false) (b :: t)
          else if bool_decide (b = "n"%char) then scan_word (str "null") JNull (b :: t)
          else '(lit, r) ← scan_number (b :: t); Some (JNum lit, r)
      end
  end
with parse_elements (fuel depth : nat) (s : gostring) : option (list json * gostring) :=
  match fuel with
  | O => None
  | S fuel' =>
      '(v, r) ← parse_value fuel' depth s;
      match skip_space r with
      | c :: r' =>
          if bool_decide (c = "]"%char) then Some ([v], r')
          else if bool_decide (c = ","%char) then '(l, r'') ← parse_elements fuel' depth r'; Some (v :: l, r'')
          else None
      | [] => None
      end
  end
with parse_members (fuel depth : nat) (s : gostring) : option (list (gostring * json) * gostring) :=
  match fuel with
  | O => None
  | S fuel' =>
      match skip_space s with
      | q :: t =>
          if bool_decide (q = DQ) then
            '(k, r) ← scan_string t;
            match skip_space r with
            | c :: r =>
                if bool_decide (c = ":"%char) then
                  '(v, r) ← parse_value fuel' depth r;
                  match skip_space r with
                  | c :: r' =>
                      if bool_decide (c = "}"%char) then Some ([(k, v)], r')
                      else if bool_decide (c = ","%char) then
                        '(l, r'') ← parse_members fuel' depth r'; Some ((k, v) :: l, r'')
                      else None
                  | [] => None
                  end
                else None
            | [] => None
            end
          else None
      | [] => None
      end
  end.

(** [json.NewDecoder(body).Decode]: the first value of the body; what follows it is not
    read. *)
Definition Decode (body : gostring) : option json := fst <$> parse_value (2 * length body + 2) 0 body.

(** ** Numbers as float64

    A number that is decoded into an interface value must not overflow float64. *)

Definition digit_value (l : gostring) : Z := foldl (λ n b, n * 10 + Z.of_N (byteN b - 48))%Z 0%Z l.

(** The exponent of a literal stops growing at 10000 ([strconv.ParseFloat]). *)
Definition exp_value (l : gostring) : Z :=
  foldl (λ n b, if n <? 10000 then n * 10 + Z.of_N (byteN b - 48) else n)%Z 0%Z l.

(** The integral and fractional digits and the exponent of a literal. *)
Definition literal_parts (lit : gostring) : gostring * gostring * Z :=
  let lit := match lit with b :: t => if bool_decide (b = "-"%char) then t else lit | [] => [] end in
  let '(i, r) := digits lit in
  let '(f, r) := match r with
                 | b :: t => if bool_decide (b = "."%char) then digits t else ([], r)
                 | [] => ([], [])
                 end in
  let e := match r with
           | _ :: t => let '(sg, d) := scan_sign t in
                       (if bool_decide (sg = str "-") then - exp_value d else exp_value d)%Z
           | [] => 0%Z
           end in
  (i, f, e).

(** Half a unit in the last place above the greatest float64. *)
Definition float64_overflow : Z := 2 ^ 1024 - 2 ^ 970.

(** Whether [m * 10 ^ e] is below it; powers of ten that decide by their size alone are not
    computed. *)
Definition below_overflow (m : Z) (len : nat) (e : Z) : bool :=
  if (0 <=? e)%Z then
    if (400 <? e)%Z then (m =? 0)%Z else (m * 10 ^ e <? float64_overflow)%Z
  else if (Z.of_nat len <=? - e)%Z then true
  else (m <? float64_overflow * 10 ^ (- e))%Z.

Definition float64_ok (lit : gostring) : bool :=
  let '(i, f, e) := literal_parts lit in
  below_overflow (digit_value (i ++ f)) (length (i ++ f)) (e - Z.of_nat (length f)).

(** Every number of a value fits. *)
Fixpoint numbers_ok (v : json) : bool :=
  match v with
  | JNum lit => float64_ok lit
  | JArr l => forallb numbers_ok l
  | JObj fields => forallb (λ '(_, v), numbers_ok v) fields
  | _ => true
  end.
