(* ===== verification/JsonProps.v ===== *)
(** * Properties of the JSON text

    The decoder's fuel is enough, strings survive quoting and unquoting (invalid UTF-8 is
    replaced), and a value that was encoded is decoded as it was. *)

From S2P Require Import Prelude GoStrings Json.
From Stdlib Require Import Zify.

(** ** UTF-8 *)

#[local] Ltac Zify.zify_post_hook ::= Z.to_euclidean_division_equations.

Lemma lor_shift a b k : (b < 2 ^ k)%N → N.lor (N.shiftl a k) b = (a * 2 ^ k + b)%N.
Proof.
  intros Hb. assert (N.land (N.shiftl a k) b = 0)%N as Hd.
  { apply N.bits_inj. intros i. rewrite N.land_spec, N.bits_0.
    destruct (decide (i < k)%N) as [Hi|Hi]; [by rewrite N.shiftl_spec_low|].
    rewrite <- (N.mod_small b (2 ^ k)) by done. rewrite N.mod_pow2_bits_high by lia. apply andb_false_r. }
  rewrite <- N.lxor_lor, <- N.add_nocarry_lxor by done. by rewrite N.shiftl_mul_pow2.
Qed.

Lemma low_bits n k : N.land n (N.ones k) = (n mod 2 ^ k)%N.
Proof. apply N.land_ones. Qed.

Lemma in_range_iff lo hi b : in_range lo hi b = true ↔ (lo ≤ byteN b ≤ hi)%N.
Proof. unfold in_range. rewrite andb_true_iff, !N.leb_le. done. Qed.

Lemma is_cont_iff b : is_cont b = true ↔ (128 ≤ byteN b ≤ 191)%N.
Proof. apply (in_range_iff 128 191). Qed.

(** A continuation byte, and its six bits. *)
Lemma low6_cont b : is_cont b = true → ∃ x, (x < 64)%N ∧ low6 b = x ∧ b = ascii_of_N (128 + x).
Proof.
  intros H%is_cont_iff. exists (byteN b - 128)%N. unfold low6. change 63%N with (N.ones 6).
  rewrite low_bits. change (2 ^ 6)%N with 64%N. split_and!; [lia|lia|].
  replace (128 + (byteN b - 128))%N with (byteN b) by lia. symmetry. apply ascii_N_embedding.
Qed.

Lemma ascii_byteN b : ascii_of_N (byteN b) = b.
Proof. apply ascii_N_embedding. Qed.

(** The rune [r] is a well-formed character of [w] bytes at the front of [s]. *)
Definition well_formed (r : N) (w : nat) : bool := negb ((w =? 1) && (r =? RuneError)%N).

Lemma encode_2 x y : (2 ≤ x < 32)%N → (y < 64)%N →
  encode_rune (x * 64 + y) = [ascii_of_N (192 + x); ascii_of_N (128 + y)].
Proof.
  intros Hx Hy. unfold encode_rune.
  rewrite (proj2 (N.ltb_ge _ _)) by lia. rewrite (proj2 (N.ltb_lt _ _)) by lia.
  rewrite N.shiftr_div_pow2. change 63%N with (N.ones 6). rewrite low_bits. change (2 ^ 6)%N with 64%N.
  repeat f_equal; lia.
Qed.

Lemma encode_3 x y z : (x < 16)%N → (y < 64)%N → (z < 64)%N →
  (2048 ≤ x * 4096 + y * 64 + z)%N → (x * 4096 + y * 64 + z < 55296 ∨ 57343 < x * 4096 + y * 64 + z)%N →
  encode_rune (x * 4096 + y * 64 + z) = [ascii_of_N (224 + x); ascii_of_N (128 + y); ascii_of_N (128 + z)].
Proof.
  intros Hx Hy Hz Hlo Hs. unfold encode_rune, MaxRune.
  rewrite !(proj2 (N.ltb_ge _ _)) by lia. rewrite (proj2 (N.ltb_lt _ 65536)) by lia.
  replace ((_ <=? _)%N && (_ <=? _)%N) with false
    by (symmetry; apply andb_false_iff; rewrite !N.leb_gt; lia).
  cbn [orb]. rewrite !N.shiftr_div_pow2. change 63%N with (N.ones 6). rewrite !low_bits.
  change (2 ^ 6)%N with 64%N. change (2 ^ 12)%N with 4096%N. repeat f_equal; lia.
Qed.

Lemma encode_4 x y z u : (x < 8)%N → (y < 64)%N → (z < 64)%N → (u < 64)%N →
  (65536 ≤ x * 262144 + y * 4096 + z * 64 + u ≤ MaxRune)%N →
  encode_rune (x * 262144 + y * 4096 + z * 64 + u)
  = [ascii_of_N (240 + x); ascii_of_N (128 + y); ascii_of_N (128 + z); ascii_of_N (128 + u)].
Proof.
  unfold MaxRune. intros Hx Hy Hz Hu Hr. unfold encode_rune, MaxRune.
  rewrite !(proj2 (N.ltb_ge _ _)) by lia.
  replace ((_ <=? _)%N && (_ <=? _)%N) with false
    by (symmetry; apply andb_false_iff; rewrite !N.leb_gt; lia).
  cbn [orb]. rewrite !N.shiftr_div_pow2. change 63%N with (N.ones 6). rewrite !low_bits.
  change (2 ^ 6)%N with 64%N. change (2 ^ 12)%N with 4096%N. change (2 ^ 18)%N with 262144%N.
  repeat f_equal; lia.
Qed.

Lemma byte_split b lo : (lo ≤ byteN b)%N → b = ascii_of_N (lo + (byteN b - lo)).
Proof. intros H. replace (lo + (byteN b - lo))%N with (byteN b) by lia. symmetry. apply ascii_byteN. Qed.

(** A well-formed character above ASCII: encoding its rune gives its bytes back, and what
    follows it does not matter. *)
Record multibyte (r : N) (w : nat) (p : gostring) : Prop := {
  mb_rune : (128 ≤ r)%N;
  mb_length : length p = w;
  mb_encode : encode_rune r = p;
  mb_decode k : decode_rune (p ++ k) = (r, w);
  mb_first : ∃ b p', p = b :: p' ∧ (128 ≤ byteN b)%N;
}.

Lemma decode_multibyte b0 t r w :
  (128 ≤ byteN b0)%N → decode_rune (b0 :: t) = (r, w) → well_formed r w = true →
  ∃ p k, b0 :: t = p ++ k ∧ multibyte r w p.
Proof.
  intros H0' E Hw. cbn [decode_rune] in E. pose proof (proj2 (N.ltb_ge _ _) H0') as H0. rewrite H0 in E.
  assert ((RuneError, 1) ≠ (r, w)) as Hbad by by intros [= <- <-].
  destruct (in_range 194 223 b0) eqn:R2; [|destruct (in_range 224 239 b0) eqn:R3; [|destruct (in_range 240 244 b0) eqn:R4; [|done]]].
  - destruct t as [|b1 t]; [done|]. destruct (is_cont b1) eqn:C1; [|done].
    exists [b0; b1], t. split; [done|]. enough ((128 ≤ r)%N ∧ encode_rune r = [b0; b1]) as [? ?].
    { split; [done|by simplify_eq|done|intros k; cbn [decode_rune app]; by rewrite H0, R2, C1|eauto]. }
    destruct (low6_cont _ C1) as (x & Hx & Ex & ->). rewrite Ex in E. apply in_range_iff in R2.
    rewrite lor_shift in E by done. change 31%N with (N.ones 5) in E. rewrite low_bits in E.
    injection E as <- <-. change (2 ^ 6)%N with 64%N. change (2 ^ 5)%N with 32%N.
    split; [lia|]. rewrite encode_2 by lia. f_equal. rewrite <- (ascii_byteN b0) at 2. f_equal. lia.
  - destruct t as [|b1 [|b2 t]]; [done..|]. destruct (in_range _ _ b1 && is_cont b2) eqn:C; [|done].
    exists [b0; b1; b2], t. split; [done|]. enough ((128 ≤ r)%N ∧ encode_rune r = [b0; b1; b2]) as [? ?].
    { split; [done|by simplify_eq|done|intros k; cbn [decode_rune app]; by rewrite H0, R2, R3, C|eauto]. }
    apply andb_true_iff in C as [C1 C2]. apply in_range_iff in R3, C1.
    assert (is_cont b1 = true) as C1'.
    { apply is_cont_iff. destruct (byteN b0 =? 224)%N, (byteN b0 =? 237)%N; lia. }
    destruct (low6_cont _ C1') as (x & Hx & Ex & E1), (low6_cont _ C2) as (y & Hy & Ey & ->).
    rewrite Ex, Ey, (lor_shift x y 6), lor_shift in E by (done || (change (2 ^ 6)%N with 64%N; change (2 ^ 12)%N with 4096%N; lia)).
    change 15%N with (N.ones 4) in E.
    rewrite low_bits in E. injection E as <- <-. change (2 ^ 6)%N with 64%N. change (2 ^ 4)%N with 16%N.
    change (2 ^ 12)%N with 4096%N. rewrite N.add_assoc.
    assert (byteN b1 = 128 + x)%N as Eb by (rewrite E1; apply N_ascii_embedding; lia).
    split; [destruct (N.eqb_spec (byteN b0) 224); lia|].
    rewrite encode_3; [|lia..| |]; [|destruct (N.eqb_spec (byteN b0) 224), (N.eqb_spec (byteN b0) 237); lia..].
    rewrite E1. f_equal. rewrite <- (ascii_byteN b0) at 2. f_equal. lia.
  - destruct t as [|b1 [|b2 [|b3 t]]]; [done..|].
    destruct (in_range _ _ b1 && is_cont b2 && is_cont b3) eqn:C; [|done].
    exists [b0; b1; b2; b3], t. split; [done|]. enough ((128 ≤ r)%N ∧ encode_rune r = [b0; b1; b2; b3]) as [? ?].
    { split; [done|by simplify_eq|done|intros k; cbn [decode_rune app]; by rewrite H0, R2, R3, R4, C|eauto]. }
    apply andb_true_iff in C as [[C1 C2]%andb_true_iff C3]. apply in_range_iff in R4, C1.
    assert (is_cont b1 = true) as C1'.
    { apply is_cont_iff. destruct (byteN b0 =? 240)%N, (byteN b0 =? 244)%N; lia. }
    destruct (low6_cont _ C1') as (x & Hx & Ex & E1), (low6_cont _ C2) as (y & Hy & Ey & ->),
      (low6_cont _ C3) as (z & Hz & Ez & ->).
    rewrite Ex, Ey, Ez, (lor_shift y z 6), (lor_shift x _ 12), lor_shift in E
      by (done || (change (2 ^ 6)%N with 64%N; change (2 ^ 12)%N with 4096%N; change (2 ^ 18)%N with 262144%N; lia)).
    change 7%N with (N.ones 3) in E.
    rewrite low_bits in E. injection E as <- <-. change (2 ^ 6)%N with 64%N. change (2 ^ 3)%N with 8%N.
    change (2 ^ 12)%N with 4096%N. change (2 ^ 18)%N with 262144%N. rewrite !N.add_assoc.
    assert (byteN b1 = 128 + x)%N as Eb by (rewrite E1; apply N_ascii_embedding; lia).
    split; [destruct (N.eqb_spec (byteN b0) 240); lia|].
    rewrite encode_4; [|lia..|unfold MaxRune; destruct (N.eqb_spec (byteN b0) 240), (N.eqb_spec (byteN b0) 244); lia].
    rewrite E1. f_equal. rewrite <- (ascii_byteN b0) at 2. f_equal. lia.
Qed.

(** ** Strings *)

(** The string with every invalid byte replaced by U+FFFD. *)
Fixpoint to_valid_go (fuel : nat) (s : gostring) : gostring :=
  match fuel, s with
  | S fuel', _ :: _ => let '(r, w) := decode_rune s in encode_rune r ++ to_valid_go fuel' (drop w s)
  | _, _ => []
  end.
Definition to_valid (s : gostring) : gostring := to_valid_go (length s) s.

(** Valid UTF-8. *)
Definition utf8_ok (s : gostring) : bool := forallb (λ '(r, w), well_formed r w) (runes s).

Lemma decode_width b t r w : decode_rune (b :: t) = (r, w) → 1 ≤ w ≤ length (b :: t).
Proof. unfold decode_rune. intros E. repeat case_match; simplify_eq/=; lia. Qed.

Lemma decode_ascii b t : (byteN b < 128)%N → decode_rune (b :: t) = (byteN b, 1).
Proof. intros H%N.ltb_lt. unfold decode_rune. by rewrite H. Qed.

(** What [unquote] makes of the text of one rune. *)
Definition then_unquote (x : gostring) (fuel : nat) (k : gostring) : option (gostring * gostring) :=
  '(y, rest) ← unquote fuel k; Some (x ++ y, rest).

Lemma unquote_ascii b fuel k : (byteN b < 128)%N →
  unquote (S fuel) (escape_ascii b ++ k) = then_unquote [b] fuel k.
Proof. intros H. destruct b as [[] [] [] [] [] [] [] []]; try (by vm_compute in H); reflexivity. Qed.

Lemma encode_ascii b : (byteN b < 128)%N → encode_rune (byteN b) = [b].
Proof. intros H. unfold encode_rune. rewrite (proj2 (N.ltb_lt _ _) H). by rewrite ascii_byteN. Qed.

Lemma unquote_rune b t r w fuel k :
  decode_rune (b :: t) = (r, w) →
  unquote (S fuel) (escape_rune r w (b :: t) ++ k) = then_unquote (encode_rune r) fuel k.
Proof.
  intros E. destruct (decide (byteN b < 128)%N) as [Hb|Hb].
  { rewrite decode_ascii in E by done. injection E as <- <-. unfold escape_rune.
    rewrite (proj2 (N.ltb_lt _ _) Hb), ascii_byteN, encode_ascii by done. by apply unquote_ascii. }
  destruct (well_formed r w) eqn:Hw.
  - destruct (decode_multibyte b t r w ltac:(lia) E Hw) as (p & k' & Ep & [Hr Hl He Hd (b' & p' & -> & Hb')]).
    unfold escape_rune. rewrite (proj2 (N.ltb_ge _ _) Hr).
    apply negb_true_iff in Hw. rewrite Hw.
    destruct (N.eqb_spec r 8232) as [->|N1]; [reflexivity|]. destruct (N.eqb_spec r 8233) as [->|N2]; [reflexivity|].
    cbn [orb]. rewrite Ep, <- Hl, take_app_length, He. cbn [unquote app].
    rewrite !bool_decide_false by (intros ->; vm_compute in Hb'; done).
    rewrite (proj2 (N.ltb_ge _ _)) by lia. specialize (Hd k). cbn [app] in Hd. rewrite Hd, He, <- Hl.
    change (b' :: p' ++ k) with ((b' :: p') ++ k). by rewrite drop_app_length.
  - unfold well_formed in Hw. apply negb_false_iff in Hw. pose proof Hw as [H1 H2]%andb_true_iff.
    apply N.eqb_eq in H2 as ->. unfold escape_rune. rewrite Hw. reflexivity.
Qed.

Lemma escape_rune_nonempty b t r w : decode_rune (b :: t) = (r, w) → escape_rune r w (b :: t) ≠ [].
Proof.
  intros E Hn. pose proof (unquote_rune b t r w 1 [DQ] E) as H. rewrite Hn in H.
  unfold then_unquote in H. simpl in H. injection H as H.
  pose proof (decode_width _ _ _ _ E). unfold encode_rune in H. repeat case_match; done.
Qed.

Lemma unquote_escape n : ∀ s fuel k,
  length s ≤ n → length (escape_go n s) < fuel →
  unquote fuel (escape_go n s ++ DQ :: k) = Some (to_valid_go n s, k).
Proof.
  induction n as [|n IH]; intros s fuel k Hn Hf.
  - destruct s; simpl in *; [|lia]. destruct fuel; [lia|done].
  - destruct s as [|b t]; cbn [escape_go to_valid_go] in *; [by destruct fuel; [lia|]|].
    destruct (decode_rune (b :: t)) as [r w] eqn:E. pose proof (decode_width _ _ _ _ E) as Hw.
    pose proof (escape_rune_nonempty _ _ _ _ E) as Hne. rewrite length_app in Hf.
    destruct (escape_rune r w (b :: t)) as [|e es] eqn:Ee; [done|]. rewrite <- Ee.
    destruct fuel as [|fuel]; [lia|]. rewrite <- app_assoc, unquote_rune by done. unfold then_unquote.
    rewrite IH; [done|rewrite length_drop; lia|simpl in Hf; lia].
Qed.

(** A quoted string is read back, with invalid bytes replaced. *)
Lemma scan_quote s k : scan_string (escape_go (length s) s ++ DQ :: k) = Some (to_valid s, k).
Proof. apply unquote_escape; [done|]. rewrite length_app. simpl. lia. Qed.

Lemma to_valid_ok s : utf8_ok s = true → to_valid s = s.
Proof.
  unfold utf8_ok, to_valid, runes. enough (∀ n s, length s ≤ n →
    forallb (λ '(r, w), well_formed r w) (runes_go n s) = true → to_valid_go n s = s) as H by by apply H.
  clear s. induction n as [|n IH]; intros [|b t] Hn H; [done|simpl in Hn; lia|done|].
  cbn [runes_go to_valid_go] in *. destruct (decode_rune (b :: t)) as [r w] eqn:E.
  apply andb_true_iff in H as [Hw H]. pose proof (decode_width _ _ _ _ E) as Hwd.
  rewrite IH; [|rewrite length_drop; lia|done]. destruct (decide (byteN b < 128)%N) as [Hb|Hb].
  - rewrite decode_ascii in E by done. injection E as <- <-. by rewrite encode_ascii.
  - destruct (decode_multibyte b t r w ltac:(lia) E Hw) as (p & k & -> & [_ Hl -> _ _]).
    by rewrite <- Hl, drop_app_length.
Qed.

(** ** The decoder consumes its input, and its fuel is enough *)

Lemma skip_space_length s : length (skip_space s) ≤ length s.
Proof. unfold skip_space. induction s as [|b s IH]; simpl; [done|]. destruct (is_space b); simpl; lia. Qed.

Lemma digits_length s : length (snd (digits s)) + length (fst (digits s)) = length s.
Proof.
  unfold digits. induction s as [|b s IH]; simpl; [done|]. destruct (negb (digit b)); [done|].
  destruct (span_until _ s). simpl in *. lia.
Qed.

Lemma digits1_length s d r : digits1 s = Some (d, r) → length r < length s.
Proof.
  unfold digits1. pose proof (digits_length s). destruct (digits s) as [[|b x] y]; [done|].
  intros; simplify_eq/=. lia.
Qed.

Lemma scan_int_length s i r : scan_int s = Some (i, r) → length r < length s.
Proof.
  unfold scan_int. destruct s as [|b t]; [done|]. case_bool_decide; [|apply digits1_length].
  intros; simplify_eq/=. lia.
Qed.

Lemma scan_frac_length s f r : scan_frac s = Some (f, r) → length r ≤ length s.
Proof.
  unfold scan_frac. destruct s as [|b t]; [intros; by simplify_eq|]. case_bool_decide; [|intros; by simplify_eq].
  destruct (digits1 t) as [[d r']|] eqn:E; intros; simplify_eq/=. apply digits1_length in E. lia.
Qed.

Lemma scan_exp_length s f r : scan_exp s = Some (f, r) → length r ≤ length s.
Proof.
  unfold scan_exp. destruct s as [|b t]; [intros; by simplify_eq|]. case_bool_decide; [|intros; by simplify_eq].
  assert (length (snd (scan_sign t)) ≤ length t) as Hs.
  { unfold scan_sign. destruct t as [|c t]; [done|]. case_bool_decide; simpl; lia. }
  destruct (scan_sign t) as [sg t']. simpl in Hs.
  destruct (digits1 t') as [[d r']|] eqn:E; intros; simplify_eq/=. apply digits1_length in E. lia.
Qed.

Lemma scan_number_length s l r : scan_number s = Some (l, r) → length r < length s.
Proof.
  unfold scan_number. set (p := match s with b :: t => _ | [] => _ end).
  assert (length (snd p) ≤ length s) as Hp.
  { unfold p. destruct s as [|b t]; [done|]. case_bool_decide; simpl; lia. }
  destruct p as [sg s']. simpl in Hp. destruct (scan_int s') as [[i s1]|] eqn:E1; [|done]. simpl.
  destruct (scan_frac s1) as [[f s2]|] eqn:E2; [|done]. simpl.
  destruct (scan_exp s2) as [[e s3]|] eqn:E3; [|done]. intros; simplify_eq/=.
  apply scan_int_length in E1. apply scan_frac_length in E2. apply scan_exp_length in E3. lia.
Qed.

Lemma getu4_length s r t : getu4 s = Some (r, t) → length t < length s.
Proof.
  unfold getu4. destruct s as [|a [|b [|c [|d s]]]]; try done.
  destruct (unhex a), (unhex b), (unhex c), (unhex d); try done. intros; simplify_eq/=. lia.
Qed.

Lemma unicode_escape_length r t : length (snd (unicode_escape r t)) ≤ length t.
Proof.
  unfold unicode_escape. destruct (surrogate r); [|done]. destruct t as [|b [|u t']]; try done.
  destruct (_ && _); [|done]. destruct (getu4 t') as [[r2 t'']|] eqn:E; [|done].
  apply getu4_length in E. destruct (decode_pair r r2); simpl; lia.
Qed.

Lemma unquote_length fuel : ∀ s x r, unquote fuel s = Some (x, r) → length r < length s.
Proof.
  induction fuel as [|fuel IH]; intros [|b t] x r E; try done. cbn [unquote] in E.
  case_bool_decide; [simplify_eq/=; lia|]. case_bool_decide.
  - destruct t as [|e t']; [done|]. case_bool_decide.
    + destruct (getu4 t') as [[rr t'']|] eqn:E1; [|done]. apply getu4_length in E1. cbn [mbind option_bind] in E.
      pose proof (unicode_escape_length rr t'') as E2. destruct (unicode_escape rr t'') as [y u].
      destruct (unquote fuel u) as [[z rest]|] eqn:E3; simplify_eq/=. apply IH in E3. simpl in *. lia.
    + destruct (simple_escape e) as [y|]; [|done]. cbn [mbind option_bind] in E.
      destruct (unquote fuel t') as [[z rest]|] eqn:E3; simplify_eq/=. apply IH in E3. lia.
  - destruct (byteN b <? 32)%N; [done|]. destruct (decode_rune (b :: t)) as [rr w] eqn:Ed.
    destruct (unquote fuel (drop w (b :: t))) as [[z rest]|] eqn:E3; simplify_eq/=. apply IH in E3.
    rewrite length_drop in E3. simpl in E3. lia.
Qed.

Lemma scan_word_length w v s v' r : w ≠ [] → scan_word w v s = Some (v', r) → length r < length s.
Proof.
  unfold scan_word. intros Hw. destruct (HasPrefix s w) eqn:E; [|done]. apply HasPrefix_true in E as [k ->].
  intros; simplify_eq. rewrite drop_app_length, length_app. destruct w; [done|]. simpl. lia.
Qed.

Lemma skip_space_cons s b t : skip_space s = b :: t → length t < length s.
Proof. intros E. pose proof (skip_space_length s) as H. rewrite E in H. simpl in H. lia. Qed.

(** Lengths of what the scanners leave, from the equations in the context. *)
Ltac lengths :=
  repeat match goal with
  | H : skip_space _ = _ :: _ |- _ => apply skip_space_cons in H
  | H : scan_string _ = Some _ |- _ => apply unquote_length in H
  | H : scan_number _ = Some _ |- _ => apply scan_number_length in H
  | H : scan_word _ _ _ = Some _ |- _ => apply scan_word_length in H; [|done]
  end; cbn [length] in *; try lia.

Definition consumes {A} (parse : nat → gostring → option (A * gostring)) : Prop :=
  ∀ d s a r, parse d s = Some (a, r) → length r < length s.

Lemma parse_consumes fuel :
  consumes (parse_value fuel) ∧ consumes (parse_elements fuel) ∧ consumes (parse_members fuel).
Proof.
  induction fuel as [|fuel (IHv & IHe & IHm)]; [done|]. split_and!; intros d s a r E.
  - cbn [parse_value] in E. destruct (skip_space s) as [|b t] eqn:Es; [done|].
    repeat (case_bool_decide; [|]).
    + destruct (_ <=? d); [done|]. destruct (skip_space t) as [|c t'] eqn:Et; [done|].
      case_bool_decide; [simplify_eq; lengths|].
      destruct (parse_members fuel (S d) (c :: t')) as [[l r']|] eqn:E1; simplify_eq/=. apply IHm in E1. lengths.
    + destruct (_ <=? d); [done|]. destruct (skip_space t) as [|c t'] eqn:Et; [done|].
      case_bool_decide; [simplify_eq; lengths|].
      destruct (parse_elements fuel (S d) (c :: t')) as [[l r']|] eqn:E1; simplify_eq/=. apply IHe in E1. lengths.
    + destruct (scan_string t) as [[x r']|] eqn:E1; simplify_eq/=. lengths.
    + lengths.
    + lengths.
    + lengths.
    + destruct (scan_number (b :: t)) as [[x r']|] eqn:E1; simplify_eq/=. lengths.
  - cbn [parse_elements] in E. destruct (parse_value fuel d s) as [[v r1]|] eqn:E1; [|done].
    apply IHv in E1. cbn [mbind option_bind] in E. destruct (skip_space r1) as [|c r2] eqn:E2; [done|].
    case_bool_decide; [simplify_eq; lengths|]. case_bool_decide; [|done].
    destruct (parse_elements fuel d r2) as [[l r3]|] eqn:E3; simplify_eq/=. apply IHe in E3. lengths.
  - cbn [parse_members] in E. destruct (skip_space s) as [|q t] eqn:Es; [done|]. case_bool_decide; [|done].
    destruct (scan_string t) as [[k r1]|] eqn:E1; [|done]. cbn [mbind option_bind] in E.
    destruct (skip_space r1) as [|c r2] eqn:E2; [done|]. case_bool_decide; [|done].
    destruct (parse_value fuel d r2) as [[v r3]|] eqn:E3; [|done]. apply IHv in E3. cbn [mbind option_bind] in E.
    destruct (skip_space r3) as [|c' r4] eqn:E4; [done|]. case_bool_decide; [simplify_eq; lengths|].
    case_bool_decide; [|done].
    destruct (parse_members fuel d r4) as [[l r5]|] eqn:E5; simplify_eq/=. apply IHm in E5. lengths.
Qed.

(** All fuels that are enough for the input give the same. *)
Lemma parse_fuel fuel : ∀ fuel',
  (∀ d s, 2 * length s + 1 ≤ fuel → 2 * length s + 1 ≤ fuel' → parse_value fuel d s = parse_value fuel' d s)
  ∧ (∀ d s, 2 * length s + 2 ≤ fuel → 2 * length s + 2 ≤ fuel' → parse_elements fuel d s = parse_elements fuel' d s)
  ∧ (∀ d s, 2 * length s + 2 ≤ fuel → 2 * length s + 2 ≤ fuel' → parse_members fuel d s = parse_members fuel' d s).
Proof.
  induction fuel as [|fuel IH]; [intros; split_and!; intros; lia|]. intros [|fuel']; [split_and!; intros; lia|].
  destruct (IH fuel') as (IHv & IHe & IHm). split_and!; intros d s Hf Hf'.
  - cbn [parse_value]. destruct (skip_space s) as [|b t] eqn:Es; [done|]. apply skip_space_cons in Es.
    repeat (case_bool_decide; [|]); try done.
    + destruct (_ <=? d); [done|]. destruct (skip_space t) as [|c t'] eqn:Et; [done|]. apply skip_space_cons in Et.
      case_bool_decide; [done|]. rewrite IHm; [done|simpl; lia..].
    + destruct (_ <=? d); [done|]. destruct (skip_space t) as [|c t'] eqn:Et; [done|]. apply skip_space_cons in Et.
      case_bool_decide; [done|]. rewrite IHe; [done|simpl; lia..].
  - cbn [parse_elements]. rewrite IHv by lia.
    destruct (parse_value fuel' d s) as [[v r1]|] eqn:E1; [|done]. cbn [mbind option_bind].
    apply (proj1 (parse_consumes fuel')) in E1. destruct (skip_space r1) as [|c r2] eqn:E2; [done|].
    apply skip_space_cons in E2. rewrite IHe by lia. done.
  - cbn [parse_members]. destruct (skip_space s) as [|q t] eqn:Es; [done|]. apply skip_space_cons in Es.
    case_bool_decide; [|done]. destruct (scan_string t) as [[k r1]|] eqn:E1; [|done].
    apply unquote_length in E1. cbn [mbind option_bind].
    destruct (skip_space r1) as [|c r2] eqn:E2; [done|]. apply skip_space_cons in E2. case_bool_decide; [|done].
    rewrite IHv by lia. destruct (parse_value fuel' d r2) as [[v r3]|] eqn:E3; [|done].
    apply (proj1 (parse_consumes fuel')) in E3. cbn [mbind option_bind].
    destruct (skip_space r3) as [|c' r4] eqn:E4; [done|]. apply skip_space_cons in E4. rewrite IHm by lia. done.
Qed.

(** No fuel reads a value that [Decode] does not read. *)
Lemma Decode_fuel body fuel : 2 * length body + 2 ≤ fuel → fst <$> parse_value fuel 0 body = Decode body.
Proof.
  intros H. unfold Decode. f_equal. apply parse_fuel; lia.
Qed.

(** ** What is encoded is decoded *)

(** The value with every string made valid UTF-8. *)
Fixpoint json_valid (v : json) : json :=
  match v with
  | JStr s => JStr (to_valid s)
  | JArr l => JArr (map json_valid l)
  | JObj fields => JObj (map (λ '(k, v), (to_valid k, json_valid v)) fields)
  | _ => v
  end.

(** What can follow a number. *)
Definition ends_number (k : gostring) : Prop :=
  match k with [] => True | b :: _ => digit b = false ∧ b ∉ str ".eE" end.

Definition number_literal (lit : gostring) : Prop :=
  (∃ b t, lit = b :: t ∧ (digit b = true ∨ b = "-"%char))
  ∧ ∀ k, ends_number k → scan_number (lit ++ k) = Some (lit, k).

(** A value with at most [n] nested arrays and objects, whose numbers are literals. *)
Inductive printable : nat → json → Prop :=
| printable_null n : printable n JNull
| printable_bool n b : printable n (JBool b)
| printable_num n lit : number_literal lit → printable n (JNum lit)
| printable_str n s : printable n (JStr s)
| printable_arr n l : Forall (printable n) l → printable (S n) (JArr l)
| printable_obj n fields : Forall (λ kv, printable n (snd kv)) fields → printable (S n) (JObj fields).

Lemma skip_space_head b s : is_space b = false → skip_space (b :: s) = b :: s.
Proof. intros H. unfold skip_space. simpl. by rewrite H. Qed.

Lemma digit_not_space b : digit b = true → is_space b = false.
Proof. destruct b as [[] [] [] [] [] [] [] []]; intros H; first [vm_compute; reflexivity|by vm_compute in H]. Qed.

(** The first byte of a value's text. *)
Lemma json_text_head n v : printable n v →
  ∃ b t, json_text v = b :: t ∧ is_space b = false ∧ b ≠ "]"%char.
Proof.
  intros H. destruct H as [n|n []|n lit [(b & t & -> & Hb) _]|n s|n l _|n fields _]; simpl;
    try by (eexists _, _; split; [done|]; split; [by vm_compute|done]).
  exists b, t. split; [done|]. destruct Hb as [Hb| ->]; [|split; [by vm_compute|done]].
  split; [by apply digit_not_space|]. intros ->. by vm_compute in Hb.
Qed.

(** [parse] reads [a] off the front of [text] with every fuel from some point on. *)
Definition reads {A} (parse : nat → nat → gostring → option (A * gostring)) (d : nat) (text : gostring)
    (a : A) (k : gostring) : Prop :=
  ∃ F, ∀ fuel, F ≤ fuel → parse fuel d (text ++ k) = Some (a, k).

Lemma reads_elements d k l :
  l ≠ [] → Forall (λ v, ∀ k, ends_number k → reads parse_value d (json_text v) (json_valid v) k) l →
  reads parse_elements d (Join (map json_text l) comma ++ str "]") (map json_valid l) k.
Proof.
  intros Hne HF. induction l as [|v l IH]; [done|]. apply Forall_cons in HF as [Hv HF].
  destruct l as [|v' l].
  - destruct (Hv ("]"%char :: k)) as [F HF']; [split; [by vm_compute|by_computation]|]. exists (S F). intros [|fuel] Hf; [lia|].
    cbn [map Join parse_elements]. rewrite <- app_assoc. change (str "]" ++ k) with ("]"%char :: k).
    rewrite HF' by lia. done.
  - destruct (Hv (","%char :: Join (map json_text (v' :: l)) comma ++ str "]" ++ k)) as [F HF'];
      [split; [by vm_compute|by_computation]|].
    destruct IH as [F2 HF2]; [done|done|]. exists (S (F `max` F2)). intros [|fuel] Hf; [lia|].
    assert ((Join (map json_text (v :: v' :: l)) comma ++ str "]") ++ k
      = json_text v ++ ","%char :: Join (map json_text (v' :: l)) comma ++ str "]" ++ k) as ->.
    { change (Join (map json_text (v :: v' :: l)) comma)
        with (json_text v ++ comma ++ Join (map json_text (v' :: l)) comma). by rewrite <- !app_assoc. }
    cbn [parse_elements]. rewrite HF' by lia. cbn [mbind option_bind].
    rewrite skip_space_head by by vm_compute. rewrite bool_decide_false by done. rewrite bool_decide_true by done.
    rewrite <- app_assoc in HF2. rewrite HF2 by lia. done.
Qed.

Definition member_text (kv : gostring * json) : gostring := quote (fst kv) ++ str ":" ++ json_text (snd kv).
Definition member_valid (kv : gostring * json) : gostring * json := (to_valid (fst kv), json_valid (snd kv)).

Lemma json_text_obj fields :
  json_text (JObj fields) = str "{" ++ Join (map member_text fields) comma ++ str "}".
Proof. simpl. do 3 f_equal. apply map_ext. by intros []. Qed.
Lemma json_valid_obj fields : json_valid (JObj fields) = JObj (map member_valid fields).
Proof. simpl. f_equal. apply map_ext. by intros []. Qed.

(** One member: its name, the colon and the value. *)
Lemma parse_member fuel d kv k :
  parse_value fuel d (json_text (snd kv) ++ k) = Some (json_valid (snd kv), k) →
  parse_members (S fuel) d (member_text kv ++ k)
  = match skip_space k with
    | c :: r' =>
        if bool_decide (c = "}"%char) then Some ([member_valid kv], r')
        else if bool_decide (c = ","%char) then
          '(l, r'') ← parse_members fuel d r'; Some (member_valid kv :: l, r'')
        else None
    | [] => None
    end.
Proof.
  intros E. unfold member_text, quote. rewrite <- !app_assoc. cbn [parse_members app].
  rewrite skip_space_head by by vm_compute. rewrite bool_decide_true by done.
  rewrite scan_quote. cbn [mbind option_bind].
  change (str ":" ++ json_text (snd kv) ++ k) with (":"%char :: json_text (snd kv) ++ k).
  rewrite skip_space_head by by vm_compute. rewrite bool_decide_true by done. by rewrite E.
Qed.

Lemma reads_members d k l :
  l ≠ [] → Forall (λ kv, ∀ k, ends_number k → reads parse_value d (json_text (snd kv)) (json_valid (snd kv)) k) l →
  reads parse_members d (Join (map member_text l) comma ++ str "}") (map member_valid l) k.
Proof.
  intros Hne HF. induction l as [|v l IH]; [done|]. apply Forall_cons in HF as [Hv HF].
  destruct l as [|v' l].
  - destruct (Hv ("}"%char :: k)) as [F HF']; [split; [by vm_compute|by_computation]|].
    exists (S F). intros [|fuel] Hf; [lia|].
    cbn [map Join]. rewrite <- app_assoc. change (str "}" ++ k) with ("}"%char :: k).
    rewrite parse_member by (apply HF'; lia). done.
  - destruct (Hv (","%char :: Join (map member_text (v' :: l)) comma ++ str "}" ++ k)) as [F HF'];
      [split; [by vm_compute|by_computation]|].
    destruct IH as [F2 HF2]; [done|done|]. exists (S (F `max` F2)). intros [|fuel] Hf; [lia|].
    assert ((Join (map member_text (v :: v' :: l)) comma ++ str "}") ++ k
      = member_text v ++ ","%char :: Join (map member_text (v' :: l)) comma ++ str "}" ++ k) as ->.
    { change (Join (map member_text (v :: v' :: l)) comma)
        with (member_text v ++ comma ++ Join (map member_text (v' :: l)) comma). by rewrite <- !app_assoc. }
    rewrite parse_member by (apply HF'; lia).
    rewrite skip_space_head by by vm_compute. rewrite bool_decide_false by done. rewrite bool_decide_true by done.
    rewrite <- app_assoc in HF2. rewrite HF2 by lia. done.
Qed.

Lemma parse_number fuel d lit k :
  number_literal lit → ends_number k → parse_value (S fuel) d (lit ++ k) = Some (JNum lit, k).
Proof.
  intros [(b & t & -> & Hb) Hs] Hk. specialize (Hs k Hk). cbn [parse_value app] in *.
  assert (is_space b = false ∧ b ∉ str "{[tfn" ∧ b ≠ DQ) as (H1 & H2 & H3).
  { destruct Hb as [Hb| ->]; [|split_and!; [by vm_compute|by_computation|done]].
    split; [by apply digit_not_space|]. split; [|by intros ->; vm_compute in Hb].
    intros H%list_elem_of_In. unfold str in H. simpl in H. destruct_or! H; subst; try done; by vm_compute in Hb. }
  rewrite skip_space_head by done.
  rewrite !bool_decide_false by (try done; intros ->; apply H2; by_computation). by rewrite Hs.
Qed.

Definition reads_value d v : Prop :=
  ∀ k, ends_number k → reads parse_value d (json_text v) (json_valid v) k.

Lemma deeper d : d < maxNestingDepth → maxNestingDepth <=? d = false.
Proof. apply Nat.leb_gt. Qed.

Lemma reads_array n d k l :
  Forall (printable n) l → d < maxNestingDepth → Forall (reads_value (S d)) l →
  reads parse_value d (json_text (JArr l)) (json_valid (JArr l)) k.
Proof.
  intros HF Hd Hl. destruct (decide (l = [])) as [->|Hne].
  { exists 1. intros [|fuel] Hf; [lia|]. change (json_text (JArr []) ++ k) with ("["%char :: "]"%char :: k).
    cbn [parse_value]. rewrite skip_space_head by by vm_compute.
    rewrite bool_decide_false by done. rewrite bool_decide_true by done. by rewrite deeper. }
  destruct (reads_elements (S d) k l Hne Hl) as [F HF'].
  exists (S F). intros [|fuel] Hf; [lia|]. specialize (HF' fuel ltac:(lia)).
  cbn [json_text json_valid]. cbn [parse_value app].
  change ((str "[" ++ Join (map json_text l) comma ++ str "]") ++ k)
    with ("["%char :: (Join (map json_text l) comma ++ str "]") ++ k).
  rewrite skip_space_head by by vm_compute. rewrite bool_decide_false by done. rewrite bool_decide_true by done.
  rewrite deeper by done.
  assert (∃ b t, (Join (map json_text l) comma ++ str "]") ++ k = b :: t ∧ is_space b = false ∧ b ≠ "]"%char)
    as (b & t & Et & Hb & Hb').
  { destruct l as [|v l]; [done|]. apply Forall_cons in HF as [Hv _].
    destruct (json_text_head _ _ Hv) as (b & t & Et & Hb). cbn [map Join].
    destruct (map json_text l) as [|x y]; rewrite Et; simpl; eauto. }
  rewrite Et in HF' |- *. rewrite skip_space_head by done. rewrite bool_decide_false by done. by rewrite HF'.
Qed.

Lemma reads_object d k fields :
  d < maxNestingDepth → Forall (λ kv, reads_value (S d) (snd kv)) fields →
  reads parse_value d (json_text (JObj fields)) (json_valid (JObj fields)) k.
Proof.
  intros Hd Hl. rewrite json_text_obj, json_valid_obj. destruct (decide (fields = [])) as [->|Hne].
  { exists 1. intros [|fuel] Hf; [lia|]. change ((_ ++ _ ++ _) ++ k) with ("{"%char :: "}"%char :: k).
    cbn [parse_value]. rewrite skip_space_head by by vm_compute.
    rewrite bool_decide_true by done. by rewrite deeper. }
  destruct (reads_members (S d) k fields Hne Hl) as [F HF'].
  exists (S F). intros [|fuel] Hf; [lia|]. specialize (HF' fuel ltac:(lia)). cbn [parse_value app].
  change ((str "{" ++ Join (map member_text fields) comma ++ str "}") ++ k)
    with ("{"%char :: (Join (map member_text fields) comma ++ str "}") ++ k).
  rewrite skip_space_head by by vm_compute. rewrite bool_decide_true by done. rewrite deeper by done.
  assert (∃ t, (Join (map member_text fields) comma ++ str "}") ++ k = DQ :: t) as (t & Et).
  { destruct fields as [|kv fs]; [done|]. cbn [map]. destruct (map member_text fs) as [|x y]; cbn [Join];
      unfold member_text at 1, quote; eexists; reflexivity. }
  rewrite Et in HF' |- *. rewrite skip_space_head by by vm_compute. rewrite bool_decide_false by done.
  by rewrite HF'.
Qed.

(** The text of a value is read back, whatever follows, in any context that leaves room for
    its depth. *)
Lemma reads_text n : ∀ v d, printable n v → n + d ≤ maxNestingDepth → reads_value d v.
Proof.
  induction n as [n IH] using lt_wf_ind. intros v d Hp Hd k Hk.
  destruct Hp as [n|n []|n lit Hl|n s|n l HF|n fields HF].
  1-3: exists 1; intros [|fuel] Hf; [lia|done].
  - exists 1. intros [|fuel] Hf; [lia|]. by apply parse_number.
  - exists 1. intros [|fuel] Hf; [lia|]. unfold json_text, quote. rewrite <- !app_assoc. cbn [parse_value app].
    rewrite skip_space_head by by vm_compute. rewrite !bool_decide_false by done.
    rewrite bool_decide_true by done. by rewrite scan_quote.
  - apply (reads_array n); [done|lia|]. eapply Forall_impl; [exact HF|]. intros v Hv. apply (IH n); [lia|done|lia].
  - apply reads_object; [lia|]. eapply Forall_impl; [exact HF|]. intros v Hv. apply (IH n); [lia|done|lia].
Qed.

Lemma Decode_reads text v k : reads parse_value 0 text v k → Decode (text ++ k) = Some v.
Proof.
  intros [F HF]. rewrite <- (Decode_fuel _ (F `max` (2 * length (text ++ k) + 2))) by lia. by rewrite HF by lia.
Qed.

(** A value that was encoded is decoded as it was, strings made valid UTF-8. *)
Lemma Decode_text n v k :
  printable n v → n ≤ maxNestingDepth → ends_number k → Decode (json_text v ++ k) = Some (json_valid v).
Proof. intros Hp Hn Hk. apply Decode_reads, (reads_text n); [done|lia|done]. Qed.

(** An object is, whatever follows it. *)
Lemma Decode_object n fields k :
  printable n (JObj fields) → n ≤ maxNestingDepth →
  Decode (json_text (JObj fields) ++ k) = Some (json_valid (JObj fields)).
Proof.
  intros Hp Hn. inversion Hp as [| | | | |m ? HF]; subst. apply Decode_reads, reads_object; [lia|].
  eapply Forall_impl; [exact HF|]. intros kv Hv. apply (reads_text m); [done|lia].
Qed.

(** ** Numbers *)

Lemma digit_iff b : digit b = true ↔ is_digit b.
Proof. apply in_range_iff. Qed.

Lemma digits_all d k : Forall is_digit d → (∀ b t, k = b :: t → digit b = false) → digits (d ++ k) = (d, k).
Proof.
  intros HF Hk. unfold digits. induction HF as [|b d Hb _ IH]; simpl.
  - destruct k as [|b t]; [done|]. simpl. by rewrite (Hk b t eq_refl).
  - apply digit_iff in Hb. rewrite Hb. simpl. by rewrite IH.
Qed.

(** A decimal does not start with 0, unless it is 0. *)
Lemma pretty_N_go_head x s : (0 < x)%N → ∃ c t, pretty_N_go x s = String c t ∧ is_digit c ∧ c ≠ "0"%char.
Proof.
  revert s. induction (N.lt_wf_0 x) as [x _ IH]. intros s Hx. rewrite pretty_N_go_step by done.
  destruct (decide (x < 10)%N) as [Hs|Hs].
  - rewrite N.mod_small, N.div_small by done. exists (pretty_N_char x), s.
    split; [done|]. split; [apply pretty_N_char_digit|]. unfold pretty_N_char.
    destruct x as [|p]; [lia|]. repeat (destruct p as [p|p|]; try lia; try done).
  - apply IH; [apply N.div_lt; lia|]. lia.
Qed.

Lemma fmt_d_N_shape (n : N) : fmt_d n = str "0" ∨ ∃ b t, fmt_d n = b :: t ∧ b ≠ "0"%char.
Proof.
  unfold fmt_d, pretty, pretty_N. destruct (decide (n = 0)%N) as [->|Hn]; [by left|]. right.
  destruct (pretty_N_go_head n "" ltac:(lia)) as (c & t & -> & _ & Hc). by exists c, (str t).
Qed.

Lemma scan_tail k : ends_number k → scan_frac k = Some ([], k) ∧ scan_exp k = Some ([], k).
Proof.
  destruct k as [|b t]; [done|]. intros [_ Hb]. unfold scan_frac, scan_exp.
  rewrite !bool_decide_false; [done|..]; [intros H|intros ->]; apply Hb; [|by_computation].
  unfold str in *. simpl in *. apply list_elem_of_further. done.
Qed.

Lemma scan_int_decimal (n : N) k : ends_number k → scan_int (fmt_d n ++ k) = Some (fmt_d n, k).
Proof.
  intros Hk. destruct (fmt_d_N_digits n) as [HF Hne].
  destruct (fmt_d_N_shape n) as [->|(b & t & E & Hb)]; [done|].
  assert (digits (fmt_d n ++ k) = (fmt_d n, k)) as Hd.
  { apply digits_all; [done|]. intros c u ->. by destruct Hk. }
  rewrite E in *. unfold scan_int. cbn [app] in *. rewrite bool_decide_false by done.
  unfold digits1. by rewrite Hd.
Qed.

(** The integers the server writes are number literals. *)
Lemma decimal_literal (z : Z) : number_literal (fmt_d z).
Proof.
  assert (∀ n : N, ∃ b t, fmt_d n = b :: t ∧ digit b = true) as Hh.
  { intros n. destruct (fmt_d_N_digits n) as [HF Hne]. destruct (fmt_d n) as [|b t]; [done|].
    exists b, t. split; [done|]. apply Forall_cons in HF as [Hb _]. by apply digit_iff. }
  assert (∀ n : N, number_literal (fmt_d n)) as HN.
  { intros n. split; [destruct (Hh n) as (b & t & E & Hb); eauto|]. intros k Hk. unfold scan_number.
    destruct (Hh n) as (b & t & E & Hb). pose proof (scan_int_decimal n k Hk) as Hi. rewrite E in *.
    cbn [app] in *. rewrite bool_decide_false by (intros ->; by vm_compute in Hb).
    rewrite Hi. cbn [mbind option_bind]. destruct (scan_tail k Hk) as [Hf He].
    rewrite Hf. cbn [mbind option_bind]. rewrite He. simpl. by rewrite app_nil_r. }
  destruct z as [|p|p]; [apply (HN 0%N)|apply (HN (Npos p))|].
  change (fmt_d (Zneg p)) with ("-"%char :: fmt_d (Npos p)).
  split; [eauto|]. intros k Hk. unfold scan_number. cbn [app]. rewrite bool_decide_true by done.
  rewrite scan_int_decimal by done. cbn [mbind option_bind]. destruct (scan_tail k Hk) as [Hf He].
  rewrite Hf. cbn [mbind option_bind]. rewrite He. simpl. by rewrite app_nil_r.
Qed.

Lemma digit_value_bound l : Forall is_digit l → (0 ≤ digit_value l < 10 ^ Z.of_nat (length l))%Z.
Proof.
  intros HF. induction l as [|b l IH] using rev_ind; [done|]. apply Forall_last in HF as [HF Hb].
  specialize (IH HF). unfold digit_value in *. rewrite foldl_app, length_app. cbn [foldl length].
  replace (Z.of_nat (length l + 1)) with (Z.of_nat (length l) + 1)%Z by lia. rewrite Z.pow_add_r by lia.
  unfold is_digit in Hb. nia.
Qed.

(** The test for overflow says whether the number is below the limit. *)
Lemma below_overflow_spec l e :
  Forall is_digit l →
  below_overflow (digit_value l) (length l) e = true ↔
    if (0 <=? e)%Z then (digit_value l * 10 ^ e < float64_overflow)%Z
    else (digit_value l < float64_overflow * 10 ^ (- e))%Z.
Proof.
  intros Hm%digit_value_bound. unfold below_overflow. set (m := digit_value l) in *.
  assert (10 ^ 401 > float64_overflow)%Z as Hbig by by vm_compute.
  assert (1 < float64_overflow)%Z as Hone by by vm_compute.
  generalize dependent float64_overflow. intros lim Hbig Hone.
  destruct (0 <=? e)%Z eqn:He; [apply Z.leb_le in He|apply Z.leb_gt in He].
  - destruct (400 <? e)%Z eqn:H4; [apply Z.ltb_lt in H4|apply Z.ltb_lt].
    rewrite Z.eqb_eq. split; [intros ->; lia|]. intros Hlt.
    assert (10 ^ 401 ≤ 10 ^ e)%Z by (apply Z.pow_le_mono_r; lia). nia.
  - destruct (_ <=? - e)%Z eqn:Hl; [apply Z.leb_le in Hl|apply Z.ltb_lt]. split; [|done]. intros _.
    assert (10 ^ Z.of_nat (length l) ≤ 10 ^ (- e))%Z by (apply Z.pow_le_mono_r; lia). nia.
Qed.
