(* ===== verification/Jmap.v ===== *)
(** * The JMAP server (internal/jmap)

    The handlers of the HTTP API, the middleware and the routes. A request carries the bytes
    of its body and its context; a response is a status, a content type and the bytes that
    were written. [Json.v] has the text of JSON; here is what encoding/json does between
    values and the Go types of types.go. JSON Web Tokens and the router chi are libraries:
    [JWTLib], [JWTLaws], [Chi] and [ChiLaws] say what the server uses of them. *)

From S2P Require Import Prelude GoStrings Config Ports Security Json.

(** ** Types (types.go) *)

Definition CapabilityCore : gostring := str "urn:ietf:params:jmap:core".
Definition CapabilityMail : gostring := str "urn:ietf:params:jmap:mail".

(** [Args] is [None] for the nil map. *)
Record MethodCall := mkCall {
  Call_Name : gostring; Call_Args : option (list (gostring * json)); Call_ID : gostring }.

Record Request := mkRequest { Using : list gostring; MethodCalls : list MethodCall }.

Record MethodResponse := mkResponse { Resp_Name : gostring; Resp_Result : json; Resp_CallID : gostring }.

Record JMAPMailbox := mkJMAPMailbox {
  JM_ID : gostring; JM_Name : gostring; JM_Role : gostring; JM_Total : Z; JM_Unread : Z }.

Record Address := mkAddress { Addr_Email : gostring; Addr_Name : gostring }.

(** [BodyValues] is never set and never written (omitempty). *)
Record JMAPEmail := mkJMAPEmail {
  JE_ID : gostring; JE_MailboxIDs : list (gostring * bool); JE_Subject : gostring;
  JE_From : list Address; JE_To : list Address; JE_ReceivedAt : gostring; JE_Size : Z }.

Record JError := mkJError { Err_Type : gostring; Err_Description : gostring }.

(** *** Their encoding; a field with omitempty is left out when it is empty. *)

Definition str_list (l : list gostring) : json := JArr (JStr <$> l).
Definition opt_field (name value : gostring) : list (gostring * json) :=
  if bool_decide (value = []) then [] else [(name, JStr value)].
Definition opt_array {A} (name : gostring) (enc : A → json) (l : list A) : list (gostring * json) :=
  match l with [] => [] | _ => [(name, JArr (enc <$> l))] end.

Definition enc_error (e : JError) : json :=
  JObj ((str "type", JStr (Err_Type e)) :: opt_field (str "description") (Err_Description e)).
Definition enc_mailbox (m : JMAPMailbox) : json :=
  JObj ([(str "id", JStr (JM_ID m)); (str "name", JStr (JM_Name m))] ++ opt_field (str "role") (JM_Role m)
        ++ [(str "totalEmails", JInt (JM_Total m)); (str "unreadEmails", JInt (JM_Unread m))]).
Definition enc_address (a : Address) : json :=
  JObj ((str "email", JStr (Addr_Email a)) :: opt_field (str "name") (Addr_Name a)).
Definition enc_email (e : JMAPEmail) : json :=
  JObj ([(str "id", JStr (JE_ID e));
         (str "mailboxIds", JObj ((λ kb, (fst kb, JBool (snd kb))) <$> JE_MailboxIDs e));
         (str "subject", JStr (JE_Subject e))]
        ++ opt_array (str "from") enc_address (JE_From e)
        ++ opt_array (str "to") enc_address (JE_To e)
        ++ [(str "receivedAt", JStr (JE_ReceivedAt e)); (str "size", JInt (JE_Size e))]).

(** ** Encoding of calls and responses (encoding.go) *)

(** The session resource; a map is a list of its entries, in the order of the keys. *)
Record Account := mkAccount {
  Acc_Name : gostring; IsPersonal : bool; Acc_Capabilities : list (gostring * json) }.
Record SessionResponse := mkSession {
  Capabilities : list (gostring * json); Accounts : list (gostring * Account);
  PrimaryAccounts : list (gostring * gostring); Sess_Username : gostring;
  APIURL : gostring; Sess_State : gostring }.

Definition enc_account (a : Account) : json :=
  JObj [(str "name", JStr (Acc_Name a)); (str "isPersonal", JBool (IsPersonal a));
        (str "accountCapabilities", JObj (Acc_Capabilities a))].
Definition enc_session (s : SessionResponse) : json :=
  JObj [(str "capabilities", JObj (Capabilities s));
        (str "accounts", JObj (prod_map id enc_account <$> Accounts s));
        (str "primaryAccounts", JObj (prod_map id JStr <$> PrimaryAccounts s));
        (str "username", JStr (Sess_Username s)); (str "apiUrl", JStr (APIURL s));
        (str "state", JStr (Sess_State s))].

(** [MarshalJSON]. *)
Definition MarshalJSON (m : MethodResponse) : json :=
  JArr [JStr (Resp_Name m); Resp_Result m; JStr (Resp_CallID m)].

(** Decoding a value into a string that holds [old]: null leaves it as it is. *)
Definition dec_string (old : gostring) (v : json) : option gostring :=
  match v with JStr s => Some s | JNull => Some old | _ => None end.

(** Decoding into a map: an object is added to the map that is there (an entry of the same
    name is replaced: the last one counts), null makes it nil. The numbers of an interface
    value become float64. *)
Definition dec_map (old : option (list (gostring * json))) (v : json) : option (option (list (gostring * json))) :=
  match v with
  | JObj f => if numbers_ok v then Some (Some (default [] old ++ f)) else None
  | JNull => Some None
  | _ => None
  end.

(** [UnmarshalJSON] into the MethodCall [m]; the text of encoding/json's own error, which the
    errors wrap, is left out. *)
Definition UnmarshalJSON (data : json) (m : MethodCall) : result MethodCall :=
  match data with
  | JArr raw =>
      match raw with
      | [r0; r1; r2] =>
          match dec_string (Call_Name m) r0 with
          | None => Err (str "method call name")
          | Some name =>
          match dec_map (Call_Args m) r1 with
          | None => Err (str "method call args")
          | Some args =>
          match dec_string (Call_ID m) r2 with
          | None => Err (str "method call id")
          | Some cid => Good (mkCall name args cid)
          end end end
      | _ => Err (str "method call must have exactly 3 elements, got " ++ fmt_d (length raw))
      end
  | JNull => Err (str "method call must have exactly 3 elements, got " ++ fmt_d 0)
  | _ => Err (str "method call must be a JSON array")
  end.

(** A slice while it is decoded: its elements, and those that its array still holds behind
    them. A name that occurs twice in an object is decoded twice into the same slice: the
    elements are decoded into what is there. *)
Record slice_of (A : Type) := mkSlice { elems : list A; spare : list A }.
Arguments mkSlice {A} _ _.
Arguments elems {A} _.
Arguments spare {A} _.

Fixpoint dec_elems {A} (dec : A → json → option A) (zero : A) (old : list A) (l : list json) : option (list A) :=
  match l with
  | [] => Some []
  | v :: l' =>
      a ← dec (default zero (head old)) v;
      k ← dec_elems dec zero (tail old) l';
      Some (a :: k)
  end.

Definition dec_slice {A} (dec : A → json → option A) (zero : A) (old : slice_of A) (v : json)
    : option (slice_of A) :=
  let there := elems old ++ spare old in
  match v with
  | JArr [] | JNull => Some (mkSlice [] [])
  | JArr l => k ← dec_elems dec zero there l; Some (mkSlice k (drop (length l) there))
  | _ => None
  end.

Section decoding.
Context `{U : UnicodeData}.

(** A key names a field when it is equal to it up to case. *)
Definition key_is (key name : gostring) : bool := bool_decide (key = name) || EqualFold key name.

(** Decoding an object into a struct: each key in turn, the keys that name no field are
    skipped; [set] is [None] when the value has the wrong type. (An error does not stop
    the decoder, but its result is then not used.) *)
Fixpoint dec_fields {A} (set : gostring → json → A → option A) (fields : list (gostring * json)) (a : A)
    : option A :=
  match fields with
  | [] => Some a
  | (k, v) :: fields' => a' ← set k v a; dec_fields set fields' a'
  end.

Definition dec_struct {A} (set : gostring → json → A → option A) (zero : A) (v : json) : option A :=
  match v with
  | JObj fields => dec_fields set fields zero
  | JNull => Some zero
  | _ => None
  end.

Definition zero_call : MethodCall := mkCall [] None [].

Definition dec_call (m : MethodCall) (v : json) : option MethodCall :=
  match UnmarshalJSON v m with Good c => Some c | Err _ => None end.

(** [json.NewDecoder(r.Body).Decode(&req)] for a Request. *)
Definition dec_Request (body : gostring) : option Request :=
  v ← Decode body;
  '(u, c) ← dec_struct (λ k v r,
    if key_is k (str "using") then
      l ← dec_slice dec_string [] (fst r) v; Some (l, snd r)
    else if key_is k (str "methodCalls") then
      l ← dec_slice dec_call zero_call (snd r) v; Some (fst r, l)
    else Some r) (mkSlice [] [], mkSlice [] []) v;
  Some (mkRequest (elems u) (elems c)).

(** The body of /auth: username and password. *)
Definition dec_credentials (body : gostring) : option (gostring * gostring) :=
  v ← Decode body;
  dec_struct (λ k v c,
    if key_is k (str "username") then u ← dec_string (fst c) v; Some (u, snd c)
    else if key_is k (str "password") then p ← dec_string (snd c) v; Some (fst c, p)
    else Some c) ([], []) v.
End decoding.

(** ** Tokens (auth.go) *)

Definition jwtSecret : gostring := str "gomail-core-dev-secret-change-in-production".
Definition tokenTTL : Z := 24 * 3600 * 1000000000.

(** The times are NumericDates: whole seconds; a token can be without an expiry. *)
Record Claims := mkClaims {
  Claims_UserID : N; Claims_Username : gostring;
  ExpiresAt : option Z; IssuedAt : Z; Issuer : gostring }.

Definition unexpired (now : Z) (c : Claims) : bool :=
  match ExpiresAt c with Some e => (now <? e * 1000000000)%Z | None => true end.

Definition NewNumericDate (t : Z) : Z := t / 1000000000.

Inductive signing_method := SigningMethodHS256 | OtherHMAC (alg : gostring) | OtherMethod (alg : gostring).

Definition is_HMAC (m : signing_method) : bool :=
  match m with OtherMethod _ => false | _ => true end.
Definition alg_of (m : signing_method) : gostring :=
  match m with SigningMethodHS256 => str "HS256" | OtherHMAC a | OtherMethod a => a end.

Class JWTLib := {
  token_method : gostring → option signing_method;
  token_claims : gostring → option Claims;
  signature_ok : signing_method → gostring → gostring → bool;
  SignedString : signing_method → Claims → gostring → result gostring;
  ParseWithClaims : gostring → (signing_method → result gostring) → Z → result Claims;
}.

(** A token parses when the key function gives a key for its method, its signature is
    right under that key and it has not expired; a token that was signed has the method and
    the claims it was made from, and its signature is right under the same key. *)
Class JWTLaws (J : JWTLib) := {
  parse_iff tok keyfn now c :
    ParseWithClaims tok keyfn now = Good c ↔
      ∃ m key, token_method tok = Some m ∧ keyfn m = Good key ∧ signature_ok m key tok = true
        ∧ token_claims tok = Some c ∧ unexpired now c = true;
  signed_token m c key tok :
    SignedString m c key = Good tok →
    token_method tok = Some m ∧ token_claims tok = Some c ∧ signature_ok m key tok = true;
}.

(** ** The server *)

(** The context of a request: values under keys. The key of the user has a type of its own,
    so it is the key of no other package. *)
Inductive context_key := contextKeyUser | OtherKey (name : gostring).
#[export] Instance context_key_eq_dec : EqDecision context_key.
Proof. solve_decision. Defined.
Inductive context_value := VClaims (c : Claims) | VOther (s : gostring).

Abbreviation context := (list (context_key * context_value)).
Definition WithValue (k : context_key) (v : context_value) (ctx : context) : context := (k, v) :: ctx.
Fixpoint Value (k : context_key) (ctx : context) : option context_value :=
  match ctx with
  | [] => None
  | (k', v) :: ctx' => if decide (k = k') then Some v else Value k ctx'
  end.

(** [Path] is the path that is routed. *)
Record http_request := mkHttp {
  Method : gostring; Path : gostring; Authorization : gostring; Body : gostring; Ctx : context }.
Record http_response := mkHttpResponse { Status : Z; ContentType : gostring; Content : gostring }.

Definition WithContext (ctx : context) (r : http_request) : http_request :=
  mkHttp (Method r) (Path r) (Authorization r) (Body r) ctx.

(** ** The router (github.com/go-chi/chi) *)

Inductive routed := Found (i : nat) | MethodNotAllowed | NotFound.

(** [Route routes method path] is the route that the router finds among those registered
    (method and pattern); RequestID is the middleware of that name, and the responses are
    those the library writes itself. *)
Class Chi := {
  Route : list (gostring * gostring) → gostring → gostring → routed;
  RequestID : http_request → http_request;
  NotFound_response : http_response;
  MethodNotAllowed_response : http_response;
  Recoverer_response : http_response;
}.

(** A pattern without parameters or wildcards. *)
Definition static_pattern (p : gostring) : bool := bool_decide ("{"%char ∉ p) && bool_decide ("*"%char ∉ p).

(** Static patterns match the path that is equal to them. *)
Class ChiLaws (CH : Chi) := {
  Route_found l m p i : NoDup l → Forall (λ x, static_pattern (snd x) = true) l →
    l !! i = Some (m, p) → Route l m p = Found i;
  Route_other_method l m p : Forall (λ x, static_pattern (snd x) = true) l →
    (m, p) ∉ l → p ∈ snd <$> l → Route l m p = MethodNotAllowed;
  Route_unknown l m p : Forall (λ x, static_pattern (snd x) = true) l →
    m ∈ fst <$> l → p ∉ snd <$> l → Route l m p = NotFound;
  Route_no_handler l m p i : Forall (λ x, static_pattern (snd x) = true) l →
    Route l m p = Found i → l !! i = Some (m, p);
  RequestID_keeps r : Method (RequestID r) = Method r ∧ Path (RequestID r) = Path r
    ∧ Authorization (RequestID r) = Authorization r ∧ Body (RequestID r) = Body r;
  NotFound_status : Status NotFound_response = 404%Z;
  MethodNotAllowed_status : Status MethodNotAllowed_response = 405%Z;
  Recoverer_status : Status Recoverer_response = 500%Z;
}.

(** The storage behind the ports, and how often the clock was read. *)
Record state {W : Type} := mkState { store : W; ticks : nat }.
Arguments state : clear implicits.
Arguments mkState {W} _ _.

Section server.
Context `{U : UnicodeData} `{C : Clock} `{B : Bcrypt} `{J : JWTLib}.
Context {W : Type} `{PB : MailboxReader W} `{PM : MessageReader W} `{PD : DomainResolver W}
  `{PU : UserAuthenticator W}.

Definition port {A} (m : M W A) : M (state W) A := zoom store (λ w st, mkState w (ticks st)) m.
Definition read_clock : M (state W) Z := λ st, Ok (time_Now (ticks st), mkState (store st) (S (ticks st))).

Definition GenerateToken (userID : N) (username : gostring) : M (state W) (result gostring) :=
  t1 ← read_clock;
  t2 ← read_clock;
  mret (SignedString SigningMethodHS256
          (mkClaims userID username (Some (NewNumericDate (t1 + tokenTTL))) (NewNumericDate t2) (str "gomail-core"))
          jwtSecret).

Definition key_function (m : signing_method) : result gostring :=
  if negb (is_HMAC m) then Err (str "unexpected signing method: " ++ alg_of m) else Good jwtSecret.

(** ParseWithClaims only returns a valid token, with the claims it was given to fill. *)
Definition ValidateToken (tokenStr : gostring) : M (state W) (result Claims) :=
  now ← read_clock;
  mret (match ParseWithClaims tokenStr key_function now with
        | Err e => Err (wrap (str "invalid token") e)
        | Good claims => Good claims
        end).

Definition ExtractBearerToken (r : http_request) : result gostring :=
  let header := Authorization r in
  if bool_decide (header = []) then Err (str "missing Authorization header")
  else
    match SplitN2 header SP with
    | [p0; p1] => if EqualFold p0 (str "Bearer") then Good p1
                  else Err (str "invalid Authorization header format")
    | _ => Err (str "invalid Authorization header format")
    end.

Definition checkPassword (password hash : gostring) : bool :=
  match CompareHashAndPassword hash password with None => true | Some _ => false end.

Definition parseAddress (addr : gostring) : gostring * gostring * bool :=
  match SplitN2 addr "@"%char with
  | [u; d] => if bool_decide (u = []) || bool_decide (d = []) then ([], [], false) else (u, d, true)
  | _ => ([], [], false)
  end.

(** The encoder ends a value with a newline. *)
Definition writeJSON (status : Z) (v : json) : http_response :=
  mkHttpResponse status (str "application/json") (json_text v ++ [LF]).

Definition writeError (status : Z) (msg : gostring) : http_response :=
  writeJSON status (JObj [(str "error", JStr msg)]).

(** *** Methods (methods.go) *)

Definition mailboxRole (name : gostring) : gostring :=
  if bool_decide (name = str "INBOX") then str "inbox"
  else if bool_decide (name = str "Sent") then str "sent"
  else if bool_decide (name = str "Trash") then str "trash"
  else if bool_decide (name = str "Drafts") then str "drafts"
  else [].

Definition fail (type desc : gostring) : MethodResponse :=
  mkResponse (str "error") (enc_error (mkJError type desc)) [].

Definition accountId (claims : Claims) : gostring := str "u" ++ fmt_d (Claims_UserID claims).

Definition to_JMAPMailbox (mb : Mailbox) : JMAPMailbox :=
  mkJMAPMailbox (str "mb" ++ fmt_d (Mailbox_ID mb)) (Mailbox_Name mb) (mailboxRole (Mailbox_Name mb)) 0 0.

Definition to_JMAPEmail (msg : Message) : JMAPEmail :=
  mkJMAPEmail (str "e" ++ fmt_d (Message_ID msg)) [(str "mb" ++ fmt_d (Message_MailboxID msg), true)]
    (Message_Subject msg) [mkAddress (Message_EnvelopeFrom msg) []] [mkAddress (Message_EnvelopeTo msg) []]
    [] (Message_SizeBytes msg).

(** A map is written with its keys in order. *)
Definition handleMailboxGet (claims : Claims) (call : MethodCall) : M (state W) MethodResponse :=
  r ← port (ListMailboxes (Claims_UserID claims));
  mret (match r with
        | Err _ => fail (str "serverFail") (str "Failed to retrieve mailboxes")
        | Good mailboxes =>
            mkResponse (str "Mailbox/get")
              (JObj [(str "accountId", JStr (accountId claims));
                     (str "list", JArr (enc_mailbox ∘ to_JMAPMailbox <$> mailboxes));
                     (str "notFound", JArr [])]) []
        end).

Definition handleMailboxQuery (claims : Claims) (call : MethodCall) : M (state W) MethodResponse :=
  r ← port (ListMailboxes (Claims_UserID claims));
  mret (match r with
        | Err _ => fail (str "serverFail") (str "Failed to query mailboxes")
        | Good mailboxes =>
            let ids := (λ mb, str "mb" ++ fmt_d (Mailbox_ID mb)) <$> mailboxes in
            mkResponse (str "Mailbox/query")
              (JObj [(str "accountId", JStr (accountId claims)); (str "ids", str_list ids);
                     (str "position", JInt 0); (str "total", JInt (Z.of_nat (length ids)))]) []
        end).

Definition handleEmailGet (claims : Claims) (call : MethodCall) : M (state W) MethodResponse :=
  r ← port (FindMailbox (Claims_UserID claims) (str "INBOX"));
  match r with
  | Err _ => mret (fail (str "serverFail") (str "Failed to find inbox"))
  | Good inbox =>
  r ← port (ListMessages (Mailbox_ID inbox));
  mret (match r with
        | Err _ => fail (str "serverFail") (str "Failed to retrieve emails")
        | Good messages =>
            mkResponse (str "Email/get")
              (JObj [(str "accountId", JStr (accountId claims));
                     (str "list", JArr (enc_email ∘ to_JMAPEmail <$> messages));
                     (str "notFound", JArr [])]) []
        end)
  end.

Definition handleEmailQuery (claims : Claims) (call : MethodCall) : M (state W) MethodResponse :=
  r ← port (FindMailbox (Claims_UserID claims) (str "INBOX"));
  match r with
  | Err _ => mret (fail (str "serverFail") (str "Failed to find inbox"))
  | Good inbox =>
  r ← port (ListMessages (Mailbox_ID inbox));
  mret (match r with
        | Err _ => fail (str "serverFail") (str "Failed to query emails")
        | Good messages =>
            let ids := (λ msg, str "e" ++ fmt_d (Message_ID msg)) <$> messages in
            mkResponse (str "Email/query")
              (JObj [(str "accountId", JStr (accountId claims)); (str "canCalculateChanges", JBool false);
                     (str "ids", str_list ids); (str "position", JInt 0);
                     (str "total", JInt (Z.of_nat (length ids)))]) []
        end)
  end.

(** *** Handlers (server.go) *)

Definition dispatch (claims : Claims) (call : MethodCall) : M (state W) MethodResponse :=
  if bool_decide (Call_Name call = str "Mailbox/get") then handleMailboxGet claims call
  else if bool_decide (Call_Name call = str "Mailbox/query") then handleMailboxQuery claims call
  else if bool_decide (Call_Name call = str "Email/get") then handleEmailGet claims call
  else if bool_decide (Call_Name call = str "Email/query") then handleEmailQuery claims call
  else mret (mkResponse (str "error")
         (enc_error (mkJError (str "unknownMethod")
            (str "method " ++ Quote (Call_Name call) ++ str " is not supported"))) (Call_ID call)).

(** The loop of handleJMAP. *)
Fixpoint call_loop (claims : Claims) (calls : list MethodCall) : M (state W) (list MethodResponse) :=
  match calls with
  | [] => mret []
  | call :: calls' =>
      result ← dispatch claims call;
      rest ← call_loop claims calls';
      mret (mkResponse (Resp_Name result) (Resp_Result result) (Call_ID call) :: rest)
  end.

(** No response at all is the nil slice, which is written as null. *)
Definition enc_Response (responses : list MethodResponse) : json :=
  JObj [(str "methodResponses", match responses with [] => JNull | _ => JArr (MarshalJSON <$> responses) end);
        (str "sessionState", JStr (str "state-v1"))].

(** The type assertion on the user of the context panics when it is missing or not
    [*Claims]. *)
Definition user_of (r : http_request) : option Claims :=
  match Value contextKeyUser (Ctx r) with Some (VClaims c) => Some c | _ => None end.

Definition handleJMAP (r : http_request) : M (state W) http_response :=
  match dec_Request (Body r) with
  | None => mret (writeError 400 (str "Invalid request body"))
  | Some req =>
      claims ← or_panic (user_of r);
      responses ← call_loop claims (MethodCalls req);
      mret (writeJSON 200 (enc_Response responses))
  end.

Definition handler : Type := http_request → M (state W) http_response.

Definition authMiddleware (next : handler) : handler := λ r,
  match ExtractBearerToken r with
  | Err _ => mret (writeError 401 (str "Missing or invalid Authorization header"))
  | Good tokenStr =>
      v ← ValidateToken tokenStr;
      match v with
      | Err _ => mret (writeError 401 (str "Invalid or expired token"))
      | Good claims => next (WithContext (WithValue contextKeyUser (VClaims claims) (Ctx r)) r)
      end
  end.

(** POST /jmap, as NewServer registers it. *)
Definition jmap_endpoint : handler := authMiddleware handleJMAP.

(** POST /auth. *)
Definition handleAuth (r : http_request) : M (state W) http_response :=
  match dec_credentials (Body r) with
  | None => mret (writeError 400 (str "Invalid request body"))
  | Some (username, password) =>
      let '(localPart, domain, ok) := parseAddress username in
      if negb ok then mret (writeError 401 (str "Invalid credentials"))
      else
        r ← port (FindDomain domain);
        match r with
        | Err _ => mret (writeError 401 (str "Invalid credentials"))
        | Good d =>
        r ← port (FindUser localPart (Domain_ID d));
        match r with
        | Err _ => mret (writeError 401 (str "Invalid credentials"))
        | Good user =>
        if negb (checkPassword password (User_PasswordHash user))
        then mret (writeError 401 (str "Invalid credentials"))
        else
          t ← GenerateToken (User_ID user) username;
          mret (match t with
                | Err _ => writeError 500 (str "Failed to generate token")
                | Good token =>
                    writeJSON 200 (JObj [(str "accountId", JStr (str "u" ++ fmt_d (User_ID user)));
                                              (str "token", JStr token)])
                end)
        end end
  end.

(** GET /.well-known/jmap. *)
Definition handleSession (cfg : Config) (r : http_request) : M (state W) http_response :=
  who ← match ExtractBearerToken r with
        | Err _ => mret ([], [])
        | Good tokenStr =>
            v ← ValidateToken tokenStr;
            mret (match v with Err _ => ([], []) | Good claims => (Claims_Username claims, accountId claims) end)
        end;
  let '(username, account) :=
    if bool_decide (snd who = []) then (str "anonymous", str "anonymous") else who in
  mret (writeJSON 200 (enc_session {|
    Capabilities := [
       (CapabilityCore, JObj [
          (str "maxCallsInRequest", JInt 16); (str "maxConcurrentRequests", JInt 4);
          (str "maxConcurrentUpload", JInt 4); (str "maxObjectsInGet", JInt 500);
          (str "maxObjectsInSet", JInt 500); (str "maxSizeRequest", JInt (10 * 1024 * 1024));
          (str "maxSizeUpload", JInt (50 * 1024 * 1024))]);
       (CapabilityMail, JObj [])];
    Accounts := [(account, mkAccount username true [(CapabilityMail, JObj [])])];
    PrimaryAccounts := [(CapabilityMail, account)];
    Sess_Username := username;
    APIURL := str "http://" ++ JMAP_Addr (JMAP cfg) ++ str "/jmap";
    Sess_State := str "state-v1" |})).

(** *** Routes and middleware (server.go) *)

Context `{CH : Chi}.

Record route := mkRoute { r_method : gostring; r_pattern : gostring; r_handler : handler }.

(** The routes that NewServer registers. *)
Definition routes (cfg : Config) : list route := [
  mkRoute (str "GET") (str "/.well-known/jmap") (handleSession cfg);
  mkRoute (str "POST") (str "/auth") handleAuth;
  mkRoute (str "POST") (str "/jmap") (authMiddleware handleJMAP) ].

Definition patterns (l : list route) : list (gostring * gostring) := (λ x, (r_method x, r_pattern x)) <$> l.

(** The router hands the request to the handler of the route it finds. *)
Definition route_request (l : list route) : handler := λ r,
  match Route (patterns l) (Method r) (Path r) with
  | Found i => match l !! i with Some x => r_handler x r | None => mret NotFound_response end
  | MethodNotAllowed => mret MethodNotAllowed_response
  | NotFound => mret NotFound_response
  end.

(** A line of the log: method, path and status. *)
Definition access : Type := gostring * gostring * Z.

Definition logMiddleware (next : handler) (r : http_request) : M (state W) (http_response * option access) :=
  resp ← next r;
  mret (resp, Some (Method r, Path r, Status resp)).

(** Recoverer (chi): a panic below it is answered instead of ending the connection. What the
    handler had done to the store by then is not followed: no handler panics
    ([jmap_serves_every_request]). *)
Definition Recoverer (next : http_request → M (state W) (http_response * option access)) (r : http_request)
    : M (state W) (http_response * option access) := λ st,
  match next r st with
  | Panic => Ok ((Recoverer_response, None), st)
  | o => o
  end.

(** [NewServer]: the middleware in the order of Use, around the router. *)
Definition ServeHTTP (cfg : Config) (r : http_request) : M (state W) (http_response * option access) :=
  Recoverer (logMiddleware (route_request (routes cfg))) (RequestID r).
End server.
