(* ===== verification/HttpServer.v ===== *)
(** * The JMAP server's [Start] (internal/jmap/server.go)

    [Start] runs an [http.Server] and leaves a goroutine that shuts it down after the
    signal. What it uses of net/http is written out: ListenAndServe returns ErrServerClosed
    as soon as Shutdown has begun, without waiting for the requests in flight; Shutdown
    closes the listener and the idle connections and waits until no connection is left or
    its context expires; a handler's panic closes its connection only. As in [Server.v] the
    decisions of the network, the scheduler and the operator are events. *)

From S2P Require Import Prelude GoStrings GoIO Config Ports Security Server Jmap.

(** The server's side of a connection: accepted, running the handler for a request, waiting
    for the next request, or closed. *)
Inductive http_conn := CNew | CActive (r : http_request) | CIdle | CClosed.

(** The goroutine of [Start]: before ListenAndServe has opened its port, in its accept loop,
    or returned. *)
Inductive http_pc := HListen | HServe | HReturned (err : option gostring).
(** The goroutine that waits for the context; [ShutDone err]: Shutdown has returned. *)
Inductive shut_pc := ShutWait | ShutPolling | ShutDone (err : option gostring).

Record http_server := mkHttpServer {
  h_start : http_pc;
  h_shut : shut_pc;
  h_cancelled : bool;
  h_conns : list http_conn;
  h_answered : list (http_request * http_response);
  h_log : list access;
  h_ticks : nat;
  h_proc : process;
}.

Inductive http_event :=
| HListenReturns (err : option gostring)      (** net.Listen inside ListenAndServe *)
| HAccept                                     (** a connection is accepted *)
| HAcceptFails (msg : gostring)               (** Accept fails for good *)
| HRequest (i : nat) (r : http_request)       (** a request has been read from connection [i] *)
| HRespond (i : nat)                          (** its handler runs and the response is sent *)
| HDisconnect (i : nat)                       (** the client closes a connection between requests *)
| HClosed                                     (** the accept loop notices Shutdown *)
| HShut                                       (** the waiting goroutine goes on *)
| HExpired                                    (** the context of Shutdown expires *)
| HCancel                                     (** the signal arrives *)
| HExit.                                      (** main returns after Start *)

Definition http_new : http_server := mkHttpServer HListen ShutWait false [] [] [] 0 Running.

Definition h_set_start (p : http_pc) (s : http_server) : http_server :=
  mkHttpServer p (h_shut s) (h_cancelled s) (h_conns s) (h_answered s) (h_log s) (h_ticks s) (h_proc s).
Definition h_set_shut (p : shut_pc) (s : http_server) : http_server :=
  mkHttpServer (h_start s) p (h_cancelled s) (h_conns s) (h_answered s) (h_log s) (h_ticks s) (h_proc s).
Definition h_set_cancelled (s : http_server) : http_server :=
  mkHttpServer (h_start s) (h_shut s) true (h_conns s) (h_answered s) (h_log s) (h_ticks s) (h_proc s).
Definition h_set_conns (l : list http_conn) (s : http_server) : http_server :=
  mkHttpServer (h_start s) (h_shut s) (h_cancelled s) l (h_answered s) (h_log s) (h_ticks s) (h_proc s).
Definition h_set_proc (p : process) (s : http_server) : http_server :=
  mkHttpServer (h_start s) (h_shut s) (h_cancelled s) (h_conns s) (h_answered s) (h_log s) (h_ticks s) p.

(** [srv.shuttingDown()]. *)
Definition shutting_down (s : http_server) : bool :=
  match h_shut s with ShutWait => false | _ => true end.

(** ListenAndServe up to its accept loop, and what [Start] makes of its result:
    ErrServerClosed is not an error. *)
Definition ListenAndServe (err : option gostring) (s : http_server) : http_server :=
  if shutting_down s then h_set_start (HReturned None) s
  else match err with
       | Some e => h_set_start (HReturned (Some e)) s
       | None => h_set_start HServe s
       end.

(** closeIdleConns. *)
Definition close_idle (c : http_conn) : http_conn := match c with CIdle => CClosed | _ => c end.
Definition conn_open (c : http_conn) : bool := match c with CClosed => false | _ => true end.

(** The goroutine of [Start]: after the signal it begins Shutdown, which waits for the accept
    loop to return and then closes the idle connections again and again, until none is
    open. *)
Definition shut_step (s : http_server) : option http_server :=
  match h_shut s with
  | ShutWait => if h_cancelled s then Some (h_set_shut ShutPolling s) else None
  | ShutPolling =>
      match h_start s with
      | HServe => None
      | _ =>
          let l := close_idle <$> h_conns s in
          let s := h_set_conns l s in
          Some (if existsb conn_open l then s else h_set_shut (ShutDone None) s)
      end
  | ShutDone _ => None
  end.

Section start.
Context `{U : UnicodeData} `{C : Clock} `{B : Bcrypt} `{J : JWTLib}.
Context {W : Type} `{PB : MailboxReader W} `{PM : MessageReader W} `{PD : DomainResolver W}
  `{PU : UserAuthenticator W} `{CH : Chi}.

(** One request: the handler runs on the store as it is now; the connection is kept for the
    next request, unless the server is shutting down. A panic that reaches net/http closes
    the connection without a response. *)
Definition respond (cfg : Config) (i : nat) (r : http_request) (w : W) (s : http_server)
    : option (http_server * W) :=
  match ServeHTTP cfg r (mkState w (h_ticks s)) with
  | Ok ((resp, line), st) =>
      Some (mkHttpServer (h_start s) (h_shut s) (h_cancelled s)
              (<[i := if shutting_down s then CClosed else CIdle]> (h_conns s))
              (h_answered s ++ [(r, resp)])
              (h_log s ++ match line with Some l => [l] | None => [] end) (ticks st) (h_proc s), store st)
  | Panic => Some (h_set_conns (<[i := CClosed]> (h_conns s)) s, w)
  | NoFuel => None
  end.

Definition http_step (cfg : Config) (e : http_event) (sw : http_server * W) : option (http_server * W) :=
  let '(s, w) := sw in
  match h_proc s with
  | Running =>
      match e with
      | HListenReturns err =>
          match h_start s with HListen => Some (ListenAndServe err s, w) | _ => None end
      | HAccept =>
          match h_start s with
          | HServe => Some (h_set_conns (h_conns s ++ [CNew]) s, w)
          | _ => None
          end
      | HAcceptFails msg =>
          match h_start s with
          | HServe => if shutting_down s then None else Some (h_set_start (HReturned (Some msg)) s, w)
          | _ => None
          end
      | HRequest i r =>
          match h_conns s !! i with
          | Some (CNew | CIdle) => Some (h_set_conns (<[i := CActive r]> (h_conns s)) s, w)
          | _ => None
          end
      | HRespond i => match h_conns s !! i with Some (CActive r) => respond cfg i r w s | _ => None end
      | HDisconnect i =>
          match h_conns s !! i with
          | Some (CNew | CIdle) => Some (h_set_conns (<[i := CClosed]> (h_conns s)) s, w)
          | _ => None
          end
      | HClosed =>
          match h_start s with
          | HServe => if shutting_down s then Some (h_set_start (HReturned None) s, w) else None
          | _ => None
          end
      | HShut => (λ s', (s', w)) <$> shut_step s
      | HExpired =>
          match h_shut s with
          | ShutPolling => Some (h_set_shut (ShutDone (Some (str "context deadline exceeded"))) s, w)
          | _ => None
          end
      | HCancel => Some (h_set_cancelled s, w)
      | HExit => match h_start s with HReturned _ => Some (h_set_proc Exited s, w) | _ => None end
      end
  | _ => None
  end.

Fixpoint http_run (cfg : Config) (es : list http_event) (sw : http_server * W) : option (http_server * W) :=
  match es with
  | [] => Some sw
  | e :: es' => sw' ← http_step cfg e sw; http_run cfg es' sw'
  end.
End start.
