(* ===== verification/JmapTheorems.v ===== *)
(** * What the JMAP server guarantees *)

From S2P Require Import Prelude GoStrings GoIO FSM Config Mysql MysqlProps Redis MysqlTheorems Smtp Concrete.
From S2P Require Import MessageStore StorageProps StorageTheorems Ports Security Json JsonProps Jmap.

(** ** A token library

    A token is the method, the key, the user, the times, the issuer and the name, separated
    by dots; only the HS256 method signs. It satisfies the laws, and is of course no
    cryptography. *)

Definition dotted (m key : gostring) (c : Claims) : gostring :=
  m ++ str "." ++ key ++ str "." ++ fmt_d (Claims_UserID c) ++ str "."
    ++ match ExpiresAt c with Some e => fmt_d e | None => [] end ++ str "." ++ fmt_d (IssuedAt c) ++ str "."
    ++ Issuer c ++ str "." ++ Claims_Username c.

Definition int64b (z : Z) : bool := ((- 2 ^ 63 <=? z) && (z <? 2 ^ 63))%Z.
Definition no_dot (s : gostring) : bool := bool_decide ("."%char ∉ s).

Definition toy_claims (tok : gostring) : option Claims :=
  '(_, r) ← cut_at "."%char tok;
  '(_, r) ← cut_at "."%char r;
  '(u, r) ← cut_at "."%char r;
  '(e, r) ← cut_at "."%char r;
  '(i, r) ← cut_at "."%char r;
  '(iss, name) ← cut_at "."%char r;
  u ← Atoi u;
  e ← (if bool_decide (e = []) then Some None else Some <$> Atoi e);
  i ← Atoi i;
  Some (mkClaims (Z.to_N u) name e i iss).

Definition toy_method (tok : gostring) : option signing_method :=
  '(a, _) ← cut_at "."%char tok;
  Some (if bool_decide (a = str "HS256") then SigningMethodHS256 else OtherMethod a).

Definition toy_signature (m : signing_method) (key tok : gostring) : bool :=
  HasPrefix tok (str "HS256." ++ key ++ str ".").

Definition toy_sign (m : signing_method) (c : Claims) (key : gostring) : result gostring :=
  match m with
  | SigningMethodHS256 =>
      if no_dot key && no_dot (Issuer c) && int64b (Z.of_N (Claims_UserID c)) && int64b (IssuedAt c)
         && match ExpiresAt c with Some e => int64b e | None => true end
      then Good (dotted (str "HS256") key c) else Err (str "cannot sign")
  | _ => Err (str "unknown method")
  end.

#[export] Instance toy_jwt : JWTLib := {
  token_method := toy_method;
  token_claims := toy_claims;
  signature_ok := toy_signature;
  SignedString := toy_sign;
  ParseWithClaims tok keyfn now :=
    match toy_method tok with
    | None => Err (str "token is malformed")
    | Some m =>
        match keyfn m with
        | Err e => Err e
        | Good key =>
            match toy_claims tok with
            | Some c => if toy_signature m key tok && unexpired now c then Good c
                        else Err (str "signature or expiry")
            | None => Err (str "claims")
            end
        end
    end;
}.

Lemma fmt_no_dot_N (n : N) : "."%char ∉ fmt_d n.
Proof.
  destruct (fmt_d_N_digits n) as [HF _]. rewrite Forall_forall in HF.
  intros H%HF. vm_compute in H. by destruct H.
Qed.

Lemma fmt_no_dot_Z (z : Z) : "."%char ∉ fmt_d z.
Proof.
  destruct z as [|p|p]; [apply (fmt_no_dot_N 0)|apply (fmt_no_dot_N (Npos p))|].
  change (fmt_d (Zneg p)) with ("-"%char :: fmt_d (Npos p)).
  apply not_elem_of_cons. split; [done|apply fmt_no_dot_N].
Qed.

Lemma int64b_spec z : int64b z = true ↔ (- 2 ^ 63 ≤ z < 2 ^ 63)%Z.
Proof. unfold int64b. rewrite andb_true_iff, Z.leb_le, Z.ltb_lt. done. Qed.

Lemma toy_claims_dotted key c :
  no_dot key = true → no_dot (Issuer c) = true → int64b (Z.of_N (Claims_UserID c)) = true →
  int64b (IssuedAt c) = true → match ExpiresAt c with Some e => int64b e | None => true end = true →
  toy_claims (dotted (str "HS256") key c) = Some c.
Proof.
  intros Hk Hi Hu Hia He. apply bool_decide_eq_true_1 in Hk, Hi. apply int64b_spec in Hu, Hia.
  unfold toy_claims, dotted.
  repeat match goal with |- context [str "." ++ ?x] => change (str "." ++ x) with ("."%char :: x) end.
  rewrite cut_at_app by by_computation. cbn [mbind option_bind].
  rewrite cut_at_app by done. cbn [mbind option_bind].
  rewrite cut_at_app by apply fmt_no_dot_N. cbn [mbind option_bind].
  rewrite cut_at_app by (destruct (ExpiresAt c); [apply fmt_no_dot_Z|by inversion 1]). cbn [mbind option_bind].
  rewrite cut_at_app by apply fmt_no_dot_Z. cbn [mbind option_bind].
  rewrite cut_at_app by done. cbn [mbind option_bind].
  replace (fmt_d (Claims_UserID c)) with (fmt_d (Z.of_N (Claims_UserID c))) by by destruct (Claims_UserID c).
  destruct c as [u name [e|] i iss]; cbn [ExpiresAt IssuedAt Claims_UserID Claims_Username Issuer] in *.
  - apply int64b_spec in He. rewrite bool_decide_false.
    + rewrite !Atoi_fmt by done. simpl. rewrite ?Atoi_fmt by done. simpl. rewrite ?Atoi_fmt by done.
      simpl. by rewrite N2Z.id.
    + intros E. apply (f_equal Atoi) in E. by rewrite Atoi_fmt in E.
  - rewrite bool_decide_true by done. rewrite !Atoi_fmt by done. simpl. rewrite ?Atoi_fmt by done.
    simpl. by rewrite N2Z.id.
Qed.

#[export] Instance toy_jwt_laws : JWTLaws toy_jwt.
Proof.
  split.
  - intros tok keyfn now c. simpl. split.
    + repeat case_match; intros; simplify_eq.
      match goal with H : (_ && _)%bool = true |- _ => apply andb_true_iff in H as [? ?] end. eauto 10.
    + intros (m & key & -> & -> & Hs & -> & Hu). by rewrite Hs, Hu.
  - intros [|a|a] c key tok; simpl; [|done..]. destruct (_ && _) eqn:E; [|done]. intros [= <-].
    repeat (apply andb_true_iff in E as [E ?]).
    split_and!; [|by apply toy_claims_dotted|].
    + unfold toy_method, dotted. change (str "." ++ ?x) with ("."%char :: x).
      rewrite cut_at_app by by_computation. done.
    + unfold toy_signature, dotted. apply HasPrefix_true. eexists. rewrite <- !(assoc_L (++)). done.
Qed.

(** ** Authentication *)

Section tokens.
Context `{U : UnicodeData} `{C : Clock} `{B : Bcrypt} `{J : JWTLib} `{JL : !JWTLaws J}.
Context {W : Type} `{PB : MailboxReader W} `{PM : MessageReader W} `{PD : DomainResolver W}
  `{PU : UserAuthenticator W} `{RR : !ReadersReturn W}.
Implicit Types st : state W.

Lemma dispatch_returns claims call : returns (dispatch (W := W) claims call).
Proof.
  unfold dispatch, handleMailboxGet, handleMailboxQuery, handleEmailGet, handleEmailQuery, port.
  repeat case_match; repeat first [apply returns_bind; [|intros ?] | apply returns_ret | apply returns_zoom];
    try case_match; repeat first [apply returns_bind; [|intros ?] | apply returns_ret | apply returns_zoom];
    first [apply list_mailboxes_returns | apply find_mailbox_returns | apply list_messages_returns].
Qed.



(** The request as the middleware passes it on. *)
Definition as_user (c : Claims) (r : http_request) : http_request :=
  WithContext (WithValue contextKeyUser (VClaims c) (Ctx r)) r.


(** A token that the server accepts at time [now]. *)
Definition accepted_token (tok : gostring) (now : Z) (c : Claims) : Prop :=
  ∃ m, token_method tok = Some m ∧ is_HMAC m = true ∧ signature_ok m jwtSecret tok = true
    ∧ token_claims tok = Some c ∧ unexpired now c = true.

Lemma ValidateToken_spec tok st :
  ∃ r, ValidateToken tok st = Ok (r, mkState (store st) (S (ticks st)))
    ∧ match r with
      | Good c => accepted_token tok (time_Now (ticks st)) c
      | Err _ => ¬ ∃ c, accepted_token tok (time_Now (ticks st)) c
      end.
Proof.
  unfold ValidateToken, read_clock, mbind, M_bind, mret, M_ret. simpl.
  assert (∀ c, ParseWithClaims tok key_function (time_Now (ticks st)) = Good c
    ↔ accepted_token tok (time_Now (ticks st)) c) as Hp.
  { intros c. rewrite parse_iff. unfold accepted_token, key_function. split.
    - intros (m & key & Hm & Hk & Hs & Hc & He). exists m. destruct (is_HMAC m); simplify_eq/=. done.
    - intros (m & Hm & Hh & Hs & Hc & He). exists m, jwtSecret. rewrite Hh. done. }
  destruct (ParseWithClaims _ _ _) as [c|e]; eexists; (split; [done|]).
  - by apply Hp.
  - intros [c Hc%Hp]. done.
Qed.


Definition bearer (tok body : gostring) (ctx : context) : http_request :=
  mkHttp (str "POST") (str "/jmap") (str "Bearer " ++ tok) body ctx.

Lemma Bearer_extract tok body ctx : ExtractBearerToken (bearer tok body ctx) = Good tok.
Proof.
  unfold ExtractBearerToken, SplitN2, bearer. cbn [Authorization].
  change (str "Bearer " ++ tok) with (str "Bearer" ++ SP :: tok).
  rewrite bool_decide_false by done. rewrite cut_at_app by by_computation.
  by replace (EqualFold (str "Bearer") (str "Bearer")) with true by (vm_compute; reflexivity).
Qed.

(** C12: /auth answers 200 only to the password of an existing user, and the token in its
    answer then opens the API as that user until 24 hours (less the fraction of a second)
    after it was made; from then on the API refuses it. *)
Theorem jmap_auth_then_api (r : http_request) st resp st1 st2 body ctx :
  handleAuth r st = Ok (resp, st1) → Status resp = 200%Z →
  ∃ username password loc dom d u w1 w2 tok,
    dec_credentials (Body r) = Some (username, password) ∧ parseAddress username = (loc, dom, true)
    ∧ FindDomain dom (store st) = Ok (Good d, w1) ∧ FindUser loc (Domain_ID d) w1 = Ok (Good u, w2)
    ∧ checkPassword password (User_PasswordHash u) = true
    ∧ resp = writeJSON 200 (JObj [(str "accountId", JStr (str "u" ++ fmt_d (User_ID u))); (str "token", JStr tok)])
    ∧ let expiry := (NewNumericDate (time_Now (ticks st) + tokenTTL) * 1000000000)%Z in
      ((time_Now (ticks st2) < expiry)%Z →
       ∃ c, Claims_UserID c = User_ID u ∧ Claims_Username c = username
         ∧ jmap_endpoint (bearer tok body ctx) st2
           = handleJMAP (as_user c (bearer tok body ctx)) (mkState (store st2) (S (ticks st2))))
      ∧ ((expiry ≤ time_Now (ticks st2))%Z →
         ∃ msg, jmap_endpoint (bearer tok body ctx) st2
           = Ok (writeError 401 msg, mkState (store st2) (S (ticks st2)))).
Proof.
  unfold handleAuth. destruct (dec_credentials (Body r)) as [[username password]|] eqn:Ec; [|by intros [= <- _]].
  destruct (parseAddress username) as [[loc dom] []] eqn:Ea; cbn [negb]; [|by intros [= <- _]].
  unfold mbind, M_bind, port at 1, zoom at 1.
  destruct (find_domain_returns dom (store st)) as ([d|e] & w1 & E1); rewrite E1; [|by intros [= <- _]].
  unfold port, zoom. cbn [store ticks].
  destruct (find_user_returns loc (Domain_ID d) w1) as ([u|e] & w2 & E2); rewrite E2; [|by intros [= <- _]].
  destruct (checkPassword password (User_PasswordHash u)) eqn:Hp; cbn [negb]; [|by intros [= <- _]].
  unfold GenerateToken, read_clock, mbind, M_bind, mret, M_ret. cbn [ticks store].
  destruct (SignedString _ _ _) as [tok|e] eqn:Es; [|by intros [= <- _]]. intros [= <- _] _.
  apply signed_token in Es as (Hm & Hcl & Hsig).
  exists username, password, loc, dom, d, u, w1, w2, tok. do 6 (split; [done|]). cbv zeta.
  unfold jmap_endpoint, authMiddleware. rewrite Bearer_extract.
  destruct (ValidateToken_spec tok st2) as (v & Ev & Hv). unfold mbind, M_bind. rewrite Ev.
  split; intros Ht.
  - destruct v as [c|e].
    + destruct Hv as (m & _ & _ & _ & Hc & _). rewrite Hcl in Hc. simplify_eq.
      by refine (ex_intro _ _ (conj _ (conj _ eq_refl))).
    + exfalso. apply Hv. eexists. exists SigningMethodHS256. split_and!; try done.
      unfold unexpired. simpl. by apply Z.ltb_lt.
  - destruct v as [c|e].
    + exfalso. destruct Hv as (m & _ & _ & _ & Hc & Hu). rewrite Hcl in Hc. simplify_eq.
      unfold unexpired in Hu. simpl in Hu. apply Z.ltb_lt in Hu. lia.
    + by eexists.
Qed.
End tokens.

(** ** Requests and responses *)

(** How a client writes a call and a request. *)
Definition enc_call (c : MethodCall) : json :=
  JArr [JStr (Call_Name c); match Call_Args c with Some a => JObj a | None => JNull end; JStr (Call_ID c)].
Definition enc_Request (r : Request) : json :=
  JObj [(str "using", str_list (Using r)); (str "methodCalls", JArr (enc_call <$> MethodCalls r))].

Section requests.
Context `{U : UnicodeData}.

(** A request that can be written: valid UTF-8, arguments of a bounded depth whose numbers
    are literals that fit float64. *)
Definition args_ok (n : nat) (args : option (list (gostring * json))) : Prop :=
  match args with
  | Some f => printable n (JObj f) ∧ json_valid (JObj f) = JObj f ∧ numbers_ok (JObj f) = true
  | None => True
  end.
Definition call_ok (n : nat) (c : MethodCall) : Prop :=
  utf8_ok (Call_Name c) = true ∧ utf8_ok (Call_ID c) = true ∧ args_ok n (Call_Args c).
Definition request_ok (n : nat) (r : Request) : Prop :=
  Forall (λ s, utf8_ok s = true) (Using r) ∧ Forall (call_ok n) (MethodCalls r) ∧ n + 3 ≤ maxNestingDepth.

Lemma printable_mono n m v : n ≤ m → printable n v → printable m v.
Proof.
  revert m v. induction n as [n IH] using lt_wf_ind. intros m v Hle Hp.
  destruct Hp as [| | | |n l HF|n l HF]; [constructor; done..| |];
    (destruct m as [|m]; [lia|]; constructor; eapply Forall_impl; [exact HF|]; intros v Hv; apply (IH n); [lia..|done]).
Qed.

Lemma enc_call_printable n c : call_ok n c → printable (S n) (enc_call c).
Proof.
  intros (_ & _ & Ha). constructor. unfold args_ok in Ha. destruct (Call_Args c) as [f|];
    repeat (apply Forall_cons; split); try apply Forall_nil_2; try constructor. apply Ha.
Qed.

Lemma enc_Request_printable n r : request_ok n r → printable (n + 3) (enc_Request r).
Proof.
  intros (_ & Hc & _). replace (n + 3) with (S (S (S n))) by lia. constructor.
  repeat (apply Forall_cons; split); try apply Forall_nil_2; simpl; constructor; apply Forall_fmap.
  - apply Forall_true. intros s. constructor.
  - eapply Forall_impl; [exact Hc|]. apply enc_call_printable.
Qed.

Lemma map_valid {A} (f : A → json) (l : list A) :
  Forall (λ a, json_valid (f a) = f a) l → map json_valid (f <$> l) = f <$> l.
Proof. induction 1 as [|a l Ha _ IH]; simpl; [done|]. f_equal; done. Qed.

Lemma enc_call_valid n c : call_ok n c → json_valid (enc_call c) = enc_call c.
Proof.
  intros (Hn & Hi & Ha). unfold enc_call. cbn [json_valid map]. rewrite !to_valid_ok by done.
  destruct (Call_Args c) as [f|]; [|done]. destruct Ha as (_ & Ha & _). by rewrite Ha.
Qed.

Lemma enc_Request_valid n r : request_ok n r → json_valid (enc_Request r) = enc_Request r.
Proof.
  intros (Hu & Hc & _). unfold enc_Request, str_list. rewrite json_valid_obj. cbn [map]. unfold member_valid.
  cbn [fst snd json_valid]. rewrite !map_valid.
  - done.
  - eapply Forall_impl; [exact Hc|]. apply enc_call_valid.
  - eapply Forall_impl; [exact Hu|]. intros s Hs. simpl. by rewrite to_valid_ok.
Qed.

Lemma dec_elems_enc {A} (dec : A → json → option A) (zero : A) (enc : A → json) (l : list A) :
  Forall (λ a, dec zero (enc a) = Some a) l → dec_elems dec zero [] (enc <$> l) = Some l.
Proof.
  induction 1 as [|a l Ha _ IH]; [done|]. rewrite fmap_cons. cbn [dec_elems head tail default from_option].
  rewrite Ha. cbn [mbind option_bind]. by rewrite IH.
Qed.

Lemma dec_slice_enc {A} (dec : A → json → option A) (zero : A) (enc : A → json) (l : list A) :
  Forall (λ a, dec zero (enc a) = Some a) l →
  dec_slice dec zero (mkSlice [] []) (JArr (enc <$> l)) = Some (mkSlice l []).
Proof.
  intros H%dec_elems_enc. unfold dec_slice. destruct l as [|a l]; [done|]. rewrite fmap_cons in *.
  cbn [elems spare app]. by rewrite H.
Qed.

Lemma dec_call_enc n c : call_ok n c → dec_call zero_call (enc_call c) = Some c.
Proof.
  intros (_ & _ & Ha). unfold dec_call, enc_call, UnmarshalJSON. destruct c as [nm [f|] i]; [|done].
  destruct Ha as (_ & _ & Ha). cbn [Call_Name Call_Args Call_ID dec_string dec_map] in *. by rewrite Ha.
Qed.

Lemma dec_elems_bad (old : list MethodCall) calls1 calls2 bad :
  (∀ r0 r1 r2, bad ≠ JArr [r0; r1; r2]) → dec_elems dec_call zero_call old (calls1 ++ bad :: calls2) = None.
Proof.
  intros Hbad. revert old. induction calls1 as [|x l IH]; intros old; cbn [app dec_elems].
  - assert (∀ m, dec_call m bad = None) as Hn.
    { intros m. unfold dec_call, UnmarshalJSON.
      destruct bad as [| | | |[|r0 [|r1 [|r2 [|]]]]|]; try done. by destruct (Hbad r0 r1 r2). }
    by rewrite Hn.
  - destruct (dec_call _ x); [|done]. cbn [mbind option_bind]. by rewrite IH.
Qed.

Lemma dec_fields_reject {A} (set : gostring → json → A → option A) f1 k v f2 a :
  (∀ a, set k v a = None) → dec_fields set (f1 ++ (k, v) :: f2) a = None.
Proof.
  intros H. revert a. induction f1 as [|[k1 v1] f1 IH]; intros a; cbn [app dec_fields]; [by rewrite H|].
  destruct (set k1 v1 a); [apply IH|done].
Qed.

(** C31: a request whose strings are valid UTF-8, with arguments of bounded depth and numbers
    that fit float64, written as a JSON text the way the encoder here does (no white space,
    the keys "using" and "methodCalls" in this order) and with any bytes behind it, is decoded
    as it is: the same capabilities, methods, arguments and call ids in the same order; and
    any body that is an object with a field "methodCalls" among others, in which a call is not
    an array of three elements, is rejected. *)
Theorem jmap_request_roundtrip n (r : Request) rest body fields1 calls1 bad calls2 fields2 :
  (request_ok n r → dec_Request (json_text (enc_Request r) ++ rest) = Some r)
  ∧ (Decode body = Some (JObj (fields1 ++ (str "methodCalls", JArr (calls1 ++ bad :: calls2)) :: fields2)) →
     (∀ r0 r1 r2, bad ≠ JArr [r0; r1; r2]) → dec_Request body = None).
Proof.
  assert (key_is (str "using") (str "using") = true) as K1 by (vm_compute; reflexivity).
  assert (key_is (str "methodCalls") (str "methodCalls") = true) as K2 by (vm_compute; reflexivity).
  assert (key_is (str "methodCalls") (str "using") = false) as K3 by (vm_compute; reflexivity).
  split.
  - intros Hr. unfold dec_Request. unfold enc_Request at 1.
    rewrite (Decode_object (n + 3)); [fold (enc_Request r)|by apply enc_Request_printable|apply Hr].
    rewrite (enc_Request_valid n) by done. unfold enc_Request, str_list.
    cbn [mbind option_bind dec_struct dec_fields fst snd]. rewrite K1, K2, K3.
    rewrite (dec_slice_enc dec_string [] JStr) by by apply Forall_true. cbn [mbind option_bind fst snd].
    rewrite (dec_slice_enc dec_call zero_call enc_call).
    + simpl. by destruct r.
    + destruct Hr as (_ & Hc & _). eapply Forall_impl; [exact Hc|]. apply dec_call_enc.
  - intros E Hbad. unfold dec_Request. rewrite E. cbn [mbind option_bind dec_struct].
    rewrite dec_fields_reject; [done|]. intros a. rewrite K2, K3. unfold dec_slice.
    rewrite (dec_elems_bad _ calls1 calls2 bad Hbad). by destruct calls1.
Qed.
End requests.

Section responses.
Context `{U : UnicodeData} `{C : Clock} `{B : Bcrypt} `{J : JWTLib}.
Context {W : Type} `{PB : MailboxReader W} `{PM : MessageReader W} `{PD : DomainResolver W}
  `{PU : UserAuthenticator W} `{RR : !ReadersReturn W}.
Implicit Types st : state W.

(** The answer to a call: the call's id, and the method's name or "error". *)
Definition answers_call (call : MethodCall) (resp : MethodResponse) : Prop :=
  Resp_CallID resp = Call_ID call ∧ (Resp_Name resp = Call_Name call ∨ Resp_Name resp = str "error").

Lemma dispatch_name claims call st :
  wp (dispatch claims call) st (λ r _, Resp_Name r = Call_Name call ∨ Resp_Name r = str "error").
Proof.
  pose proof (wp_returns _ st (dispatch_returns claims call)) as H. eapply wp_mono; [exact H|].
  intros r st' E. clear H. revert E.
  unfold dispatch, handleMailboxGet, handleMailboxQuery, handleEmailGet, handleEmailQuery, mbind, M_bind,
    mret, M_ret.
  repeat (case_bool_decide as Hn; [|clear Hn]); [rewrite Hn..|];
    repeat case_match; intros; simplify_eq/=; auto.
Qed.

(** C30: the API answers every call of a request, in order, each with the id of its call and
    the name of its method or "error"; a body that does not decode is answered 400 without
    touching the store. *)
Theorem jmap_answers_every_call claims (r : http_request) st :
  user_of r = Some claims →
  match dec_Request (Body r) with
  | None => handleJMAP r st = Ok (writeError 400 (str "Invalid request body"), st)
  | Some req => ∃ rs st', handleJMAP r st = Ok (writeJSON 200 (enc_Response rs), st')
      ∧ Forall2 answers_call (MethodCalls req) rs
  end.
Proof.
  intros Hu. unfold handleJMAP. destruct (dec_Request (Body r)) as [req|]; [|done]. rewrite Hu.
  enough (wp (call_loop claims (MethodCalls req)) st (λ rs _, Forall2 answers_call (MethodCalls req) rs)) as Hw.
  { apply wp_run in Hw as (rs & st' & E & HF). exists rs, st'. unfold or_panic, mbind, M_bind, mret, M_ret. by rewrite E. }
  revert st. induction (MethodCalls req) as [|call calls IH]; intros st; cbn [call_loop]; [by apply wp_ret|].
  apply wp_bind. eapply wp_mono; [apply dispatch_name|]. intros resp st1 Hn.
  apply wp_bind. eapply wp_mono; [apply IH|]. intros rs st2 HF. apply wp_ret. by constructor.
Qed.

End responses.

(** ** The API on the message store *)

Section isolation.
Context `{R : RedisLib} `{K : Collation} `{U : UnicodeData} `{C : Clock} `{B : Bcrypt} `{J : JWTLib}.
Implicit Types st : state World.












End isolation.

(** ** Witnesses *)

Definition login_request : http_request :=
  mkHttp (str "POST") (str "/auth") []
    (json_text (JObj [(str "username", JStr (str "u@x.org")); (str "Password", JStr (str "password"))])) [].

Lemma jmap_auth_then_api_witness :
  ∃ resp st1, handleAuth login_request (mkState Demo 0) = Ok (resp, st1) ∧ Status resp = 200%Z
    ∧ ∃ tok c body st2, Claims_UserID c = 7%N
      ∧ jmap_endpoint (bearer tok body []) st2
        = handleJMAP (W := demo) (as_user c (bearer tok body [])) (mkState (store st2) (S (ticks st2))).
Proof.
  destruct (handleAuth login_request (mkState Demo 0)) as [[resp st1]| |] eqn:E;
    [|vm_compute in E; discriminate..].
  assert (Status resp = 200%Z) as Hs by (vm_compute in E; by injection E as <- _).
  exists resp, st1. split; [done|]. split; [done|].
  destruct (jmap_auth_then_api login_request (mkState Demo 0) resp st1 (mkState Demo 5) [] [] E Hs)
    as (username & password & loc & dom & d & u & w1 & w2 & tok & _ & _ & E1 & E2 & _ & _ & Hin & _).
  destruct Hin as (c & Hc & _ & Ha); [by vm_compute|].
  exists tok, c, [], (mkState Demo 5). split; [|exact Ha]. rewrite Hc.
  simpl in E2. destruct (_ && _); simplify_eq. reflexivity.
Defined.



Definition two_calls : Request :=
  mkRequest [CapabilityMail]
    [mkCall (str "Mailbox/get") (Some [(str "ids", JNull); (str "limit", JInt 5)]) (str "a"); mkCall (str "Foo/bar") None (str "b")].

Lemma two_calls_ok : request_ok 1 two_calls.
Proof.
  split; [repeat constructor|]. split; [|vm_compute; lia].
  constructor; [|constructor; [by vm_compute|constructor]].
  split; [by vm_compute|]. split; [by vm_compute|]. split; [|by vm_compute].
  constructor. constructor; [constructor|]. constructor; [|constructor]. constructor. apply decimal_literal.
Qed.

Definition bad_fields : list (gostring * json) :=
  [(str "using", JArr [JStr CapabilityMail]); (str "methodCalls", JArr [JArr [JStr (str "Mailbox/get")]])].

Lemma jmap_request_roundtrip_witness :
  dec_Request (json_text (enc_Request two_calls) ++ str "12") = Some two_calls
  ∧ dec_Request (json_text (JObj bad_fields)) = None.
Proof.
  destruct (jmap_request_roundtrip 1 two_calls (str "12") (json_text (JObj bad_fields))
    (take 1 bad_fields) [] (JArr [JStr (str "Mailbox/get")]) [] []) as [H1 H2].
  split.
  - apply H1. exact two_calls_ok.
  - apply H2; [vm_compute; reflexivity|discriminate].
Defined.

Definition api_request : http_request :=
  as_user (mkClaims 7 (str "u@x.org") None 0 []) (bearer [] (json_text (enc_Request two_calls)) []).

Lemma jmap_answers_every_call_witness :
  ∃ rs st', handleJMAP api_request (mkState Demo 0) = Ok (writeJSON 200 (enc_Response rs), st')
    ∧ Forall2 answers_call (MethodCalls two_calls) rs.
Proof.
  pose proof (jmap_answers_every_call (mkClaims 7 (str "u@x.org") None 0 []) api_request (mkState Demo 0) eq_refl) as H.
  replace (dec_Request (Body api_request)) with (Some two_calls) in H by (vm_compute; reflexivity).
  exact H.
Defined.

(** The two calls answered: the mailboxes of the user, and an error for the unknown method. *)
Example jmap_example :
  match handleJMAP api_request (mkState Demo 0) with
  | Ok (resp, _) => Decode (Content resp)
  | _ => None
  end = Some (enc_Response
        [mkResponse (str "Mailbox/get")
           (JObj [(str "accountId", JStr (str "u7"));
                  (str "list", JArr [JObj [(str "id", JStr (str "mb10")); (str "name", JStr (str "INBOX"));
                     (str "role", JStr (str "inbox")); (str "totalEmails", JInt 0); (str "unreadEmails", JInt 0)]]);
                  (str "notFound", JArr [])]) (str "a");
         mkResponse (str "error")
           (JObj [(str "type", JStr (str "unknownMethod"));
                  (str "description", JStr (str "method " ++ [DQ] ++ str "Foo/bar" ++ [DQ] ++ str " is not supported"))])
           (str "b")]).
Proof. vm_compute. reflexivity. Qed.
