(* ===== verification/JmapServer.v ===== *)
(** * The JMAP server as a whole (internal/jmap/server.go)

    What the router, the middleware and the handlers make together of any request, and the
    life of the HTTP server: [Start], requests in flight, and shutdown. *)

From S2P Require Import Prelude GoStrings GoIO Config Ports Security Concrete Json JsonProps Server Jmap JmapTheorems HttpServer.

(** ** Requests *)

(** A router for the static routes of the server. *)
#[export] Instance toy_chi : Chi := {
  Route l m p :=
    match list_find (λ x, x = (m, p)) l with
    | Some (i, _) => Found i
    | None => if bool_decide (p ∈ snd <$> l) then MethodNotAllowed else NotFound
    end;
  RequestID r := WithContext (WithValue (OtherKey (str "RequestID")) (VOther (str "host/1")) (Ctx r)) r;
  NotFound_response := mkHttpResponse 404 (str "text/plain; charset=utf-8") (str "404 page not found" ++ [LF]);
  MethodNotAllowed_response := mkHttpResponse 405 [] [];
  Recoverer_response := mkHttpResponse 500 [] [];
}.

#[export] Instance toy_chi_laws : ChiLaws toy_chi.
Proof.
  split; try done; simpl.
  - intros l m p i Hnd _ Hi. destruct (list_find _ l) as [[j x]|] eqn:E.
    + apply list_find_Some in E as (Hj & -> & _). by rewrite (NoDup_lookup l i j (m, p)).
    + exfalso. apply list_find_None in E. rewrite Forall_forall in E.
      by apply (E (m, p)); [eapply list_elem_of_lookup_2|].
  - intros l m p _ Hn Hp. destruct (list_find _ l) as [[j x]|] eqn:E; [|by rewrite bool_decide_true].
    apply list_find_Some in E as (Hj & -> & _). by apply list_elem_of_lookup_2 in Hj.
  - intros l m p _ _ Hp. destruct (list_find _ l) as [[j x]|] eqn:E; [|by rewrite bool_decide_false].
    apply list_find_Some in E as (Hj & -> & _). exfalso. apply Hp.
    apply list_elem_of_fmap. exists (m, p). split; [done|]. by eapply list_elem_of_lookup_2.
  - intros l m p i _. destruct (list_find _ l) as [[j x]|] eqn:E; [|by destruct (bool_decide _)].
    intros [= <-]. by apply list_find_Some in E as (Hj & -> & _).
Qed.

Section requests.
Context `{U : UnicodeData} `{C : Clock} `{B : Bcrypt} `{J : JWTLib}.
Context {W : Type} `{PB : MailboxReader W} `{PM : MessageReader W} `{PD : DomainResolver W}
  `{PU : UserAuthenticator W}.
Context `{CH : Chi} `{CL : !ChiLaws CH}.
Implicit Types st : state W.

(** What the reading methods keep true of the store. *)
Record readers_keep (K : W → Prop) : Prop := {
  rk_domain name w : K w → wp (FindDomain name) w (λ _ w', K w');
  rk_user loc d w : K w → wp (FindUser loc d) w (λ _ w', K w');
  rk_mailbox uid name w : K w → wp (FindMailbox uid name) w (λ _ w', K w');
  rk_mailboxes uid w : K w → wp (ListMailboxes uid) w (λ _ w', K w');
  rk_messages id w : K w → wp (ListMessages id) w (λ _ w', K w');
}.

Context (K : W → Prop) (HK : readers_keep K).

(** A handler keeps the store's property and answers with one of these statuses. *)
Definition answers_with (codes : list Z) (m : M (state W) http_response) st : Prop :=
  wp m st (λ resp st', K (store st') ∧ Status resp ∈ codes).

Lemma port_keeps {A} (m : M W A) st (Q : A → state W → Prop) :
  (∀ w, K w → wp m w (λ _ w', K w')) → K (store st) → (∀ a st', K (store st') → Q a st') → wp (port m) st Q.
Proof.
  intros Hm Hst HQ. specialize (Hm _ Hst). unfold wp, port, zoom in *.
  destruct (m (store st)) as [[a w]| |]; [|done..]. by apply HQ.
Qed.

Lemma clock_keeps st (Q : Z → state W → Prop) :
  K (store st) → (∀ t st', K (store st') → Q t st') → wp read_clock st Q.
Proof. intros Hst HQ. by apply HQ. Qed.

Lemma ValidateToken_keeps tok st (Q : result Claims → state W → Prop) :
  K (store st) → (∀ r st', K (store st') → Q r st') → wp (ValidateToken tok) st Q.
Proof. intros Hst HQ. apply wp_bind, clock_keeps; [done|]. intros t st' Hst'. apply wp_ret. by apply HQ. Qed.

Lemma dispatch_keeps claims call st : K (store st) → wp (dispatch claims call) st (λ _ st', K (store st')).
Proof.
  intros Hst. unfold dispatch, handleMailboxGet, handleMailboxQuery, handleEmailGet, handleEmailQuery.
  repeat case_bool_decide; [..|by apply wp_ret].
  1,2: apply wp_bind, port_keeps; [apply HK|done|]; intros; by apply wp_ret.
  all: apply wp_bind, port_keeps; [apply HK|done|]; intros [b|e] st1 Hst1; [|by apply wp_ret];
    apply wp_bind, port_keeps; [apply HK|done|]; intros; by apply wp_ret.
Qed.

Lemma call_loop_keeps claims calls st : K (store st) → wp (call_loop claims calls) st (λ _ st', K (store st')).
Proof.
  revert st. induction calls as [|call calls IH]; intros st Hst; [by apply wp_ret|]. cbn [call_loop].
  apply wp_bind. eapply wp_mono; [by apply dispatch_keeps|]. intros r st1 Hst1.
  apply wp_bind. eapply wp_mono; [by apply IH|]. intros rs st2 Hst2. by apply wp_ret.
Qed.

Lemma handleJMAP_keeps c r st : user_of r = Some c → K (store st) → answers_with [200; 400]%Z (handleJMAP r) st.
Proof.
  intros Hu Hst. unfold answers_with, handleJMAP.
  destruct (dec_Request (Body r)) as [req|]; [|apply wp_ret; split; [done|by_computation]].
  rewrite Hu. apply wp_bind, wp_ret, wp_bind. eapply wp_mono; [by apply call_loop_keeps|].
  intros rs st' Hst'. apply wp_ret. split; [done|by_computation].
Qed.

Lemma jmap_endpoint_keeps r st : K (store st) → answers_with [200; 400; 401]%Z (jmap_endpoint r) st.
Proof.
  intros Hst. unfold answers_with, jmap_endpoint, authMiddleware.
  destruct (ExtractBearerToken r) as [tok|e]; [|apply wp_ret; split; [done|by_computation]].
  apply wp_bind, ValidateToken_keeps; [done|].
  intros [c|e] st' Hst'; [|apply wp_ret; split; [done|by_computation]].
  eapply wp_mono; [by apply (handleJMAP_keeps c)|]. intros resp st2 [H Hs]. split; [done|]. set_solver.
Qed.

Lemma handleAuth_keeps r st : K (store st) → answers_with [200; 400; 401; 500]%Z (handleAuth r) st.
Proof.
  intros Hst. unfold answers_with, handleAuth.
  destruct (dec_credentials (Body r)) as [[user pw]|]; [|apply wp_ret; split; [done|by_computation]].
  destruct (parseAddress user) as [[loc dom] []]; cbn [negb]; [|apply wp_ret; split; [done|by_computation]].
  apply wp_bind, port_keeps; [apply HK|done|].
  intros [d|e] st1 Hst1; [|apply wp_ret; split; [done|by_computation]].
  apply wp_bind, port_keeps; [apply HK|done|].
  intros [u|e] st2 Hst2; [|apply wp_ret; split; [done|by_computation]].
  destruct (negb _); [apply wp_ret; split; [done|by_computation]|].
  apply wp_bind. unfold GenerateToken. apply wp_bind, clock_keeps; [done|]. intros t1 st3 Hst3.
  apply wp_bind, clock_keeps; [done|]. intros t2 st4 Hst4. apply wp_ret, wp_ret. split; [done|].
  destruct (SignedString _ _ _); by_computation.
Qed.

Lemma handleSession_keeps cfg r st : K (store st) → answers_with [200]%Z (handleSession cfg r) st.
Proof.
  intros Hst. unfold answers_with, handleSession. apply wp_bind.
  destruct (ExtractBearerToken r) as [tok|e].
  - apply wp_bind, ValidateToken_keeps; [done|]. intros v st' Hst'. apply wp_ret.
    destruct (if bool_decide _ then _ else _). apply wp_ret. split; [done|]. by_computation.
  - apply wp_ret. cbn [snd]. rewrite bool_decide_true by done. apply wp_ret. split; [done|]. by_computation.
Qed.

(** The statuses with which a request for method [m] and path [p] can be answered. *)
Definition statuses (m p : gostring) : list Z :=
  let get := bool_decide (m = str "GET") in
  let post := bool_decide (m = str "POST") in
  if bool_decide (p = str "/.well-known/jmap") then (if get then [200] else [405])%Z
  else if bool_decide (p = str "/auth") then (if post then [200; 400; 401; 500] else [405])%Z
  else if bool_decide (p = str "/jmap") then (if post then [200; 400; 401] else [405])%Z
  else if get || post then [404]%Z else [404; 405]%Z.

Lemma static_routes cfg : Forall (λ x, static_pattern (snd x) = true) (patterns (routes (W := W) cfg)).
Proof. repeat constructor. Qed.

Lemma distinct_routes cfg : NoDup (patterns (routes (W := W) cfg)).
Proof. refine (bool_decide_unpack _ _). vm_compute. exact I. Qed.

Lemma route_request_keeps cfg r st :
  K (store st) → answers_with (statuses (Method r) (Path r)) (route_request (routes cfg) r) st.
Proof.
  intros Hst. unfold route_request. pose proof (static_routes cfg) as Hs. pose proof (distinct_routes cfg) as Hd.
  destruct (decide ((Method r, Path r) ∈ patterns (routes (W := W) cfg))) as [Hin|Hin].
  { apply list_elem_of_lookup in Hin as [i Hi]. rewrite (Route_found _ _ _ i Hd Hs Hi).
    unfold patterns in Hi. rewrite list_lookup_fmap in Hi.
    destruct (routes cfg !! i) as [x|] eqn:Ex; [|done]. injection Hi as <- <-.
    destruct i as [|[|[|i]]]; simplify_eq/=;
      [by apply handleSession_keeps|by apply handleAuth_keeps|by apply jmap_endpoint_keeps]. }
  assert (∀ m p, Path r = p → (m, p) ∈ patterns (routes (W := W) cfg) → Method r ≠ m) as Hne
    by (intros m p <- Hm <-; done).
  unfold statuses. destruct (decide (Path r ∈ snd <$> patterns (routes (W := W) cfg))) as [Hp|Hp].
  - rewrite (Route_other_method _ _ _ Hs Hin Hp). apply wp_ret. split; [done|]. rewrite MethodNotAllowed_status.
    assert (Path r = str "/.well-known/jmap" ∨ Path r = str "/auth" ∨ Path r = str "/jmap") as HP
      by (simpl in Hp; set_solver).
    destruct HP as [HP|[HP|HP]];
      [pose proof (Hne (str "GET") _ HP ltac:(by_computation)) as Hm
      |pose proof (Hne (str "POST") _ HP ltac:(by_computation)) as Hm..];
      rewrite HP, ?(bool_decide_false _ Hm); by_computation.
  - assert (Path r ≠ str "/.well-known/jmap" ∧ Path r ≠ str "/auth" ∧ Path r ≠ str "/jmap") as (N1 & N2 & N3).
    { split_and!; intros E; apply Hp; rewrite E; by_computation. }
    rewrite !(bool_decide_false (Path r = _)) by done.
    destruct (Route _ (Method r) (Path r)) as [i| |] eqn:E.
    + apply Route_no_handler in E; [|done]. by apply list_elem_of_lookup_2 in E.
    + apply wp_ret. split; [done|]. rewrite MethodNotAllowed_status.
      assert (Method r ∉ fst <$> patterns (routes (W := W) cfg)) as Hm
        by (intros Hm; by rewrite (Route_unknown _ _ _ Hs Hm Hp) in E).
      rewrite !(bool_decide_false (Method r = _)) by (intros Em; apply Hm; rewrite Em; by_computation).
      by_computation.
    + apply wp_ret. split; [done|]. rewrite NotFound_status. destruct (_ || _); by_computation.
Qed.

(** Every request through the middleware. *)
Lemma ServeHTTP_keeps cfg r st : K (store st) →
  ∃ resp st', ServeHTTP cfg r st = Ok ((resp, Some (Method r, Path r, Status resp)), st')
    ∧ K (store st') ∧ Status resp ∈ statuses (Method r) (Path r).
Proof.
  intros Hst. destruct (RequestID_keeps r) as (Hm & Hp & _).
  pose proof (route_request_keeps cfg (RequestID r) st Hst) as Hw. rewrite Hm, Hp in Hw.
  apply wp_run in Hw as (resp & st' & E & Hk & Hs). exists resp, st'. split_and!; [|done..].
  unfold ServeHTTP, Recoverer, logMiddleware, mbind, M_bind, mret, M_ret. by rewrite E, Hm, Hp.
Qed.
End requests.

Section server.
Context `{U : UnicodeData} `{C : Clock} `{B : Bcrypt} `{J : JWTLib}.
Context {W : Type} `{PB : MailboxReader W} `{PM : MessageReader W} `{PD : DomainResolver W}
  `{PU : UserAuthenticator W} `{RR : !ReadersReturn W}.
Context `{CH : Chi} `{CL : !ChiLaws CH}.

Lemma returning_readers : readers_keep (λ _ : W, True).
Proof.
  split; intros; (eapply wp_mono; [apply wp_returns|done]);
    [apply find_domain_returns|apply find_user_returns|apply find_mailbox_returns|apply list_mailboxes_returns
    |apply list_messages_returns].
Qed.

(** C11: no request makes a handler panic: the user that the API handler takes out of the
    context with a type assertion is there whenever it runs. Every request is answered, with
    a status of its route: 404 for an unknown path, 405 for another method, and is logged
    with the status it was answered with. *)
Theorem jmap_serves_every_request (cfg : Config) (r : http_request) (st : state W) :
  ∃ resp st', ServeHTTP cfg r st = Ok ((resp, Some (Method r, Path r, Status resp)), st')
    ∧ Status resp ∈ statuses (Method r) (Path r) ∧ (Status resp ≠ 500%Z ∨ Path r = str "/auth").
Proof.
  destruct (ServeHTTP_keeps _ returning_readers cfg r st I) as (resp & st' & E & _ & Hs).
  exists resp, st'. split_and!; [done..|]. unfold statuses in Hs.
  repeat case_bool_decide; simpl in Hs; try (by right); left; intros E'; rewrite E' in Hs; set_solver by lia.
Qed.
End server.

(** ** The life of the server *)

Section life.
Context `{U : UnicodeData} `{C : Clock} `{B : Bcrypt} `{J : JWTLib}.
Context {W : Type} `{PB : MailboxReader W} `{PM : MessageReader W} `{PD : DomainResolver W}
  `{PU : UserAuthenticator W}.
Context `{CH : Chi} `{CL : !ChiLaws CH}.
Context (K : W → Prop) (HK : readers_keep K) (cfg : Config).

(** [Start] returns nil only after Shutdown has begun, Shutdown begins only after the
    signal; once it has returned without an error no connection is open; every response was
    one the route allows, and is in the log. *)
Record http_inv (sw : http_server * W) : Prop := {
  hi_alive : h_proc sw.1 ≠ Crashed;
  hi_store : K sw.2;
  hi_shut : shutting_down sw.1 = true → h_cancelled sw.1 = true;
  hi_nil : h_start sw.1 = HReturned None → shutting_down sw.1 = true;
  hi_done : h_shut sw.1 = ShutDone None →
    h_start sw.1 ≠ HServe ∧ Forall (λ c, conn_open c = false) (h_conns sw.1);
  hi_exit : h_proc sw.1 = Exited → ∃ err, h_start sw.1 = HReturned err;
  hi_answers : Forall (λ x, Status x.2 ∈ statuses (Method x.1) (Path x.1)) (h_answered sw.1);
  hi_log : h_log sw.1 = (λ x, (Method x.1, Path x.1, Status x.2)) <$> h_answered sw.1;
}.

Lemma http_new_inv w : K w → http_inv (http_new, w).
Proof. intros Hw. by split. Qed.

Lemma Forall_closed l i c :
  Forall (λ c, conn_open c = false) l → l !! i = Some c → conn_open c = true → False.
Proof. intros Hl Hi Hc. eapply Forall_lookup_1 in Hl; [|exact Hi]. simpl in Hl. congruence. Qed.

Lemma respond_inv i r w s sw' :
  h_proc s = Running → h_conns s !! i = Some (CActive r) → respond cfg i r w s = Some sw' →
  http_inv (s, w) → http_inv sw'.
Proof.
  intros Hp Hi E [Hal Hw Hsh Hnil Hdone Hex Ha Hl]. simpl in *. unfold respond in E.
  destruct (ServeHTTP_keeps K HK cfg r (mkState w (h_ticks s)) Hw) as (resp & st' & E' & Hk & Hs).
  rewrite E' in E. injection E as <-. split; simpl; try done.
  - intros Hd. destruct (Hdone Hd) as [_ Hc]. exfalso. by eapply Forall_closed.
  - apply Forall_app. split; [done|]. by apply Forall_singleton.
  - by rewrite Hl, fmap_app.
Qed.

Lemma shut_step_inv w s s' : shut_step s = Some s' → http_inv (s, w) → http_inv (s', w).
Proof.
  intros E [Hal Hw Hsh Hnil Hdone Hex Ha Hl]. simpl in *. unfold shut_step in E.
  destruct (h_shut s) eqn:Es; [| |done].
  - destruct (h_cancelled s) eqn:Ec; [|done]. injection E as <-. by split.
  - assert (h_cancelled s = true) as Hc by (apply Hsh; unfold shutting_down; by rewrite Es).
    assert (h_start s ≠ HServe ∧ s' = (if existsb conn_open (close_idle <$> h_conns s)
      then h_set_conns (close_idle <$> h_conns s) s
      else h_set_shut (ShutDone None) (h_set_conns (close_idle <$> h_conns s) s))) as [Hns ->]
      by (destruct (h_start s); simplify_eq; done).
    clear E. destruct (existsb conn_open _) eqn:El; split; simpl; try done.
    + intros Hd. congruence.
    + intros _. split; [done|]. apply Forall_forall. intros c Hin. apply not_true_is_false. intros Ho.
      rewrite <- not_true_iff_false in El. apply El, existsb_exists. exists c.
      by rewrite <- list_elem_of_In.
Qed.

Lemma http_step_inv e sw sw' : http_step cfg e sw = Some sw' → http_inv sw → http_inv sw'.
Proof.
  destruct sw as [s w]. unfold http_step. destruct (h_proc s) eqn:Hp; try done. intros E Hi.
  pose proof Hi as [Hal Hw Hsh Hnil Hdone Hex Ha Hl]. simpl in *.
  assert (∀ i c, (∃ r, c = CActive r) ∨ c = CClosed → h_conns s !! i = Some CNew ∨ h_conns s !! i = Some CIdle →
    http_inv (h_set_conns (<[i := c]> (h_conns s)) s, w)) as Hput.
  { intros i c _ Hc. split; simpl; try done. intros Hd. destruct (Hdone Hd) as [_ Hcl].
    destruct Hc as [Hc|Hc]; destruct (Forall_closed _ _ _ Hcl Hc eq_refl). }
  destruct e as [err| |msg|i r|i|i| | | | |].
  - destruct (h_start s) eqn:Es; try done. simplify_eq. unfold ListenAndServe.
    destruct (shutting_down s) eqn:Ed; [|destruct err]; split; simpl; try done; try congruence; eauto.
    all: intros Hd; first [by destruct (Hdone Hd) | unfold shutting_down in Ed; by rewrite Hd in Ed].
  - destruct (h_start s) eqn:Es; try done. simplify_eq. split; simpl; try done; try congruence.
    intros Hd. by destruct (Hdone Hd).
  - destruct (h_start s) eqn:Es; try done. destruct (shutting_down s) eqn:Ed; [done|]. simplify_eq.
    split; simpl; try done; try congruence; eauto. intros Hd. by destruct (Hdone Hd).
  - destruct (h_conns s !! i) as [[]|] eqn:Ei; simplify_eq; apply Hput; eauto.
  - destruct (h_conns s !! i) as [[]|] eqn:Ei; try done. by eapply respond_inv.
  - destruct (h_conns s !! i) as [[]|] eqn:Ei; simplify_eq; apply Hput; eauto.
  - destruct (h_start s) eqn:Es; try done. destruct (shutting_down s) eqn:Ed; [|done]. simplify_eq.
    split; simpl; try done; eauto. intros Hd. by destruct (Hdone Hd).
  - destruct (shut_step s) eqn:Es; simplify_eq/=. by eapply shut_step_inv.
  - destruct (h_shut s) eqn:Es; simplify_eq. unfold shutting_down in Hsh, Hnil. rewrite Es in Hsh, Hnil.
    by split.
  - simplify_eq. by split.
  - destruct (h_start s) eqn:Es; simplify_eq. split; simpl; rewrite ?Es; try done; eauto.
Qed.

(** The states the server reaches among other processes, which keep [K] of the store. *)
Inductive http_served (w0 : W) : http_server * W → Prop :=
| http_served_start : http_served w0 (http_new, w0)
| http_served_step e sw sw' : http_served w0 sw → http_step cfg e sw = Some sw' → http_served w0 sw'
| http_served_others s w w' : http_served w0 (s, w) → K w' → http_served w0 (s, w').

Lemma http_served_inv w0 sw : K w0 → http_served w0 sw → http_inv sw.
Proof.
  intros Hw. induction 1 as [|e sw sw' _ IH E|s w w' _ [] Hw']; [by apply http_new_inv|by eapply http_step_inv|].
  by split.
Qed.

Lemma http_run_app es1 es2 sw : http_run cfg (es1 ++ es2) sw = http_run cfg es1 sw ≫= http_run cfg es2.
Proof.
  revert sw. induction es1 as [|e es IH]; intros sw; cbn [app http_run]; [done|].
  destruct (http_step cfg e sw); [apply IH|done].
Qed.

Lemma http_served_run w0 es sw : http_run cfg es (http_new, w0) = Some sw → http_served w0 sw.
Proof.
  revert sw. induction es as [|e es IH] using rev_ind; intros sw E; [injection E as <-; constructor|].
  rewrite http_run_app in E. destruct (http_run cfg es (http_new, w0)) as [sw1|]; [|done]. simpl in E.
  destruct (http_step cfg e sw1) as [sw2|] eqn:E2; simplify_eq/=. by eapply http_served_step; [apply IH|].
Qed.
End life.

Section life_theorems.
Context `{U : UnicodeData} `{C : Clock} `{B : Bcrypt} `{J : JWTLib}.
Context {W : Type} `{PB : MailboxReader W} `{PM : MessageReader W} `{PD : DomainResolver W}
  `{PU : UserAuthenticator W} `{RR : !ReadersReturn W}.
Context `{CH : Chi} `{CL : !ChiLaws CH}.

(** C15: a JMAP server with any connections, requests and scheduling, and whatever others do
    to the store: the process never crashes; every response sent has a status of its route
    and a line in the log; Start returns nil only after the signal; and once Shutdown has
    returned without an error no request is unanswered. *)
Theorem jmap_server_safe (cfg : Config) (w : W) s w' :
  http_served (λ _, True) cfg w (s, w') →
  h_proc s ≠ Crashed
  ∧ Forall (λ x, Status x.2 ∈ statuses (Method x.1) (Path x.1)) (h_answered s)
  ∧ h_log s = (λ x, (Method x.1, Path x.1, Status x.2)) <$> h_answered s
  ∧ (h_start s = HReturned None → h_cancelled s = true)
  ∧ (h_shut s = ShutDone None → ∀ r, CActive r ∉ h_conns s).
Proof.
  intros Hr. destruct (http_served_inv _ returning_readers cfg _ _ I Hr) as [Hal _ Hsh Hnil Hdone _ Ha Hl].
  simpl in *. split_and!; [done..|by auto|]. intros Hd r Hin. destruct (Hdone Hd) as [_ Hc].
  rewrite Forall_forall in Hc. by specialize (Hc _ Hin).
Qed.

(** The shutdown does not wait for the requests in flight: for every request there is a
    run in which it has been read, the signal comes, Start returns nil because Shutdown has
    begun, and the process exits while Shutdown is still waiting, without an answer. *)
Theorem jmap_exit_drops_request (cfg : Config) (w : W) (r : http_request) :
  ∃ s, http_run cfg [HListenReturns None; HAccept; HRequest 0 r; HCancel; HShut; HClosed; HExit] (http_new, w)
         = Some (s, w)
    ∧ h_proc s = Exited ∧ h_start s = HReturned None ∧ h_shut s = ShutPolling
    ∧ h_conns s = [CActive r] ∧ h_answered s = [] ∧ ∀ e, http_step cfg e (s, w) = None.
Proof. by eexists. Qed.
End life_theorems.

(** ** Witnesses *)

Lemma jmap_serves_every_request_witness :
  ∃ resp st', ServeHTTP default_config (mkHttp (str "PUT") (str "/jmap") [] [] []) (mkState Demo 0)
      = Ok ((resp, Some (str "PUT", str "/jmap", Status resp)), st') ∧ Status resp = 405%Z.
Proof.
  destruct (jmap_serves_every_request default_config (mkHttp (str "PUT") (str "/jmap") [] [] []) (mkState Demo 0))
    as (resp & st' & E & Hs & _).
  exists resp, st'. split; [exact E|]. vm_compute in Hs. set_solver.
Defined.

(** A request without a token is answered before the signal; then the server closes the
    connection and stops. *)
Definition http_life : list http_event :=
  [HListenReturns None; HAccept; HRequest 0 (mkHttp (str "POST") (str "/jmap") [] [] []); HRespond 0;
   HCancel; HShut; HClosed; HShut].

Definition http_rested : http_server * demo :=
  default (http_new, Demo) (http_run default_config http_life (http_new, Demo)).

Lemma jmap_server_safe_witness :
  http_served (λ _, True) default_config Demo http_rested
  ∧ h_shut http_rested.1 = ShutDone None ∧ length (h_answered http_rested.1) = 1
  ∧ ∀ r, CActive r ∉ h_conns http_rested.1.
Proof.
  assert (http_served (λ _, True) default_config Demo http_rested) as Hr
    by (apply (http_served_run _ _ _ http_life); vm_compute; reflexivity).
  destruct (jmap_server_safe default_config Demo http_rested.1 http_rested.2) as (_ & _ & _ & _ & H).
  { rewrite <- surjective_pairing. exact Hr. }
  split; [exact Hr|]. split; [vm_compute; reflexivity|]. split; [vm_compute; reflexivity|].
  apply H. vm_compute. reflexivity.
Defined.

(** With the default address, which has no host, the URL that the session resource gives for
    the API has none either. *)
Example session_url :
  match ServeHTTP default_config (mkHttp (str "GET") (str "/.well-known/jmap") [] [] []) (mkState Demo 0) with
  | Ok ((resp, _), _) =>
      match Decode (Content resp) with
      | Some (JObj fields) => snd <$> List.find (λ f, bool_decide (fst f = str "apiUrl")) fields
      | _ => None
      end
  | _ => None
  end = Some (JStr (str "http://:8080/jmap")).
Proof. vm_compute. reflexivity. Qed.
