(* ===== verification/Commands.v ===== *)
(** * The commands (cmd/smtp, cmd/imap, cmd/jmap), telemetry and the connections to the stores

    A [main] opens the logger, MySQL and Redis, and runs a server until its [Start] returns.
    It is a program over the effects it has on its surroundings: they are recorded in order,
    deferred calls wait on a stack and run last in, first out when main returns or panics,
    and not at all when [log.Fatal] ends the process. The answers of the environment, the
    driver, the client and the server's Start are parameters. *)

From S2P Require Import Prelude GoStrings GoIO Config Ports Security Mysql.

(** ** Effects *)

Inductive level := Info | Warn | Error | FatalLevel.

(** zap's presets; the development one with colored level names. *)
Inductive logger := DevelopmentColor | Production.

Inductive resource := RLogger | RMySQL | RRedis | RSignals.
#[export] Instance resource_eq_dec : EqDecision resource.
Proof. solve_decision. Defined.

Inductive service := SMTPService | IMAPService | JMAPService.

Inductive action :=
| Log (l : level) (msg : gostring) (fields : list (gostring * gostring))
| BuildLogger (k : logger)
| Connect (driver dsn : gostring)              (** sqlx.Connect *)
| SetMaxOpenConns (n : Z)
| SetMaxIdleConns (n : Z)
| PingRedis (addr password : gostring) (db : Z) (timeout : Z)
| GoPprof (addr : gostring)                    (** the goroutine of StartPPROF is started *)
| ServePprof (addr : gostring)                 (** http.ListenAndServe of the default mux *)
| Notify                                       (** signal.NotifyContext *)
| StartServer (s : service) (addr : gostring) (tls : bool)
| Release (r : resource).                      (** Sync, Close, Close, cancel *)

(** How a process ends: main returns, [log.Fatal] calls os.Exit(1), or a panic. *)
Inductive ending := Returned | Fatal | Panicked (msg : gostring).

Record mstate := mkM { did : list action; deferred : list action }.
Definition prog (A : Type) : Type := mstate → (A + ending) * mstate.
#[export] Instance prog_ret : MRet prog := λ A a m, (inl a, m).
#[export] Instance prog_bind : MBind prog := λ A B k p m,
  match p m with (inl a, m') => k a m' | (inr e, m') => (inr e, m') end.

Definition emit (a : action) : prog unit := λ m, (inl tt, mkM (did m ++ [a]) (deferred m)).
Definition defer (a : action) : prog unit := λ m, (inl tt, mkM (did m) (a :: deferred m)).
Definition panic {A} (msg : gostring) : prog A := λ m, (inr (Panicked msg), m).
Definition log_Info (msg : gostring) (fields : list (gostring * gostring)) : prog unit := emit (Log Info msg fields).
(** [log.Fatal] writes the entry and ends the process. *)
Definition log_Fatal {A} (msg err : gostring) : prog A := λ m,
  (inr Fatal, mkM (did m ++ [Log FatalLevel msg [(str "error", err)]]) (deferred m)).

(** A whole main: what the process did, and how it ended. *)
Definition exec (p : prog unit) : list action * ending :=
  match p (mkM [] []) with
  | (inl _, m) => (did m ++ deferred m, Returned)
  | (inr Fatal, m) => (did m, Fatal)
  | (inr e, m) => (did m ++ deferred m, e)
  end.

(** What the surroundings answer, nil or an error: zap's Build, sqlx.Connect, the ping of the
    Redis client. *)
Record answers := mkAnswers {
  Getenv : gostring → gostring;
  zap_Build : logger → option gostring;
  sqlx_Connect : gostring → gostring → option gostring;
  client_Ping : gostring → gostring → Z → option gostring;
}.

Section commands.
Context `{T : TLSLib} (env : answers).

(** ** Telemetry (internal/telemetry) *)

Definition NewLogger (e : gostring) : prog (result logger) :=
  let k := if bool_decide (e = str "development") then DevelopmentColor else Production in
  emit (BuildLogger k);;
  mret (match zap_Build env k with Some err => Err err | None => Good k end).

(** The goroutine that StartPPROF starts; [ret] is what ListenAndServe returns. *)
Definition pprof_goroutine (addr : gostring) (ret : option gostring) : list action :=
  [Log Info (str "pprof listening") [(str "addr", addr)]; ServePprof addr]
  ++ match ret with Some e => [Log Error (str "pprof server failed") [(str "error", e)]] | None => [] end.

(** main goes on at once, whatever becomes of the goroutine. *)
Definition StartPPROF (addr : gostring) : prog unit := emit (GoPprof addr).

(** ** The stores (internal/storage/mysql/store.go, internal/storage/redis/store.go) *)

Definition mysqlstore_New (dsn : gostring) : prog (result unit) :=
  emit (Connect (str "mysql") dsn);;
  match sqlx_Connect env (str "mysql") dsn with
  | Some e => mret (Err (wrap (str "mysql connect") e))
  | None =>
      emit (SetMaxOpenConns 25);;
      emit (SetMaxIdleConns 10);;
      log_Info (str "mysql connected") [(str "dsn", maskDSN dsn)];;
      mret (Good tt)
  end.

Definition mysqlstore_Close : action := Release RMySQL.

(** Five seconds for the ping. *)
Definition redisstore_New (addr password : gostring) (db : Z) : prog (result unit) :=
  emit (PingRedis addr password db 5000000000);;
  match client_Ping env addr password db with
  | Some e => mret (Err (wrap (str "redis ping") e))
  | None => log_Info (str "redis connected") [(str "addr", addr)];; mret (Good tt)
  end.

Definition redisstore_Close : action := Release RRedis.

(** ** The mains *)

(** An error from LoadTLSConfig leaves tlsCfg nil, because that is what it returns with it. *)
Definition load_tls (cfg : Config) : prog (option (tls_Config Certificate)) :=
  if Enabled (TLS cfg) then
    match LoadTLSConfig (CertFile (TLS cfg)) (KeyFile (TLS cfg)) with
    | Err e => emit (Log Warn (str "tls config failed — running without TLS") [(str "error", e)]);; mret None
    | Good t => mret (Some t)
    end
  else mret None.

(** [start]: what Start returns. *)
Definition smtp_main (start : Config → option (tls_Config Certificate) → option gostring) : prog unit :=
  let cfg := Load (Getenv env) in
  log ← NewLogger (Env cfg);
  match log with
  | Err e => panic (str "failed to initialize logger: " ++ e)
  | Good _ =>
  defer (Release RLogger);;
  log_Info (str "gomail-core smtp starting")
    [(str "env", Env cfg); (str "addr", SMTP_Addr (SMTP cfg)); (str "domain", Domain_name (SMTP cfg))];;
  mysql ← mysqlstore_New (DSN (MySQL cfg));
  match mysql with
  | Err e => log_Fatal (str "mysql init failed") e
  | Good _ =>
  defer mysqlstore_Close;;
  rdb ← redisstore_New (Redis_Addr (Redis cfg)) (Redis_Password (Redis cfg)) (Redis_DB (Redis cfg));
  match rdb with
  | Err e => log_Fatal (str "redis init failed") e
  | Good _ =>
  defer redisstore_Close;;
  tlsCfg ← load_tls cfg;
  StartPPROF (PPROFAddr (Telemetry cfg));;
  emit Notify;;
  defer (Release RSignals);;
  emit (StartServer SMTPService (SMTP_Addr (SMTP cfg)) (bool_decide (tlsCfg ≠ None)));;
  match start cfg tlsCfg with
  | Some e => log_Fatal (str "smtp server failed") e
  | None => log_Info (str "smtp server stopped") []
  end end end end.

Definition imap_main (start : Config → option (tls_Config Certificate) → option gostring) : prog unit :=
  let cfg := Load (Getenv env) in
  log ← NewLogger (Env cfg);
  match log with
  | Err e => panic (str "failed to initialize logger: " ++ e)
  | Good _ =>
  defer (Release RLogger);;
  log_Info (str "gomail-core imap starting") [(str "env", Env cfg); (str "addr", IMAP_Addr (IMAP cfg))];;
  mysql ← mysqlstore_New (DSN (MySQL cfg));
  match mysql with
  | Err e => log_Fatal (str "mysql init failed") e
  | Good _ =>
  defer mysqlstore_Close;;
  rdb ← redisstore_New (Redis_Addr (Redis cfg)) (Redis_Password (Redis cfg)) (Redis_DB (Redis cfg));
  match rdb with
  | Err e => log_Fatal (str "redis init failed") e
  | Good _ =>
  defer redisstore_Close;;
  tlsCfg ← load_tls cfg;
  StartPPROF (str "localhost:6062");;
  emit Notify;;
  defer (Release RSignals);;
  emit (StartServer IMAPService (IMAP_Addr (IMAP cfg)) (bool_decide (tlsCfg ≠ None)));;
  match start cfg tlsCfg with
  | Some e => log_Fatal (str "imap server failed") e
  | None => log_Info (str "imap server stopped") []
  end end end end.

Definition jmap_main (start : Config → option gostring) : prog unit :=
  let cfg := Load (Getenv env) in
  log ← NewLogger (Env cfg);
  match log with
  | Err e => panic (str "failed to initialize logger: " ++ e)
  | Good _ =>
  defer (Release RLogger);;
  log_Info (str "gomail-core jmap starting") [(str "env", Env cfg); (str "addr", JMAP_Addr (JMAP cfg))];;
  mysql ← mysqlstore_New (DSN (MySQL cfg));
  match mysql with
  | Err e => log_Fatal (str "mysql init failed") e
  | Good _ =>
  defer mysqlstore_Close;;
  rdb ← redisstore_New (Redis_Addr (Redis cfg)) (Redis_Password (Redis cfg)) (Redis_DB (Redis cfg));
  match rdb with
  | Err e => log_Fatal (str "redis init failed") e
  | Good _ =>
  defer redisstore_Close;;
  StartPPROF (str "localhost:6063");;
  emit Notify;;
  defer (Release RSignals);;
  emit (StartServer JMAPService (JMAP_Addr (JMAP cfg)) false);;
  match start cfg with
  | Some e => log_Fatal (str "jmap server failed") e
  | None => log_Info (str "jmap server stopped") []
  end end end end.
End commands.
