(* ===== verification/CommandsTheorems.v ===== *)
(** * What the commands do

    How each main ends for every answer of its surroundings, and what it has opened,
    started, logged and released by then; and that the end of the servers' machines is the
    end of the mains. *)

From S2P Require Import Prelude GoStrings GoIO FSM Config Ports Security Mysql Concrete Server ServerProps.
From S2P Require Import Smtp SmtpProps SmtpTheorems SmtpServer Commands.

(** Run a main through every answer of its surroundings. *)
Ltac run_main :=
  unfold exec, NewLogger, mysqlstore_New, redisstore_New, StartPPROF, load_tls, log_Info, log_Fatal, emit, defer,
    panic, mret, prog_ret, mbind, prog_bind.

Section outcome.
Context `{T : TLSLib} (env : answers).

Definition cfg_of : Config := Load (Getenv env).
Definition kind_of : logger := if bool_decide (Env cfg_of = str "development") then DevelopmentColor else Production.

(** The errors of the surroundings in the order in which main meets them. *)
Definition build_error : option gostring := zap_Build env kind_of.
Definition connect_error : option gostring := sqlx_Connect env (str "mysql") (DSN (MySQL cfg_of)).
Definition ping_error : option gostring :=
  client_Ping env (Redis_Addr (Redis cfg_of)) (Redis_Password (Redis cfg_of)) (Redis_DB (Redis cfg_of)).
Definition tls_of : option (tls_Config Certificate) :=
  if Enabled (TLS cfg_of) then
    match LoadTLSConfig (CertFile (TLS cfg_of)) (KeyFile (TLS cfg_of)) with Good t => Some t | Err _ => None end
  else None.

(** How a main should end. *)
Definition expected_ending (start_error : option gostring) : ending :=
  match build_error, connect_error, ping_error, start_error with
  | Some e, _, _, _ => Panicked (str "failed to initialize logger: " ++ e)
  | None, None, None, None => Returned
  | _, _, _, _ => Fatal
  end.

Definition releases (tr : list action) : list resource :=
  omap (λ a, match a with Release r => Some r | _ => None end) tr.
Definition started (tr : list action) : list (service * gostring * bool) :=
  omap (λ a, match a with StartServer s addr tls => Some (s, addr, tls) | _ => None end) tr.
Definition profiled (tr : list action) : list gostring :=
  omap (λ a, match a with GoPprof addr => Some addr | _ => None end) tr.
Definition warnings (tr : list action) : list gostring :=
  omap (λ a, match a with Log Warn msg _ => Some msg | _ => None end) tr.
(** TLS is configured but its key pair does not load. *)
Definition tls_missing : bool := Enabled (TLS cfg_of) && bool_decide (tls_of = None).

(** What a main has done when it ends: nothing is released unless it returns, and then all
    four in the reverse of the order in which they were opened; the server was started once,
    if both stores answered. *)
Record outcome_ok (s : service) (addr pprof : gostring) (tls missing : bool) (start_error : option gostring)
    (o : list action * ending) : Prop := {
  oo_ending : o.2 = expected_ending start_error;
  oo_releases : releases o.1 = match o.2 with Returned => [RSignals; RRedis; RMySQL; RLogger] | _ => [] end;
  oo_started : started o.1
    = match build_error, connect_error, ping_error with None, None, None => [(s, addr, tls)] | _, _, _ => [] end;
  oo_pprof : started o.1 ≠ [] → profiled o.1 = [pprof];
  oo_warnings : started o.1 ≠ [] → warnings o.1
    = if missing then [str "tls config failed — running without TLS"] else [];
}.

Ltac known := split; simpl; unfold expected_ending;
  repeat match goal with H : ?x = ?y |- context [?x] => rewrite H end; first [done | by repeat constructor].

(** The cases in which the server is not started, and that in which it is. *)
Ltac open_stores :=
  run_main; fold cfg_of; fold kind_of; change (zap_Build env _) with build_error; destruct build_error eqn:E1; [known|];
  cbn [did deferred app]; change (sqlx_Connect env _ _) with connect_error; destruct connect_error eqn:E2; [known|];
  cbn [did deferred app]; change (client_Ping env _ _ _) with ping_error; destruct ping_error eqn:E3; [known|];
  cbn [did deferred app].

Lemma smtp_main_ok start :
  outcome_ok SMTPService (SMTP_Addr (SMTP cfg_of)) (PPROFAddr (Telemetry cfg_of)) (bool_decide (tls_of ≠ None))
    tls_missing (start cfg_of tls_of) (exec (smtp_main env start)).
Proof.
  unfold smtp_main. open_stores. unfold tls_missing, tls_of.
  destruct (Enabled (TLS cfg_of)); [destruct (LoadTLSConfig _ _)|]; cbn [did deferred app];
    destruct (start cfg_of _) eqn:E4; known.
Qed.

Lemma imap_main_ok start :
  outcome_ok IMAPService (IMAP_Addr (IMAP cfg_of)) (str "localhost:6062") (bool_decide (tls_of ≠ None))
    tls_missing (start cfg_of tls_of) (exec (imap_main env start)).
Proof.
  unfold imap_main. open_stores. unfold tls_missing, tls_of.
  destruct (Enabled (TLS cfg_of)); [destruct (LoadTLSConfig _ _)|]; cbn [did deferred app];
    destruct (start cfg_of _) eqn:E4; known.
Qed.

Lemma jmap_main_ok start :
  outcome_ok JMAPService (JMAP_Addr (JMAP cfg_of)) (str "localhost:6063") false false
    (start cfg_of) (exec (jmap_main env start)).
Proof. unfold jmap_main. open_stores. destruct (start cfg_of) eqn:E4; known. Qed.

(** C16: how each of the three commands ends, for every configuration and every answer of its
    surroundings: with a panic when the logger cannot be built; with status 1, and none of
    its deferred calls made, when MySQL or Redis cannot be reached or Start returns an error;
    otherwise by returning, having released the signal handler, Redis, MySQL and the logger
    in this order. The server is started, once, exactly when the logger and both stores are
    there, SMTP and IMAP with TLS exactly when it is enabled and the key pair loads, and with a
    warning when it is enabled and does not. *)
Theorem commands_outcome (smtp imap : Config → option (tls_Config Certificate) → option gostring)
    (jmap : Config → option gostring) :
  outcome_ok SMTPService (SMTP_Addr (SMTP cfg_of)) (PPROFAddr (Telemetry cfg_of)) (bool_decide (tls_of ≠ None))
    tls_missing (smtp cfg_of tls_of) (exec (smtp_main env smtp))
  ∧ outcome_ok IMAPService (IMAP_Addr (IMAP cfg_of)) (str "localhost:6062") (bool_decide (tls_of ≠ None))
      tls_missing (imap cfg_of tls_of) (exec (imap_main env imap))
  ∧ outcome_ok JMAPService (JMAP_Addr (JMAP cfg_of)) (str "localhost:6063") false false
      (jmap cfg_of) (exec (jmap_main env jmap)).
Proof. split_and!; [apply smtp_main_ok|apply imap_main_ok|apply jmap_main_ok]. Qed.
End outcome.

(** ** What the log shows *)

Definition logs (tr : list action) : list (level * gostring * list (gostring * gostring)) :=
  omap (λ a, match a with Log l msg fields => Some (l, msg, fields) | _ => None end) tr.

Section secrets.
Context `{T : TLSLib} (env1 env2 : answers).
Abbreviation c1 := (cfg_of env1).
Abbreviation c2 := (cfg_of env2).
#[local] Arguments cfg_of : simpl never.
#[local] Arguments maskDSN : simpl never.

(** Two surroundings that differ in the passwords only: the DSNs look the same when masked,
    and everything else answers alike. *)
Record alike : Prop := {
  al_getenv k : k ≠ str "GOMAIL_MYSQL_DSN" → k ≠ str "GOMAIL_REDIS_PASSWORD" → Getenv env1 k = Getenv env2 k;
  al_masked : maskDSN (DSN (MySQL c1)) = maskDSN (DSN (MySQL c2));
  al_build k : zap_Build env1 k = zap_Build env2 k;
  al_connect : connect_error env1 = connect_error env2;
  al_ping : ping_error env1 = ping_error env2;
}.

(** The settings that are no secrets. *)
Record same_settings : Prop := {
  ss_env : Env c1 = Env c2;
  ss_redis : Redis_Addr (Redis c1) = Redis_Addr (Redis c2);
  ss_smtp : SMTP c1 = SMTP c2;
  ss_imap : IMAP c1 = IMAP c2;
  ss_jmap : JMAP c1 = JMAP c2;
  ss_tls : TLS c1 = TLS c2;
}.

Lemma alike_settings : alike → same_settings.
Proof.
  intros [Hg _ _ _ _]. unfold cfg_of, Load.
  split; simpl; unfold getEnv, getEnvInt, getEnvBool; by rewrite !Hg by done.
Qed.

(** Two runs of a main side by side. *)
Ltac run_both Ha :=
  destruct (alike_settings Ha) as [He Hr Hs Hi Hj Ht]; destruct Ha as [_ Hm Hb Hc Hp];
  run_main; fold (cfg_of env1); fold (cfg_of env2); rewrite He, Hb;
  change (zap_Build env2 _) with (build_error env2); destruct (build_error env2); [done|];
  cbn [did deferred app]; change (sqlx_Connect env1 _ _) with (connect_error env1);
  change (sqlx_Connect env2 _ _) with (connect_error env2); rewrite Hc;
  destruct (connect_error env2); [cbn; by rewrite ?Hs, ?Hi, ?Hj|];
  cbn [did deferred app]; change (client_Ping env1 _ _ _) with (ping_error env1);
  change (client_Ping env2 _ _ _) with (ping_error env2); rewrite Hp;
  destruct (ping_error env2); [cbn; by rewrite ?Hs, ?Hi, ?Hj, ?Hm|]; cbn [did deferred app].

(** C17: the passwords do not reach the log: when two surroundings differ only in the DSN and the
    Redis password, and the two DSNs are the same once maskDSN has masked them, then
    each of the three commands writes the same log entries, with the same fields, and ends
    the same way in both. *)
Theorem commands_log_hides_secrets
    (smtp imap : Config → option (tls_Config Certificate) → option gostring) (jmap : Config → option gostring) :
  alike →
  (∀ t, smtp c1 t = smtp c2 t) → (∀ t, imap c1 t = imap c2 t) → jmap c1 = jmap c2 →
  (logs (exec (smtp_main env1 smtp)).1 = logs (exec (smtp_main env2 smtp)).1
     ∧ (exec (smtp_main env1 smtp)).2 = (exec (smtp_main env2 smtp)).2)
  ∧ (logs (exec (imap_main env1 imap)).1 = logs (exec (imap_main env2 imap)).1
     ∧ (exec (imap_main env1 imap)).2 = (exec (imap_main env2 imap)).2)
  ∧ logs (exec (jmap_main env1 jmap)).1 = logs (exec (jmap_main env2 jmap)).1
     ∧ (exec (jmap_main env1 jmap)).2 = (exec (jmap_main env2 jmap)).2.
Proof.
  intros Ha H1 H2 H3. split; [|split].
  - unfold smtp_main. run_both Ha. rewrite Ht. destruct (Enabled _); [destruct (LoadTLSConfig _ _)|]; cbn [did deferred app];
      rewrite H1; destruct (smtp c2 _); cbn; by rewrite Hs, Hm, Hr.
  - unfold imap_main. run_both Ha. rewrite Ht. destruct (Enabled _); [destruct (LoadTLSConfig _ _)|]; cbn [did deferred app];
      rewrite H2; destruct (imap c2 _); cbn; by rewrite Hi, Hm, Hr.
  - unfold jmap_main. run_both Ha. rewrite H3. destruct (jmap c2); cbn; by rewrite Hj, Hm, Hr.
Qed.
End secrets.

(** ** The end of the SMTP process *)

Section smtp_process.
Context `{L : FSMLib} `{LL : !FSMLaws L} `{T : TLSLib} `{TL : !TLSLaws T} `{U : UnicodeData} `{C : Clock}.
Context {D : Type} `{P : DeliveryPipeline D} `{PR : !DeliveryReturns D}.

(** C18: when [Start] answers main as the server of [Server.v] does after some run, main
    returns only if the signal came during that run, and ends with status 1 on every error
    that Start returned. *)
Theorem smtp_process_end (env : answers) start (d : D) es s d' :
  LF ∉ Domain_name (SMTP (cfg_of env)) →
  run (SmtpServer.NewServer (cfg_of env) (tls_of env)) es (new_server, d) = Some (s, d') →
  Server.start s = SReturned (start (cfg_of env) (tls_of env)) →
  build_error env = None → connect_error env = None → ping_error env = None →
  ((exec (smtp_main env start)).2 = Returned ∧ cancelled s = true)
  ∨ ∃ e, Server.start s = SReturned (Some e) ∧ (exec (smtp_main env start)).2 = Fatal.
Proof.
  intros Hdom Hr Hs E1 E2 E3. destruct (smtp_main_ok env start) as [-> _ _ _ _].
  pose proof (smtp_code_laws (cfg_of env) (λ _, True) (λ e d _ _, deliver_any e d) Hdom (tls_of env)) as Hc.
  destruct (served_inv _ _ _ Hc d _ I (served_run _ (λ _, True) _ _ _ Hr)) as [_ _ _ Hct].
  unfold expected_ending. rewrite E1, E2, E3. destruct (start _ _) as [e|] eqn:E4; [by right; exists e|].
  left. split; [done|]. by apply (ct_nil _ Hct).
Qed.
End smtp_process.

(** ** Witnesses *)

Definition quiet : answers := mkAnswers (λ _, []) (λ _, None) (λ _ _, None) (λ _ _ _, None).

(** All goes well and the signal comes. *)
Lemma smtp_process_end_witness :
  (exec (smtp_main quiet (λ _ _, None))).2 = Returned
  ∧ (exec (smtp_main quiet (λ _ _, Some (str "address already in use")))).2 = Fatal.
Proof.
  set (code := SmtpServer.NewServer (D := accepting) (cfg_of quiet) (tls_of quiet)).
  set (es1 := [EListen None; EListenTLS None; ECancel; EWatch;
               EAccept false (AcceptErr (str "use of closed network connection"))]).
  set (es2 := [EListen (Some (str "address already in use"))]).
  set (s1 := default (new_server, Accepting) (run code es1 (new_server, Accepting))).
  set (s2 := default (new_server, Accepting) (run code es2 (new_server, Accepting))).
  split.
  - destruct (smtp_process_end quiet (λ _ _, None) Accepting es1 s1.1 s1.2) as [[H _]|(e & H & _)];
      [exact default_smtp_domain|vm_compute; reflexivity..|exact H|vm_compute in H; discriminate].
  - destruct (smtp_process_end quiet (λ _ _, Some (str "address already in use")) Accepting es2 s2.1 s2.2)
      as [[_ H]|(e & _ & H)];
      [exact default_smtp_domain|vm_compute; reflexivity..|vm_compute in H; discriminate|exact H].
Defined.

(** Another password: the same log. *)
Definition with_dsn (dsn : string) : answers :=
  mkAnswers (λ k, if bool_decide (k = str "GOMAIL_MYSQL_DSN") then str dsn else []) (λ _, None) (λ _ _, None) (λ _ _ _, None).
Abbreviation dsn_one := (with_dsn "gomail:one@tcp(localhost:3306)/gomail").
Abbreviation dsn_two := (with_dsn "gomail:another@tcp(localhost:3306)/gomail").

Lemma commands_log_hides_secrets_witness :
  bool_decide (DSN (MySQL (cfg_of dsn_one)) = DSN (MySQL (cfg_of dsn_two))) = false
  ∧ logs (exec (smtp_main dsn_one (λ _ _, None))).1 = logs (exec (smtp_main dsn_two (λ _ _, None))).1.
Proof.
  assert (alike dsn_one dsn_two) as Ha.
  { split; [|vm_compute; reflexivity|intros k; reflexivity|vm_compute; reflexivity..].
    intros k Hk _. unfold with_dsn, Getenv. rewrite bool_decide_false by exact Hk. reflexivity. }
  split; [vm_compute; reflexivity|].
  exact (proj1 (proj1 (commands_log_hides_secrets dsn_one dsn_two (λ _ _, None) (λ _ _, None) (λ _, None) Ha
    (λ _, eq_refl) (λ _, eq_refl) eq_refl))).
Defined.

(** The SMTP command with the default settings, when Redis does not answer. *)
Example smtp_main_example :
  exec (smtp_main (T := toy_tls) (mkAnswers (λ k, if bool_decide (k = str "GOMAIL_ENV") then str "production" else [])
          (λ _, None) (λ _ _, None) (λ _ _ _, Some (str "connection refused"))) (λ _ _, None))
  = ([BuildLogger Production;
      Log Info (str "gomail-core smtp starting")
        [(str "env", str "production"); (str "addr", str ":2525"); (str "domain", str "gomail.local")];
      Connect (str "mysql") (str "gomail:gomailpassword@tcp(localhost:3306)/gomail?parseTime=true");
      SetMaxOpenConns 25; SetMaxIdleConns 10;
      Log Info (str "mysql connected") [(str "dsn", str "gomail:***@tcp(localhost:3306)/gomail?parseTime=true")];
      PingRedis (str "localhost:6379") [] 0 5000000000;
      Log FatalLevel (str "redis init failed") [(str "error", str "redis ping: connection refused")]], Fatal).
Proof. vm_compute. reflexivity. Qed.
