(* ===== verification/System.v ===== *)
(** * The system: the three servers on one store

    The SMTP, IMAP and JMAP processes run beside each other and meet in MySQL and Redis
    only. A state of the system has the state of each process and the store; a step is an
    event of one of them, taken on the store as the others left it. A session's iteration
    and a request's handler are single steps here; [UidAllocation] follows the statements of
    concurrent deliveries one by one. *)

From S2P Require Import Prelude GoStrings GoIO FSM Config Ports Security Concrete Mysql MysqlProps MysqlTheorems.
From S2P Require Import Redis MessageStore StorageProps StorageTheorems Server ServerProps Smtp SmtpProps SmtpServer.
From S2P Require Import Imap ImapProps ImapTheorems ImapServer EndToEnd Json Jmap JmapTheorems HttpServer JmapServer.

Section system.
Context `{L : FSMLib} `{T : TLSLib} `{B : Bcrypt} `{J : JWTLib} `{CH : Chi}.
Context `{R : RedisLib} `{Co : Collation} `{U : UnicodeData} `{C : Clock}.

Record system := mkSystem {
  sys_smtp : server (Smtp.Session World);
  sys_imap : server (Imap.Session World);
  sys_jmap : http_server;
  sys_store : World;
}.

Inductive system_event := AtSmtp (e : event) | AtImap (e : event) | AtJmap (e : http_event).

Definition system_new (w : World) : system := mkSystem new_server new_server http_new w.

Definition system_step (cf : Config) (t : option (tls_Config Certificate)) (e : system_event) (y : system)
    : option system :=
  match e with
  | AtSmtp e => '(s, w) ← smtp_serve cf t e (sys_smtp y, sys_store y);
                Some (mkSystem s (sys_imap y) (sys_jmap y) w)
  | AtImap e => '(s, w) ← imap_serve cf t e (sys_imap y, sys_store y);
                Some (mkSystem (sys_smtp y) s (sys_jmap y) w)
  | AtJmap e => '(s, w) ← http_step cf e (sys_jmap y, sys_store y);
                Some (mkSystem (sys_smtp y) (sys_imap y) s w)
  end.

Fixpoint system_run (cf : Config) (t : option (tls_Config Certificate)) (es : list system_event) (y : system)
    : option system :=
  match es with
  | [] => Some y
  | e :: es' => y' ← system_step cf t e y; system_run cf t es' y'
  end.
End system.

Section safety.
Context `{L : FSMLib} `{LL : !FSMLaws L} `{T : TLSLib} `{TL : !TLSLaws T} `{B : Bcrypt} `{J : JWTLib}.
Context `{CH : Chi} `{CL : !ChiLaws CH}.
Context `{R : RedisLib} `{RL : !RedisLaws R} `{Co : Collation} `{U : UnicodeData} `{C : Clock}.




Section invariant.
Context (cf : Config) (t : option (tls_Config Certificate)) (w0 : World).
Context (Hdom : LF ∉ Domain_name (SMTP cf)) (Hfl : Forall (λ m, LF ∉ m_Flags m) (messages (mysql w0))).

Abbreviation smtp_ok := (smtp_inv cf (filled w0)).
Abbreviation imap_ok := (imap_inv (filled w0) (account (mysql w0)) (owned_mailbox (mysql w0)) framed cf).





End invariant.

End safety.

(** ** A message from a client to a reader *)

(** A client delivers a message while a reader logs in and a JMAP user asks for the session;
    then the reader selects its mailbox. *)
Definition day : list system_event :=
  [AtSmtp (EListen None); AtImap (EListen None); AtJmap (HListenReturns None);
   AtSmtp (EAccept false (Accepted [cmd "EHLO client"; cmd "MAIL FROM:<alice@example.org>";
      cmd "RCPT TO:<test@gomail.local>"; cmd "DATA"; cmd "Subject: hi"; cmd ""; cmd "hello"; cmd "."; cmd "QUIT"]));
   AtImap (EAccept false (Accepted (cmd <$> ["a LOGIN test@gomail.local password"; "b SELECT INBOX";
      "c FETCH 1:* BODY[]"]%string)));
   AtSmtp (ESession 0); AtImap (ESession 0); AtSmtp (ESession 0); AtSmtp (ESession 0); AtImap (ESession 0);
   AtJmap HAccept; AtJmap (HRequest 0 (mkHttp (str "GET") (str "/.well-known/jmap") [] [] []));
   AtSmtp (ESession 0); AtSmtp (ESession 0); AtJmap (HRespond 0); AtImap (ESession 0); AtImap (ESession 0)].

Definition evening : system := default (system_new initial_world)
  (system_run default_config None day (system_new initial_world)).

(** The reader gets the message that arrived meanwhile. *)
Example evening_mail :
  length (messages (mysql (sys_store evening))) = 1
  ∧ length (h_answered (sys_jmap evening)) = 1
  ∧ match sessions (sys_imap evening) !! 0 with
    | Some (Looping s) => (decode_literal ∘ snd <$> last (take (length (out s) - 1) (out s)))
        = Some (Some (str "* 1 FETCH (BODY[] ", str "Subject: hi" ++ CRLF ++ CRLF ++ str "hello" ++ CRLF,
                 str ")" ++ CRLF))
    | _ => False
    end.
Proof. vm_compute. done. Qed.

